(** * PKSM (anonymous-page KSM): a shallow embedding of [mm/pksm.c]

    The development follows the x86-64 configuration of the source:
    [CONFIG_X86] defines [CONFIG_PKSM_RHASH], so both trees are ordered by
    the sampled checksum ([hash_cmp]) and the zero probe compares the stored
    checksum with [pksm_zero_random_checksum].  [unsigned int] and [u32] are
    32-bit, [unsigned long] is 64-bit.

    The engine is single threaded in this model: the spin locks, the RCU
    read sections and [cond_resched] are elided, and every function is a
    state transformer over one [state] record that holds the pages, the
    rmap items, the two trees, the intake lists and the counters. *)

From Stdlib Require Import ZArith Lia List Bool.
From stdpp Require Import base option list gmap.
Import ListNotations.

Local Open Scope Z_scope.

Set Warnings "-clear-no-such-hyp".

(** ** Machine integers *)

Module Mach.

Definition u32 (z : Z) : Z := z mod 2 ^ 32.
Definition u64 (z : Z) : Z := z mod 2 ^ 64.

(** A flag test [word & FLAG] for a single-bit or multi-bit mask. *)
Definition has (word mask : Z) : bool := negb (Z.land word mask =? 0).
(** [word |= mask] and [word &= ~mask]. *)
Definition set_bits (word mask : Z) : Z := Z.lor word mask.
Definition clear_bits (word mask : Z) : Z := Z.ldiff word mask.

(** [atomic_t] holds a two's-complement [int]. *)
Definition s32 (z : Z) : Z := (z + 2 ^ 31) mod 2 ^ 32 - 2 ^ 31.

End Mach.

(** ** The sampled rolling hash *)

Module Hash.
Import Mach.

(** Host constant: the x86 page size. *)
Definition PAGE_SIZE : Z := 4096.
(** [#define RSAD_STRENGTH_FULL (PAGE_SIZE / sizeof(u32))] *)
Definition RSAD_STRENGTH_FULL : Z := PAGE_SIZE / 4.

Definition shiftl : Z := 8.
Definition shiftr : Z := 12.

(** One pass of the body of [HASH_FROM_TO] once [key[pos]] has been read:
    [hash += key[pos]; hash += (hash << shiftl); hash ^= (hash >> shiftr);]
    on a [u32] accumulator. *)
Definition hash_round (hash w : Z) : Z :=
  let hash := u32 (hash + w) in
  let hash := u32 (hash + u32 (Z.shiftl hash shiftl)) in
  Z.lxor hash (Z.shiftr hash shiftr).

(** [HASH_FROM_TO(from, to)]: [for (index = from; index < to; index++)],
    with [pos = pksm_random_table[index]] and the read of [key[pos]].
    [n] counts the iterations that remain ([to - index]); a read outside
    the table or outside the page gives [None]. *)
Fixpoint HASH_FROM_TO (table key : list Z) (index : nat) (n : nat) (hash : Z)
  : option Z :=
  match n with
  | O => Some hash
  | S n' =>
      match table !! index with
      | None => None
      | Some pos =>
          match key !! Z.to_nat pos with
          | None => None
          | Some w => HASH_FROM_TO table key (S index) n' (hash_round hash w)
          end
      end
  end.

(** [ZERO_HASH_FROM_TO]: the same loop with [hash += 0]. *)
Fixpoint ZERO_HASH_FROM_TO (table : list Z) (index : nat) (n : nat) (hash : Z)
  : option Z :=
  match n with
  | O => Some hash
  | S n' =>
      match table !! index with
      | None => None
      | Some _ => ZERO_HASH_FROM_TO table (S index) n' (hash_round hash 0)
      end
  end.

Definition pksm_calc_checksum (table addr : list Z) (hash_strength : Z)
  : option Z :=
  HASH_FROM_TO table addr 0 (Z.to_nat hash_strength) 3735928559 (* 0xdeadbeef *).

Definition pksm_calc_zero_page_checksum (table : list Z) (hash_strength : Z)
  : option Z :=
  ZERO_HASH_FROM_TO table 0 (Z.to_nat hash_strength) 3735928559.

(** [calc_checksum]: the page is mapped and hashed with strength
    [RSAD_STRENGTH_FULL >> 4]. *)
Definition calc_checksum (table page_words : list Z) : option Z :=
  pksm_calc_checksum table page_words (Z.shiftr RSAD_STRENGTH_FULL 4).

(** The generic C variant of [is_full_zero]: the buffer is read as machine
    words and the scan stops at the first non-zero one. *)
Fixpoint is_full_zero (src : list Z) : bool :=
  match src with
  | [] => true
  | w :: rest => if w =? 0 then is_full_zero rest else false
  end.

(** *** The fold as the specification words it *)

(** The step of the specification text:
    [h = ((h + w) << 8) ^ ((h + w) >> 12)] on 32 bits. *)
Definition spec_round (h w : Z) : Z :=
  Z.lxor (u32 (Z.shiftl (u32 (h + w)) 8)) (Z.shiftr (u32 (h + w)) 12).

(** The words the permutation selects: the first [n] table entries, each
    used as an index into the page. *)
Definition selected_words (table key : list Z) (n : nat) : option (list Z) :=
  mapM (fun pos => key !! Z.to_nat pos) (take n table).

Definition spec_checksum (table key : list Z) : option Z :=
  if decide (Z.to_nat (Z.shiftr RSAD_STRENGTH_FULL 4) <= length table)%nat then
    ws ← selected_words table key (Z.to_nat (Z.shiftr RSAD_STRENGTH_FULL 4));
    Some (fold_left spec_round ws 3735928559)
  else None.

(** The identity permutation and the all-zero page, used as concrete data. *)
Definition identity_table : list Z := map Z.of_nat (seq 0 1024).
Definition zero_words : list Z := repeat 0 1024.

End Hash.

(** ** Data model *)

Module Model.
Import Mach.

(** Objects are named by natural numbers: a page by its frame number, an
    rmap item, an anon_vma and a vma by an identifier.  A C pointer that may
    be [NULL] is an [option]. *)

(** *** Flags kept in the low bits of [rmap_item->address] *)
Definition NEWLIST_FLAG : Z := 1.
Definition DELLIST_FLAG : Z := 2.
Definition INKSM_FLAG : Z := 4.
Definition UNSTABLE_FLAG : Z := 8.
Definition STABLE_FLAG : Z := 16.
Definition CHECKSUM_LIST_FLAG : Z := 32.
Definition INITCHECKSUM_FLAG : Z := 64.
Definition RESCAN_LIST_FLAG : Z := 128.

Definition PKSM_FAULT_SUCCESS : Z := 0.
Definition PKSM_FAULT_DROP : Z := 1.
Definition PKSM_FAULT_TRY : Z := 2.
Definition PKSM_FAULT_KEEP : Z := 3.

Definition EFAULT : Z := 14.

(** [page->mapping] with its two low flag bits: an anonymous page points at
    its anon_vma with [PAGE_MAPPING_ANON]; [set_page_stable_ksm] stores the
    rmap item (or [NULL]) with [PAGE_MAPPING_ANON | PAGE_MAPPING_KSM]. *)
Inductive mapping_t : Type :=
  | MappingOther
  | MappingAnon (av : nat)
  | MappingKsm (r : option nat).

#[global] Instance mapping_t_eq_dec : EqDecision mapping_t.
Proof. solve_decision. Defined.

Record page : Type := Page {
  mapping : mapping_t;
  pksm : option nat;          (* page->pksm: the engine metadata pointer *)
  PG_pksm : bool;             (* PagePKSM *)
  PG_locked : bool;
  PG_swapcache : bool;
  PG_dirty : bool;
  PG_mlocked : bool;
  _count : Z;                 (* page_count *)
  _mapcount : Z;              (* page_mapcount *)
  index : Z;
  words : list Z              (* the content, one entry per machine word *)
}.

(** [struct stable_node_anon]: one anchor of a stable node. *)
Record stable_node_anon : Type := StableAnon {
  sna_anon_vma : option nat
}.

(** [struct rmap_item].  The three [list_head]s are represented by
    membership in the global lists of [state]; [node_linked] is
    [!RB_EMPTY_NODE(&rmap_item->node)]. *)
Record rmap_item : Type := RmapItem {
  ri_anon_vma : option nat;
  ri_page : option nat;
  address : Z;
  hlist : list stable_node_anon;
  node_linked : bool;
  ri_mapcount : Z;            (* atomic_t _mapcount: the sharer counter *)
  checksum : Z
}.

(** A page-table entry as far as the engine looks at it. *)
Record pte : Type := Pte {
  pte_pfn : nat;
  pte_write : bool;
  pte_dirty : bool;
  pte_special : bool
}.

#[global] Instance pte_eq_dec : EqDecision pte.
Proof. solve_decision. Defined.

(** [struct vm_area_struct] with the page-table entries of its range,
    keyed by virtual address. *)
Record vm_area : Type := VmArea {
  vm_flags : Z;
  vm_start : Z;
  vm_end : Z;
  vm_pgoff : Z;
  vm_ptes : gmap Z pte
}.

(** [struct anon_vma]: its reference count and the vmas chained on it. *)
Record anon_vma_t : Type := AnonVma {
  av_refcount : Z;
  av_head : list nat
}.

(** The intrusive red-black trees.  Colours and rebalancing belong to the
    kernel's rbtree library; the model keeps the binary tree of rmap items
    that the descents walk. *)
Inductive rb_tree : Type :=
  | rb_leaf
  | rb_node (rb_left : rb_tree) (item : nat) (rb_right : rb_tree).

Record state : Type := State {
  pages : gmap nat page;
  rmaps : gmap nat rmap_item;
  anon_vmas : gmap nat anon_vma_t;
  vmas : gmap nat vm_area;
  root_stable_tree : rb_tree;
  root_unstable_tree : rb_tree;
  new_anon_page_list : list nat;
  del_anon_page_list : list nat;
  pksm_rescan_page_list : list nat;
  unstabletree_checksum_list : list nat;
  ksm_pages_shared : Z;
  ksm_pages_sharing : Z;
  ksm_pages_unshared : Z;
  ksm_rmap_items : Z;
  ksm_stable_nodes : Z;
  ksm_pages_zero_sharing : Z;
  ksm_thread_pages_to_scan : Z;
  ksm_thread_sleep_millisecs : Z;
  pksm_unshared_page_update_period : Z;
  pksm_random_table : list Z;
  pksm_zero_random_checksum : Z;
  empty_pksm_zero_page : nat;
  zero_pfn : nat;
  stable_anon_avail : nat     (* allocations [stable_anon_cache] can still serve *)
}.

(** *** Field updates *)

Definition with_mapping (v : mapping_t) (p : page) : page :=
  Page v (pksm p) (PG_pksm p) (PG_locked p) (PG_swapcache p) (PG_dirty p)
       (PG_mlocked p) (_count p) (_mapcount p) (index p) (words p).
Definition with_pksm (v : option nat) (p : page) : page :=
  Page (mapping p) v (PG_pksm p) (PG_locked p) (PG_swapcache p) (PG_dirty p)
       (PG_mlocked p) (_count p) (_mapcount p) (index p) (words p).
Definition with_PG_pksm (v : bool) (p : page) : page :=
  Page (mapping p) (pksm p) v (PG_locked p) (PG_swapcache p) (PG_dirty p)
       (PG_mlocked p) (_count p) (_mapcount p) (index p) (words p).
Definition with_PG_locked (v : bool) (p : page) : page :=
  Page (mapping p) (pksm p) (PG_pksm p) v (PG_swapcache p) (PG_dirty p)
       (PG_mlocked p) (_count p) (_mapcount p) (index p) (words p).
Definition with_PG_dirty (v : bool) (p : page) : page :=
  Page (mapping p) (pksm p) (PG_pksm p) (PG_locked p) (PG_swapcache p) v
       (PG_mlocked p) (_count p) (_mapcount p) (index p) (words p).
Definition with_PG_mlocked (v : bool) (p : page) : page :=
  Page (mapping p) (pksm p) (PG_pksm p) (PG_locked p) (PG_swapcache p)
       (PG_dirty p) v (_count p) (_mapcount p) (index p) (words p).
Definition with_count (v : Z) (p : page) : page :=
  Page (mapping p) (pksm p) (PG_pksm p) (PG_locked p) (PG_swapcache p)
       (PG_dirty p) (PG_mlocked p) v (_mapcount p) (index p) (words p).
Definition with_page_mapcount (v : Z) (p : page) : page :=
  Page (mapping p) (pksm p) (PG_pksm p) (PG_locked p) (PG_swapcache p)
       (PG_dirty p) (PG_mlocked p) (_count p) v (index p) (words p).

Definition with_ri_anon_vma (v : option nat) (r : rmap_item) : rmap_item :=
  RmapItem v (ri_page r) (address r) (hlist r) (node_linked r)
           (ri_mapcount r) (checksum r).
Definition with_ri_page (v : option nat) (r : rmap_item) : rmap_item :=
  RmapItem (ri_anon_vma r) v (address r) (hlist r) (node_linked r)
           (ri_mapcount r) (checksum r).
Definition with_address (v : Z) (r : rmap_item) : rmap_item :=
  RmapItem (ri_anon_vma r) (ri_page r) v (hlist r) (node_linked r)
           (ri_mapcount r) (checksum r).
Definition with_hlist (v : list stable_node_anon) (r : rmap_item) : rmap_item :=
  RmapItem (ri_anon_vma r) (ri_page r) (address r) v (node_linked r)
           (ri_mapcount r) (checksum r).
Definition with_node_linked (v : bool) (r : rmap_item) : rmap_item :=
  RmapItem (ri_anon_vma r) (ri_page r) (address r) (hlist r) v
           (ri_mapcount r) (checksum r).
Definition with_ri_mapcount (v : Z) (r : rmap_item) : rmap_item :=
  RmapItem (ri_anon_vma r) (ri_page r) (address r) (hlist r) (node_linked r)
           v (checksum r).
Definition with_checksum (v : Z) (r : rmap_item) : rmap_item :=
  RmapItem (ri_anon_vma r) (ri_page r) (address r) (hlist r) (node_linked r)
           (ri_mapcount r) v.

Definition with_vm_ptes (v : gmap Z pte) (a : vm_area) : vm_area :=
  VmArea (vm_flags a) (vm_start a) (vm_end a) (vm_pgoff a) v.

Definition with_pages (v : gmap nat page) (s : state) : state :=
  State v (rmaps s) (anon_vmas s) (vmas s) (root_stable_tree s)
    (root_unstable_tree s) (new_anon_page_list s) (del_anon_page_list s)
    (pksm_rescan_page_list s) (unstabletree_checksum_list s)
    (ksm_pages_shared s) (ksm_pages_sharing s) (ksm_pages_unshared s)
    (ksm_rmap_items s) (ksm_stable_nodes s) (ksm_pages_zero_sharing s)
    (ksm_thread_pages_to_scan s) (ksm_thread_sleep_millisecs s)
    (pksm_unshared_page_update_period s) (pksm_random_table s)
    (pksm_zero_random_checksum s) (empty_pksm_zero_page s) (zero_pfn s)
    (stable_anon_avail s).
Definition with_rmaps (v : gmap nat rmap_item) (s : state) : state :=
  State (pages s) v (anon_vmas s) (vmas s) (root_stable_tree s)
    (root_unstable_tree s) (new_anon_page_list s) (del_anon_page_list s)
    (pksm_rescan_page_list s) (unstabletree_checksum_list s)
    (ksm_pages_shared s) (ksm_pages_sharing s) (ksm_pages_unshared s)
    (ksm_rmap_items s) (ksm_stable_nodes s) (ksm_pages_zero_sharing s)
    (ksm_thread_pages_to_scan s) (ksm_thread_sleep_millisecs s)
    (pksm_unshared_page_update_period s) (pksm_random_table s)
    (pksm_zero_random_checksum s) (empty_pksm_zero_page s) (zero_pfn s)
    (stable_anon_avail s).
Definition with_anon_vmas (v : gmap nat anon_vma_t) (s : state) : state :=
  State (pages s) (rmaps s) v (vmas s) (root_stable_tree s)
    (root_unstable_tree s) (new_anon_page_list s) (del_anon_page_list s)
    (pksm_rescan_page_list s) (unstabletree_checksum_list s)
    (ksm_pages_shared s) (ksm_pages_sharing s) (ksm_pages_unshared s)
    (ksm_rmap_items s) (ksm_stable_nodes s) (ksm_pages_zero_sharing s)
    (ksm_thread_pages_to_scan s) (ksm_thread_sleep_millisecs s)
    (pksm_unshared_page_update_period s) (pksm_random_table s)
    (pksm_zero_random_checksum s) (empty_pksm_zero_page s) (zero_pfn s)
    (stable_anon_avail s).
Definition with_vmas (v : gmap nat vm_area) (s : state) : state :=
  State (pages s) (rmaps s) (anon_vmas s) v (root_stable_tree s)
    (root_unstable_tree s) (new_anon_page_list s) (del_anon_page_list s)
    (pksm_rescan_page_list s) (unstabletree_checksum_list s)
    (ksm_pages_shared s) (ksm_pages_sharing s) (ksm_pages_unshared s)
    (ksm_rmap_items s) (ksm_stable_nodes s) (ksm_pages_zero_sharing s)
    (ksm_thread_pages_to_scan s) (ksm_thread_sleep_millisecs s)
    (pksm_unshared_page_update_period s) (pksm_random_table s)
    (pksm_zero_random_checksum s) (empty_pksm_zero_page s) (zero_pfn s)
    (stable_anon_avail s).
Definition with_root_stable_tree (v : rb_tree) (s : state) : state :=
  State (pages s) (rmaps s) (anon_vmas s) (vmas s) v
    (root_unstable_tree s) (new_anon_page_list s) (del_anon_page_list s)
    (pksm_rescan_page_list s) (unstabletree_checksum_list s)
    (ksm_pages_shared s) (ksm_pages_sharing s) (ksm_pages_unshared s)
    (ksm_rmap_items s) (ksm_stable_nodes s) (ksm_pages_zero_sharing s)
    (ksm_thread_pages_to_scan s) (ksm_thread_sleep_millisecs s)
    (pksm_unshared_page_update_period s) (pksm_random_table s)
    (pksm_zero_random_checksum s) (empty_pksm_zero_page s) (zero_pfn s)
    (stable_anon_avail s).
Definition with_root_unstable_tree (v : rb_tree) (s : state) : state :=
  State (pages s) (rmaps s) (anon_vmas s) (vmas s) (root_stable_tree s)
    v (new_anon_page_list s) (del_anon_page_list s)
    (pksm_rescan_page_list s) (unstabletree_checksum_list s)
    (ksm_pages_shared s) (ksm_pages_sharing s) (ksm_pages_unshared s)
    (ksm_rmap_items s) (ksm_stable_nodes s) (ksm_pages_zero_sharing s)
    (ksm_thread_pages_to_scan s) (ksm_thread_sleep_millisecs s)
    (pksm_unshared_page_update_period s) (pksm_random_table s)
    (pksm_zero_random_checksum s) (empty_pksm_zero_page s) (zero_pfn s)
    (stable_anon_avail s).
Definition with_new_anon_page_list (v : list nat) (s : state) : state :=
  State (pages s) (rmaps s) (anon_vmas s) (vmas s) (root_stable_tree s)
    (root_unstable_tree s) v (del_anon_page_list s)
    (pksm_rescan_page_list s) (unstabletree_checksum_list s)
    (ksm_pages_shared s) (ksm_pages_sharing s) (ksm_pages_unshared s)
    (ksm_rmap_items s) (ksm_stable_nodes s) (ksm_pages_zero_sharing s)
    (ksm_thread_pages_to_scan s) (ksm_thread_sleep_millisecs s)
    (pksm_unshared_page_update_period s) (pksm_random_table s)
    (pksm_zero_random_checksum s) (empty_pksm_zero_page s) (zero_pfn s)
    (stable_anon_avail s).
Definition with_del_anon_page_list (v : list nat) (s : state) : state :=
  State (pages s) (rmaps s) (anon_vmas s) (vmas s) (root_stable_tree s)
    (root_unstable_tree s) (new_anon_page_list s) v
    (pksm_rescan_page_list s) (unstabletree_checksum_list s)
    (ksm_pages_shared s) (ksm_pages_sharing s) (ksm_pages_unshared s)
    (ksm_rmap_items s) (ksm_stable_nodes s) (ksm_pages_zero_sharing s)
    (ksm_thread_pages_to_scan s) (ksm_thread_sleep_millisecs s)
    (pksm_unshared_page_update_period s) (pksm_random_table s)
    (pksm_zero_random_checksum s) (empty_pksm_zero_page s) (zero_pfn s)
    (stable_anon_avail s).
Definition with_pksm_rescan_page_list (v : list nat) (s : state) : state :=
  State (pages s) (rmaps s) (anon_vmas s) (vmas s) (root_stable_tree s)
    (root_unstable_tree s) (new_anon_page_list s) (del_anon_page_list s)
    v (unstabletree_checksum_list s)
    (ksm_pages_shared s) (ksm_pages_sharing s) (ksm_pages_unshared s)
    (ksm_rmap_items s) (ksm_stable_nodes s) (ksm_pages_zero_sharing s)
    (ksm_thread_pages_to_scan s) (ksm_thread_sleep_millisecs s)
    (pksm_unshared_page_update_period s) (pksm_random_table s)
    (pksm_zero_random_checksum s) (empty_pksm_zero_page s) (zero_pfn s)
    (stable_anon_avail s).
Definition with_unstabletree_checksum_list (v : list nat) (s : state) : state :=
  State (pages s) (rmaps s) (anon_vmas s) (vmas s) (root_stable_tree s)
    (root_unstable_tree s) (new_anon_page_list s) (del_anon_page_list s)
    (pksm_rescan_page_list s) v
    (ksm_pages_shared s) (ksm_pages_sharing s) (ksm_pages_unshared s)
    (ksm_rmap_items s) (ksm_stable_nodes s) (ksm_pages_zero_sharing s)
    (ksm_thread_pages_to_scan s) (ksm_thread_sleep_millisecs s)
    (pksm_unshared_page_update_period s) (pksm_random_table s)
    (pksm_zero_random_checksum s) (empty_pksm_zero_page s) (zero_pfn s)
    (stable_anon_avail s).
Definition with_ksm_pages_shared (v : Z) (s : state) : state :=
  State (pages s) (rmaps s) (anon_vmas s) (vmas s) (root_stable_tree s)
    (root_unstable_tree s) (new_anon_page_list s) (del_anon_page_list s)
    (pksm_rescan_page_list s) (unstabletree_checksum_list s)
    v (ksm_pages_sharing s) (ksm_pages_unshared s)
    (ksm_rmap_items s) (ksm_stable_nodes s) (ksm_pages_zero_sharing s)
    (ksm_thread_pages_to_scan s) (ksm_thread_sleep_millisecs s)
    (pksm_unshared_page_update_period s) (pksm_random_table s)
    (pksm_zero_random_checksum s) (empty_pksm_zero_page s) (zero_pfn s)
    (stable_anon_avail s).
Definition with_ksm_pages_sharing (v : Z) (s : state) : state :=
  State (pages s) (rmaps s) (anon_vmas s) (vmas s) (root_stable_tree s)
    (root_unstable_tree s) (new_anon_page_list s) (del_anon_page_list s)
    (pksm_rescan_page_list s) (unstabletree_checksum_list s)
    (ksm_pages_shared s) v (ksm_pages_unshared s)
    (ksm_rmap_items s) (ksm_stable_nodes s) (ksm_pages_zero_sharing s)
    (ksm_thread_pages_to_scan s) (ksm_thread_sleep_millisecs s)
    (pksm_unshared_page_update_period s) (pksm_random_table s)
    (pksm_zero_random_checksum s) (empty_pksm_zero_page s) (zero_pfn s)
    (stable_anon_avail s).
Definition with_ksm_pages_unshared (v : Z) (s : state) : state :=
  State (pages s) (rmaps s) (anon_vmas s) (vmas s) (root_stable_tree s)
    (root_unstable_tree s) (new_anon_page_list s) (del_anon_page_list s)
    (pksm_rescan_page_list s) (unstabletree_checksum_list s)
    (ksm_pages_shared s) (ksm_pages_sharing s) v
    (ksm_rmap_items s) (ksm_stable_nodes s) (ksm_pages_zero_sharing s)
    (ksm_thread_pages_to_scan s) (ksm_thread_sleep_millisecs s)
    (pksm_unshared_page_update_period s) (pksm_random_table s)
    (pksm_zero_random_checksum s) (empty_pksm_zero_page s) (zero_pfn s)
    (stable_anon_avail s).
Definition with_ksm_rmap_items (v : Z) (s : state) : state :=
  State (pages s) (rmaps s) (anon_vmas s) (vmas s) (root_stable_tree s)
    (root_unstable_tree s) (new_anon_page_list s) (del_anon_page_list s)
    (pksm_rescan_page_list s) (unstabletree_checksum_list s)
    (ksm_pages_shared s) (ksm_pages_sharing s) (ksm_pages_unshared s)
    v (ksm_stable_nodes s) (ksm_pages_zero_sharing s)
    (ksm_thread_pages_to_scan s) (ksm_thread_sleep_millisecs s)
    (pksm_unshared_page_update_period s) (pksm_random_table s)
    (pksm_zero_random_checksum s) (empty_pksm_zero_page s) (zero_pfn s)
    (stable_anon_avail s).
Definition with_ksm_stable_nodes (v : Z) (s : state) : state :=
  State (pages s) (rmaps s) (anon_vmas s) (vmas s) (root_stable_tree s)
    (root_unstable_tree s) (new_anon_page_list s) (del_anon_page_list s)
    (pksm_rescan_page_list s) (unstabletree_checksum_list s)
    (ksm_pages_shared s) (ksm_pages_sharing s) (ksm_pages_unshared s)
    (ksm_rmap_items s) v (ksm_pages_zero_sharing s)
    (ksm_thread_pages_to_scan s) (ksm_thread_sleep_millisecs s)
    (pksm_unshared_page_update_period s) (pksm_random_table s)
    (pksm_zero_random_checksum s) (empty_pksm_zero_page s) (zero_pfn s)
    (stable_anon_avail s).
Definition with_ksm_pages_zero_sharing (v : Z) (s : state) : state :=
  State (pages s) (rmaps s) (anon_vmas s) (vmas s) (root_stable_tree s)
    (root_unstable_tree s) (new_anon_page_list s) (del_anon_page_list s)
    (pksm_rescan_page_list s) (unstabletree_checksum_list s)
    (ksm_pages_shared s) (ksm_pages_sharing s) (ksm_pages_unshared s)
    (ksm_rmap_items s) (ksm_stable_nodes s) v
    (ksm_thread_pages_to_scan s) (ksm_thread_sleep_millisecs s)
    (pksm_unshared_page_update_period s) (pksm_random_table s)
    (pksm_zero_random_checksum s) (empty_pksm_zero_page s) (zero_pfn s)
    (stable_anon_avail s).
Definition with_stable_anon_avail (v : nat) (s : state) : state :=
  State (pages s) (rmaps s) (anon_vmas s) (vmas s) (root_stable_tree s)
    (root_unstable_tree s) (new_anon_page_list s) (del_anon_page_list s)
    (pksm_rescan_page_list s) (unstabletree_checksum_list s)
    (ksm_pages_shared s) (ksm_pages_sharing s) (ksm_pages_unshared s)
    (ksm_rmap_items s) (ksm_stable_nodes s) (ksm_pages_zero_sharing s)
    (ksm_thread_pages_to_scan s) (ksm_thread_sleep_millisecs s)
    (pksm_unshared_page_update_period s) (pksm_random_table s)
    (pksm_zero_random_checksum s) (empty_pksm_zero_page s) (zero_pfn s)
    v.

(** *** A state-and-fault monad

    A function of the source is a state transformer that either returns a
    value with the new state or stops: on a [NULL] (or dangling) pointer
    dereference, on a read outside a buffer, on a [BUG_ON], on a division by zero, or because the fuel
    given to a [goto retry] loop ran out. *)

Inductive fault : Type :=
  NullDeref | OutOfBounds | BugOn | DivideError | OutOfFuel.

Inductive res (A : Type) : Type :=
  | Ret (a : A) (s : state)
  | Oops (f : fault).
Arguments Ret {A} a s.
Arguments Oops {A} f.

Definition M (A : Type) : Type := state -> res A.

Definition ret {A} (a : A) : M A := fun s => Ret a s.
Definition bind {A B} (c : M A) (k : A -> M B) : M B :=
  fun s => match c s with
           | Ret a s' => k a s'
           | Oops f => Oops f
           end.
Definition oops {A} (f : fault) : M A := fun _ => Oops f.
Definition get : M state := fun s => Ret s s.
Definition modify (f : state -> state) : M unit := fun s => Ret tt (f s).

Notation "'let*' x ':=' c 'in' k" := (bind c (fun x => k))
  (at level 10, x pattern, c at level 100, k at level 200).
Notation "c ';;' k" := (bind c (fun _ => k))
  (at level 100, k at level 200, right associativity).

(** [BUG_ON(cond)] *)
Definition BUG_ON (cond : bool) : M unit :=
  if cond then oops BugOn else ret tt.

(** Dereferences: the object behind a pointer. *)
Definition get_page (p : nat) : M page :=
  fun s => match pages s !! p with
           | Some pg => Ret pg s
           | None => Oops NullDeref
           end.
Definition get_rmap (r : nat) : M rmap_item :=
  fun s => match rmaps s !! r with
           | Some ri => Ret ri s
           | None => Oops NullDeref
           end.
Definition get_vma (v : nat) : M vm_area :=
  fun s => match vmas s !! v with
           | Some a => Ret a s
           | None => Oops NullDeref
           end.
Definition get_anon (av : nat) : M anon_vma_t :=
  fun s => match anon_vmas s !! av with
           | Some a => Ret a s
           | None => Oops NullDeref
           end.
(** A pointer that must not be [NULL] where it is dereferenced. *)
Definition deref {A} (ptr : option A) : M A :=
  match ptr with
  | Some a => ret a
  | None => oops NullDeref
  end.

Definition upd_page (p : nat) (f : page -> page) : M unit :=
  let* pg := get_page p in
  modify (fun s => with_pages (<[p := f pg]> (pages s)) s).
Definition upd_rmap (r : nat) (f : rmap_item -> rmap_item) : M unit :=
  let* ri := get_rmap r in
  modify (fun s => with_rmaps (<[r := f ri]> (rmaps s)) s).
Definition upd_vma (v : nat) (f : vm_area -> vm_area) : M unit :=
  let* a := get_vma v in
  modify (fun s => with_vmas (<[v := f a]> (vmas s)) s).

(** *** Host page primitives *)

Definition PageKsm (pg : page) : bool :=
  match mapping pg with MappingKsm _ => true | _ => false end.
Definition PageAnon (pg : page) : bool :=
  match mapping pg with MappingOther => false | _ => true end.
Definition PagePKSM (pg : page) : bool := PG_pksm pg.
Definition PageLocked (pg : page) : bool := PG_locked pg.
Definition PageSwapCache (pg : page) : bool := PG_swapcache pg.
(** [page_rmapping]: the pointer bits of [page->mapping]. *)
Definition page_rmapping (pg : page) : option nat :=
  match mapping pg with
  | MappingOther => None
  | MappingAnon av => Some av
  | MappingKsm r => r
  end.

(** [get_page_unless_zero]: take a reference unless the count is zero. *)
Definition get_page_unless_zero (p : nat) : M bool :=
  let* pg := get_page p in
  if _count pg =? 0 then ret false
  else upd_page p (with_count (_count pg + 1));; ret true.
(** [get_page] of the kernel (named [page_ref_get] here, [get_page] being
    the dereference above). *)
Definition page_ref_get (p : nat) : M unit :=
  let* pg := get_page p in upd_page p (with_count (_count pg + 1)).
(** [put_page] / [page_cache_release]; freeing the frame at zero is the
    host's business. *)
Definition put_page (p : nat) : M unit :=
  let* pg := get_page p in upd_page p (with_count (_count pg - 1)).

Definition trylock_page (p : nat) : M bool :=
  let* pg := get_page p in
  if PG_locked pg then ret false
  else upd_page p (with_PG_locked true);; ret true.
(** [lock_page] sleeps until the lock is free; the wait is elided. *)
Definition lock_page (p : nat) : M unit := upd_page p (with_PG_locked true).
Definition unlock_page (p : nat) : M unit := upd_page p (with_PG_locked false).

Definition get_anon_vma (av : option nat) : M unit :=
  let* a := deref av in
  let* r := get_anon a in
  modify (fun s => with_anon_vmas
            (<[a := AnonVma (av_refcount r + 1) (av_head r)]> (anon_vmas s)) s).
Definition put_anon_vma (av : option nat) : M unit :=
  let* a := deref av in
  let* r := get_anon a in
  modify (fun s => with_anon_vmas
            (<[a := AnonVma (av_refcount r - 1) (av_head r)]> (anon_vmas s)) s).

(** *** The trees *)

Fixpoint rb_nodes (t : rb_tree) : list nat :=
  match t with
  | rb_leaf => []
  | rb_node l x r => rb_nodes l ++ x :: rb_nodes r
  end.

Fixpoint rb_size (t : rb_tree) : nat :=
  match t with
  | rb_leaf => 0
  | rb_node l _ r => S (rb_size l + rb_size r)
  end.

(** Hang [r] below the rightmost node of [l]. *)
Fixpoint rb_join (l r : rb_tree) : rb_tree :=
  match l with
  | rb_leaf => r
  | rb_node ll x lr => rb_node ll x (rb_join lr r)
  end.

(** [rb_erase(&item->node, root)]: unlink the node of [x]; the in-order
    sequence of the other nodes is kept. *)
Fixpoint rb_erase (x : nat) (t : rb_tree) : rb_tree :=
  match t with
  | rb_leaf => rb_leaf
  | rb_node l y r =>
      if decide (x = y) then rb_join l r
      else rb_node (rb_erase x l) y (rb_erase x r)
  end.

(** The slot a descent ends in: the turns taken from the root
    ([false] for [rb_left], [true] for [rb_right]). *)
Fixpoint rb_link_node (x : nat) (slot : list bool) (t : rb_tree) : rb_tree :=
  match t, slot with
  | rb_leaf, _ => rb_node rb_leaf x rb_leaf
  | rb_node l y r, false :: slot' => rb_node (rb_link_node x slot' l) y r
  | rb_node l y r, true :: slot' => rb_node l y (rb_link_node x slot' r)
  | rb_node l y r, [] => rb_node l y r
  end.

(** ** The engine: slab helpers, validity, counters *)

(** [alloc_stable_anon]: [NULL] when the slab cannot serve the request. *)
Definition alloc_stable_anon : M (option stable_node_anon) :=
  let* s := get in
  match stable_anon_avail s with
  | O => ret None
  | S n =>
      modify (with_stable_anon_avail n);;
      modify (fun s => with_ksm_stable_nodes (u64 (ksm_stable_nodes s + 1)) s);;
      ret (Some (StableAnon None))
  end.

Definition free_stable_anon (stable_anon : option stable_node_anon) : M unit :=
  match stable_anon with
  | Some _ =>
      modify (fun s => with_stable_anon_avail (S (stable_anon_avail s)) s);;
      modify (fun s => with_ksm_stable_nodes (u64 (ksm_stable_nodes s - 1)) s)
  | None => ret tt
  end.

(** [pksm_free_rmap_item]: the item goes back to the slab; a later
    dereference of the stale pointer faults in the model. *)
Definition pksm_free_rmap_item (rmap_item : option nat) : M unit :=
  match rmap_item with
  | Some r =>
      modify (fun s => with_ksm_rmap_items (u64 (ksm_rmap_items s - 1)) s);;
      modify (fun s => with_rmaps (delete r (rmaps s)) s)
  | None => ret tt
  end.

Definition check_valid_rmap_item (rmap_item : option nat) : M bool :=
  match rmap_item with
  | None => ret false
  | Some r =>
      let* ri := get_rmap r in
      match ri_page ri with
      | None => ret false
      | Some p =>
          let* pg := get_page p in
          if negb (PagePKSM pg) || negb (has (address ri) INKSM_FLAG)
          then ret false else ret true
      end
  end.

Definition page_stable_rmap_item (p : nat) : M (option nat) :=
  let* pg := get_page p in
  if negb (PageKsm pg) then ret None
  else if negb (PagePKSM pg) then ret None
  else ret (pksm pg).

Definition in_stable_tree (ri : rmap_item) : bool := has (address ri) STABLE_FLAG.
Definition in_unstable_tree (ri : rmap_item) : bool := has (address ri) UNSTABLE_FLAG.

(** The body of the counting loops, run [n] times. *)
Fixpoint repeat_m (n : nat) (body : M unit) : M unit :=
  match n with
  | O => ret tt
  | S n' => body;; repeat_m n' body
  end.

Definition pksm_del_sharing_page_counter (p : nat) (n : Z) : M unit :=
  let* pg := get_page p in
  let rmap_item := pksm pg in
  repeat_m (Z.to_nat n)
    (modify (fun s => with_ksm_pages_sharing (u64 (ksm_pages_sharing s - 1)) s);;
     let* r := deref rmap_item in
     upd_rmap r (fun ri => with_ri_mapcount (s32 (ri_mapcount ri - 1)) ri)).

Definition pksm_add_sharing_page_counter (p : nat) (n : Z) : M unit :=
  let* pg := get_page p in
  if negb (PageKsm pg) then ret tt
  else
    let rmap_item := pksm pg in
    repeat_m (Z.to_nat n)
      (modify (fun s => with_ksm_pages_sharing (u64 (ksm_pages_sharing s + 1)) s);;
       let* r := deref rmap_item in
       upd_rmap r (fun ri => with_ri_mapcount (s32 (ri_mapcount ri + 1)) ri)).

Definition pksm_unmap_sharing_page (p : nat) : M unit :=
  let* pg := get_page p in
  if negb (PageKsm pg && PagePKSM pg) then ret tt
  else
    let rmap_item := pksm pg in
    let* valid := check_valid_rmap_item rmap_item in
    if negb valid then ret tt
    else
      let* r := deref rmap_item in
      let* ri := get_rmap r in
      let ksm_map := ri_mapcount ri in
      let mapcount := _mapcount pg in
      if mapcount >? ksm_map then ret tt
      else if ksm_map >? 0 then pksm_del_sharing_page_counter p 1
      else ret tt.

(** [check_page_dio]: is some O_DIRECT-like reference held on the page? *)
Definition check_page_dio (pg : page) : bool :=
  negb (_mapcount pg + 1 + (if PageSwapCache pg then 1 else 0) =? _count pg).

(** ** Taking a reference on the page of a tree node *)

Definition get_ksm_page (r : nat) : M (option nat) :=
  let* valid := check_valid_rmap_item (Some r) in
  if negb valid then ret None
  else
    let* ri := get_rmap r in
    if negb (has (address ri) STABLE_FLAG) then ret None
    else
      match ri_page ri with
      | None => ret None
      | Some p =>
          let* pg := get_page p in
          if negb (PageKsm pg) then ret None
          else
            let expected_mapping := MappingKsm (Some r) in
            if negb (bool_decide (mapping pg = expected_mapping)) then ret None
            else
              let* got := get_page_unless_zero p in
              if negb got then ret None
              else
                let* valid := check_valid_rmap_item (Some r) in
                if negb valid then put_page p;; ret None
                else
                  let* pg := get_page p in
                  if negb (bool_decide (mapping pg = expected_mapping))
                  then put_page p;; ret None
                  else ret (Some p)
      end.

Definition get_mergeable_page (r : nat) : M (option nat) :=
  let* valid := check_valid_rmap_item (Some r) in
  if negb valid then ret None
  else
    let* ri := get_rmap r in
    if negb (has (address ri) UNSTABLE_FLAG) then ret None
    else
      match ri_page ri with
      | None => ret None
      | Some p =>
          let* got := get_page_unless_zero p in
          if negb got then ret None
          else
            let* valid := check_valid_rmap_item (Some r) in
            if negb valid then ret None
            else
              let* pg := get_page p in
              if PageAnon pg then ret (Some p)
              else put_page p;; ret None
      end.

(** ** Leaving a tree *)

(** The anchors of [hlist_for_each_entry_safe]: each is unlinked, its
    anon_vma reference dropped and the anchor freed. *)
Fixpoint free_anchors (r : nat) (anchors : list stable_node_anon) : M unit :=
  match anchors with
  | [] => ret tt
  | stable_anon :: rest =>
      upd_rmap r (fun ri => with_hlist (tail (hlist ri)) ri);;
      put_anon_vma (sna_anon_vma stable_anon);;
      free_stable_anon (Some stable_anon);;
      free_anchors r rest
  end.

Definition remove_rmap_item_from_tree (rmap_item : option nat) (free_anon : bool)
  : M unit :=
  match rmap_item with
  | None => ret tt
  | Some r =>
      let* ri := get_rmap r in
      (if has (address ri) STABLE_FLAG then
         if node_linked ri then
           upd_rmap r (fun ri => with_address (clear_bits (address ri) STABLE_FLAG) ri);;
           modify (fun s => with_root_stable_tree (rb_erase r (root_stable_tree s)) s);;
           upd_rmap r (with_node_linked false);;
           modify (fun s => with_ksm_pages_shared (u64 (ksm_pages_shared s - 1)) s)
         else ret tt
       else if has (address ri) UNSTABLE_FLAG then
         (if node_linked ri then
            upd_rmap r (fun ri => with_address (clear_bits (address ri) UNSTABLE_FLAG) ri);;
            modify (fun s => with_root_unstable_tree (rb_erase r (root_unstable_tree s)) s);;
            upd_rmap r (with_node_linked false);;
            modify (fun s => with_ksm_pages_unshared (u64 (ksm_pages_unshared s - 1)) s)
          else ret tt);;
         let* ri := get_rmap r in
         if has (address ri) CHECKSUM_LIST_FLAG then
           modify (fun s => with_unstabletree_checksum_list
                      (filter (fun x => x <> r) (unstabletree_checksum_list s)) s);;
           upd_rmap r (fun ri => with_address (clear_bits (address ri) CHECKSUM_LIST_FLAG) ri)
         else ret tt
       else ret tt);;
      let* ri := get_rmap r in
      if free_anon && negb (bool_decide (hlist ri = []))
      then free_anchors r (hlist ri)
      else ret tt
  end.

(** ** Tree descents *)

Definition hash_cmp (new_val node_val : Z) : Z :=
  if new_val >? node_val then 1
  else if new_val <? node_val then -1
  else 0.

(** How one pass of a descent loop ends: at a [goto retry] after the
    eviction of a node, or at one of the [return]s (or past the loop). *)
Inductive descent (A : Type) : Type :=
  | Evict (node : nat)
  | Stop (a : A).
Arguments Evict {A} node.
Arguments Stop {A} a.

(** The exits of a pass, told apart by the place in the source:
    - [AcquireFailed]: the [return] taken when [get_ksm_page] /
      [get_mergeable_page] gave no page;
    - [Hit]: the checksums are equal;
    - [Forked]: [page == tree_page] in the unstable tree;
    - [Miss]: the loop fell off the tree at the given slot. *)
Inductive walk_end : Type :=
  | AcquireFailed (node : nat)
  | Hit (node : nat) (tree_page : nat)
  | Forked (node : nat)
  | Miss (slot : list bool).

(** [new = &parent->rb_left] / [&parent->rb_right]: the rest of the pass
    runs below [parent], one turn further from the root. *)
Definition below (turn : bool) (d : descent walk_end) : descent walk_end :=
  match d with
  | Stop (Miss slot) => Stop (Miss (turn :: slot))
  | other => other
  end.

(** The test that sends a descent to [goto retry]. *)
Definition node_is_dead (tri : rmap_item) : bool :=
  has (address tri) DELLIST_FLAG || negb (bool_decide (is_Some (ri_page tri))).

(** [goto retry]: a pass is run again from the root until it stops. *)
Fixpoint retry (fuel : nat) (pass : M (descent walk_end)) : M walk_end :=
  match fuel with
  | O => oops OutOfFuel
  | S fuel' =>
      let* d := pass in
      match d with
      | Evict _ => retry fuel' pass
      | Stop e => ret e
      end
  end.

(** The [while] loop of [stable_tree_search]. *)
Fixpoint stable_tree_search_walk (rmap_item : option nat) (t : rb_tree)
  : M (descent walk_end) :=
  match t with
  | rb_leaf => ret (Stop (Miss []))
  | rb_node l tree_rmap_item r =>
      let* tri := get_rmap tree_rmap_item in
      if node_is_dead tri then
        remove_rmap_item_from_tree (Some tree_rmap_item) false;;
        ret (Evict tree_rmap_item)
      else
        let* tree_page := get_ksm_page tree_rmap_item in
        match tree_page with
        | None => ret (Stop (AcquireFailed tree_rmap_item))
        | Some tp =>
            let* me := deref rmap_item in
            let* ri := get_rmap me in
            let* tri := get_rmap tree_rmap_item in
            let ret_ := hash_cmp (checksum ri) (checksum tri) in
            if ret_ <? 0 then
              put_page tp;;
              let* d := stable_tree_search_walk rmap_item l in ret (below false d)
            else if ret_ >? 0 then
              put_page tp;;
              let* d := stable_tree_search_walk rmap_item r in ret (below true d)
            else ret (Stop (Hit tree_rmap_item tp))
        end
  end.

(** [stable_tree_search] with the exit it took; [None] stands for the early
    [return NULL] on a page that is already a KSM page. *)
Definition stable_tree_search_end (fuel : nat) (p : nat) : M (option walk_end) :=
  let* pg := get_page p in
  let rmap_item := pksm pg in
  if PageKsm pg then ret None
  else
    let* e := retry fuel (let* s := get in
                          stable_tree_search_walk rmap_item (root_stable_tree s)) in
    ret (Some e).

(** The value [stable_tree_search] returns: the tree page on a hit, [NULL]
    otherwise. *)
Definition stable_tree_search (fuel : nat) (p : nat) : M (option nat) :=
  let* e := stable_tree_search_end fuel p in
  match e with
  | Some (Hit _ tree_page) => ret (Some tree_page)
  | _ => ret None
  end.

(** The [while] loop of [stable_tree_insert]. *)
Fixpoint stable_tree_insert_walk (rmap_item : nat) (t : rb_tree)
  : M (descent walk_end) :=
  match t with
  | rb_leaf => ret (Stop (Miss []))
  | rb_node l tree_rmap_item r =>
      let* tri := get_rmap tree_rmap_item in
      if node_is_dead tri then
        remove_rmap_item_from_tree (Some tree_rmap_item) false;;
        ret (Evict tree_rmap_item)
      else
        let* tree_page := get_ksm_page tree_rmap_item in
        match tree_page with
        | None => ret (Stop (AcquireFailed tree_rmap_item))
        | Some tp =>
            let* ri := get_rmap rmap_item in
            let* tri := get_rmap tree_rmap_item in
            let ret_ := hash_cmp (checksum ri) (checksum tri) in
            put_page tp;;
            if ret_ <? 0 then
              let* d := stable_tree_insert_walk rmap_item l in ret (below false d)
            else if ret_ >? 0 then
              let* d := stable_tree_insert_walk rmap_item r in ret (below true d)
            else ret (Stop (Hit tree_rmap_item tp))
        end
  end.

Definition set_page_stable_ksm (p : nat) (rmap_item : option nat) : M unit :=
  upd_page p (with_mapping (MappingKsm rmap_item)).

(** [stable_tree_insert] with the exit of its descent; the returned code is
    [PKSM_FAULT_DROP] when a reference could not be taken, [PKSM_FAULT_TRY]
    on an equal checksum, [0] once the item is linked. *)
Definition stable_tree_insert_end (fuel : nat) (rmap_item kpage : nat)
  : M (walk_end * Z) :=
  let* e := retry fuel (let* s := get in
                        stable_tree_insert_walk rmap_item (root_stable_tree s)) in
  match e with
  | Miss slot =>
      let* ri := get_rmap rmap_item in
      BUG_ON (has (address ri) UNSTABLE_FLAG);;
      BUG_ON (has (address ri) STABLE_FLAG);;
      modify (fun s => with_root_stable_tree
                (rb_link_node rmap_item slot (root_stable_tree s)) s);;
      upd_rmap rmap_item (with_node_linked true);;
      set_page_stable_ksm kpage (Some rmap_item);;
      upd_rmap rmap_item (fun ri => with_address (set_bits (address ri) STABLE_FLAG) ri);;
      ret (e, 0)
  | Hit _ _ => ret (e, PKSM_FAULT_TRY)
  | _ => ret (e, PKSM_FAULT_DROP)
  end.

Definition stable_tree_insert (fuel : nat) (rmap_item kpage : nat) : M Z :=
  let* r := stable_tree_insert_end fuel rmap_item kpage in ret (snd r).

(** The [while] loop of [unstable_tree_search_insert]. *)
Fixpoint unstable_tree_search_insert_walk (rmap_item p : nat) (t : rb_tree)
  : M (descent walk_end) :=
  match t with
  | rb_leaf => ret (Stop (Miss []))
  | rb_node l tree_rmap_item r =>
      let* pg := get_page p in
      BUG_ON (negb (bool_decide (pksm pg = Some rmap_item)));;
      let* tri := get_rmap tree_rmap_item in
      if node_is_dead tri then
        remove_rmap_item_from_tree (Some tree_rmap_item) false;;
        ret (Evict tree_rmap_item)
      else
        let* tree_page := get_mergeable_page tree_rmap_item in
        match tree_page with
        | None => ret (Stop (AcquireFailed tree_rmap_item))
        | Some tp =>
            let* tpg := get_page tp in
            BUG_ON (negb (bool_decide (pksm tpg = Some tree_rmap_item)));;
            if bool_decide (p = tp) then
              put_page tp;; ret (Stop (Forked tree_rmap_item))
            else
              let* ri := get_rmap rmap_item in
              let* tri := get_rmap tree_rmap_item in
              let ret_ := hash_cmp (checksum ri) (checksum tri) in
              if ret_ <? 0 then
                put_page tp;;
                let* d := unstable_tree_search_insert_walk rmap_item p l in
                ret (below false d)
              else if ret_ >? 0 then
                put_page tp;;
                let* d := unstable_tree_search_insert_walk rmap_item p r in
                ret (below true d)
              else ret (Stop (Hit tree_rmap_item tp))
        end
  end.

(** [unstable_tree_search_insert] with the exit of its descent.  On a
    [Miss] the item is linked at the slot, counted and queued on the
    checksum list. *)
Definition unstable_tree_search_insert_end (fuel : nat) (rmap_item p : nat)
  : M walk_end :=
  let* pg := get_page p in
  BUG_ON (negb (bool_decide (pksm pg = Some rmap_item)));;
  let* e := retry fuel (let* s := get in
                        unstable_tree_search_insert_walk rmap_item p
                          (root_unstable_tree s)) in
  match e with
  | Miss slot =>
      let* pg := get_page p in
      BUG_ON (negb (bool_decide (pksm pg = Some rmap_item)));;
      let* ri := get_rmap rmap_item in
      BUG_ON (has (address ri) UNSTABLE_FLAG);;
      BUG_ON (has (address ri) STABLE_FLAG);;
      (if negb (has (address ri) UNSTABLE_FLAG) then
         upd_rmap rmap_item
           (fun ri => with_address (set_bits (address ri) UNSTABLE_FLAG) ri);;
         modify (fun s => with_root_unstable_tree
                   (rb_link_node rmap_item slot (root_unstable_tree s)) s);;
         upd_rmap rmap_item (with_node_linked true);;
         modify (fun s => with_ksm_pages_unshared (u64 (ksm_pages_unshared s + 1)) s);;
         modify (fun s => with_unstabletree_checksum_list
                   (unstabletree_checksum_list s ++ [rmap_item]) s);;
         upd_rmap rmap_item
           (fun ri => with_address (set_bits (address ri) CHECKSUM_LIST_FLAG) ri)
       else ret tt);;
      ret e
  | _ => ret e
  end.

(** The value [unstable_tree_search_insert] returns: the tree item and its
    page (through [tree_pagep]) on a hit, [NULL] otherwise. *)
Definition unstable_tree_search_insert (fuel : nat) (rmap_item p : nat)
  : M (option (nat * nat)) :=
  let* e := unstable_tree_search_insert_end fuel rmap_item p in
  match e with
  | Hit tree_rmap_item tree_page => ret (Some (tree_rmap_item, tree_page))
  | _ => ret None
  end.

(** ** Anchors *)

Definition stable_tree_append (rmap_head : option nat) (p : nat) : M unit :=
  let* pg := get_page p in
  let rmap := pksm pg in
  let* valid := check_valid_rmap_item rmap_head in
  if negb valid then ret tt
  else
    let* valid := check_valid_rmap_item rmap in
    if negb valid then ret tt
    else
      let* anon_node := alloc_stable_anon in
      let* pg := get_page p in
      let* av :=
        (if PageKsm pg then
           let* r := deref rmap in
           let* ri := get_rmap r in ret (ri_anon_vma ri)
         else ret (page_rmapping pg)) in
      (* anon_node->anon_vma = ...: the store goes through [anon_node] *)
      let* _ := deref anon_node in
      let anon_node := StableAnon av in
      get_anon_vma (sna_anon_vma anon_node);;
      let* head := deref rmap_head in
      let* hri := get_rmap head in
      let next := hlist hri in
      upd_rmap head (with_hlist (anon_node :: next));;
      if bool_decide (next = []) then
        modify (fun s => with_ksm_pages_shared (u64 (ksm_pages_shared s + 1)) s)
      else ret tt.

(** ** Merging through the page tables

    Base pages only: [PageTransCompound] is false for every page of the
    model, so the huge-page split of [try_to_merge_one_anon_page] and
    [try_to_merge_zero_page] is never entered. *)

(** Host constants of [pksm_flags_can_scan] (Linux 3.4 values):
    [VM_PFNMAP | VM_IO | VM_DONTEXPAND | VM_RESERVED | VM_HUGETLB |
     VM_INSERTPAGE | VM_NONLINEAR | VM_MIXEDMAP | VM_SAO | VM_SHARED |
     VM_MAYSHARE | VM_GROWSUP | VM_GROWSDOWN]. *)
Definition VM_SHARED : Z := 8.
Definition VM_MAYSHARE : Z := 128.
Definition VM_GROWSDOWN : Z := 256.
Definition VM_GROWSUP : Z := 512.
Definition VM_PFNMAP : Z := 1024.
Definition VM_LOCKED : Z := 8192.
Definition VM_IO : Z := 16384.
Definition VM_DONTEXPAND : Z := 262144.
Definition VM_RESERVED : Z := 524288.
Definition VM_HUGETLB : Z := 4194304.
Definition VM_NONLINEAR : Z := 8388608.
Definition VM_INSERTPAGE : Z := 33554432.
Definition VM_MIXEDMAP : Z := 268435456.
Definition VM_SAO : Z := 536870912.

Definition pksm_flags_can_scan (flags : Z) : bool :=
  negb (has flags
          (Z.lor VM_PFNMAP (Z.lor VM_IO (Z.lor VM_DONTEXPAND (Z.lor VM_RESERVED
          (Z.lor VM_HUGETLB (Z.lor VM_INSERTPAGE (Z.lor VM_NONLINEAR
          (Z.lor VM_MIXEDMAP (Z.lor VM_SAO (Z.lor VM_SHARED (Z.lor VM_MAYSHARE
          (Z.lor VM_GROWSUP VM_GROWSDOWN))))))))))))).

Definition vma_can_enter (a : vm_area) : bool := pksm_flags_can_scan (vm_flags a).

(** Host: [vma_address] / [page_address_in_vma]; [None] is [-EFAULT]. *)
Definition vma_address (pg : page) (a : vm_area) : option Z :=
  let address := u64 (vm_start a + (index pg - vm_pgoff a) * Hash.PAGE_SIZE) in
  if (address <? vm_start a) || (address >=? vm_end a) then None
  else Some address.

(** Host: [page_check_address]: the entry at [addr] if it is present and
    maps the frame of [p]. *)
Definition page_check_address (p : nat) (a : vm_area) (addr : Z) : option pte :=
  match vm_ptes a !! addr with
  | Some e => if bool_decide (pte_pfn e = p) then Some e else None
  | None => None
  end.

Definition set_pte_at (v : nat) (addr : Z) (entry : pte) : M unit :=
  upd_vma v (fun a => with_vm_ptes (<[addr := entry]> (vm_ptes a)) a).

(** [write_protect_page]: the code and the value left in [*orig_pte]
    ([None] is the caller's [__pte(0)]). *)
Definition write_protect_page (v p : nat) : M (Z * option pte) :=
  let* a := get_vma v in
  let* pg := get_page p in
  match vma_address pg a with
  | None => ret (PKSM_FAULT_DROP, None)
  | Some addr =>
      match page_check_address p a addr with
      | None => ret (PKSM_FAULT_DROP, None)
      | Some entry =>
          if pte_write entry || pte_dirty entry then
            let swapped := if PageSwapCache pg then 1 else 0 in
            if negb (_mapcount pg + 1 + swapped =? _count pg) then
              set_pte_at v addr entry;;
              ret (PKSM_FAULT_TRY, None)
            else
              (if pte_dirty entry then upd_page p (with_PG_dirty true) else ret tt);;
              let entry := Pte (pte_pfn entry) false false (pte_special entry) in
              set_pte_at v addr entry;;
              ret (0, Some entry)
          else ret (0, Some entry)
      end
  end.

(** [replace_page]: the entry of [page] in [vma] is pointed at [kpage]. *)
Definition replace_page (v p kpage : nat) (orig_pte : option pte) : M Z :=
  let* a := get_vma v in
  let* pg := get_page p in
  match vma_address pg a with
  | None => ret PKSM_FAULT_DROP
  | Some addr =>
      if negb (bool_decide (vm_ptes a !! addr = orig_pte)) then ret PKSM_FAULT_DROP
      else
        let* s := get in
        let entry := Pte kpage false false false in
        let* entry :=
          (if bool_decide (kpage = empty_pksm_zero_page s)
              || bool_decide (kpage = zero_pfn s) then
             modify (fun s => with_ksm_pages_zero_sharing
                       (u64 (ksm_pages_zero_sharing s + 1)) s);;
             ret (Pte kpage false false true)
           else
             page_ref_get kpage;;
             upd_page kpage (fun k => with_page_mapcount (_mapcount k + 1) k);;
             ret entry) in
        set_pte_at v addr entry;;
        upd_page p (fun g => with_page_mapcount (_mapcount g - 1) g);;
        put_page p;;
        pksm_add_sharing_page_counter kpage 1;;
        ret 0
  end.

(** The body of [list_for_each_entry(avc, &anon_vma->head, same_anon_vma)]
    in [pksm_rmap_walk]; [ret_] is the value [ret] holds on entry. *)
Fixpoint pksm_rmap_walk_loop (rmap_one : nat -> nat -> Z -> M Z) (p : nat)
    (chain : list nat) (ret_ : Z) : M Z :=
  match chain with
  | [] => ret ret_
  | v :: rest =>
      let* a := get_vma v in
      let* pg := get_page p in
      if negb (vma_can_enter a) then ret ret_
      else
        match vma_address pg a with
        | None => ret ret_
        | Some address =>
            let* r := rmap_one p v address in
            if negb (r =? PKSM_FAULT_SUCCESS) then ret r
            else pksm_rmap_walk_loop rmap_one p rest r
        end
  end.

(** Host: [page_lock_anon_vma]: the anon_vma of a mapped, plain anonymous
    page. *)
Definition page_lock_anon_vma (pg : page) : option nat :=
  match mapping pg with
  | MappingAnon av => if _mapcount pg >? 0 then Some av else None
  | _ => None
  end.

Definition pksm_rmap_walk (p : nat) (rmap_one : nat -> nat -> Z -> M Z) : M Z :=
  let* pg := get_page p in
  if negb (PageAnon pg) then ret PKSM_FAULT_DROP
  else
    match page_lock_anon_vma pg with
    | None => ret PKSM_FAULT_DROP
    | Some av =>
        let* anon := get_anon av in
        pksm_rmap_walk_loop rmap_one p (av_head anon) PKSM_FAULT_DROP
    end.

Definition pages_identical (p1 p2 : nat) : M bool :=
  let* pg1 := get_page p1 in
  let* pg2 := get_page p2 in
  ret (bool_decide (words pg1 = words pg2)).

Definition pksm_writepect_pte (kpage : option nat) (p v : nat) (addr : Z) : M Z :=
  let* wp := write_protect_page v p in
  let* err :=
    (if fst wp =? 0 then
       match kpage with
       | None => set_page_stable_ksm p None;; ret 0
       | Some k =>
           let* same := pages_identical p k in
           if same then replace_page v p k (snd wp) else ret (fst wp)
       end
     else ret (fst wp)) in
  let* a := get_vma v in
  match kpage with
  | Some k =>
      if has (vm_flags a) VM_LOCKED && (err =? 0) then
        upd_page p (with_PG_mlocked false);;
        let* kpg := get_page k in
        (if negb (PG_mlocked kpg) then
           unlock_page p;; lock_page k;; upd_page k (with_PG_mlocked true)
         else ret tt);;
        ret err
      else ret err
  | None => ret err
  end.

Definition try_to_merge_one_anon_page (p : nat) (kpage : option nat) : M Z :=
  if bool_decide (kpage = Some p) then ret 0
  else
    let* pg := get_page p in
    if negb (PageAnon pg) then ret PKSM_FAULT_DROP
    else
      let* locked := trylock_page p in
      if negb locked then ret PKSM_FAULT_TRY
      else
        let* err := pksm_rmap_walk p (pksm_writepect_pte kpage) in
        unlock_page p;;
        ret err.

Definition try_to_merge_with_pksm_page (rmap_item p : nat) (kpage : option nat)
  : M Z :=
  let* pg := get_page p in
  BUG_ON (negb (bool_decide (pksm pg = Some rmap_item)));;
  try_to_merge_one_anon_page p kpage.

Definition try_to_merge_two_pages (rmap_item p tree_rmap_item tree_page : nat)
  : M Z :=
  let* pg := get_page p in
  BUG_ON (negb (bool_decide (pksm pg = Some rmap_item)));;
  let* tpg := get_page tree_page in
  BUG_ON (negb (bool_decide (pksm tpg = Some tree_rmap_item)));;
  let* err := try_to_merge_with_pksm_page rmap_item p None in
  if err =? 0 then try_to_merge_with_pksm_page tree_rmap_item tree_page (Some p)
  else ret err.

(** ** The zero page *)

Definition is_page_full_zero (p : nat) : M bool :=
  let* pg := get_page p in ret (Hash.is_full_zero (words pg)).

Definition find_zero_page_hash (p : nat) : M bool :=
  let* pg := get_page p in
  let* r := deref (pksm pg) in
  let* ri := get_rmap r in
  let* s := get in
  ret (checksum ri =? pksm_zero_random_checksum s).

Definition pksm_merge_zero_page (kpage : nat) (p v : nat) (addr : Z) : M Z :=
  let* wp := write_protect_page v p in
  if fst wp =? 0 then
    let* zero := is_page_full_zero p in
    if zero then replace_page v p kpage (snd wp) else ret (fst wp)
  else ret (fst wp).

Definition try_to_merge_zero_page (p : nat) : M Z :=
  let* s := get in
  let zero_page := empty_pksm_zero_page s in
  let* pg := get_page p in
  if negb (PageAnon pg) then ret PKSM_FAULT_DROP
  else
    let* locked := trylock_page p in
    if negb locked then ret PKSM_FAULT_DROP
    else
      let* err := pksm_rmap_walk p (pksm_merge_zero_page zero_page) in
      unlock_page p;;
      ret err.

Definition cmp_and_merge_zero_page (p : nat) : M Z :=
  let* hit := find_zero_page_hash p in
  if hit then
    let* err := try_to_merge_zero_page p in
    if err =? 0 then ret 0 else ret (- EFAULT)
  else ret (- EFAULT).

(** ** Candidate processing *)

Definition calc_checksum (p : nat) : M Z :=
  let* pg := get_page p in
  let* s := get in
  match Hash.calc_checksum (pksm_random_table s) (words pg) with
  | Some c => ret c
  | None => oops OutOfBounds
  end.

Definition cmp_and_merge_page (fuel : nat) (p rmap_item : nat) (init_checksum : bool)
  : M Z :=
  let* valid := check_valid_rmap_item (Some rmap_item) in
  if negb valid then ret PKSM_FAULT_DROP
  else
    let* pg := get_page p in
    let* ri := get_rmap rmap_item in
    if PageKsm pg || in_stable_tree ri then ret PKSM_FAULT_DROP
    else
      remove_rmap_item_from_tree (Some rmap_item) false;;
      (if init_checksum then
         let* c := calc_checksum p in upd_rmap rmap_item (with_checksum c)
       else ret tt);;
      let* z := cmp_and_merge_zero_page p in
      if z =? 0 then ret 0
      else
        (* We first start with searching the page inside the stable tree *)
        let* kpage := stable_tree_search fuel p in
        match kpage with
        | Some k =>
            let* pg := get_page p in
            BUG_ON (negb (bool_decide (pksm pg = Some rmap_item)));;
            let* err := try_to_merge_with_pksm_page rmap_item p (Some k) in
            (if err =? 0 then
               lock_page k;;
               let* head := page_stable_rmap_item k in
               stable_tree_append head p;;
               unlock_page k
             else ret tt);;
            put_page k;;
            ret err
        | None =>
            let* found := unstable_tree_search_insert fuel rmap_item p in
            match found with
            | Some (tree_rmap_item, tree_page) =>
                let* err := try_to_merge_two_pages rmap_item p
                              tree_rmap_item tree_page in
                let* err :=
                  (if err =? 0 then
                     let kpage := p in
                     let* pg := get_page p in
                     BUG_ON (negb (bool_decide (pksm pg = Some rmap_item)));;
                     let* ri := get_rmap rmap_item in
                     BUG_ON (negb (bool_decide (ri_page ri = Some kpage)));;
                     remove_rmap_item_from_tree (Some tree_rmap_item) false;;
                     lock_page kpage;;
                     let* err := stable_tree_insert fuel rmap_item kpage in
                     (if err =? 0 then
                        stable_tree_append (Some rmap_item) kpage;;
                        lock_page tree_page;;
                        stable_tree_append (Some rmap_item) tree_page;;
                        unlock_page tree_page
                      else ret tt);;
                     unlock_page kpage;;
                     ret err
                   else ret err) in
                put_page tree_page;;
                ret err
            | None => ret PKSM_FAULT_SUCCESS
            end
        end.

(** ** Revalidation of the unstable tree *)

Definition pksm_calc_update_pages_num : M Z :=
  let* s := get in
  if ksm_pages_unshared s <? ksm_thread_pages_to_scan s then
    ret (u32 (ksm_pages_unshared s))
  else
    let divisor := u32 (pksm_unshared_page_update_period s * 1000) in
    if divisor =? 0 then oops DivideError
    else ret (u32 (u64 (ksm_pages_unshared s * ksm_thread_sleep_millisecs s) / divisor)).

(** One turn of the loop of [pksm_update_unstable_page_checksum], up to the
    [out:] label; the result tells whether the page was hashed again. *)
Definition pksm_update_one (rmap_item : nat) : M bool :=
  let* ri := get_rmap rmap_item in
  BUG_ON (has (address ri) NEWLIST_FLAG);;
  BUG_ON (negb (has (address ri) CHECKSUM_LIST_FLAG));;
  BUG_ON (has (address ri) STABLE_FLAG);;
  let* valid := check_valid_rmap_item (Some rmap_item) in
  if negb valid then ret false
  else
    let* p := deref (ri_page ri) in
    let* got := get_page_unless_zero p in
    if negb got then ret false
    else
      let* pg := get_page p in
      if PageLocked pg then put_page p;; ret false
      else if check_page_dio pg then put_page p;; ret false
      else
        let* checksum_ := calc_checksum p in
        (if negb (checksum ri =? checksum_) then
           upd_rmap rmap_item (with_checksum checksum_);;
           (* re_cmp: *)
           remove_rmap_item_from_tree (Some rmap_item) false;;
           upd_rmap rmap_item
             (fun ri => with_address (clear_bits (address ri) INITCHECKSUM_FLAG) ri);;
           upd_rmap rmap_item
             (fun ri => with_address (set_bits (address ri) RESCAN_LIST_FLAG) ri);;
           modify (fun s => with_pksm_rescan_page_list
                     (pksm_rescan_page_list s ++ [rmap_item]) s)
         else ret tt);;
        put_page p;;
        ret true.

(** The loop over the checksum list: after each turn, [if (scan++ >
    need_scan) break;].  The result lists the items hashed again. *)
Fixpoint pksm_update_loop (items : list nat) (scan need_scan : Z) : M (list nat) :=
  match items with
  | [] => ret []
  | rmap_item :: rest =>
      let* hashed := pksm_update_one rmap_item in
      let me := if hashed then [rmap_item] else [] in
      if scan >? need_scan then ret me
      else
        let* more := pksm_update_loop rest (scan + 1) need_scan in
        ret (me ++ more)
  end.

(** [pksm_update_unstable_page_checksum], returning the items it hashed
    again. *)
Definition pksm_update_unstable_page_checksum_log : M (list nat) :=
  let* need_scan := pksm_calc_update_pages_num in
  if need_scan <=? 0 then ret []
  else
    let* s := get in
    let need_scan := Z.min need_scan (ksm_thread_pages_to_scan s) in
    pksm_update_loop (unstabletree_checksum_list s) 0 need_scan.

Definition pksm_update_unstable_page_checksum : M unit :=
  pksm_update_unstable_page_checksum_log;; ret tt.

(** ** Dropping and reaping rmap items *)

Definition pksm_drop_rmap_item (rmap_item : nat) : M unit :=
  let* ri := get_rmap rmap_item in
  let page_ := ri_page ri in
  (match page_ with
   | Some p =>
       let* pg := get_page p in
       if PagePKSM pg then upd_page p (with_PG_pksm false) else ret tt
   | None => ret tt
   end);;
  upd_rmap rmap_item (with_address 0);;
  remove_rmap_item_from_tree (Some rmap_item) true;;
  (match page_ with
   | Some p => upd_page p (with_pksm None)
   | None => ret tt
   end);;
  upd_rmap rmap_item (with_ri_page None);;
  pksm_free_rmap_item (Some rmap_item).

Fixpoint pksm_clean_all_rmap_items (l : list nat) : M unit :=
  match l with
  | [] => ret tt
  | rmap_item :: rest =>
      remove_rmap_item_from_tree (Some rmap_item) true;;
      upd_rmap rmap_item (fun ri => with_address (clear_bits (address ri) INKSM_FLAG) ri);;
      upd_rmap rmap_item (fun ri => with_address (clear_bits (address ri) DELLIST_FLAG) ri);;
      pksm_free_rmap_item (Some rmap_item);;
      pksm_clean_all_rmap_items rest
  end.

(** Every entry of the delete list is moved to the head of the local
    [l_del], which is then cleaned. *)
Definition pksm_free_all_rmap_items : M unit :=
  let* s := get in
  let l_del := rev (del_anon_page_list s) in
  modify (with_del_anon_page_list []);;
  pksm_clean_all_rmap_items l_del.

(** ** The scanner tick *)

(** First loop of [ksm_do_scan]: entries of the new list are moved to the
    head of [l_add]; after each, [if (scan++ > scan_npages) break;]. *)
Fixpoint ksm_do_scan_new (items : list nat) (scan scan_npages : Z)
    (l_add : list nat) : M (list nat) :=
  match items with
  | [] => ret l_add
  | rmap_item :: rest =>
      modify (fun s => with_new_anon_page_list
                (filter (fun x => x <> rmap_item) (new_anon_page_list s)) s);;
      let l_add := rmap_item :: l_add in
      upd_rmap rmap_item (fun ri => with_address (clear_bits (address ri) NEWLIST_FLAG) ri);;
      upd_rmap rmap_item (fun ri => with_address (set_bits (address ri) INKSM_FLAG) ri);;
      if scan >? scan_npages then ret l_add
      else ksm_do_scan_new rest (scan + 1) scan_npages l_add
  end.

(** Second loop: entries of the rescan list are unlinked; those flagged
    [DELLIST_FLAG] are skipped, the others go to the tail of [l_add]. *)
Fixpoint ksm_do_scan_rescan (items : list nat) (scan scan_npages : Z)
    (l_add : list nat) : M (list nat) :=
  match items with
  | [] => ret l_add
  | rmap_item :: rest =>
      modify (fun s => with_pksm_rescan_page_list
                (filter (fun x => x <> rmap_item) (pksm_rescan_page_list s)) s);;
      upd_rmap rmap_item
        (fun ri => with_address (clear_bits (address ri) RESCAN_LIST_FLAG) ri);;
      let* ri := get_rmap rmap_item in
      if has (address ri) DELLIST_FLAG then
        ksm_do_scan_rescan rest scan scan_npages l_add
      else
        let l_add := l_add ++ [rmap_item] in
        if scan >? scan_npages then ret l_add
        else ksm_do_scan_rescan rest (scan + 1) scan_npages l_add
  end.

(** Phase 1 of a tick: both loops, giving the working list [l_add]. *)
Definition ksm_do_scan_intake (scan_npages : Z) : M (list nat) :=
  let* s := get in
  let* l_add := ksm_do_scan_new (new_anon_page_list s) 0 scan_npages [] in
  let* s := get in
  ksm_do_scan_rescan (pksm_rescan_page_list s) 0 scan_npages l_add.

Definition requeue_rescan (rmap_item : nat) : M unit :=
  upd_rmap rmap_item
    (fun ri => with_address (set_bits (address ri) INITCHECKSUM_FLAG) ri);;
  upd_rmap rmap_item
    (fun ri => with_address (set_bits (address ri) RESCAN_LIST_FLAG) ri);;
  modify (fun s => with_pksm_rescan_page_list
            (pksm_rescan_page_list s ++ [rmap_item]) s).

(** The body of the third loop, over [l_add]. *)
Definition ksm_do_scan_one (fuel : nat) (rmap_item : nat) : M unit :=
  let* ri := get_rmap rmap_item in
  if has (address ri) DELLIST_FLAG then ret tt
  else
    let* init_checksum :=
      (if has (address ri) INITCHECKSUM_FLAG then
         upd_rmap rmap_item
           (fun ri => with_address (clear_bits (address ri) INITCHECKSUM_FLAG) ri);;
         ret true
       else ret false) in
    let* valid := check_valid_rmap_item (Some rmap_item) in
    if negb valid then ret tt
    else
      let* p := deref (ri_page ri) in
      let* pg := get_page p in
      if negb (PageAnon pg) then ret tt
      else
        let* got := get_page_unless_zero p in
        if negb got then ret tt
        else
          let* pg := get_page p in
          if PageLocked pg then requeue_rescan rmap_item;; put_page p
          else if check_page_dio pg then requeue_rescan rmap_item;; put_page p
          else
            let* code := cmp_and_merge_page fuel p rmap_item init_checksum in
            if (code =? PKSM_FAULT_SUCCESS) || (code =? PKSM_FAULT_KEEP) then
              put_page p
            else if code =? PKSM_FAULT_DROP then
              pksm_drop_rmap_item rmap_item;; put_page p
            else requeue_rescan rmap_item;; put_page p.

Fixpoint ksm_do_scan_work (fuel : nat) (l_add : list nat) : M unit :=
  match l_add with
  | [] => ret tt
  | rmap_item :: rest => ksm_do_scan_one fuel rmap_item;; ksm_do_scan_work fuel rest
  end.

Definition ksm_do_scan (fuel : nat) (scan_npages : Z) : M unit :=
  let* l_add := ksm_do_scan_intake scan_npages in
  ksm_do_scan_work fuel l_add;;
  pksm_free_all_rmap_items;;
  pksm_update_unstable_page_checksum.

(** ** Event intake *)

(** The content [pksm_alloc_rmap_item] gives a fresh item: zeroed memory,
    empty lists, a cleared tree node, a zero sharer counter. *)
Definition fresh_rmap_item : rmap_item :=
  RmapItem None None 0 [] false 0 0.

Definition pksm_add_new_anon_page (page_ rmap_item anon_vma : option nat) : M Z :=
  match rmap_item with
  | None => ret (- EFAULT)
  | Some r =>
      match page_, anon_vma with
      | Some p, Some av =>
          let* pg := get_page p in
          (* is pksm page ? *)
          if PagePKSM pg then ret (- EFAULT)
          else if negb (PageAnon pg) then ret (- EFAULT)
          else if PageKsm pg then ret (- EFAULT)
          else
            upd_rmap r (with_ri_anon_vma (Some av));;
            upd_page p (with_PG_pksm true);;
            upd_rmap r (fun ri => with_address (set_bits (address ri) NEWLIST_FLAG) ri);;
            upd_rmap r (fun ri => with_address (set_bits (address ri) INITCHECKSUM_FLAG) ri);;
            upd_page p (with_pksm (Some r));;
            upd_rmap r (with_ri_page (Some p));;
            modify (fun s => with_new_anon_page_list (new_anon_page_list s ++ [r]) s);;
            ret 0
      | _, _ => ret (- EFAULT)
      end
  end.

Definition pksm_del_anon_page (p : nat) : M Z :=
  let* pg := get_page p in
  if negb (PagePKSM pg) then ret (- EFAULT)
  else
    upd_page p (with_PG_pksm false);;
    match pksm pg with
    | None => ret (- EFAULT)
    | Some r =>
        let* ri := get_rmap r in
        if negb (bool_decide (ri_page ri = Some p)) then ret (- EFAULT)
        else
          let map := ri_mapcount ri in
          (if map >? 0 then pksm_del_sharing_page_counter p map else ret tt);;
          upd_page p (with_pksm None);;
          upd_rmap r (with_ri_page None);;
          let* ri := get_rmap r in
          (if has (address ri) (Z.lor NEWLIST_FLAG RESCAN_LIST_FLAG) then
             (* still at new list: directly free rmap_item *)
             modify (fun s => with_new_anon_page_list
                       (filter (fun x => x <> r) (new_anon_page_list s)) s);;
             modify (fun s => with_pksm_rescan_page_list
                       (filter (fun x => x <> r) (pksm_rescan_page_list s)) s);;
             upd_rmap r (with_address 0);;
             pksm_free_rmap_item (Some r)
           else
             upd_rmap r (fun ri => with_address (set_bits (address ri) DELLIST_FLAG) ri);;
             modify (fun s => with_del_anon_page_list (del_anon_page_list s ++ [r]) s));;
          ret 0
    end.

End Model.

(** ** Concrete machines *)

Module Scenario.
Import Mach Model.

(** A mapped anonymous page: one mapping, one reference. *)
Definition anon_page (av : nat) (content : list Z) : page :=
  Page (MappingAnon av) None false false false false false 1 1 0 content.

(** The frame of the engine's zero page. *)
Definition zero_frame : page :=
  Page MappingOther None false false false false false 1 0 0 (repeat 0 1024%nat).

(** A private writable vma of one page at [start], whose entry maps [pfn]. *)
Definition one_page_vma (start : Z) (pfn : nat) : vm_area :=
  VmArea 0 start (start + 4096) 0 {[ start := Pte pfn true true false ]}.

Definition words_x : list Z := repeat 7 1024%nat.
Definition words_y : list Z := repeat 9 1024%nat.
Definition words_z : list Z := repeat 11 1024%nat.

(** Five user pages: 10 and 11 hold the same bytes, 12 and 14 differ from
    them and from each other, 13 is all zero; frame 0 is the engine's zero
    page.  Five rmap items are allocated and idle.  The tunables have their
    initial values. *)
Definition boot : state :=
  State
    {[ 0%nat := zero_frame;
       10%nat := anon_page 20 words_x;
       11%nat := anon_page 21 words_x;
       12%nat := anon_page 22 words_y;
       13%nat := anon_page 23 (repeat 0 1024%nat);
       14%nat := anon_page 24 words_z ]}
    {[ 1%nat := fresh_rmap_item; 2%nat := fresh_rmap_item;
       3%nat := fresh_rmap_item; 4%nat := fresh_rmap_item;
       5%nat := fresh_rmap_item ]}
    {[ 20%nat := AnonVma 1 [30%nat]; 21%nat := AnonVma 1 [31%nat];
       22%nat := AnonVma 1 [32%nat]; 23%nat := AnonVma 1 [33%nat];
       24%nat := AnonVma 1 [34%nat] ]}
    {[ 30%nat := one_page_vma 4096 10; 31%nat := one_page_vma 8192 11;
       32%nat := one_page_vma 12288 12; 33%nat := one_page_vma 16384 13;
       34%nat := one_page_vma 20480 14 ]}
    rb_leaf rb_leaf [] [] [] []
    0 0 0 5 0 0
    1000 20 10
    Hash.identity_table 2062316308
    0%nat 1%nat
    8%nat.

(** Run a command and keep the state; a fault keeps the state it started
    from. *)
Definition exec {A} (c : M A) (s : state) : state :=
  match c s with
  | Ret _ s' => s'
  | Oops _ => s
  end.

Definition value {A} (c : M A) (s : state) : option A :=
  match c s with
  | Ret a _ => Some a
  | Oops _ => None
  end.

(** Pages 10 and 11 announced, then two ticks. *)
Definition announced_ab : state :=
  exec (pksm_add_new_anon_page (Some 11%nat) (Some 2%nat) (Some 21%nat))
    (exec (pksm_add_new_anon_page (Some 10%nat) (Some 1%nat) (Some 20%nat)) boot).

Definition merged_ab : state := exec (ksm_do_scan 8 1000) announced_ab.

(** The merged machine after both mappings of the merged frame 10 were
    unmapped, with page 12 announced as well, in two variants: the host has
    not yet reported the destruction of frame 10 ([stale_stable]); it has
    ([destroyed_stable]). *)
(** Host: the entry at [addr] of vma [v], which maps frame [p], is
    unmapped; the mapping and its reference on the frame go away. *)
Definition host_unmap (v : nat) (addr : Z) (p : nat) (s : state) : state :=
  with_vmas
    (alter (fun a => with_vm_ptes (delete addr (vm_ptes a)) a) v (vmas s))
    (with_pages
       (alter (fun g => with_page_mapcount (_mapcount g - 1)
                          (with_count (_count g - 1) g)) p (pages s)) s).

Definition unmapped_ab : state :=
  host_unmap 31 8192 10 (host_unmap 30 4096 10 merged_ab).


Definition destroyed_stable : state :=
  exec (pksm_add_new_anon_page (Some 12%nat) (Some 3%nat) (Some 22%nat))
    (exec (pksm_del_anon_page 10) unmapped_ab).

(** Pages 10, 12 and 14 announced; after one tick all three are in the
    unstable tree. *)
Definition announced_three : state :=
  exec (pksm_add_new_anon_page (Some 14%nat) (Some 5%nat) (Some 24%nat))
    (exec (pksm_add_new_anon_page (Some 12%nat) (Some 3%nat) (Some 22%nat))
       (exec (pksm_add_new_anon_page (Some 10%nat) (Some 1%nat) (Some 20%nat))
          boot)).

Definition three_unstable : state := exec (ksm_do_scan 8 1000) announced_three.

(** Host: the content of frame [p] is overwritten. *)
Definition host_write (p : nat) (content : list Z) (s : state) : state :=
  with_pages
    (alter (fun g => Page (mapping g) (pksm g) (PG_pksm g) (PG_locked g)
                       (PG_swapcache g) (PG_dirty g) (PG_mlocked g) (_count g)
                       (_mapcount g) (index g) content) p (pages s)) s.

(** Page 10 is written to while it sits in the unstable tree. *)
Definition touched_unstable : state := host_write 10 words_y three_unstable.

(** The zero page 13 announced. *)
Definition announced_zero : state :=
  exec (pksm_add_new_anon_page (Some 13%nat) (Some 4%nat) (Some 23%nat)) boot.

(** The state in which the tick calls [cmp_and_merge_page] on the zero
    page: the item is on the working list, its [INITCHECKSUM_FLAG] is
    cleared and the reference on the page is taken. *)
Definition queued_zero : state :=
  exec (ksm_do_scan_intake 1000;;
        upd_rmap 4 (fun ri =>
          with_address (clear_bits (address ri) INITCHECKSUM_FLAG) ri);;
        get_page_unless_zero 13) announced_zero.

(** A page that is not all zero and hashes to the zero checksum: the words
    the table selects are zero, the others are not.  Page 12 holds it and
    is announced; [queued_sparse] is the state in which the tick calls
    [cmp_and_merge_page] on it. *)
Definition words_sparse : list Z := repeat 0 64%nat ++ repeat 5 960%nat.

Definition queued_sparse : state :=
  exec (ksm_do_scan_intake 1000;;
        upd_rmap 3 (fun ri =>
          with_address (clear_bits (address ri) INITCHECKSUM_FLAG) ri);;
        get_page_unless_zero 12)
    (exec (pksm_add_new_anon_page (Some 12%nat) (Some 3%nat) (Some 22%nat))
       (host_write 12 words_sparse boot)).

End Scenario.

(** ** Start-up and the tunables *)

Module Setup.
Import Mach Hash Model.

Definition ENOMEM : Z := 12.
Definition EINVAL : Z := 22.
Definition UINT_MAX : Z := 2 ^ 32 - 1.

(** Stores to the tunables and to the sampling table. *)
Definition with_ksm_thread_pages_to_scan (v : Z) (s : state) : state :=
  State (pages s) (rmaps s) (anon_vmas s) (vmas s) (root_stable_tree s)
    (root_unstable_tree s) (new_anon_page_list s) (del_anon_page_list s)
    (pksm_rescan_page_list s) (unstabletree_checksum_list s)
    (ksm_pages_shared s) (ksm_pages_sharing s) (ksm_pages_unshared s)
    (ksm_rmap_items s) (ksm_stable_nodes s) (ksm_pages_zero_sharing s) v
    (ksm_thread_sleep_millisecs s) (pksm_unshared_page_update_period s)
    (pksm_random_table s) (pksm_zero_random_checksum s)
    (empty_pksm_zero_page s) (zero_pfn s) (stable_anon_avail s).
Definition with_ksm_thread_sleep_millisecs (v : Z) (s : state) : state :=
  State (pages s) (rmaps s) (anon_vmas s) (vmas s) (root_stable_tree s)
    (root_unstable_tree s) (new_anon_page_list s) (del_anon_page_list s)
    (pksm_rescan_page_list s) (unstabletree_checksum_list s)
    (ksm_pages_shared s) (ksm_pages_sharing s) (ksm_pages_unshared s)
    (ksm_rmap_items s) (ksm_stable_nodes s) (ksm_pages_zero_sharing s)
    (ksm_thread_pages_to_scan s) v (pksm_unshared_page_update_period s)
    (pksm_random_table s) (pksm_zero_random_checksum s)
    (empty_pksm_zero_page s) (zero_pfn s) (stable_anon_avail s).
Definition with_pksm_unshared_page_update_period (v : Z) (s : state) : state :=
  State (pages s) (rmaps s) (anon_vmas s) (vmas s) (root_stable_tree s)
    (root_unstable_tree s) (new_anon_page_list s) (del_anon_page_list s)
    (pksm_rescan_page_list s) (unstabletree_checksum_list s)
    (ksm_pages_shared s) (ksm_pages_sharing s) (ksm_pages_unshared s)
    (ksm_rmap_items s) (ksm_stable_nodes s) (ksm_pages_zero_sharing s)
    (ksm_thread_pages_to_scan s) (ksm_thread_sleep_millisecs s) v
    (pksm_random_table s) (pksm_zero_random_checksum s)
    (empty_pksm_zero_page s) (zero_pfn s) (stable_anon_avail s).
Definition with_pksm_random_table (v : list Z) (s : state) : state :=
  State (pages s) (rmaps s) (anon_vmas s) (vmas s) (root_stable_tree s)
    (root_unstable_tree s) (new_anon_page_list s) (del_anon_page_list s)
    (pksm_rescan_page_list s) (unstabletree_checksum_list s)
    (ksm_pages_shared s) (ksm_pages_sharing s) (ksm_pages_unshared s)
    (ksm_rmap_items s) (ksm_stable_nodes s) (ksm_pages_zero_sharing s)
    (ksm_thread_pages_to_scan s) (ksm_thread_sleep_millisecs s)
    (pksm_unshared_page_update_period s) v (pksm_zero_random_checksum s)
    (empty_pksm_zero_page s) (zero_pfn s) (stable_anon_avail s).
Definition with_pksm_zero_random_checksum (v : Z) (s : state) : state :=
  State (pages s) (rmaps s) (anon_vmas s) (vmas s) (root_stable_tree s)
    (root_unstable_tree s) (new_anon_page_list s) (del_anon_page_list s)
    (pksm_rescan_page_list s) (unstabletree_checksum_list s)
    (ksm_pages_shared s) (ksm_pages_sharing s) (ksm_pages_unshared s)
    (ksm_rmap_items s) (ksm_stable_nodes s) (ksm_pages_zero_sharing s)
    (ksm_thread_pages_to_scan s) (ksm_thread_sleep_millisecs s)
    (pksm_unshared_page_update_period s) (pksm_random_table s) v
    (empty_pksm_zero_page s) (zero_pfn s) (stable_anon_avail s).

(** The second loop of [init_random_sampling], from [i] on, [n] turns to
    go: entry [i] is swapped with the entry at
    [i + random32() % (RSAD_STRENGTH_FULL - i)].  [random32 k] is the value
    the call in turn [k] returns. *)
Fixpoint shuffle (random32 : nat -> Z) (i n : nat) (table : list Z)
  : option (list Z) :=
  match n with
  | O => Some table
  | S n' =>
      let rand_range := RSAD_STRENGTH_FULL - Z.of_nat i in
      let swap_index := Z.to_nat (Z.of_nat i + u32 (random32 i) mod rand_range) in
      match table !! i, table !! swap_index with
      | Some tmp, Some other =>
          shuffle random32 (S i) n' (<[swap_index := tmp]> (<[i := other]> table))
      | _, _ => None
      end
  end.

(** [init_random_sampling]; [kmalloc_ok] tells whether [kmalloc] served the
    table.  The first loop stores [i] at index [i]. *)
Definition init_random_sampling (kmalloc_ok : bool) (random32 : nat -> Z) : M Z :=
  if negb kmalloc_ok then ret (- ENOMEM)
  else
    let table := map Z.of_nat (seq 0 (Z.to_nat RSAD_STRENGTH_FULL)) in
    match shuffle random32 0 (Z.to_nat RSAD_STRENGTH_FULL) table with
    | None => oops OutOfBounds
    | Some table =>
        modify (with_pksm_random_table table);;
        match pksm_calc_zero_page_checksum table (Z.shiftr RSAD_STRENGTH_FULL 4) with
        | None => oops OutOfBounds
        | Some c => modify (with_pksm_zero_random_checksum c);; ret 0
        end
    end.

(** [pksm_alloc_rmap_item]: [slab] is what [kmem_cache_zalloc] returns, the
    name of a zeroed item or [NULL]. *)
Definition pksm_alloc_rmap_item (slab : option nat) : M (option nat) :=
  match slab with
  | Some r =>
      modify (fun s => with_rmaps (<[r := fresh_rmap_item]> (rmaps s)) s);;
      modify (fun s => with_ksm_rmap_items (u64 (ksm_rmap_items s + 1)) s);;
      ret (Some r)
  | None => ret None
  end.

(** The sysfs stores of the three tunables.  [parsed] is the outcome of
    [strict_strtoul(buf, 10, &v)]: the [unsigned long] read, or [None] when
    it reports an error. *)
Definition sleep_millisecs_store (parsed : option Z) (count : Z) : M Z :=
  match parsed with
  | None => ret (- EINVAL)
  | Some msecs =>
      if msecs >? UINT_MAX then ret (- EINVAL)
      else modify (with_ksm_thread_sleep_millisecs msecs);; ret count
  end.

Definition period_seconds_store (parsed : option Z) (count : Z) : M Z :=
  match parsed with
  | None => ret (- EINVAL)
  | Some secs =>
      if secs >? UINT_MAX then ret (- EINVAL)
      else modify (with_pksm_unshared_page_update_period secs);; ret count
  end.

Definition pages_to_scan_store (parsed : option Z) (count : Z) : M Z :=
  match parsed with
  | None => ret (- EINVAL)
  | Some nr_pages =>
      if nr_pages >? UINT_MAX then ret (- EINVAL)
      else modify (with_ksm_thread_pages_to_scan nr_pages);; ret count
  end.

End Setup.

(** ** The load distributor of [kernel/sched/bld.h] *)

Module Bld.
Import Mach.

(** Host constants (Linux 3.4): [WF_SYNC], [SD_BALANCE_WAKE]. *)
Definition WF_SYNC : Z := 1.
Definition SD_BALANCE_WAKE : Z := 16.
Definition ULONG_MAX : Z := 2 ^ 64 - 1.

(** What the selection reads from the scheduler: [cpu_rq(i)->load.weight],
    and the cpus of [sched_group_cpus(cpu_rq(c)->sd->groups)] and of
    [sched_domain_span(cpu_rq(c)->sd)] in the order [for_each_cpu] visits
    them. *)
Record sched : Type := Sched {
  load_weight : nat -> Z;
  group_cpus : nat -> list nat;
  domain_span : nat -> list nat
}.

(** The loop
    [for_each_cpu(i, mask) { load = cpu_rq(i)->load.weight;
       if (load < min_load) { min_load = load; cpu = i; } }]
    entered with the given [min_load] and [cpu]; the result is [cpu]. *)
Fixpoint least_loaded (load : nat -> Z) (mask : list nat) (min_load : Z)
    (cpu : nat) : nat :=
  match mask with
  | [] => cpu
  | i :: rest =>
      if load i <? min_load then least_loaded load rest (load i) i
      else least_loaded load rest min_load cpu
  end.

(** [this_cpu] is [smp_processor_id()], [prev_cpu] is [task_cpu(p)]. *)
Definition select_cpu_for_wakeup (h : sched) (this_cpu prev_cpu : nat)
    (sd_flags wake_flags : Z) : nat :=
  if has wake_flags WF_SYNC then
    if bool_decide (this_cpu = prev_cpu) then this_cpu
    else least_loaded (load_weight h) (group_cpus h prev_cpu) ULONG_MAX this_cpu
  else least_loaded (load_weight h) (domain_span h prev_cpu) ULONG_MAX this_cpu.

(** The walk over the dispatch list in the last branch of
    [bld_select_task_rq]: [cpu = cpu_of(rq)] for each entry, until one is
    online. *)
Fixpoint first_online (cpu_online : nat -> bool) (rq_head : list nat)
    (cpu : nat) : nat :=
  match rq_head with
  | [] => cpu
  | rq :: rest => if cpu_online rq then rq else first_online cpu_online rest rq
  end.

(** [bld_select_task_rq].  The first test is [if (&p->cpus_allowed)], the
    address of a member of [*p], which is not [NULL]; [cpus_allowed] is
    [tsk_cpus_allowed(p)] in [for_each_cpu] order, [rq_head] the dispatch
    list as the cpus of its run queues. *)
Definition bld_select_task_rq (h : sched) (this_cpu prev_cpu : nat)
    (cpus_allowed : list nat) (cpu_online : nat -> bool) (rq_head : list nat)
    (sd_flags wake_flags : Z) : nat :=
  let cpus_allowed_member_address_is_set := true in
  if cpus_allowed_member_address_is_set then
    least_loaded (load_weight h) cpus_allowed ULONG_MAX this_cpu
  else if has sd_flags SD_BALANCE_WAKE then
    select_cpu_for_wakeup h this_cpu prev_cpu sd_flags wake_flags
  else first_online cpu_online rq_head this_cpu.

(** A run queue as the tracking functions see it, and the dispatch list
    [rq_head] of run queues, first entry first. *)
Record rq : Type := Rq {
  rq_load : Z;          (* rq->load.weight *)
  rq_pos : Z            (* rq->pos: 0 first, 2 last, 1 in between *)
}.

Record disp : Type := Disp {
  rqs : gmap nat rq;
  rq_head : list nat
}.

(** [list_del(&rq->disp_load_balance); list_add_tail(&rq->disp_load_balance,
    &rq_head);] for a run queue that is on the list. *)
Definition move_to_tail (r : nat) (l : list nat) : list nat :=
  filter (fun x => x <> r) l ++ [r].

Definition set_pos (r : nat) (v : Z) (m : gmap nat rq) : option (gmap nat rq) :=
  q ← m !! r; Some (<[r := Rq (rq_load q) v]> m).

(** [bld_track_load_activate].  [None]: a run queue that does not exist is
    read, or the list is empty and [list_entry(rq_head.prev, ...)] is not a
    run queue. *)
Definition bld_track_load_activate (r : nat) (d : disp) : option disp :=
  me ← rqs d !! r;
  if negb (rq_pos me =? 2) then
    last_ ← last (rq_head d);
    lq ← rqs d !! last_;
    if rq_load me >? rq_load lq then
      m1 ← set_pos r 2 (rqs d);
      m2 ← set_pos last_ 1 m1;
      Some (Disp m2 (move_to_tail r (rq_head d)))
    else Some d
  else Some d.

(** [bld_track_load_deactivate]; [None] as above, with
    [list_first_entry(&rq_head, ...)]. *)
Definition bld_track_load_deactivate (r : nat) (d : disp) : option disp :=
  me ← rqs d !! r;
  if negb (rq_pos me =? 0) then
    first_ ← head (rq_head d);
    fq ← rqs d !! first_;
    if rq_load me <=? rq_load fq then
      m1 ← set_pos r 0 (rqs d);
      m2 ← set_pos first_ 1 m1;
      Some (Disp m2 (move_to_tail r (rq_head d)))
    else Some d
  else Some d.

(** Three run queues in list order, the first lightly loaded and marked
    first, the last loaded most and marked last. *)
Definition three_queues : disp :=
  Disp {[ 0%nat := Rq 1 0; 1%nat := Rq 3 1; 2%nat := Rq 5 2 ]} [0; 1; 2]%nat.

(** The same queues after queue 0 has received load and queue 2 has lost
    its load. *)
Definition three_queues_shifted : disp :=
  Disp {[ 0%nat := Rq 7 0; 1%nat := Rq 3 1; 2%nat := Rq 0 2 ]} [0; 1; 2]%nat.

End Bld.

(** ** The host's walk over the mappings of a merged page *)

Module Walk.
Import Mach Model.

(** Host constant ([include/linux/rmap.h]). *)
Definition SWAP_AGAIN : Z := 1.

Section Callback.
(** [rmap_one] is the caller's function and [arg] its private argument,
    which the function may update; the function is given the page, the vma
    and an address.  It leaves the items and the anon_vma chains alone: the
    walk holds the anon_vma lock around each call. *)
Context {A : Type}.
Variable rmap_one : nat -> nat -> Z -> A -> Z * A.

(** [list_for_each_entry(vmac, &anon_vma->head, same_anon_vma)]; the
    boolean tells whether the loop was left by [goto out]. *)
Fixpoint rmap_walk_ksm_chain (p rmap_item : nat) (chain : list nat) (ret_ : Z)
    (arg : A) : M (bool * Z * A) :=
  match chain with
  | [] => ret (false, ret_, arg)
  | vma :: rest =>
      let* ri := get_rmap rmap_item in
      let (ret_, arg) := rmap_one p vma (address ri) arg in
      if negb (ret_ =? SWAP_AGAIN) then ret (true, ret_, arg)
      else rmap_walk_ksm_chain p rmap_item rest ret_ arg
  end.

(** [hlist_for_each_entry(stable_anon, hlist, &rmap_item->hlist, hlist)]. *)
Fixpoint rmap_walk_ksm_anchors (p rmap_item : nat)
    (anchors : list stable_node_anon) (ret_ : Z) (arg : A) : M (bool * Z * A) :=
  match anchors with
  | [] => ret (false, ret_, arg)
  | stable_anon :: rest =>
      let* anon_vma := deref (sna_anon_vma stable_anon) in
      let* av := get_anon anon_vma in
      let* r := rmap_walk_ksm_chain p rmap_item (av_head av) ret_ arg in
      match r with
      | (true, ret_, arg) => ret (true, ret_, arg)
      | (false, ret_, arg) => rmap_walk_ksm_anchors p rmap_item rest ret_ arg
      end
  end.

(** [rmap_walk_ksm].  The two [VM_BUG_ON]s are empty without
    [CONFIG_DEBUG_VM].  [search_new_forks] is tested only at the end of the
    outer loop: the first time it sends the walk back to [again:], the
    second time it lets it through. *)
Definition rmap_walk_ksm (p : nat) (arg : A) : M (Z * A) :=
  let ret_ := SWAP_AGAIN in
  let* rmap_item := page_stable_rmap_item p in
  match rmap_item with
  | None => ret (ret_, arg)
  | Some r =>
      let* ri := get_rmap r in
      let* r1 := rmap_walk_ksm_anchors p r (hlist ri) ret_ arg in
      match r1 with
      | (true, ret_, arg) => ret (ret_, arg)
      | (false, ret_, arg) =>
          let* ri := get_rmap r in
          let* r2 := rmap_walk_ksm_anchors p r (hlist ri) ret_ arg in
          ret (snd (fst r2), snd r2)
      end
  end.

End Callback.

End Walk.

(** ** Further machines *)

Module Machines.
Import Mach Model Scenario.

(** Host: frame [p] is locked. *)
Definition host_lock (p : nat) (s : state) : state :=
  with_pages (alter (with_PG_locked true) p (pages s)) s.

(** Pages 10, 12 and 14 announced and 12 and 14 locked: the tick puts 10
    into the unstable tree and leaves the items of 12 and 14 on the rescan
    list. *)
Definition locked_rescan : state :=
  exec (ksm_do_scan 8 1000) (host_lock 14 (host_lock 12 announced_three)).

(** The same with the item of page 12 flagged [DELLIST_FLAG], as a
    destruction of the page leaves it that finds the item on the working
    list of a tick which then requeues it. *)
Definition flagged_rescan : state :=
  exec (upd_rmap 3 (fun ri => with_address (set_bits (address ri) DELLIST_FLAG) ri))
    locked_rescan.

(** The state in which [cmp_and_merge_page] searches the trees for page
    [p] with item [r]: the item went through the intake, its checksum is
    made and the tick holds a reference on the page. *)
Definition searching (p r : nat) (s : state) : state :=
  exec (ksm_do_scan_intake 1000;;
        upd_rmap r (fun ri =>
          with_address (clear_bits (address ri) INITCHECKSUM_FLAG) ri);;
        get_page_unless_zero p;;
        let* c := calc_checksum p in
        upd_rmap r (with_checksum c)) s.

(** Page 12 holds the bytes of the merged page 10 and is searched for. *)
Definition third_copy : state :=
  searching 12 3
    (exec (pksm_add_new_anon_page (Some 12%nat) (Some 3%nat) (Some 22%nat))
       (host_write 12 words_x merged_ab)).

(** Page 11 holds the bytes of page 10, which sits in the unstable tree,
    and is searched for. *)
Definition second_copy : state :=
  searching 11 2
    (exec (pksm_add_new_anon_page (Some 11%nat) (Some 2%nat) (Some 21%nat))
       three_unstable).

(** Page 10 alone announced and scanned: it is the one node of the
    unstable tree. *)
Definition one_unstable : state :=
  exec (ksm_do_scan 8 1000)
    (exec (pksm_add_new_anon_page (Some 10%nat) (Some 1%nat) (Some 20%nat)) boot).

(** Page 12, with other bytes, is searched for next. *)
Definition fresh_page : state :=
  searching 12 3
    (exec (pksm_add_new_anon_page (Some 12%nat) (Some 3%nat) (Some 22%nat))
       one_unstable).

End Machines.

(** * The vocabulary of the statements *)

(** The predicates and functions the statements below are written with. *)

Module Spec.
Import Mach Model.

(** *** Flag bits *)

Definition flag_bit (f : Z) : Z := Z.log2 f.

(** *** Sharing counters *)

(** The sharing counters after the decrement by [map]. *)
Definition sharing_after (sharing map : Z) : Z :=
  if map >? 0 then u64 (sharing - map) else sharing.

(** *** The sharer counter and the anchors *)

(** The invariant as the specification words it (P1): on every merged
    page, the sharer counter of its stable rmap item equals the number of
    anchors on the item's list. *)
Definition sharer_counter_is_anchor_count (s : state) : Prop :=
  forall p pg r ri,
    pages s !! p = Some pg -> PageKsm pg = true -> pksm pg = Some r ->
    rmaps s !! r = Some ri -> in_stable_tree ri = true ->
    ri_mapcount ri = Z.of_nat (length (hlist ri)).

(** *** Tree slots and what removal from a tree does *)

(** A slot is where a descent fell off the tree. *)
Fixpoint slot_of (slot : list bool) (t : rb_tree) : Prop :=
  match t, slot with
  | rb_leaf, [] => True
  | rb_node l _ r, false :: slot' => slot_of slot' l
  | rb_node l _ r, true :: slot' => slot_of slot' r
  | _, _ => False
  end.

(** The flag word an item is left with. *)
Definition address_after_remove (ri : rmap_item) : Z :=
  if has (address ri) STABLE_FLAG then
    if node_linked ri then clear_bits (address ri) STABLE_FLAG else address ri
  else if has (address ri) UNSTABLE_FLAG then
    let a := if node_linked ri then clear_bits (address ri) UNSTABLE_FLAG
             else address ri in
    if has a CHECKSUM_LIST_FLAG then clear_bits a CHECKSUM_LIST_FLAG else a
  else address ri.

Definition leaves_stable (ri : rmap_item) : bool :=
  has (address ri) STABLE_FLAG && node_linked ri.

Definition leaves_unstable (ri : rmap_item) : bool :=
  negb (has (address ri) STABLE_FLAG) && has (address ri) UNSTABLE_FLAG
  && node_linked ri.

Definition leaves_checksum_list (ri : rmap_item) : bool :=
  negb (has (address ri) STABLE_FLAG) && has (address ri) UNSTABLE_FLAG
  && has (address ri) CHECKSUM_LIST_FLAG.

(** *** States that differ in reference counts only *)

(** Two page tables of frames that differ in reference counts only. *)
Definition pages_quiet (ps ps' : gmap nat page) : Prop :=
  forall p,
    match ps !! p, ps' !! p with
    | Some a, Some b => exists c, b = with_count c a
    | None, None => True
    | _, _ => False
    end.

(** [quiet s s']: from [s] to [s'] nothing but page reference counts has
    changed. *)
Definition quiet (s s' : state) : Prop :=
  rmaps s' = rmaps s /\
  root_stable_tree s' = root_stable_tree s /\
  root_unstable_tree s' = root_unstable_tree s /\
  unstabletree_checksum_list s' = unstabletree_checksum_list s /\
  new_anon_page_list s' = new_anon_page_list s /\
  pksm_rescan_page_list s' = pksm_rescan_page_list s /\
  del_anon_page_list s' = del_anon_page_list s /\
  vmas s' = vmas s /\
  pages_quiet (pages s) (pages s').

(** *** What one pass of a descent has done *)

(** A node is dead when the descents evict it: flagged [DELLIST_FLAG] or
    without a page. *)
Definition dead_in (s : state) (n : nat) : Prop :=
  exists ri, rmaps s !! n = Some ri /\ node_is_dead ri = true.

Definition alive_in (s : state) (n : nat) : Prop :=
  exists ri, rmaps s !! n = Some ri /\ node_is_dead ri = false.

(** The nodes a descent went through on its way to a slot. *)
Fixpoint path_nodes (slot : list bool) (t : rb_tree) : list nat :=
  match t, slot with
  | rb_node l x r, false :: slot' => x :: path_nodes slot' l
  | rb_node l x r, true :: slot' => x :: path_nodes slot' r
  | _, _ => []
  end.

(** What a pass over the tree [t], started in [s], has done when it ends
    with [d] in [s']; [acquire] is the acquisition the descent uses. *)
Definition walk_post (acquire : nat -> M (option nat)) (t : rb_tree) (s : state)
    (d : descent walk_end) (s' : state) : Prop :=
  match d with
  | Evict n =>
      n ∈ rb_nodes t /\ dead_in s n /\
      exists s1, quiet s s1 /\
                 remove_rmap_item_from_tree (Some n) false s1 = Ret tt s'
  | Stop e =>
      quiet s s' /\
      match e with
      | AcquireFailed n =>
          n ∈ rb_nodes t /\ alive_in s n /\
          exists s1, quiet s s1 /\ acquire n s1 = Ret None s'
      | Hit n p => n ∈ rb_nodes t /\ alive_in s n
      | Forked n => n ∈ rb_nodes t /\ alive_in s n
      | Miss slot =>
          slot_of slot t /\ forall n, n ∈ path_nodes slot t -> alive_in s n
      end
  end.

(** *** Trees in good order and evictions *)

(** The tree a descent walks, and the test under which
    [remove_rmap_item_from_tree] unlinks an item from it. *)
Definition tree_of (stable : bool) (s : state) : rb_tree :=
  if stable then root_stable_tree s else root_unstable_tree s.

Definition leaves (stable : bool) (ri : rmap_item) : bool :=
  if stable then leaves_stable ri else leaves_unstable ri.

(** A node in good order: its item carries the flag of its tree and is
    linked, and the page of the item, if any, points back at the item. *)
Definition node_ok (stable : bool) (s : state) (n : nat) : Prop :=
  exists ri, rmaps s !! n = Some ri /\ leaves stable ri = true /\
    forall q, ri_page ri = Some q ->
      exists qg, pages s !! q = Some qg /\ pksm qg = Some n.

Definition tree_ok (stable : bool) (s : state) : Prop :=
  NoDup (rb_nodes (tree_of stable s)) /\
  forall n, n ∈ rb_nodes (tree_of stable s) -> node_ok stable s n.


(** The effect of the eviction of [n]. *)
Definition evicted (s : state) (n : nat) (s' : state) : Prop :=
  exists ri ri',
    rmaps s !! n = Some ri /\ node_is_dead ri = true /\
    rmaps s' !! n = Some ri' /\
    address ri' = address_after_remove ri /\ ri_page ri' = ri_page ri /\
    (forall x, x <> n -> rmaps s' !! x = rmaps s !! x) /\
    pages_quiet (pages s) (pages s') /\
    (forall b, tree_of b s' =
               if leaves b ri then rb_erase n (tree_of b s) else tree_of b s) /\
    unstabletree_checksum_list s' =
      (if leaves_checksum_list ri
       then filter (fun x => x <> n) (unstabletree_checksum_list s)
       else unstabletree_checksum_list s).

(** An item that carries neither tree flag keeps that through the
    eviction of a node of a tree in good order. *)
Definition unlinked_item (s : state) (r : nat) : Prop :=
  exists ri, rmaps s !! r = Some ri /\
    has (address ri) STABLE_FLAG = false /\
    has (address ri) UNSTABLE_FLAG = false.

(** *** The passes of the three descents *)


Definition stable_insert_pass (rmap_item : nat) : M (descent walk_end) :=
  let* s := get in stable_tree_insert_walk rmap_item (root_stable_tree s).

Definition unstable_pass (rmap_item p : nat) : M (descent walk_end) :=
  let* s := get in
  unstable_tree_search_insert_walk rmap_item p (root_unstable_tree s).



(** *** The checksum list *)

(** Every item on the checksum list is a node of the unstable tree and
    carries [CHECKSUM_LIST_FLAG]. *)
Definition checksum_list_ok (s : state) : Prop :=
  forall x, x ∈ unstabletree_checksum_list s ->
    x ∈ rb_nodes (root_unstable_tree s) /\
    exists ri, rmaps s !! x = Some ri /\
               has (address ri) CHECKSUM_LIST_FLAG = true.

(** *** The revalidation sample *)

(** The sample size as the specification words it. *)
Definition spec_sample_size (s : state) : Z :=
  Z.min (ksm_pages_unshared s * ksm_thread_sleep_millisecs s
         / (pksm_unshared_page_update_period s * 1000))
        (ksm_thread_pages_to_scan s).

(** The value [pksm_calc_update_pages_num] computes, without wrap-around. *)
Definition update_pages_num (s : state) : Z :=
  if ksm_pages_unshared s <? ksm_thread_pages_to_scan s
  then ksm_pages_unshared s
  else ksm_pages_unshared s * ksm_thread_sleep_millisecs s
       / (pksm_unshared_page_update_period s * 1000).

(** The tunables and the counter are in the range of their C types and the
    product does not wrap. *)
Definition tunables_in_range (s : state) : Prop :=
  0 <= ksm_pages_unshared s /\
  0 <= ksm_thread_pages_to_scan s < 2 ^ 32 /\
  0 <= ksm_thread_sleep_millisecs s < 2 ^ 32 /\
  0 < pksm_unshared_page_update_period s * 1000 < 2 ^ 32 /\
  ksm_pages_unshared s * ksm_thread_sleep_millisecs s < 2 ^ 64 /\
  ksm_pages_unshared s * ksm_thread_sleep_millisecs s
    / (pksm_unshared_page_update_period s * 1000) < 2 ^ 32.

(** *** Mappings and the zero path *)

(** The frame the entry at [addr] of vma [v] maps, if there is one. *)
Definition maps_to (s : state) (v : nat) (addr : Z) : option nat :=
  match vmas s !! v with
  | Some a => pte_pfn <$> vm_ptes a !! addr
  | None => None
  end.

(** What the merge primitives leave alone: the trees, the checksum list,
    the zero frame, the hash table and the content of every page. *)
Definition merge_frame (s s' : state) : Prop :=
  root_stable_tree s' = root_stable_tree s /\
  root_unstable_tree s' = root_unstable_tree s /\
  unstabletree_checksum_list s' = unstabletree_checksum_list s /\
  empty_pksm_zero_page s' = empty_pksm_zero_page s /\
  zero_pfn s' = zero_pfn s /\
  forall q, (words <$> pages s' !! q) = (words <$> pages s !! q).

(** Between [s] and [s'] an entry either maps the frame it mapped, or it
    mapped [p] and now maps [k]. *)
Definition redirects (p k : nat) (s s' : state) : Prop :=
  forall v addr,
    maps_to s' v addr = maps_to s v addr \/
    (maps_to s v addr = Some p /\ maps_to s' v addr = Some k).

(** *** The way of a descent *)



(** *** The revalidation sample in the arithmetic of C *)

(** The counter and the tunables are in the range of their C types:
    [unsigned long] for the counter, [unsigned int] for the tunables. *)
Definition tunables_in_c_range (s : state) : Prop :=
  0 <= ksm_pages_unshared s < 2 ^ 64 /\
  0 <= ksm_thread_pages_to_scan s < 2 ^ 32 /\
  0 <= ksm_thread_sleep_millisecs s < 2 ^ 32 /\
  0 <= pksm_unshared_page_update_period s < 2 ^ 32.

(** The sample size with the wrap-around of C: the product is taken in 64
    bits, the divisor in 32 bits, and the quotient is cut to 32 bits;
    [None] when the divisor is 0. *)
Definition update_pages_num_c (s : state) : option Z :=
  if ksm_pages_unshared s <? ksm_thread_pages_to_scan s
  then Some (ksm_pages_unshared s)
  else
    let divisor := (pksm_unshared_page_update_period s * 1000) mod 2 ^ 32 in
    if divisor =? 0 then None
    else Some (((ksm_pages_unshared s * ksm_thread_sleep_millisecs s) mod 2 ^ 64
                / divisor) mod 2 ^ 32).

End Spec.

(** ** The vocabulary of the further properties *)

Module Spec2.
Import Mach Model Spec.

(** The entry at [addr] in the page table of vma [v]. *)
Definition pte_at (s : state) (v : nat) (addr : Z) : option pte :=
  match vmas s !! v with
  | Some a => vm_ptes a !! addr
  | None => None
  end.

(** What a read through the entry at [addr] of vma [v] sees: the content
    of the frame the entry maps. *)
Definition reads (s : state) (v : nat) (addr : Z) : option (list Z) :=
  match maps_to s v addr with
  | Some p => words <$> pages s !! p
  | None => None
  end.

(** No frame has changed content between [s] and [s']. *)
Definition same_content (s s' : state) : Prop :=
  forall q, (words <$> pages s' !! q) = (words <$> pages s !! q).

(** Between [s] and [s'] no frame has changed content, the zero frame is
    the same frame, and a read through any entry sees what it saw. *)
Definition same_memory (s s' : state) : Prop :=
  same_content s s' /\
  empty_pksm_zero_page s' = empty_pksm_zero_page s /\
  forall v addr, reads s' v addr = reads s v addr.

(** The engine's zero frame exists and holds zeros, and the frames are of
    one size. *)
Definition zero_frame_ok (s : state) : Prop :=
  exists zf,
    pages s !! empty_pksm_zero_page s = Some zf /\
    Hash.is_full_zero (words zf) = true /\
    forall q pg, pages s !! q = Some pg -> length (words pg) = length (words zf).

(** A command that, wherever it returns, has kept the memory as mappings
    see it. *)
Definition keeps_memory {A} (c : M A) : Prop :=
  forall s a s', zero_frame_ok s -> c s = Ret a s' -> same_memory s s'.

(** A command that relates the state it returns in to the state it was
    started in by [R]. *)
Definition keeps_rel {A} (R : state -> state -> Prop) (c : M A) : Prop :=
  forall s a s', c s = Ret a s' -> R s s'.

(** The states agree on what [f] reads from them. *)
Definition same_on {B} (f : state -> B) (s s' : state) : Prop := f s' = f s.

(** Is the item flagged for deletion? *)
Definition del_flagged (s : state) (r : nat) : bool :=
  match rmaps s !! r with
  | Some ri => has (address ri) DELLIST_FLAG
  | None => false
  end.

(** The vmas chained on the anon_vmas of the anchors, in order; [None]
    when an anchor has no anon_vma or the anon_vma is missing. *)
Fixpoint chains (s : state) (anchors : list stable_node_anon)
  : option (list nat) :=
  match anchors with
  | [] => Some []
  | sa :: rest =>
      match sna_anon_vma sa with
      | Some av =>
          match anon_vmas s !! av, chains s rest with
          | Some a, Some vs => Some (av_head a ++ vs)
          | _, _ => None
          end
      | None => None
      end
  end.

(** Calls of [rmap_one] on the vmas of [vs] in order, up to the first
    result other than [SWAP_AGAIN]. *)
Fixpoint visit {A} (rmap_one : nat -> nat -> Z -> A -> Z * A) (p : nat)
    (addr : Z) (vs : list nat) (ret_ : Z) (arg : A) : Z * A :=
  match vs with
  | [] => (ret_, arg)
  | v :: rest =>
      let (r, a) := rmap_one p v addr arg in
      if r =? Walk.SWAP_AGAIN then visit rmap_one p addr rest r a else (r, a)
  end.

(** The unshared counter is the number of nodes of the unstable tree. *)
Definition unshared_counts_tree (s : state) : Prop :=
  ksm_pages_unshared s = Z.of_nat (rb_size (root_unstable_tree s)).

(** What a pass leaves in the counter. *)
Definition counter_after (s : state) (d : descent walk_end) : Z :=
  match d with
  | Evict n =>
      match rmaps s !! n with
      | Some ri => if leaves_unstable ri then u64 (ksm_pages_unshared s - 1)
                   else ksm_pages_unshared s
      | None => ksm_pages_unshared s
      end
  | Stop _ => ksm_pages_unshared s
  end.

(** Every frame of [ps] is a frame of [ps'] with the same [mapping] and
    the same item. *)
Definition same_links (ps ps' : gmap nat page) : Prop :=
  forall q g, ps !! q = Some g ->
    exists g', ps' !! q = Some g' /\ mapping g' = mapping g /\ pksm g' = pksm g.

(** The items are the same and every frame keeps its links. *)
Definition steady (s s' : state) : Prop :=
  rmaps s' = rmaps s /\ same_links (pages s) (pages s').

End Spec2.

(** * Properties *)

(** ** The hash (C2) *)

Module HashFacts.
Import Mach Hash.

Lemma HASH_FROM_TO_fold (table key : list Z) (n index : nat) (hash : Z) :
  (index + n <= length table)%nat ->
  HASH_FROM_TO table key index n hash =
    (ws ← mapM (fun pos => key !! Z.to_nat pos) (take n (drop index table));
     Some (fold_left hash_round ws hash)).
Proof.
  revert index hash. induction n as [|n IH]; intros index hash Hlen.
  - reflexivity.
  - cbn [HASH_FROM_TO].
    destruct (table !! index) as [pos|] eqn:Hpos.
    2:{ apply lookup_ge_None in Hpos. lia. }
    rewrite (drop_S _ _ _ Hpos). cbn [take mapM].
    destruct (key !! Z.to_nat pos) as [w|] eqn:Hw; [|reflexivity].
    rewrite IH by lia. cbn.
    destruct (mapM _ _); reflexivity.
Qed.

(** The round of the source in plain arithmetic. *)
Lemma hash_round_arith (h w : Z) :
  hash_round h w =
    let t := (h + w) mod 2 ^ 32 in
    let t' := (t + (t * 2 ^ 8) mod 2 ^ 32) mod 2 ^ 32 in
    Z.lxor t' (t' / 2 ^ 12).
Proof.
  unfold hash_round, u32, shiftl, shiftr. cbv zeta.
  rewrite Z.shiftl_mul_pow2, Z.shiftr_div_pow2 by lia. reflexivity.
Qed.

Lemma hash_round_range (h w : Z) : 0 <= hash_round h w < 2 ^ 32.
Proof.
  unfold hash_round. cbv zeta.
  set (t := u32 (u32 (h + w) + u32 (Z.shiftl (u32 (h + w)) shiftl))).
  assert (Ht : 0 <= t < 2 ^ 32) by (apply Z.mod_pos_bound; lia).
  assert (Hs : 0 <= Z.shiftr t shiftr < 2 ^ 32).
  { rewrite Z.shiftr_div_pow2 by (unfold shiftr; lia). unfold shiftr.
    split; [apply Z.div_pos; lia|].
    apply Z.le_lt_trans with t; [|lia].
    apply Z.div_le_upper_bound; lia. }
  split.
  - apply Z.lxor_nonneg. lia.
  - destruct (Z.eq_dec (Z.lxor t (Z.shiftr t shiftr)) 0) as [->|Hnz]; [lia|].
    apply Z.log2_lt_cancel. 
    eapply Z.le_lt_trans; [apply Z.log2_lxor; lia|].
    change (Z.log2 (2 ^ 32)) with 32.
    apply Z.max_lub_lt.
    + destruct (Z.eq_dec t 0) as [->|]; [cbn; lia|].
      apply Z.log2_lt_pow2; lia.
    + destruct (Z.eq_dec (Z.shiftr t shiftr) 0) as [->|]; [cbn; lia|].
      apply Z.log2_lt_pow2; lia.
Qed.

(** C2 as stated fails: on the all-zero page under the identity
    permutation the source and the formula of the specification give
    different values. *)
Lemma calc_checksum_not_spec_fold :
  calc_checksum identity_table zero_words <> spec_checksum identity_table zero_words.
Proof. vm_compute. discriminate. Qed.

(** C2, amended: [calc_checksum] folds the [N >> 4 = 64] words the
    permutation table selects, from [0xdeadbeef], and each step computes
    [t = h + w; t = t + (t << 8); h = t ^ (t >> 12)] on 32 bits. *)
Theorem calc_checksum_fold (table key : list Z) :
  (Z.to_nat (Z.shiftr RSAD_STRENGTH_FULL 4) <= length table)%nat ->
  Z.shiftr RSAD_STRENGTH_FULL 4 = (PAGE_SIZE / 4) / 2 ^ 4 /\
  calc_checksum table key =
    (ws ← selected_words table key (Z.to_nat (Z.shiftr RSAD_STRENGTH_FULL 4));
     Some (fold_left hash_round ws 3735928559)) /\
  (forall h w,
      hash_round h w =
        let t := (h + w) mod 2 ^ 32 in
        let t' := (t + (t * 2 ^ 8) mod 2 ^ 32) mod 2 ^ 32 in
        Z.lxor t' (t' / 2 ^ 12)) /\
  (forall h w, 0 <= hash_round h w < 2 ^ 32).
Proof.
  intros Hlen. split; [reflexivity|]. split; [|split].
  - unfold calc_checksum, pksm_calc_checksum, selected_words.
    rewrite HASH_FROM_TO_fold by (cbn [Nat.add]; exact Hlen).
    rewrite drop_0. reflexivity.
  - apply hash_round_arith.
  - apply hash_round_range.
Qed.

Lemma calc_checksum_fold_witness :
  (Z.to_nat (Z.shiftr RSAD_STRENGTH_FULL 4) <= length identity_table)%nat /\
  calc_checksum identity_table zero_words
  = (ws ← selected_words identity_table zero_words
            (Z.to_nat (Z.shiftr RSAD_STRENGTH_FULL 4));
     Some (fold_left hash_round ws 3735928559)) /\
  calc_checksum identity_table zero_words = Some 2062316308.
Proof.
  assert (Hlen : (Z.to_nat (Z.shiftr RSAD_STRENGTH_FULL 4)
                  <= length identity_table)%nat) by (vm_compute; lia).
  split; [exact Hlen|].
  split; [exact (proj1 (proj2 (calc_checksum_fold identity_table zero_words Hlen)))|].
  vm_compute. reflexivity.
Defined.

End HashFacts.

(** ** Reasoning about the monad and the flag word *)

Module Infra.
Import Mach Model Spec.

Lemma bind_inv {A B} (c : M A) (k : A -> M B) s b s' :
  bind c k s = Ret b s' -> exists a s1, c s = Ret a s1 /\ k a s1 = Ret b s'.
Proof. unfold bind. destruct (c s) as [a s1|]; [eauto|discriminate]. Qed.

Lemma bind_Ret {A B} (c : M A) (k : A -> M B) s a s1 :
  c s = Ret a s1 -> bind c k s = k a s1.
Proof. unfold bind. intros ->. reflexivity. Qed.

Lemma bind_Oops {A B} (c : M A) (k : A -> M B) s f :
  c s = Oops f -> bind c k s = Oops f.
Proof. unfold bind. intros ->. reflexivity. Qed.

Lemma ret_inv {A} (a b : A) s s' : ret a s = Ret b s' -> a = b /\ s = s'.
Proof. unfold ret. intros [= -> ->]. auto. Qed.

Lemma get_inv s a s' : get s = Ret a s' -> a = s /\ s' = s.
Proof. unfold get. intros [= <- <-]. auto. Qed.

Lemma modify_inv f s u s' : modify f s = Ret u s' -> s' = f s.
Proof. unfold modify. intros [= _ <-]. reflexivity. Qed.

Lemma get_page_inv p s pg s' :
  get_page p s = Ret pg s' -> s' = s /\ pages s !! p = Some pg.
Proof. unfold get_page. destruct (pages s !! p); intros [= <- <-]; auto. Qed.

Lemma get_rmap_inv r s ri s' :
  get_rmap r s = Ret ri s' -> s' = s /\ rmaps s !! r = Some ri.
Proof. unfold get_rmap. destruct (rmaps s !! r); intros [= <- <-]; auto. Qed.

Lemma get_vma_inv v s a s' :
  get_vma v s = Ret a s' -> s' = s /\ vmas s !! v = Some a.
Proof. unfold get_vma. destruct (vmas s !! v); intros [= <- <-]; auto. Qed.

Lemma get_anon_inv v s a s' :
  get_anon v s = Ret a s' -> s' = s /\ anon_vmas s !! v = Some a.
Proof. unfold get_anon. destruct (anon_vmas s !! v); intros [= <- <-]; auto. Qed.

Lemma deref_inv {A} (o : option A) s a s' :
  deref o s = Ret a s' -> s' = s /\ o = Some a.
Proof. destruct o; cbn; [intros [= <- <-]; auto|discriminate]. Qed.

Lemma BUG_ON_inv c s u s' : BUG_ON c s = Ret u s' -> s' = s /\ c = false.
Proof. destruct c; cbn; [discriminate|intros [= _ <-]; auto]. Qed.

Lemma upd_page_inv p f s u s' :
  upd_page p f s = Ret u s' ->
  exists pg, pages s !! p = Some pg /\ s' = with_pages (<[p := f pg]> (pages s)) s.
Proof.
  unfold upd_page. intros H. apply bind_inv in H as (pg & s1 & H1 & H2).
  apply get_page_inv in H1 as [-> H1]. apply modify_inv in H2. eauto.
Qed.

Lemma upd_rmap_inv r f s u s' :
  upd_rmap r f s = Ret u s' ->
  exists ri, rmaps s !! r = Some ri /\ s' = with_rmaps (<[r := f ri]> (rmaps s)) s.
Proof.
  unfold upd_rmap. intros H. apply bind_inv in H as (pg & s1 & H1 & H2).
  apply get_rmap_inv in H1 as [-> H1]. apply modify_inv in H2. eauto.
Qed.

Lemma upd_vma_inv r f s u s' :
  upd_vma r f s = Ret u s' ->
  exists a, vmas s !! r = Some a /\ s' = with_vmas (<[r := f a]> (vmas s)) s.
Proof.
  unfold upd_vma. intros H. apply bind_inv in H as (pg & s1 & H1 & H2).
  apply get_vma_inv in H1 as [-> H1]. apply modify_inv in H2. eauto.
Qed.

Lemma get_page_Ret p s pg : pages s !! p = Some pg -> get_page p s = Ret pg s.
Proof. unfold get_page. intros ->. reflexivity. Qed.

Lemma get_rmap_Ret r s ri : rmaps s !! r = Some ri -> get_rmap r s = Ret ri s.
Proof. unfold get_rmap. intros ->. reflexivity. Qed.

Lemma upd_page_Ret p f s pg :
  pages s !! p = Some pg ->
  upd_page p f s = Ret tt (with_pages (<[p := f pg]> (pages s)) s).
Proof. intros H. unfold upd_page. rewrite (bind_Ret _ _ _ _ _ (get_page_Ret _ _ _ H)). reflexivity. Qed.

Lemma upd_rmap_Ret r f s ri :
  rmaps s !! r = Some ri ->
  upd_rmap r f s = Ret tt (with_rmaps (<[r := f ri]> (rmaps s)) s).
Proof. intros H. unfold upd_rmap. rewrite (bind_Ret _ _ _ _ _ (get_rmap_Ret _ _ _ H)). reflexivity. Qed.

(** One step of inversion of a run that returned. *)
Ltac minv1 H :=
  lazymatch type of H with
  | bind _ _ _ = Ret _ _ =>
      let a := fresh "a" in let s1 := fresh "s" in let Hc := fresh "Hc" in
      apply bind_inv in H as (a & s1 & Hc & H); minv1 Hc
  | ret _ _ = Ret _ _ => apply ret_inv in H as [? ?]; subst
  | oops _ _ = Ret _ _ => discriminate H
  | Oops _ = Ret _ _ => discriminate H
  | get _ = Ret _ _ => apply get_inv in H as [? ?]; subst
  | modify _ _ = Ret _ _ => apply modify_inv in H; subst
  | get_page _ _ = Ret _ _ => apply get_page_inv in H as [? H]; subst
  | get_rmap _ _ = Ret _ _ => apply get_rmap_inv in H as [? H]; subst
  | get_vma _ _ = Ret _ _ => apply get_vma_inv in H as [? H]; subst
  | get_anon _ _ = Ret _ _ => apply get_anon_inv in H as [? H]; subst
  | deref _ _ = Ret _ _ => apply deref_inv in H as [? H]; subst
  | BUG_ON _ _ = Ret _ _ => apply BUG_ON_inv in H as [? H]; subst
  | upd_page _ _ _ = Ret _ _ =>
      let pg := fresh "pg" in let E := fresh "E" in
      apply upd_page_inv in H as (pg & E & H); subst
  | upd_rmap _ _ _ = Ret _ _ =>
      let ri := fresh "ri" in let E := fresh "E" in
      apply upd_rmap_inv in H as (ri & E & H); subst
  | upd_vma _ _ _ = Ret _ _ =>
      let a := fresh "vma" in let E := fresh "E" in
      apply upd_vma_inv in H as (a & E & H); subst
  | _ => idtac
  end.

(** Inversion of a whole run: binds, primitives and the branches taken. *)
Ltac minv :=
  repeat match goal with
  | H : bind _ _ _ = Ret _ _ |- _ =>
      let a := fresh "a" in let s1 := fresh "s" in let Hc := fresh "Hc" in
      apply bind_inv in H as (a & s1 & Hc & H)
  | H : ret _ _ = Ret _ _ |- _ => apply ret_inv in H as [? ?]; subst
  | H : Ret _ _ = Ret _ _ |- _ => injection H as ? ?; subst
  | H : oops _ _ = Ret _ _ |- _ => discriminate H
  | H : Oops _ = Ret _ _ |- _ => discriminate H
  | H : false = true |- _ => discriminate H
  | H : true = false |- _ => discriminate H
  | H : None = Some _ |- _ => discriminate H
  | H : Some _ = None |- _ => discriminate H
  | H : Some _ = Some _ |- _ => injection H as H; subst
  | H : (_, _) = (_, _) |- _ => injection H as ? ?; subst
  | H : get _ = Ret _ _ |- _ => apply get_inv in H as [? ?]; subst
  | H : modify _ _ = Ret _ _ |- _ => apply modify_inv in H; subst
  | H : get_page _ _ = Ret _ _ |- _ => apply get_page_inv in H as [? H]; subst
  | H : get_rmap _ _ = Ret _ _ |- _ => apply get_rmap_inv in H as [? H]; subst
  | H : get_vma _ _ = Ret _ _ |- _ => apply get_vma_inv in H as [? H]; subst
  | H : get_anon _ _ = Ret _ _ |- _ => apply get_anon_inv in H as [? H]; subst
  | H : deref _ _ = Ret _ _ |- _ => apply deref_inv in H as [? H]; subst
  | H : BUG_ON _ _ = Ret _ _ |- _ => apply BUG_ON_inv in H as [? H]; subst
  | H : upd_page _ _ _ = Ret _ _ |- _ =>
      let pg := fresh "pg" in let E := fresh "E" in
      apply upd_page_inv in H as (pg & E & H); subst
  | H : upd_rmap _ _ _ = Ret _ _ |- _ =>
      let ri := fresh "ri" in let E := fresh "E" in
      apply upd_rmap_inv in H as (ri & E & H); subst
  | H : upd_vma _ _ _ = Ret _ _ |- _ =>
      let a := fresh "vma" in let E := fresh "E" in
      apply upd_vma_inv in H as (a & E & H); subst
  | H : (if negb ?c then _ else _) _ = Ret _ _ |- _ =>
      let E := fresh "E" in destruct c eqn:E; cbn [negb] in H
  | H : (if ?c then _ else _) _ = Ret _ _ |- _ =>
      let E := fresh "E" in destruct c eqn:E
  | H : (match ?x with _ => _ end) _ = Ret _ _ |- _ =>
      let E := fresh "E" in destruct x eqn:E
  end.

(** Projections of updated states and records. *)
Ltac proj :=
  cbn [pages rmaps anon_vmas vmas root_stable_tree root_unstable_tree
       new_anon_page_list del_anon_page_list pksm_rescan_page_list
       unstabletree_checksum_list ksm_pages_shared ksm_pages_sharing
       ksm_pages_unshared ksm_rmap_items ksm_stable_nodes ksm_pages_zero_sharing
       ksm_thread_pages_to_scan ksm_thread_sleep_millisecs
       pksm_unshared_page_update_period pksm_random_table
       pksm_zero_random_checksum empty_pksm_zero_page zero_pfn stable_anon_avail
       with_pages with_rmaps with_anon_vmas with_vmas with_root_stable_tree
       with_root_unstable_tree with_new_anon_page_list with_del_anon_page_list
       with_pksm_rescan_page_list with_unstabletree_checksum_list
       with_ksm_pages_shared with_ksm_pages_sharing with_ksm_pages_unshared
       with_ksm_rmap_items with_ksm_stable_nodes with_ksm_pages_zero_sharing
       with_stable_anon_avail
       mapping pksm PG_pksm PG_locked PG_swapcache PG_dirty PG_mlocked _count
       _mapcount index words with_mapping with_pksm with_PG_pksm with_PG_locked
       with_PG_dirty with_PG_mlocked with_count with_page_mapcount
       ri_anon_vma ri_page address hlist node_linked ri_mapcount checksum
       with_ri_anon_vma with_ri_page with_address with_hlist with_node_linked
       with_ri_mapcount with_checksum
       vm_flags vm_start vm_end vm_pgoff vm_ptes with_vm_ptes].
Tactic Notation "proj" "in" hyp(H) :=
  cbn [pages rmaps anon_vmas vmas root_stable_tree root_unstable_tree
       new_anon_page_list del_anon_page_list pksm_rescan_page_list
       unstabletree_checksum_list ksm_pages_shared ksm_pages_sharing
       ksm_pages_unshared ksm_rmap_items ksm_stable_nodes ksm_pages_zero_sharing
       ksm_thread_pages_to_scan ksm_thread_sleep_millisecs
       pksm_unshared_page_update_period pksm_random_table
       pksm_zero_random_checksum empty_pksm_zero_page zero_pfn stable_anon_avail
       with_pages with_rmaps with_anon_vmas with_vmas with_root_stable_tree
       with_root_unstable_tree with_new_anon_page_list with_del_anon_page_list
       with_pksm_rescan_page_list with_unstabletree_checksum_list
       with_ksm_pages_shared with_ksm_pages_sharing with_ksm_pages_unshared
       with_ksm_rmap_items with_ksm_stable_nodes with_ksm_pages_zero_sharing
       with_stable_anon_avail
       mapping pksm PG_pksm PG_locked PG_swapcache PG_dirty PG_mlocked _count
       _mapcount index words with_mapping with_pksm with_PG_pksm with_PG_locked
       with_PG_dirty with_PG_mlocked with_count with_page_mapcount
       ri_anon_vma ri_page address hlist node_linked ri_mapcount checksum
       with_ri_anon_vma with_ri_page with_address with_hlist with_node_linked
       with_ri_mapcount with_checksum
       vm_flags vm_start vm_end vm_pgoff vm_ptes with_vm_ptes] in H.

(** Tidy the lookups an inversion leaves behind. *)
Ltac mclean :=
  repeat match goal with
  | H : _ |- _ => progress proj in H
  | H : <[?r := _]> _ !! ?r = Some _ |- _ => rewrite lookup_insert_eq in H
  | H : Some _ = Some _ |- _ => injection H as H; subst
  | H1 : ?m !! ?r = Some ?a, H2 : ?m !! ?r = Some ?b |- _ =>
      rewrite H1 in H2
  | H : ?x = ?x |- _ => clear H
  end.

(** *** Single-bit flags *)

Lemma has_pow2 a k : 0 <= k -> has a (2 ^ k) = Z.testbit a k.
Proof.
  intros Hk. unfold has.
  destruct (Z.testbit a k) eqn:Hb.
  - apply negb_true_iff, Z.eqb_neq. intros H0.
    assert (Z.testbit (Z.land a (2 ^ k)) k = true).
    { rewrite Z.land_spec, Hb, Z.pow2_bits_true; auto. }
    rewrite H0, Z.bits_0 in H. discriminate.
  - apply negb_false_iff, Z.eqb_eq. apply Z.bits_inj'. intros n Hn.
    rewrite Z.land_spec, Z.bits_0, Z.pow2_bits_eqb by lia.
    destruct (Z.eqb_spec k n); [subst; rewrite Hb; reflexivity|apply andb_false_r].
Qed.

Lemma has_set_same a k : 0 <= k -> has (set_bits a (2 ^ k)) (2 ^ k) = true.
Proof.
  intros Hk. rewrite has_pow2 by lia. unfold set_bits.
  rewrite Z.lor_spec, Z.pow2_bits_true by lia. apply orb_true_r.
Qed.

Lemma has_set_other a k j :
  0 <= k -> 0 <= j -> k <> j -> has (set_bits a (2 ^ k)) (2 ^ j) = has a (2 ^ j).
Proof.
  intros Hk Hj Hne. rewrite !has_pow2 by lia. unfold set_bits.
  rewrite Z.lor_spec, Z.pow2_bits_false by lia. apply orb_false_r.
Qed.

Lemma has_clear_same a k : 0 <= k -> has (clear_bits a (2 ^ k)) (2 ^ k) = false.
Proof.
  intros Hk. rewrite has_pow2 by lia. unfold clear_bits.
  rewrite Z.ldiff_spec, Z.pow2_bits_true by lia. apply andb_false_r.
Qed.

Lemma has_clear_other a k j :
  0 <= k -> 0 <= j -> k <> j -> has (clear_bits a (2 ^ k)) (2 ^ j) = has a (2 ^ j).
Proof.
  intros Hk Hj Hne. rewrite !has_pow2 by lia. unfold clear_bits.
  rewrite Z.ldiff_spec, Z.pow2_bits_false by lia. apply andb_true_r.
Qed.

(** The flag constants as powers of two, for the lemmas above. *)
Ltac flags_pow2 :=
  change NEWLIST_FLAG with (2 ^ 0) in *;
  change DELLIST_FLAG with (2 ^ 1) in *;
  change INKSM_FLAG with (2 ^ 2) in *;
  change UNSTABLE_FLAG with (2 ^ 3) in *;
  change STABLE_FLAG with (2 ^ 4) in *;
  change CHECKSUM_LIST_FLAG with (2 ^ 5) in *;
  change INITCHECKSUM_FLAG with (2 ^ 6) in *;
  change RESCAN_LIST_FLAG with (2 ^ 7) in *.

Ltac flags :=
  flags_pow2;
  repeat first
    [ rewrite has_set_same by lia
    | rewrite has_clear_same by lia
    | rewrite has_set_other by lia
    | rewrite has_clear_other by lia ].

Lemma flags_test a :
  has (set_bits (clear_bits (set_bits a NEWLIST_FLAG) STABLE_FLAG) INKSM_FLAG) DELLIST_FLAG
  = has a DELLIST_FLAG.
Proof. flags. reflexivity. Qed.

(** *** Facts about the small helpers *)

Lemma check_valid_rmap_item_inv o s b s' :
  check_valid_rmap_item o s = Ret b s' ->
  s' = s /\
  (b = true ->
   exists r ri p pg,
     o = Some r /\ rmaps s !! r = Some ri /\ ri_page ri = Some p /\
     pages s !! p = Some pg /\ PagePKSM pg = true /\
     has (address ri) INKSM_FLAG = true).
Proof.
  unfold check_valid_rmap_item. intros H.
  destruct o as [r|]; minv; split; auto; try discriminate.
  intros _. apply orb_false_iff in E0 as [Hp Hk].
  apply negb_false_iff in Hp, Hk. eauto 10.
Qed.

Lemma check_valid_rmap_item_true r ri p pg s :
  rmaps s !! r = Some ri -> ri_page ri = Some p -> pages s !! p = Some pg ->
  PagePKSM pg = true -> has (address ri) INKSM_FLAG = true ->
  check_valid_rmap_item (Some r) s = Ret true s.
Proof.
  intros Hr Hp Hpg Hf Hk. unfold check_valid_rmap_item.
  rewrite (bind_Ret _ _ _ _ _ (get_rmap_Ret _ _ _ Hr)). rewrite Hp.
  rewrite (bind_Ret _ _ _ _ _ (get_page_Ret _ _ _ Hpg)). rewrite Hf, Hk.
  reflexivity.
Qed.

End Infra.

(** ** Event intake (C6, C7) *)

Module Intake.
Import Mach Model Spec Infra.

Lemma add_new_rejects (s : state) p pg (rmap_item anon_vma : option nat) :
  pages s !! p = Some pg ->
  PagePKSM pg = true \/ PageAnon pg = false \/ PageKsm pg = true ->
  pksm_add_new_anon_page (Some p) rmap_item anon_vma s = Ret (- EFAULT) s.
Proof.
  intros Hp Hbad. unfold pksm_add_new_anon_page.
  destruct rmap_item as [r|]; [|reflexivity].
  destruct anon_vma as [av|]; [|reflexivity].
  rewrite (bind_Ret _ _ _ _ _ (get_page_Ret _ _ _ Hp)).
  destruct (PagePKSM pg); [reflexivity|].
  destruct (PageAnon pg); cbn [negb]; [|reflexivity].
  destruct (PageKsm pg); [reflexivity|].
  destruct Hbad as [?|[?|?]]; discriminate.
Qed.

Lemma add_new_accepts (s : state) p pg r ri av :
  pages s !! p = Some pg ->
  rmaps s !! r = Some ri ->
  PagePKSM pg = false -> PageAnon pg = true -> PageKsm pg = false ->
  exists s' pg' ri',
    pksm_add_new_anon_page (Some p) (Some r) (Some av) s = Ret 0 s' /\
    pages s' !! p = Some pg' /\ rmaps s' !! r = Some ri' /\
    PagePKSM pg' = true /\ pksm pg' = Some r /\
    address ri' = set_bits (set_bits (address ri) NEWLIST_FLAG) INITCHECKSUM_FLAG /\
    ri_page ri' = Some p /\ ri_anon_vma ri' = Some av /\
    new_anon_page_list s' = new_anon_page_list s ++ [r].
Proof.
  intros Hp Hr H1 H2 H3. unfold pksm_add_new_anon_page.
  rewrite (bind_Ret _ _ _ _ _ (get_page_Ret _ _ _ Hp)).
  rewrite H1, H2, H3. cbn [negb].
  unfold bind, upd_rmap, upd_page, get_rmap, get_page, modify, ret, bind. cbn.
  simplify_map_eq. cbn. simplify_map_eq. cbn.
  do 3 eexists. split; [reflexivity|]. cbn.
  simplify_map_eq.
  repeat split; reflexivity.
Qed.

(** C6: the intake of a new anonymous page.  It fails with [-EFAULT] on a
    page that is already tracked ([PagePKSM]), not anonymous, or already a
    KSM page; otherwise it returns [0] with [NEWLIST_FLAG] and
    [INITCHECKSUM_FLAG] set on the rmap item (nothing else for a fresh
    item), page and item linked to each other, and the item at the tail of
    the new list.  A second submission of the page then fails and leaves
    the state, hence the single entry, as it is. *)
Theorem pksm_add_new_anon_page_intake (s : state) p pg r ri av :
  pages s !! p = Some pg ->
  rmaps s !! r = Some ri ->
  (PagePKSM pg = true \/ PageAnon pg = false \/ PageKsm pg = true ->
   forall rmap_item anon_vma,
     pksm_add_new_anon_page (Some p) rmap_item anon_vma s = Ret (- EFAULT) s) /\
  (PagePKSM pg = false -> PageAnon pg = true -> PageKsm pg = false ->
   exists s' pg' ri',
     pksm_add_new_anon_page (Some p) (Some r) (Some av) s = Ret 0 s' /\
     pages s' !! p = Some pg' /\ rmaps s' !! r = Some ri' /\
     PagePKSM pg' = true /\ pksm pg' = Some r /\ ri_page ri' = Some p /\
     has (address ri') NEWLIST_FLAG = true /\
     has (address ri') INITCHECKSUM_FLAG = true /\
     (address ri = 0 -> address ri' = Z.lor NEWLIST_FLAG INITCHECKSUM_FLAG) /\
     new_anon_page_list s' = new_anon_page_list s ++ [r] /\
     (forall rmap_item anon_vma,
        pksm_add_new_anon_page (Some p) rmap_item anon_vma s' = Ret (- EFAULT) s')).
Proof.
  intros Hp Hr. split.
  - intros Hbad rmap_item anon_vma. eapply add_new_rejects; eauto.
  - intros H1 H2 H3.
    destruct (add_new_accepts s p pg r ri av Hp Hr H1 H2 H3)
      as (s' & pg' & ri' & Hrun & Hp' & Hr' & Hf & Hk & Ha & Hrp & _ & Hl).
    exists s', pg', ri'. repeat split; auto.
    + rewrite Ha. flags. reflexivity.
    + rewrite Ha. flags. reflexivity.
    + intros H0. rewrite Ha, H0. reflexivity.
    + intros rmap_item anon_vma. eapply add_new_rejects; eauto.
Qed.

Lemma pksm_add_new_anon_page_intake_witness :
  exists s',
    pksm_add_new_anon_page (Some 10%nat) (Some 1%nat) (Some 20%nat) Scenario.boot
      = Ret 0 s' /\
    new_anon_page_list s' = [1%nat] /\
    pksm_add_new_anon_page (Some 10%nat) (Some 1%nat) (Some 20%nat) s'
      = Ret (- EFAULT) s'.
Proof.
  destruct (pksm_add_new_anon_page_intake Scenario.boot 10 
              (Scenario.anon_page 20 Scenario.words_x) 1 fresh_rmap_item 20)
    as [_ H]; [reflexivity|reflexivity|].
  destruct H as (s' & pg' & ri' & Hrun & _ & _ & _ & _ & _ & _ & _ & _ & Hl & Hagain);
    [reflexivity..|].
  exists s'. split; [exact Hrun|]. split; [exact Hl|]. apply Hagain.
Defined.

End Intake.

Module Destroy.
Import Mach Model Spec Infra.

Lemma u64_dec_iter (n : nat) (x : Z) :
  0 <= x < 2 ^ 64 ->
  Nat.iter n (fun x => u64 (x - 1)) x = u64 (x - Z.of_nat n).
Proof.
  intros Hx. induction n as [|n IH].
  - cbn. unfold u64. rewrite Z.sub_0_r, Z.mod_small; lia.
  - rewrite Nat.iter_succ, IH. unfold u64.
    rewrite Zminus_mod_idemp_l. f_equal. lia.
Qed.

Lemma s32_dec_iter (n : nat) (m : Z) :
  - 2 ^ 31 <= m < 2 ^ 31 ->
  Nat.iter n (fun m => s32 (m - 1)) m = s32 (m - Z.of_nat n).
Proof.
  intros Hm. induction n as [|n IH].
  - cbn. unfold s32. rewrite Z.sub_0_r, Z.mod_small; lia.
  - rewrite Nat.iter_succ, IH. unfold s32.
    replace ((m - Z.of_nat n + 2 ^ 31) mod 2 ^ 32 - 2 ^ 31 - 1 + 2 ^ 31)
      with ((m - Z.of_nat n + 2 ^ 31) mod 2 ^ 32 - 1) by lia.
    rewrite Zminus_mod_idemp_l. do 2 f_equal. lia.
Qed.

Lemma with_ri_mapcount_id ri : with_ri_mapcount (ri_mapcount ri) ri = ri.
Proof. destruct ri; reflexivity. Qed.

Lemma with_ri_mapcount_twice a b ri :
  with_ri_mapcount a (with_ri_mapcount b ri) = with_ri_mapcount a ri.
Proof. reflexivity. Qed.

(** The counting loop of [pksm_del_sharing_page_counter]. *)
Lemma del_sharing_loop (r : nat) (n : nat) : forall s ri,
  rmaps s !! r = Some ri ->
  exists s',
    repeat_m n
      (modify (fun s => with_ksm_pages_sharing (u64 (ksm_pages_sharing s - 1)) s);;
       let* r' := deref (Some r) in
       upd_rmap r' (fun ri => with_ri_mapcount (s32 (ri_mapcount ri - 1)) ri)) s
      = Ret tt s' /\
    pages s' = pages s /\
    rmaps s' = <[r := with_ri_mapcount
                        (Nat.iter n (fun m => s32 (m - 1)) (ri_mapcount ri)) ri]>
                 (rmaps s) /\
    ksm_pages_sharing s' = Nat.iter n (fun x => u64 (x - 1)) (ksm_pages_sharing s) /\
    new_anon_page_list s' = new_anon_page_list s /\
    pksm_rescan_page_list s' = pksm_rescan_page_list s /\
    del_anon_page_list s' = del_anon_page_list s /\
    ksm_rmap_items s' = ksm_rmap_items s.
Proof.
  induction n as [|n IH]; intros s ri Hr.
  - exists s. cbn. rewrite with_ri_mapcount_id, insert_id by exact Hr. auto 10.
  - cbn [repeat_m].
    set (s1 := with_rmaps
                 (<[r := with_ri_mapcount (s32 (ri_mapcount ri - 1)) ri]> (rmaps s))
                 (with_ksm_pages_sharing (u64 (ksm_pages_sharing s - 1)) s)).
    assert (Hr1 : rmaps s1 !! r = Some (with_ri_mapcount (s32 (ri_mapcount ri - 1)) ri)).
    { unfold s1. proj. apply lookup_insert_eq. }
    destruct (IH s1 _ Hr1) as (s' & Hrun & Hp & Hm & Hs & Hn & Hre & Hd & Hi).
    exists s'. split.
    + unfold bind at 1. unfold bind at 1. unfold modify at 1. cbn [deref].
      unfold bind at 1. unfold ret at 1.
      rewrite upd_rmap_Ret with (ri := ri) by exact Hr. exact Hrun.
    + rewrite Hp, Hm, Hs, Hn, Hre, Hd, Hi. unfold s1. proj.
      rewrite insert_insert_eq. rewrite !Nat.iter_succ_r. auto 10.
Qed.

Lemma del_sharing_counter_spec s p pg r ri n :
  pages s !! p = Some pg -> pksm pg = Some r -> rmaps s !! r = Some ri ->
  exists s',
    pksm_del_sharing_page_counter p n s = Ret tt s' /\
    pages s' = pages s /\
    rmaps s' = <[r := with_ri_mapcount
                        (Nat.iter (Z.to_nat n) (fun m => s32 (m - 1)) (ri_mapcount ri)) ri]>
                 (rmaps s) /\
    ksm_pages_sharing s' =
      Nat.iter (Z.to_nat n) (fun x => u64 (x - 1)) (ksm_pages_sharing s) /\
    new_anon_page_list s' = new_anon_page_list s /\
    pksm_rescan_page_list s' = pksm_rescan_page_list s /\
    del_anon_page_list s' = del_anon_page_list s /\
    ksm_rmap_items s' = ksm_rmap_items s.
Proof.
  intros Hp Hk Hr. unfold pksm_del_sharing_page_counter.
  rewrite (bind_Ret _ _ _ _ _ (get_page_Ret _ _ _ Hp)). rewrite Hk.
  apply del_sharing_loop. exact Hr.
Qed.

(** C7: the page-destroy intake.  On an untracked page it fails with
    [-EFAULT].  On a tracked page it returns [0]; [ksm_pages_sharing] and
    the item's sharer counter are lowered by the sharer count [map] read
    from the item, [PagePKSM] is cleared and [page->pksm] unlinked; an item
    that still carries [NEWLIST_FLAG] or [RESCAN_LIST_FLAG] is unlinked
    from its queue and freed, any other item gets [DELLIST_FLAG] and goes
    to the tail of the delete list. *)
Theorem pksm_del_anon_page_intake (s : state) p pg :
  pages s !! p = Some pg ->
  (PagePKSM pg = false -> pksm_del_anon_page p s = Ret (- EFAULT) s) /\
  (forall r ri,
     PagePKSM pg = true -> pksm pg = Some r ->
     rmaps s !! r = Some ri -> ri_page ri = Some p ->
     0 <= ksm_pages_sharing s < 2 ^ 64 ->
     - 2 ^ 31 <= ri_mapcount ri < 2 ^ 31 ->
     exists s' pg',
       pksm_del_anon_page p s = Ret 0 s' /\
       ksm_pages_sharing s' = sharing_after (ksm_pages_sharing s) (ri_mapcount ri) /\
       pages s' !! p = Some pg' /\ PagePKSM pg' = false /\ pksm pg' = None /\
       if has (address ri) (Z.lor NEWLIST_FLAG RESCAN_LIST_FLAG) then
         rmaps s' !! r = None /\
         (r ∉ new_anon_page_list s') /\ (r ∉ pksm_rescan_page_list s') /\
         del_anon_page_list s' = del_anon_page_list s /\
         ksm_rmap_items s' = u64 (ksm_rmap_items s - 1)
       else
         exists ri',
           rmaps s' !! r = Some ri' /\
           has (address ri') DELLIST_FLAG = true /\
           ri_page ri' = None /\
           ri_mapcount ri' = (if ri_mapcount ri >? 0 then 0 else ri_mapcount ri) /\
           del_anon_page_list s' = del_anon_page_list s ++ [r] /\
           new_anon_page_list s' = new_anon_page_list s /\
           pksm_rescan_page_list s' = pksm_rescan_page_list s).
Proof.
  intros Hp. split.
  - intros Hf. unfold pksm_del_anon_page.
    rewrite (bind_Ret _ _ _ _ _ (get_page_Ret _ _ _ Hp)). rewrite Hf. reflexivity.
  - intros r ri Hf Hk Hr Hrp Hsh Hmc. unfold pksm_del_anon_page.
    rewrite (bind_Ret _ _ _ _ _ (get_page_Ret _ _ _ Hp)). rewrite Hf. cbn [negb].
    unfold bind at 1. rewrite (upd_page_Ret _ _ _ _ Hp). rewrite Hk.
    set (s0 := with_pages (<[p := with_PG_pksm false pg]> (pages s)) s).
    assert (Hr0 : rmaps s0 !! r = Some ri) by exact Hr.
    rewrite (bind_Ret _ _ _ _ _ (get_rmap_Ret _ _ _ Hr0)).
    rewrite Hrp. rewrite bool_decide_eq_true_2 by reflexivity. cbn [negb].
    assert (Hp0 : pages s0 !! p = Some (with_PG_pksm false pg)).
    { unfold s0. cbn. apply lookup_insert_eq. }
    (* the decrement of the sharing counters *)
    assert (Hdec : exists s1,
      (if ri_mapcount ri >? 0
       then pksm_del_sharing_page_counter p (ri_mapcount ri) else ret tt) s0
        = Ret tt s1 /\
      pages s1 = pages s0 /\
      rmaps s1 = <[r := with_ri_mapcount
                     (if ri_mapcount ri >? 0 then 0 else ri_mapcount ri) ri]> (rmaps s0) /\
      ksm_pages_sharing s1 = sharing_after (ksm_pages_sharing s) (ri_mapcount ri) /\
      new_anon_page_list s1 = new_anon_page_list s /\
      pksm_rescan_page_list s1 = pksm_rescan_page_list s /\
      del_anon_page_list s1 = del_anon_page_list s /\
      ksm_rmap_items s1 = ksm_rmap_items s).
    { unfold sharing_after. destruct (ri_mapcount ri >? 0) eqn:Hpos.
      - destruct (del_sharing_counter_spec s0 p _ r ri (ri_mapcount ri) Hp0 Hk Hr0)
          as (s1 & Hrun & H1 & H2 & H3 & H4 & H5 & H6 & H7).
        exists s1. rewrite Hrun, H1, H2, H3, H4, H5, H6, H7.
        rewrite s32_dec_iter, u64_dec_iter by (auto; unfold s0; cbn; lia).
        rewrite Z2Nat.id by lia. rewrite Z.sub_diag.
        change (s32 0) with 0. unfold s0; cbn. auto 10.
      - exists s0. rewrite with_ri_mapcount_id, insert_id by exact Hr0.
        unfold s0; cbn. auto 10. }
    destruct Hdec as (s1 & Hrun & H1 & H2 & H3 & H4 & H5 & H6 & H7).
    unfold bind at 1. rewrite Hrun. clear Hrun.
    assert (Hp1 : pages s1 !! p = Some (with_PG_pksm false pg)) by (rewrite H1; exact Hp0).
    unfold bind at 1. rewrite (upd_page_Ret _ _ _ _ Hp1).
    set (ri1 := with_ri_mapcount (if ri_mapcount ri >? 0 then 0 else ri_mapcount ri) ri) in *.
    assert (Hr1 : rmaps s1 !! r = Some ri1) by (rewrite H2; apply lookup_insert_eq).
    unfold bind at 1. erewrite upd_rmap_Ret by (cbn; exact Hr1).
    unfold bind at 1. unfold get_rmap at 1. cbn [rmaps with_rmaps with_pages].
    rewrite lookup_insert_eq. cbn [address with_ri_page].
    change (address ri1) with (address ri).
    destruct (has (address ri) (Z.lor NEWLIST_FLAG RESCAN_LIST_FLAG)) eqn:Hq.
    + unfold bind, modify, upd_rmap, get_rmap, pksm_free_rmap_item, ret, bind; cbn.
      rewrite lookup_insert_eq. cbn.
      do 2 eexists. split; [reflexivity|]. cbn.
      rewrite lookup_insert_eq, lookup_delete_eq, H3, H4, H5, H6, H7.
      repeat split; auto.
      * intros Hin. apply list_elem_of_filter in Hin as [Hne _]. congruence.
      * intros Hin. apply list_elem_of_filter in Hin as [Hne _]. congruence.
    + unfold bind, modify, upd_rmap, get_rmap, ret, bind; cbn.
      rewrite lookup_insert_eq. cbn.
      do 2 eexists. split; [reflexivity|]. cbn.
      rewrite !lookup_insert_eq, H3, H4, H5, H6.
      repeat split; auto.
      eexists. split; [reflexivity|]. cbn.
      repeat split; auto. flags. reflexivity.
Qed.

Lemma pksm_del_anon_page_intake_witness :
  exists s',
    pksm_del_anon_page 10 Scenario.announced_ab = Ret 0 s' /\
    rmaps s' !! 1%nat = None /\ 1%nat ∉ new_anon_page_list s'.
Proof.
  destruct (pksm_del_anon_page_intake Scenario.announced_ab 10
              (with_pksm (Some 1%nat)
                 (with_PG_pksm true (Scenario.anon_page 20 Scenario.words_x))))
    as [_ H]; [vm_compute; reflexivity|].
  destruct (H 1%nat
              (RmapItem (Some 20%nat) (Some 10%nat) 65 [] false 0 0))
    as (s' & pg' & Hrun & _ & _ & _ & _ & Hq);
    [reflexivity|reflexivity|vm_compute; reflexivity|reflexivity
    |vm_compute; split; [discriminate|reflexivity]
    |vm_compute; split; [discriminate|reflexivity]|].
  exists s'. split; [exact Hrun|].
  change (has (address (RmapItem (Some 20%nat) (Some 10%nat) 65 [] false 0 0))
              (Z.lor NEWLIST_FLAG RESCAN_LIST_FLAG)) with true in Hq.
  destruct Hq as (Hnone & Hnew & _). split; [exact Hnone|exact Hnew].
Defined.

End Destroy.

(** ** Anchors and the sharer counter (C3, C10) *)

Module Anchors.
Import Mach Model Spec Infra.

Lemma alloc_stable_anon_inv s o s' :
  alloc_stable_anon s = Ret o s' ->
  pages s' = pages s /\ rmaps s' = rmaps s /\ anon_vmas s' = anon_vmas s /\
  ksm_pages_shared s' = ksm_pages_shared s /\
  (stable_anon_avail s = O -> o = None) /\
  (o = None -> s' = s).
Proof.
  unfold alloc_stable_anon. intros H. minv; proj; repeat split; auto; try congruence.
Qed.

Lemma get_anon_vma_inv av s u s' :
  get_anon_vma av s = Ret u s' ->
  pages s' = pages s /\ rmaps s' = rmaps s /\
  ksm_pages_shared s' = ksm_pages_shared s.
Proof. unfold get_anon_vma. intros H. minv. proj. auto. Qed.

(** What a completed [stable_tree_append] did to the head item: nothing
    at all when one of the two validity checks failed, otherwise one more
    anchor at the head of the list; the sharer counter is not touched. *)
Lemma stable_tree_append_inv s h p hri s' :
  rmaps s !! h = Some hri ->
  stable_tree_append (Some h) p s = Ret tt s' ->
  exists pg v1 v2,
    pages s !! p = Some pg /\
    check_valid_rmap_item (Some h) s = Ret v1 s /\
    (v1 = true -> check_valid_rmap_item (pksm pg) s = Ret v2 s) /\
    (v1 && v2 = false -> s' = s) /\
    (v1 && v2 = true ->
     exists hri' av,
       rmaps s' !! h = Some hri' /\
       hlist hri' = StableAnon av :: hlist hri /\
       ri_mapcount hri' = ri_mapcount hri /\
       address hri' = address hri).
Proof.
  intros Hh H. unfold stable_tree_append in H.
  apply bind_inv in H as (pg & s0 & Hpg & H). minv1 Hpg.
  apply bind_inv in H as (v1 & s1 & Hv1 & H).
  pose proof (check_valid_rmap_item_inv _ _ _ _ Hv1) as [-> _].
  destruct v1; cbn [negb] in H.
  2:{ minv. exists pg, false, false. repeat split; auto; discriminate. }
  apply bind_inv in H as (v2 & s2 & Hv2 & H).
  pose proof (check_valid_rmap_item_inv _ _ _ _ Hv2) as [-> _].
  destruct v2; cbn [negb] in H.
  2:{ minv. exists pg, true, false. repeat split; auto; discriminate. }
  exists pg, true, true. repeat split; auto; try discriminate. intros _.
  apply bind_inv in H as (node & s3 & Halloc & H).
  apply alloc_stable_anon_inv in Halloc as (Hp3 & Hr3 & _).
  apply bind_inv in H as (pg3 & s4 & Hc & H). apply get_page_inv in Hc as [-> _].
  apply bind_inv in H as (av & s5 & Hav & H).
  assert (s5 = s3) as -> by (minv; reflexivity). clear Hav.
  apply bind_inv in H as (? & s6 & Hc & H). apply deref_inv in Hc as [-> _].
  apply bind_inv in H as (? & s7 & Hget & H).
  apply get_anon_vma_inv in Hget as (Hp7 & Hr7 & _).
  apply bind_inv in H as (h' & s8 & Hc & H). apply deref_inv in Hc as [-> Hc].
  injection Hc as <-.
  apply bind_inv in H as (hri8 & s9 & Hc & H). apply get_rmap_inv in Hc as [-> Hc].
  rewrite Hr7, Hr3, Hh in Hc. injection Hc as <-.
  apply bind_inv in H as (? & s10 & Hc & H).
  apply upd_rmap_inv in Hc as (ri & E & ->).
  rewrite Hr7, Hr3, Hh in E. injection E as <-.
  assert (Hlook : rmaps s' !! h = Some (with_hlist (StableAnon av :: hlist hri) hri)).
  { minv; proj; apply lookup_insert_eq. }
  eexists _, av. split; [exact Hlook|]. auto.
Qed.

Lemma add_sharing_loop (r : nat) (n : nat) : forall s ri,
  rmaps s !! r = Some ri ->
  exists s',
    repeat_m n
      (modify (fun s => with_ksm_pages_sharing (u64 (ksm_pages_sharing s + 1)) s);;
       let* r' := deref (Some r) in
       upd_rmap r' (fun ri => with_ri_mapcount (s32 (ri_mapcount ri + 1)) ri)) s
      = Ret tt s' /\
    rmaps s' = <[r := with_ri_mapcount
                        (Nat.iter n (fun m => s32 (m + 1)) (ri_mapcount ri)) ri]>
                 (rmaps s).
Proof.
  induction n as [|n IH]; intros s ri Hr.
  - exists s. cbn [repeat_m Nat.iter nat_rect]. split; [reflexivity|].
    destruct ri; proj; rewrite insert_id; auto.
  - cbn [repeat_m].
    set (s1 := with_rmaps
                 (<[r := with_ri_mapcount (s32 (ri_mapcount ri + 1)) ri]> (rmaps s))
                 (with_ksm_pages_sharing (u64 (ksm_pages_sharing s + 1)) s)).
    assert (Hr1 : rmaps s1 !! r = Some (with_ri_mapcount (s32 (ri_mapcount ri + 1)) ri)).
    { unfold s1. proj. apply lookup_insert_eq. }
    destruct (IH s1 _ Hr1) as (s' & Hrun & Hm).
    exists s'. split.
    + unfold bind at 1. unfold bind at 1. unfold modify at 1. cbn [deref].
      unfold bind at 1. unfold ret at 1.
      rewrite upd_rmap_Ret with (ri := ri) by exact Hr. exact Hrun.
    + rewrite Hm. unfold s1. proj.
      rewrite insert_insert_eq. rewrite !Nat.iter_succ_r. reflexivity.
Qed.

(** C3 as stated fails: after the tick that merges the two identical pages
    10 and 11 the stable item of the merged page has two anchors and a
    sharer counter of one.  The invariant held before the tick. *)
Lemma sharer_counter_is_not_anchor_count :
  sharer_counter_is_anchor_count Scenario.announced_ab /\
  ksm_do_scan 8 1000 Scenario.announced_ab = Ret tt Scenario.merged_ab /\
  ~ sharer_counter_is_anchor_count Scenario.merged_ab.
Proof.
  split; [|split].
  - intros p pg r ri Hp Hk Hm Hr Hs.
    assert (Hall : map_Forall (fun _ g => PageKsm g = false)
                     (pages Scenario.announced_ab)).
    { apply (bool_decide_unpack _). vm_compute. exact I. }
    rewrite (Hall p pg Hp) in Hk. discriminate Hk.
  - vm_compute. reflexivity.
  - intros Hinv.
    specialize (Hinv 10%nat
                  (Page (MappingKsm (Some 1%nat)) (Some 1%nat) true false false
                        true false 2 2 0 Scenario.words_x)
                  1%nat
                  (RmapItem (Some 20%nat) (Some 10%nat) 20
                     [StableAnon (Some 21%nat); StableAnon (Some 20%nat)]
                     true 1 733602962)).
    discriminate Hinv; vm_compute; reflexivity.
Qed.

(** C3, amended: a completed [stable_tree_append] on valid items puts one
    anchor at the head of the head item's list and does not change the
    item's sharer counter; [pksm_add_sharing_page_counter] on a KSM page
    raises the sharer counter of the page's item by one and does not change
    the anchor list. *)
Theorem stable_tree_append_counter (s : state) h p hri pg s' :
  rmaps s !! h = Some hri ->
  pages s !! p = Some pg ->
  check_valid_rmap_item (Some h) s = Ret true s ->
  check_valid_rmap_item (pksm pg) s = Ret true s ->
  stable_tree_append (Some h) p s = Ret tt s' ->
  (exists hri' av,
     rmaps s' !! h = Some hri' /\
     hlist hri' = StableAnon av :: hlist hri /\
     ri_mapcount hri' = ri_mapcount hri) /\
  (forall k kpg r ri,
     pages s !! k = Some kpg -> PageKsm kpg = true -> pksm kpg = Some r ->
     rmaps s !! r = Some ri ->
     exists s2 ri2,
       pksm_add_sharing_page_counter k 1 s = Ret tt s2 /\
       rmaps s2 !! r = Some ri2 /\
       ri_mapcount ri2 = s32 (ri_mapcount ri + 1) /\
       hlist ri2 = hlist ri).
Proof.
  intros Hh Hp Hv1 Hv2 Hrun. split.
  - destruct (stable_tree_append_inv s h p hri s' Hh Hrun)
      as (pg' & v1 & v2 & Hp' & Hv1' & Hv2' & _ & Hgood).
    rewrite Hp in Hp'. injection Hp' as <-.
    rewrite Hv1 in Hv1'. injection Hv1' as <-.
    rewrite Hv2 in Hv2'. specialize (Hv2' eq_refl). injection Hv2' as <-.
    destruct (Hgood eq_refl) as (hri' & av & H1 & H2 & H3 & _). eauto.
  - intros k kpg r ri Hk Hksm Hm Hr.
    destruct (add_sharing_loop r 1 s ri Hr) as (s2 & Hloop & Hmap).
    exists s2, (with_ri_mapcount (s32 (ri_mapcount ri + 1)) ri).
    split; [|split; [|split; reflexivity]].
    + unfold pksm_add_sharing_page_counter.
      rewrite (bind_Ret _ _ _ _ _ (get_page_Ret _ _ _ Hk)).
      rewrite Hksm, Hm. exact Hloop.
    + rewrite Hmap. apply lookup_insert_eq.
Qed.

Lemma stable_tree_append_counter_witness :
  exists hri' av,
    rmaps (Scenario.exec (stable_tree_append (Some 1%nat) 10) Scenario.merged_ab)
      !! 1%nat = Some hri' /\
    hlist hri' = [StableAnon av; StableAnon (Some 21%nat); StableAnon (Some 20%nat)] /\
    ri_mapcount hri' = 1.
Proof.
  destruct (stable_tree_append_counter Scenario.merged_ab 1 10
              (RmapItem (Some 20%nat) (Some 10%nat) 20
                 [StableAnon (Some 21%nat); StableAnon (Some 20%nat)]
                 true 1 733602962)
              (Page (MappingKsm (Some 1%nat)) (Some 1%nat) true false false true
                 false 2 2 0 Scenario.words_x)
              (Scenario.exec (stable_tree_append (Some 1%nat) 10) Scenario.merged_ab))
    as [H _]; [vm_compute; reflexivity ..|].
  exact H.
Defined.

(** C10, the failing run: with the anchor slab exhausted, the tick that
    merges pages 10 and 11 dereferences the [NULL] anchor. *)
Theorem stable_tree_append_null_anchor :
  ksm_do_scan 8 1000 (with_stable_anon_avail 0 Scenario.announced_ab)
    = Oops NullDeref.
Proof. vm_compute. reflexivity. Qed.

(** Whenever both validity checks pass and the slab has nothing left,
    [stable_tree_append] stops at the store through [anon_node]. *)
Lemma stable_tree_append_alloc_failure (s : state) h p pg :
  pages s !! p = Some pg ->
  check_valid_rmap_item (Some h) s = Ret true s ->
  check_valid_rmap_item (pksm pg) s = Ret true s ->
  stable_anon_avail s = O ->
  stable_tree_append (Some h) p s = Oops NullDeref.
Proof.
  intros Hp Hv1 Hv2 Hslab. unfold stable_tree_append.
  rewrite (bind_Ret _ _ _ _ _ (get_page_Ret _ _ _ Hp)).
  rewrite (bind_Ret _ _ _ _ _ Hv1). cbn [negb].
  rewrite (bind_Ret _ _ _ _ _ Hv2). cbn [negb].
  assert (Halloc : alloc_stable_anon s = Ret None s).
  { unfold alloc_stable_anon, bind, get. rewrite Hslab. reflexivity. }
  rewrite (bind_Ret _ _ _ _ _ Halloc).
  rewrite (bind_Ret _ _ _ _ _ (get_page_Ret _ _ _ Hp)).
  destruct (check_valid_rmap_item_inv _ _ _ _ Hv2) as [_ Hv].
  destruct (Hv eq_refl) as (r & ri & q & qg & Hk & Hr & _).
  destruct (PageKsm pg).
  - rewrite Hk. cbn [deref]. unfold bind at 1. unfold bind at 1. unfold bind at 1.
    unfold ret at 1. rewrite (get_rmap_Ret _ _ _ Hr). reflexivity.
  - reflexivity.
Qed.

End Anchors.

(** ** The trees and the removal of an item *)

Module Trees.
Import Mach Model Spec Infra.

Lemma rb_nodes_join l r : rb_nodes (rb_join l r) = rb_nodes l ++ rb_nodes r.
Proof.
  induction l as [|ll _ x lr IH]; cbn; [reflexivity|].
  rewrite IH, <- app_assoc. reflexivity.
Qed.

Lemma rb_size_nodes t : rb_size t = length (rb_nodes t).
Proof.
  induction t as [|l IHl x r IHr]; cbn; [reflexivity|].
  rewrite length_app. cbn. lia.
Qed.

Lemma rb_erase_subset x y t : y ∈ rb_nodes (rb_erase x t) -> y ∈ rb_nodes t.
Proof.
  induction t as [|l IHl z r IHr]; cbn; [auto|].
  destruct (decide (x = z)) as [->|Hne].
  - rewrite rb_nodes_join. set_solver.
  - cbn. set_solver.
Qed.

Lemma rb_erase_other x y t :
  y <> x -> y ∈ rb_nodes t -> y ∈ rb_nodes (rb_erase x t).
Proof.
  intros Hxy. induction t as [|l IHl z r IHr]; cbn; [auto|].
  destruct (decide (x = z)) as [->|Hne].
  - rewrite rb_nodes_join. set_solver.
  - cbn. set_solver.
Qed.

Lemma rb_erase_absent x t : x ∉ rb_nodes t -> rb_erase x t = t.
Proof.
  induction t as [|l IHl z r IHr]; cbn; [auto|]. intros Hin.
  destruct (decide (x = z)) as [->|Hne]; [set_solver|].
  rewrite IHl, IHr by set_solver. reflexivity.
Qed.

Lemma filter_all {A} (P : A -> Prop) `{forall x, Decision (P x)} (l : list A) :
  Forall P l -> filter P l = l.
Proof.
  induction 1 as [|x l Hx _ IH]; [reflexivity|].
  rewrite filter_cons_True by exact Hx. rewrite IH. reflexivity.
Qed.

Lemma rb_erase_nodes x t :
  NoDup (rb_nodes t) -> rb_nodes (rb_erase x t) = filter (fun y => y <> x) (rb_nodes t).
Proof.
  induction t as [|l IHl z r IHr]; cbn; [reflexivity|]. intros Hnd.
  apply NoDup_app in Hnd as (Hl & Hlr & Hr).
  apply NoDup_cons in Hr as (Hz & Hr).
  rewrite filter_app, filter_cons.
  destruct (decide (x = z)) as [->|Hne].
  - rewrite rb_nodes_join. rewrite decide_False by auto.
    f_equal; symmetry; apply filter_all.
    + apply Forall_forall. intros y Hy ->. apply (Hlr z Hy). set_solver.
    + apply Forall_forall. intros y Hy ->. auto.
  - cbn. rewrite decide_True by auto. rewrite IHl, IHr by auto. reflexivity.
Qed.

Lemma rb_erase_gone x t : NoDup (rb_nodes t) -> x ∉ rb_nodes (rb_erase x t).
Proof.
  intros Hnd. rewrite rb_erase_nodes by auto.
  intros Hin. apply list_elem_of_filter in Hin as [Hne _]. congruence.
Qed.

Lemma rb_erase_NoDup x t : NoDup (rb_nodes t) -> NoDup (rb_nodes (rb_erase x t)).
Proof. intros Hnd. rewrite rb_erase_nodes by auto. apply NoDup_filter, Hnd. Qed.

Lemma rb_erase_size x t :
  x ∈ rb_nodes t -> (rb_size (rb_erase x t) < rb_size t)%nat.
Proof.
  induction t as [|l IHl z r IHr]; cbn; [intros H; inversion H|]. intros Hin.
  destruct (decide (x = z)) as [->|Hne].
  - rewrite !rb_size_nodes, rb_nodes_join, length_app. lia.
  - cbn. assert (Hle : forall t, (rb_size (rb_erase x t) <= rb_size t)%nat).
    { clear. induction t as [|l IHl z r IHr]; cbn; [lia|].
      destruct (decide (x = z)); cbn; [|lia].
      rewrite !rb_size_nodes, rb_nodes_join, length_app. lia. }
    apply elem_of_app in Hin as [Hin|Hin].
    + specialize (IHl Hin). specialize (Hle r). lia.
    + apply elem_of_cons in Hin as [->|Hin]; [congruence|].
      specialize (IHr Hin). specialize (Hle l). lia.
Qed.

Lemma rb_link_node_nodes x slot t :
  slot_of slot t -> x ∈ rb_nodes (rb_link_node x slot t).
Proof.
  revert slot. induction t as [|l IHl z r IHr]; intros slot Hs.
  - destruct slot as [|[] slot]; cbn; set_solver.
  - destruct slot as [|[] slot]; cbn in *; [contradiction| |].
    + specialize (IHr _ Hs). set_solver.
    + specialize (IHl _ Hs). set_solver.
Qed.

Lemma rb_link_node_keeps x y slot t :
  y ∈ rb_nodes t -> y ∈ rb_nodes (rb_link_node x slot t).
Proof.
  revert slot. induction t as [|l IHl z r IHr]; intros slot Hy.
  - inversion Hy.
  - destruct slot as [|[] slot]; cbn in *; [auto| |].
    + specialize (IHr slot). set_solver.
    + specialize (IHl slot). set_solver.
Qed.

Lemma rb_link_node_from x y slot t :
  y ∈ rb_nodes (rb_link_node x slot t) -> y = x \/ y ∈ rb_nodes t.
Proof.
  revert slot. induction t as [|l IHl z r IHr]; intros slot Hy.
  - destruct slot as [|[] slot]; cbn in Hy; set_solver.
  - destruct slot as [|[] slot]; cbn in *; [auto| |].
    + specialize (IHr slot). set_solver.
    + specialize (IHl slot). set_solver.
Qed.

(** *** [remove_rmap_item_from_tree] *)

Lemma has_after_remove_other ri k :
  0 <= k -> k <> 3 -> k <> 4 -> k <> 5 ->
  has (address_after_remove ri) (2 ^ k) = has (address ri) (2 ^ k).
Proof.
  intros Hk H3 H4 H5. unfold address_after_remove.
  repeat match goal with |- context [if ?c then _ else _] => destruct c end;
    flags; reflexivity.
Qed.

Lemma has_after_remove_checksum_list ri :
  has (address ri) STABLE_FLAG = false ->
  has (address ri) UNSTABLE_FLAG = true ->
  has (address_after_remove ri) CHECKSUM_LIST_FLAG = false.
Proof.
  intros Hs Hu. unfold address_after_remove. rewrite Hs, Hu.
  destruct (node_linked ri).
  - destruct (has (clear_bits _ _) CHECKSUM_LIST_FLAG) eqn:E; [|exact E].
    flags. reflexivity.
  - destruct (has (address ri) CHECKSUM_LIST_FLAG) eqn:E; [|exact E].
    flags. reflexivity.
Qed.

Lemma free_anchors_inv r anchors : forall s u s',
  free_anchors r anchors s = Ret u s' ->
  pages s' = pages s /\
  root_stable_tree s' = root_stable_tree s /\
  root_unstable_tree s' = root_unstable_tree s /\
  unstabletree_checksum_list s' = unstabletree_checksum_list s /\
  new_anon_page_list s' = new_anon_page_list s /\
  pksm_rescan_page_list s' = pksm_rescan_page_list s /\
  del_anon_page_list s' = del_anon_page_list s /\
  (forall x, x <> r -> rmaps s' !! x = rmaps s !! x) /\
  (forall ri, rmaps s !! r = Some ri ->
     exists ri', rmaps s' !! r = Some ri' /\ address ri' = address ri /\
       ri_page ri' = ri_page ri /\ node_linked ri' = node_linked ri /\
       checksum ri' = checksum ri /\ ri_mapcount ri' = ri_mapcount ri).
Proof.
  induction anchors as [|a rest IH]; intros s u s' H; cbn [free_anchors] in H.
  - minv. repeat split; auto. intros ri Hr. eauto 10.
  - apply bind_inv in H as (? & s1 & H1 & H).
    apply upd_rmap_inv in H1 as (ri1 & Hr1 & ->).
    apply bind_inv in H as (? & s2 & H2 & H).
    assert (Hs2 : exists avs, s2 = with_anon_vmas avs
              (with_rmaps (<[r:=with_hlist (tail (hlist ri1)) ri1]> (rmaps s)) s)).
    { unfold put_anon_vma in H2. minv. eauto. }
    destruct Hs2 as (avs & ->). clear H2.
    apply bind_inv in H as (? & s3 & H3 & H).
    assert (Hs3 : exists n k, s3 = with_ksm_stable_nodes k (with_stable_anon_avail n
              (with_anon_vmas avs
              (with_rmaps (<[r:=with_hlist (tail (hlist ri1)) ri1]> (rmaps s)) s)))).
    { unfold free_stable_anon in H3. minv. eauto. }
    destruct Hs3 as (n & k & ->). clear H3.
    apply IH in H as (Hp & Hst & Hun & Hcl & Hnl & Hrl & Hdl & Hoth & Hme).
    proj in Hp. proj in Hst. proj in Hun. proj in Hcl. proj in Hnl. proj in Hrl.
    proj in Hdl. proj in Hoth. proj in Hme.
    repeat split; auto.
    + intros y Hy. rewrite Hoth by auto. apply lookup_insert_ne. auto.
    + intros ri Hr. rewrite Hr1 in Hr. injection Hr as <-.
      destruct (Hme _ (lookup_insert_eq _ _ _)) as (ri' & H1 & H2 & H3 & H4 & H5 & H6).
      exists ri'. repeat split; auto.
Qed.

(** What [remove_rmap_item_from_tree] did, for either value of
    [free_anon]. *)
Lemma remove_rmap_item_from_tree_inv r free_anon s ri u s' :
  rmaps s !! r = Some ri ->
  remove_rmap_item_from_tree (Some r) free_anon s = Ret u s' ->
  pages s' = pages s /\
  root_stable_tree s' =
    (if leaves_stable ri then rb_erase r (root_stable_tree s)
     else root_stable_tree s) /\
  root_unstable_tree s' =
    (if leaves_unstable ri then rb_erase r (root_unstable_tree s)
     else root_unstable_tree s) /\
  unstabletree_checksum_list s' =
    (if leaves_checksum_list ri
     then filter (fun x => x <> r) (unstabletree_checksum_list s)
     else unstabletree_checksum_list s) /\
  new_anon_page_list s' = new_anon_page_list s /\
  pksm_rescan_page_list s' = pksm_rescan_page_list s /\
  del_anon_page_list s' = del_anon_page_list s /\
  (forall x, x <> r -> rmaps s' !! x = rmaps s !! x) /\
  exists ri',
    rmaps s' !! r = Some ri' /\
    address ri' = address_after_remove ri /\
    ri_page ri' = ri_page ri /\
    checksum ri' = checksum ri /\
    ri_mapcount ri' = ri_mapcount ri /\
    node_linked ri' = node_linked ri && negb (leaves_stable ri || leaves_unstable ri).
Proof.
  intros Hr H. unfold remove_rmap_item_from_tree in H.
  apply bind_inv in H as (ri0 & s0 & H0 & H).
  apply get_rmap_inv in H0 as [-> H0]. rewrite Hr in H0. injection H0 as <-.
  apply bind_inv in H as (? & s1 & Hbranch & H).
  apply bind_inv in H as (ri1 & s2 & H2 & Htail).
  apply get_rmap_inv in H2 as [-> Hr1].
  (* the branch on the flags *)
  assert (Hb :
    pages s1 = pages s /\
    root_stable_tree s1 =
      (if leaves_stable ri then rb_erase r (root_stable_tree s)
       else root_stable_tree s) /\
    root_unstable_tree s1 =
      (if leaves_unstable ri then rb_erase r (root_unstable_tree s)
       else root_unstable_tree s) /\
    unstabletree_checksum_list s1 =
      (if leaves_checksum_list ri
       then filter (fun x => x <> r) (unstabletree_checksum_list s)
       else unstabletree_checksum_list s) /\
    new_anon_page_list s1 = new_anon_page_list s /\
    pksm_rescan_page_list s1 = pksm_rescan_page_list s /\
    del_anon_page_list s1 = del_anon_page_list s /\
    (forall x, x <> r -> rmaps s1 !! x = rmaps s !! x) /\
    address ri1 = address_after_remove ri /\
    ri_page ri1 = ri_page ri /\ checksum ri1 = checksum ri /\
    ri_mapcount ri1 = ri_mapcount ri /\
    node_linked ri1 = node_linked ri && negb (leaves_stable ri || leaves_unstable ri)).
  { clear Htail. unfold leaves_stable, leaves_unstable, leaves_checksum_list,
      address_after_remove.
    destruct (has (address ri) STABLE_FLAG) eqn:Hst;
      [|destruct (has (address ri) UNSTABLE_FLAG) eqn:Hun];
      destruct (node_linked ri) eqn:Hl; cbn [andb negb orb];
      minv; mclean; proj; rewrite ?Hl;
      flags_pow2; rewrite ?has_clear_other in * by lia;
      repeat match goal with
             | H : has ?a ?f = _ |- context [has ?a ?f] => rewrite H
             end;
      repeat split; auto;
      try (intros y Hy; rewrite ?lookup_insert_ne by auto; reflexivity). }
  destruct Hb as (Hp & Hst & Hun & Hcl & Hnl & Hrl & Hdl & Hoth & Ha & Hpg & Hck & Hmc & Hln).
  clear Hbranch.
  destruct (free_anon && negb (bool_decide (hlist ri1 = []))).
  - apply free_anchors_inv in Htail
      as (Hp' & Hst' & Hun' & Hcl' & Hnl' & Hrl' & Hdl' & Hoth' & Hme).
    destruct (Hme _ Hr1) as (ri' & H1 & H2 & H3 & H4 & H5 & H6).
    rewrite Hp', Hst', Hun', Hcl', Hnl', Hrl', Hdl'.
    repeat split; auto.
    + intros y Hy. rewrite Hoth' by auto. auto.
    + exists ri'. repeat split; congruence.
  - minv. repeat split; auto. exists ri1. repeat split; auto.
Qed.

End Trees.

(** ** Steps that only move page reference counts *)

Module Quiet.
Import Mach Model Spec Infra Trees.

Lemma with_count_id pg : with_count (_count pg) pg = pg.
Proof. destruct pg; reflexivity. Qed.

Lemma pages_quiet_refl ps : pages_quiet ps ps.
Proof.
  intros p. destruct (ps !! p) as [a|]; [|exact I].
  exists (_count a). symmetry. apply with_count_id.
Qed.

Lemma pages_quiet_trans a b c : pages_quiet a b -> pages_quiet b c -> pages_quiet a c.
Proof.
  intros H1 H2 p. specialize (H1 p). specialize (H2 p).
  destruct (a !! p), (b !! p), (c !! p); try contradiction; auto.
  destruct H1 as [c1 ->], H2 as [c2 ->]. exists c2. reflexivity.
Qed.

Lemma pages_quiet_insert ps p pg c :
  ps !! p = Some pg -> pages_quiet ps (<[p := with_count c pg]> ps).
Proof.
  intros Hp q. destruct (decide (p = q)) as [<-|Hne].
  - rewrite Hp, lookup_insert_eq. eauto.
  - rewrite lookup_insert_ne by auto. apply pages_quiet_refl.
Qed.

Lemma quiet_refl s : quiet s s.
Proof. unfold quiet. repeat split; auto. apply pages_quiet_refl. Qed.

Lemma quiet_trans a b c : quiet a b -> quiet b c -> quiet a c.
Proof.
  unfold quiet. intros (A1 & A2 & A3 & A4 & A5 & A6 & A7 & A8 & A9)
    (B1 & B2 & B3 & B4 & B5 & B6 & B7 & B8 & B9).
  repeat split; try congruence. eapply pages_quiet_trans; eauto.
Qed.

Lemma quiet_page s s' p pg :
  quiet s s' -> pages s !! p = Some pg ->
  exists c, pages s' !! p = Some (with_count c pg).
Proof.
  intros Hq Hp. destruct Hq as (_ & _ & _ & _ & _ & _ & _ & _ & Hq).
  specialize (Hq p). rewrite Hp in Hq.
  destruct (pages s' !! p); [|contradiction]. destruct Hq as [c ->]. eauto.
Qed.

Lemma quiet_page_back s s' p pg' :
  quiet s s' -> pages s' !! p = Some pg' ->
  exists pg c, pages s !! p = Some pg /\ pg' = with_count c pg.
Proof.
  intros Hq Hp. destruct Hq as (_ & _ & _ & _ & _ & _ & _ & _ & Hq).
  specialize (Hq p). rewrite Hp in Hq.
  destruct (pages s !! p); [|contradiction]. destruct Hq as [c ->]. eauto.
Qed.

Lemma quiet_rmaps s s' : quiet s s' -> rmaps s' = rmaps s.
Proof. intros H. apply H. Qed.

Lemma quiet_upd_count s p pg c :
  pages s !! p = Some pg ->
  quiet s (with_pages (<[p := with_count c pg]> (pages s)) s).
Proof.
  intros Hp. unfold quiet. proj. repeat split; auto.
  apply pages_quiet_insert, Hp.
Qed.

Lemma get_page_unless_zero_quiet p s b s' :
  get_page_unless_zero p s = Ret b s' -> quiet s s'.
Proof.
  unfold get_page_unless_zero. intros H. minv; mclean;
    first [apply quiet_refl | apply quiet_upd_count; assumption].
Qed.

Lemma put_page_quiet p s u s' : put_page p s = Ret u s' -> quiet s s'.
Proof.
  unfold put_page. intros H. minv; mclean.
  apply quiet_upd_count; assumption.
Qed.

Lemma get_ksm_page_quiet r s o s' :
  get_ksm_page r s = Ret o s' -> quiet s s'.
Proof.
  unfold get_ksm_page. intros H.
  apply bind_inv in H as (v & s1 & Hv & H).
  apply check_valid_rmap_item_inv in Hv as [-> _].
  destruct v; cbn [negb] in H; [|minv; apply quiet_refl].
  apply bind_inv in H as (ri & s1 & Hr & H). apply get_rmap_inv in Hr as [-> Hr].
  destruct (has (address ri) STABLE_FLAG); cbn [negb] in H; [|minv; apply quiet_refl].
  destruct (ri_page ri) as [p|]; [|minv; apply quiet_refl].
  apply bind_inv in H as (pg & s1 & Hp & H). apply get_page_inv in Hp as [-> Hp].
  destruct (PageKsm pg); cbn [negb] in H; [|minv; apply quiet_refl].
  destruct (bool_decide _); cbn [negb] in H; [|minv; apply quiet_refl].
  apply bind_inv in H as (got & s1 & Hg & H).
  apply get_page_unless_zero_quiet in Hg.
  destruct got; cbn [negb] in H; [|minv; exact Hg].
  apply bind_inv in H as (v & s2 & Hv & H).
  apply check_valid_rmap_item_inv in Hv as [-> _].
  destruct v; cbn [negb] in H.
  - apply bind_inv in H as (pg2 & s3 & Hp2 & H). apply get_page_inv in Hp2 as [-> Hp2].
    destruct (bool_decide _); cbn [negb] in H.
    + minv. exact Hg.
    + apply bind_inv in H as (? & s3 & Hput & H). apply put_page_quiet in Hput.
      minv. eapply quiet_trans; eauto.
  - apply bind_inv in H as (? & s3 & Hput & H). apply put_page_quiet in Hput.
    minv. eapply quiet_trans; eauto.
Qed.

Lemma get_mergeable_page_quiet r s o s' :
  get_mergeable_page r s = Ret o s' -> quiet s s'.
Proof.
  unfold get_mergeable_page. intros H.
  apply bind_inv in H as (v & s1 & Hv & H).
  apply check_valid_rmap_item_inv in Hv as [-> _].
  destruct v; cbn [negb] in H; [|minv; apply quiet_refl].
  apply bind_inv in H as (ri & s1 & Hr & H). apply get_rmap_inv in Hr as [-> Hr].
  destruct (has (address ri) UNSTABLE_FLAG); cbn [negb] in H; [|minv; apply quiet_refl].
  destruct (ri_page ri) as [p|]; [|minv; apply quiet_refl].
  apply bind_inv in H as (got & s1 & Hg & H).
  apply get_page_unless_zero_quiet in Hg.
  destruct got; cbn [negb] in H; [|minv; exact Hg].
  apply bind_inv in H as (v & s2 & Hv & H).
  apply check_valid_rmap_item_inv in Hv as [-> _].
  destruct v; cbn [negb] in H; [|minv; exact Hg].
  apply bind_inv in H as (pg2 & s3 & Hp2 & H). apply get_page_inv in Hp2 as [-> Hp2].
  destruct (PageAnon pg2).
  - minv. exact Hg.
  - apply bind_inv in H as (? & s3 & Hput & H). apply put_page_quiet in Hput.
    minv. eapply quiet_trans; eauto.
Qed.


Lemma get_mergeable_page_some r s p s' :
  get_mergeable_page r s = Ret (Some p) s' ->
  exists ri, rmaps s !! r = Some ri /\ ri_page ri = Some p /\
             is_Some (pages s' !! p).
Proof.
  unfold get_mergeable_page. intros H.
  apply bind_inv in H as (v & s1 & Hv & H).
  apply check_valid_rmap_item_inv in Hv as [-> _].
  destruct v; cbn [negb] in H; [|minv; congruence].
  apply bind_inv in H as (ri & s1 & Hr & H). apply get_rmap_inv in Hr as [-> Hr].
  destruct (has (address ri) UNSTABLE_FLAG); cbn [negb] in H; [|minv; congruence].
  destruct (ri_page ri) as [q|] eqn:Hq; [|minv; congruence].
  apply bind_inv in H as (got & s1 & Hg & H).
  destruct got; cbn [negb] in H; [|minv; congruence].
  apply bind_inv in H as (v & s2 & Hv & H).
  apply check_valid_rmap_item_inv in Hv as [-> _].
  destruct v; cbn [negb] in H; [|minv; congruence].
  apply bind_inv in H as (pg2 & s3 & Hp2 & H). apply get_page_inv in Hp2 as [-> Hp2].
  destruct (PageAnon pg2); minv; try congruence; eauto.
Qed.

(** *** Totality of the acquisitions *)






End Quiet.

(** ** One pass of a descent *)

Module Descent.
Import Mach Model Spec Infra Trees Quiet.

Lemma dead_in_quiet s s' n : quiet s s' -> dead_in s' n <-> dead_in s n.
Proof. intros Hq. unfold dead_in. rewrite (quiet_rmaps _ _ Hq). reflexivity. Qed.

Lemma alive_in_quiet s s' n : quiet s s' -> alive_in s' n <-> alive_in s n.
Proof. intros Hq. unfold alive_in. rewrite (quiet_rmaps _ _ Hq). reflexivity. Qed.

(** A pass below a live node, after a quiet step. *)
Lemma walk_post_below acquire l x r (turn : bool) s s2 d s' :
  quiet s s2 -> alive_in s x ->
  walk_post acquire (if turn then r else l) s2 d s' ->
  walk_post acquire (rb_node l x r) s (below turn d) s'.
Proof.
  intros Hq Hx Hpost.
  assert (Hsub : forall n, n ∈ rb_nodes (if turn then r else l) ->
                           n ∈ rb_nodes (rb_node l x r)).
  { intros n Hn. cbn. destruct turn; set_solver. }
  destruct d as [n|e]; cbn [below walk_post] in *.
  - destruct Hpost as (Hn & Hd & s1 & Hq1 & Hrm). split; [auto|].
    split; [apply (dead_in_quiet _ _ _ Hq), Hd|].
    exists s1. split; [exact (quiet_trans _ _ _ Hq Hq1)|exact Hrm].
  - destruct Hpost as (Hq' & He).
    assert (Hqq : quiet s s') by exact (quiet_trans _ _ _ Hq Hq').
    destruct e as [n|n p|n|slot]; cbn [below walk_post].
    + destruct He as (Hn & Ha & s1 & Hq1 & Hacq).
      split; [exact Hqq|]. split; [auto|]. split.
      * apply (alive_in_quiet _ _ _ Hq), Ha.
      * exists s1. split; [exact (quiet_trans _ _ _ Hq Hq1)|exact Hacq].
    + destruct He as (Hn & Ha). split; [exact Hqq|]. split; [auto|].
      apply (alive_in_quiet _ _ _ Hq), Ha.
    + destruct He as (Hn & Ha). split; [exact Hqq|]. split; [auto|].
      apply (alive_in_quiet _ _ _ Hq), Ha.
    + destruct He as (Hs & Hpath). split; [exact Hqq|]. split.
      * destruct turn; exact Hs.
      * intros n Hn.
        assert (Hn' : n = x \/ n ∈ path_nodes slot (if turn then r else l)).
        { destruct turn; cbn in Hn; apply elem_of_cons in Hn; exact Hn. }
        destruct Hn' as [->|Hn']; [exact Hx|].
        apply (alive_in_quiet _ _ _ Hq), Hpath, Hn'.
Qed.

Lemma walk_post_leaf acquire s : walk_post acquire rb_leaf s (Stop (Miss [])) s.
Proof.
  cbn. split; [apply quiet_refl|]. split; [exact I|].
  intros n Hn. inversion Hn.
Qed.

Lemma walk_post_evict acquire l x r s ri s' :
  rmaps s !! x = Some ri -> node_is_dead ri = true ->
  remove_rmap_item_from_tree (Some x) false s = Ret tt s' ->
  walk_post acquire (rb_node l x r) s (Evict x) s'.
Proof.
  intros Hr Hd Hrm. cbn. split; [set_solver|]. split; [exists ri; auto|].
  exists s. split; [apply quiet_refl|exact Hrm].
Qed.


Lemma stable_tree_insert_walk_post rmap_item t : forall s d s',
  stable_tree_insert_walk rmap_item t s = Ret d s' ->
  walk_post get_ksm_page t s d s'.
Proof.
  induction t as [|l IHl x r IHr]; intros s d s' H; cbn [stable_tree_insert_walk] in H.
  - minv. apply walk_post_leaf.
  - apply bind_inv in H as (tri & s0 & Hc & H). apply get_rmap_inv in Hc as [-> Hx].
    destruct (node_is_dead tri) eqn:Hdead.
    + apply bind_inv in H as ([] & s1 & Hrm & H). minv.
      eapply walk_post_evict; eauto.
    + assert (Halive : alive_in s x) by (exists tri; auto).
      apply bind_inv in H as (tree_page & s1 & Hacq & H).
      pose proof (get_ksm_page_quiet _ _ _ _ Hacq) as Hq1.
      destruct tree_page as [tp|].
      2:{ minv. cbn. split; [exact Hq1|]. split; [set_solver|]. split; [exact Halive|].
          exists s. split; [apply quiet_refl|exact Hacq]. }
      apply bind_inv in H as (ri & s2 & Hc & H). apply get_rmap_inv in Hc as [-> _].
      apply bind_inv in H as (tri' & s2 & Hc & H). apply get_rmap_inv in Hc as [-> _].
      apply bind_inv in H as ([] & s2 & Hput & H). apply put_page_quiet in Hput.
      assert (Hq2 : quiet s s2) by (eapply quiet_trans; eauto).
      destruct (_ <? 0).
      { apply bind_inv in H as (d' & s3 & Hrec & H). minv.
        apply (walk_post_below _ l x r false s s2); auto. }
      destruct (_ >? 0).
      { apply bind_inv in H as (d' & s3 & Hrec & H). minv.
        apply (walk_post_below _ l x r true s s2); auto. }
      minv. cbn. split; [exact Hq2|]. split; [set_solver|exact Halive].
Qed.

Lemma unstable_tree_search_insert_walk_post rmap_item p t : forall s d s',
  unstable_tree_search_insert_walk rmap_item p t s = Ret d s' ->
  walk_post get_mergeable_page t s d s'.
Proof.
  induction t as [|l IHl x r IHr]; intros s d s' H;
    cbn [unstable_tree_search_insert_walk] in H.
  - minv. apply walk_post_leaf.
  - apply bind_inv in H as (pg & s0 & Hc & H). apply get_page_inv in Hc as [-> _].
    apply bind_inv in H as ([] & s0 & Hc & H). apply BUG_ON_inv in Hc as [-> _].
    apply bind_inv in H as (tri & s0 & Hc & H). apply get_rmap_inv in Hc as [-> Hx].
    destruct (node_is_dead tri) eqn:Hdead.
    + apply bind_inv in H as ([] & s1 & Hrm & H). minv.
      eapply walk_post_evict; eauto.
    + assert (Halive : alive_in s x) by (exists tri; auto).
      apply bind_inv in H as (tree_page & s1 & Hacq & H).
      pose proof (get_mergeable_page_quiet _ _ _ _ Hacq) as Hq1.
      destruct tree_page as [tp|].
      2:{ minv. cbn. split; [exact Hq1|]. split; [set_solver|]. split; [exact Halive|].
          exists s. split; [apply quiet_refl|exact Hacq]. }
      apply bind_inv in H as (tpg & s2 & Hc & H). apply get_page_inv in Hc as [-> _].
      apply bind_inv in H as ([] & s2 & Hc & H). apply BUG_ON_inv in Hc as [-> _].
      destruct (bool_decide (p = tp)).
      { apply bind_inv in H as ([] & s2 & Hput & H). apply put_page_quiet in Hput.
        minv. cbn. split; [eapply quiet_trans; eauto|]. split; [set_solver|exact Halive]. }
      apply bind_inv in H as (ri & s2 & Hc & H). apply get_rmap_inv in Hc as [-> _].
      apply bind_inv in H as (tri' & s2 & Hc & H). apply get_rmap_inv in Hc as [-> _].
      destruct (_ <? 0).
      { apply bind_inv in H as ([] & s2 & Hput & H). apply put_page_quiet in Hput.
        apply bind_inv in H as (d' & s3 & Hrec & H). minv.
        apply (walk_post_below _ l x r false s s2); auto.
        eapply quiet_trans; eauto. }
      destruct (_ >? 0).
      { apply bind_inv in H as ([] & s2 & Hput & H). apply put_page_quiet in Hput.
        apply bind_inv in H as (d' & s3 & Hrec & H). minv.
        apply (walk_post_below _ l x r true s s2); auto.
        eapply quiet_trans; eauto. }
      minv. cbn. split; [exact Hq1|]. split; [set_solver|exact Halive].
Qed.

End Descent.

(** ** Evictions and restarts *)

Module Retry.
Import Mach Model Spec Infra Trees Quiet Descent.

Lemma walk_post_evicted acquire t s n s' :
  walk_post acquire t s (Evict n) s' -> n ∈ rb_nodes t /\ evicted s n s'.
Proof.
  intros (Hn & (ri & Hr & Hd) & s1 & Hq & Hrm). split; [exact Hn|].
  assert (Hr1 : rmaps s1 !! n = Some ri) by (rewrite (quiet_rmaps _ _ Hq); exact Hr).
  destruct (remove_rmap_item_from_tree_inv _ _ _ _ _ _ Hr1 Hrm)
    as (Hp & Hst & Hun & Hcl & _ & _ & _ & Hoth & ri' & Hr' & Ha & Hpg & _).
  destruct Hq as (Q1 & Q2 & Q3 & Q4 & _ & _ & _ & _ & Q9).
  exists ri, ri'. repeat split; auto.
  - intros x Hx. rewrite Hoth by auto. rewrite Q1. reflexivity.
  - rewrite Hp. exact Q9.
  - intros [|]; cbn [tree_of leaves]; [rewrite Hst, Q2|rewrite Hun, Q3]; reflexivity.
  - rewrite Hcl, Q4. reflexivity.
Qed.

Lemma node_is_dead_after_remove ri ri' :
  address ri' = address_after_remove ri -> ri_page ri' = ri_page ri ->
  node_is_dead ri' = node_is_dead ri.
Proof.
  intros Ha Hp. unfold node_is_dead. rewrite Ha, Hp.
  change DELLIST_FLAG with (2 ^ 1).
  rewrite has_after_remove_other by lia. reflexivity.
Qed.

Lemma evicted_dead s n s' m : evicted s n s' -> dead_in s' m <-> dead_in s m.
Proof.
  intros (ri & ri' & Hr & Hd & Hr' & Ha & Hp & Hoth & _).
  unfold dead_in. destruct (decide (m = n)) as [->|Hne].
  - rewrite Hr, Hr'. pose proof (node_is_dead_after_remove _ _ Ha Hp) as E.
    split; intros (x & [= <-] & Hx); eexists; split; eauto; congruence.
  - rewrite Hoth by auto. reflexivity.
Qed.

Lemma evicted_alive s n s' m : evicted s n s' -> alive_in s' m <-> alive_in s m.
Proof.
  intros (ri & ri' & Hr & Hd & Hr' & Ha & Hp & Hoth & _).
  unfold alive_in. destruct (decide (m = n)) as [->|Hne].
  - rewrite Hr, Hr'. pose proof (node_is_dead_after_remove _ _ Ha Hp) as E.
    split; intros (x & [= <-] & Hx); eexists; split; eauto; congruence.
  - rewrite Hoth by auto. reflexivity.
Qed.

Lemma evicted_tree_sub b s n s' m :
  evicted s n s' -> m ∈ rb_nodes (tree_of b s') -> m ∈ rb_nodes (tree_of b s).
Proof.
  intros (ri & ri' & _ & _ & _ & _ & _ & _ & _ & Ht & _). rewrite Ht.
  destruct (leaves b ri); [apply rb_erase_subset|auto].
Qed.

Lemma evicted_tree_keeps b s n s' m :
  evicted s n s' -> m <> n -> m ∈ rb_nodes (tree_of b s) ->
  m ∈ rb_nodes (tree_of b s').
Proof.
  intros (ri & ri' & _ & _ & _ & _ & _ & _ & _ & Ht & _) Hne. rewrite Ht.
  destruct (leaves b ri); [apply rb_erase_other; auto|auto].
Qed.



(** An eviction from a tree in good order removes the node, shrinks the
    tree and leaves it in good order. *)
Lemma evicted_tree_ok b s n s' :
  tree_ok b s -> n ∈ rb_nodes (tree_of b s) -> evicted s n s' ->
  tree_ok b s' /\ (n ∉ rb_nodes (tree_of b s')) /\
  (rb_size (tree_of b s') < rb_size (tree_of b s))%nat.
Proof.
  intros (Hnd & Hok) Hn Hev.
  pose proof Hev as (ri & ri' & Hr & Hd & Hr' & Ha & Hp & Hoth & Hpq & Ht & _).
  destruct (Hok n Hn) as (ri0 & Hr0 & Hl & _).
  rewrite Hr in Hr0. injection Hr0 as <-.
  specialize (Ht b). rewrite Hl in Ht.
  split; [split|split].
  - rewrite Ht. apply rb_erase_NoDup, Hnd.
  - intros m Hm. rewrite Ht in Hm.
    assert (Hmn : m <> n).
    { intros ->. revert Hm. apply rb_erase_gone, Hnd. }
    apply rb_erase_subset in Hm.
    destruct (Hok m Hm) as (rm & Hrm & Hlm & Hpm).
    exists rm. rewrite Hoth by auto. split; [exact Hrm|]. split; [exact Hlm|].
    intros q Hq. destruct (Hpm q Hq) as (qg & Hqg & Hk).
    specialize (Hpq q). rewrite Hqg in Hpq.
    destruct (pages s' !! q); [|contradiction]. destruct Hpq as [c ->]. eauto.
  - rewrite Ht. apply rb_erase_gone, Hnd.
  - rewrite Ht. apply rb_erase_size, Hn.
Qed.


Lemma unlinked_not_in_tree b s r :
  tree_ok b s -> unlinked_item s r -> r ∉ rb_nodes (tree_of b s).
Proof.
  intros (_ & Hok) (ri & Hr & Hs & Hu) Hin.
  destruct (Hok r Hin) as (ri0 & Hr0 & Hl & _).
  rewrite Hr in Hr0. injection Hr0 as <-.
  destruct b; cbn in Hl; unfold leaves_stable, leaves_unstable in Hl;
    rewrite ?Hs, ?Hu in Hl; discriminate Hl.
Qed.

Lemma evicted_unlinked b s n s' r :
  tree_ok b s -> n ∈ rb_nodes (tree_of b s) -> evicted s n s' ->
  unlinked_item s r -> unlinked_item s' r.
Proof.
  intros Hok Hn Hev Hun.
  assert (Hne : r <> n).
  { intros ->. exact (unlinked_not_in_tree _ _ _ Hok Hun Hn). }
  destruct Hev as (ri & ri' & _ & _ & _ & _ & _ & Hoth & _).
  destruct Hun as (rr & Hr & Hs & Hu). exists rr. rewrite Hoth by auto. auto.
Qed.



(** *** The [goto retry] loop *)

Section Loop.
Variable stable : bool.
Variable acquire : nat -> M (option nat).
Variable pass : M (descent walk_end).
Hypothesis pass_post : forall s d s',
  pass s = Ret d s' -> walk_post acquire (tree_of stable s) s d s'.

(** What a completed run did: the nodes that left the tree were dead,
    the dead stay dead, and the last pass stopped in a state that
    differs from its start in reference counts only. *)
Lemma retry_inv (fuel : nat) : forall s e s',
  retry fuel pass s = Ret e s' ->
  (forall m, m ∈ rb_nodes (tree_of stable s) ->
             m ∉ rb_nodes (tree_of stable s') -> dead_in s m) /\
  (forall m, m ∈ rb_nodes (tree_of stable s') ->
             m ∈ rb_nodes (tree_of stable s)) /\
  (forall m, dead_in s' m <-> dead_in s m) /\
  (forall m, alive_in s' m <-> alive_in s m) /\
  exists s0, pass s0 = Ret (Stop e) s' /\ quiet s0 s' /\
             walk_post acquire (tree_of stable s0) s0 (Stop e) s'.
Proof.
  induction fuel as [|fuel IH]; intros s e s' H; cbn [retry] in H; [discriminate H|].
  apply bind_inv in H as (d & s1 & Hpass & H).
  pose proof (pass_post _ _ _ Hpass) as Hpost.
  destruct d as [n|e0].
  - apply walk_post_evicted in Hpost as (Hn & Hev).
    destruct (IH _ _ _ H) as (Hleft & Hsub & Hdead & Halive & Hlast).
    split; [|split; [|split; [|split]]].
    + intros m Hm Hm'. destruct (decide (m = n)) as [->|Hne].
      * destruct Hev as (ri & _ & Hr & Hd & _). exists ri. auto.
      * apply (evicted_dead _ _ _ _ Hev). apply Hleft; [|exact Hm'].
        eapply evicted_tree_keeps; eauto.
    + intros m Hm. eapply evicted_tree_sub; eauto.
    + intros m. rewrite Hdead. eapply evicted_dead; eauto.
    + intros m. rewrite Halive. eapply evicted_alive; eauto.
    + exact Hlast.
  - apply ret_inv in H as [-> ->].
    pose proof Hpost as (Hq & _).
    assert (Ht : tree_of stable s' = tree_of stable s).
    { destruct Hq as (_ & Q2 & Q3 & _). destruct stable; cbn; auto. }
    rewrite Ht. split; [intros m Hm Hm'; contradiction|]. split; [auto|].
    split; [intros m; apply dead_in_quiet, Hq|].
    split; [intros m; apply alive_in_quiet, Hq|].
    exists s. auto.
Qed.

Variable ok : state -> Prop.
Hypothesis ok_tree : forall s, ok s -> tree_ok stable s.
Hypothesis pass_total : forall s, ok s -> exists d s', pass s = Ret d s'.
Hypothesis ok_evicted : forall s n s',
  ok s -> n ∈ rb_nodes (tree_of stable s) -> evicted s n s' -> ok s'.

Hypothesis ok_quiet : forall s s', ok s -> quiet s s' -> ok s'.

End Loop.

End Retry.

(** ** The passes return *)

Module Total.
Import Mach Model Spec Infra Trees Quiet Descent Retry.






End Total.

(** ** References taken by [get_ksm_page] *)

Module Acquire.
Import Mach Model Spec Infra.

Lemma with_pages_same s : with_pages (pages s) s = s.
Proof. destruct s. reflexivity. Qed.

Lemma with_count_same pg : with_count (_count pg) pg = pg.
Proof. destruct pg. reflexivity. Qed.

(** A reference taken and dropped again leaves the state as it was. *)
Lemma get_put_same p s s1 u s2 :
  get_page_unless_zero p s = Ret true s1 -> put_page p s1 = Ret u s2 -> s2 = s.
Proof.
  unfold get_page_unless_zero, put_page. intros H1 H2.
  apply bind_inv in H1 as (pg & s0 & Hx & H1). apply get_page_inv in Hx as [-> Hp].
  destruct (_count pg =? 0); [apply ret_inv in H1 as [? _]; discriminate|].
  apply bind_inv in H1 as ([] & s0 & Hu & H1). apply ret_inv in H1 as [_ <-].
  apply upd_page_inv in Hu as (pg0 & Hp0 & ->).
  rewrite Hp in Hp0. injection Hp0 as <-.
  apply bind_inv in H2 as (pg1 & s0 & Hx & H2). apply get_page_inv in Hx as [-> Hp1].
  proj in Hp1. rewrite lookup_insert_eq in Hp1. injection Hp1 as <-.
  apply upd_page_inv in H2 as (pg2 & Hp2 & ->).
  proj in Hp2. rewrite lookup_insert_eq in Hp2. injection Hp2 as <-. proj.
  rewrite insert_insert_eq.
  replace (with_count (_count pg + 1 - 1) (with_count (_count pg + 1) pg)) with pg
    by (destruct pg; unfold with_count; proj; f_equal; lia).
  rewrite insert_id by exact Hp.
  destruct s. reflexivity.
Qed.

Lemma get_page_unless_zero_false p s s' :
  get_page_unless_zero p s = Ret false s' -> s' = s.
Proof.
  unfold get_page_unless_zero. intros H.
  apply bind_inv in H as (pg & s0 & Hx & H). apply get_page_inv in Hx as [-> Hp].
  destruct (_count pg =? 0).
  - apply ret_inv in H as [_ <-]. reflexivity.
  - apply bind_inv in H as ([] & s0 & _ & H). apply ret_inv in H as [? _]. discriminate.
Qed.

Lemma get_page_unless_zero_true p s s' :
  get_page_unless_zero p s = Ret true s' ->
  exists pg, pages s !! p = Some pg /\ _count pg <> 0 /\
    s' = with_pages (<[p := with_count (_count pg + 1) pg]> (pages s)) s.
Proof.
  unfold get_page_unless_zero. intros H.
  apply bind_inv in H as (pg & s0 & Hx & H). apply get_page_inv in Hx as [-> Hp].
  destruct (_count pg =? 0) eqn:Hc.
  - apply ret_inv in H as [? _]. discriminate.
  - apply bind_inv in H as ([] & s0 & Hu & H). apply ret_inv in H as [_ <-].
    apply upd_page_inv in Hu as (pg0 & Hp0 & ->).
    rewrite Hp in Hp0. injection Hp0 as <-.
    exists pg. split; [exact Hp|]. split; [|reflexivity]. apply Z.eqb_neq, Hc.
Qed.

(** The ways out of [get_ksm_page]. *)
Lemma get_ksm_page_inv r s out s' :
  get_ksm_page r s = Ret out s' ->
  match out with
  | None => s' = s
  | Some p =>
      exists ri pg,
        rmaps s !! r = Some ri /\ ri_page ri = Some p /\
        has (address ri) STABLE_FLAG = true /\
        has (address ri) INKSM_FLAG = true /\
        pages s !! p = Some pg /\ PagePKSM pg = true /\
        mapping pg = MappingKsm (Some r) /\ _count pg <> 0 /\
        s' = with_pages (<[p := with_count (_count pg + 1) pg]> (pages s)) s
  end.
Proof.
  unfold get_ksm_page. intros H.
  apply bind_inv in H as (v & s1 & Hv & H).
  apply check_valid_rmap_item_inv in Hv as [-> Hvalid].
  destruct v; cbn [negb] in H.
  2:{ apply ret_inv in H as [<- <-]. reflexivity. }
  destruct (Hvalid eq_refl) as (r0 & ri0 & p0 & pg0 & [= <-] & Hr0 & Hp0 & Hpg0 & Hk0 & Hin0).
  apply bind_inv in H as (ri & s1 & Hr & H). apply get_rmap_inv in Hr as [-> Hr].
  rewrite Hr0 in Hr. injection Hr as <-.
  destruct (has (address ri0) STABLE_FLAG) eqn:Hst; cbn [negb] in H.
  2:{ apply ret_inv in H as [<- <-]. reflexivity. }
  rewrite Hp0 in H.
  apply bind_inv in H as (pg & s1 & Hp & H). apply get_page_inv in Hp as [-> Hp].
  rewrite Hpg0 in Hp. injection Hp as <-.
  destruct (PageKsm pg0); cbn [negb] in H.
  2:{ apply ret_inv in H as [<- <-]. reflexivity. }
  destruct (bool_decide (mapping pg0 = MappingKsm (Some r))) eqn:Hmap; cbn [negb] in H.
  2:{ apply ret_inv in H as [<- <-]. reflexivity. }
  apply bool_decide_eq_true_1 in Hmap.
  apply bind_inv in H as (got & s1 & Hg & H).
  destruct got; cbn [negb] in H.
  2:{ apply get_page_unless_zero_false in Hg as ->.
      apply ret_inv in H as [<- <-]. reflexivity. }
  apply bind_inv in H as (v & s2 & Hv & H).
  apply check_valid_rmap_item_inv in Hv as [-> _].
  destruct v; cbn [negb] in H.
  2:{ apply bind_inv in H as ([] & s2 & Hput & H). apply ret_inv in H as [<- <-].
      exact (get_put_same _ _ _ _ _ Hg Hput). }
  apply bind_inv in H as (pg1 & s2 & Hp1 & H). apply get_page_inv in Hp1 as [-> Hp1].
  destruct (bool_decide (mapping pg1 = MappingKsm (Some r))); cbn [negb] in H.
  2:{ apply bind_inv in H as ([] & s2 & Hput & H). apply ret_inv in H as [<- <-].
      exact (get_put_same _ _ _ _ _ Hg Hput). }
  apply ret_inv in H as [<- <-].
  apply get_page_unless_zero_true in Hg as (pg & Hpg & Hc & ->).
  rewrite Hpg0 in Hpg. injection Hpg as <-.
  exists ri0, pg0. auto 10.
Qed.

(** [get_ksm_page] either fails and leaves the state exactly as it was, or
    returns the page of the item with one more reference on it and nothing
    else changed; it succeeds only on a valid item flagged [STABLE_FLAG]
    whose page is a KSM page that points back at the item and is still
    referenced. *)
Theorem get_ksm_page_reference r s out s' :
  get_ksm_page r s = Ret out s' ->
  match out with
  | None => s' = s
  | Some p =>
      exists ri pg,
        rmaps s !! r = Some ri /\ ri_page ri = Some p /\
        has (address ri) STABLE_FLAG = true /\
        has (address ri) INKSM_FLAG = true /\
        pages s !! p = Some pg /\ PagePKSM pg = true /\
        mapping pg = MappingKsm (Some r) /\ _count pg <> 0 /\
        s' = with_pages (<[p := with_count (_count pg + 1) pg]> (pages s)) s
  end.
Proof. exact (get_ksm_page_inv r s out s'). Qed.

Lemma get_ksm_page_reference_witness :
  exists pg,
    pages Scenario.merged_ab !! 10%nat = Some pg /\
    get_ksm_page 1 Scenario.merged_ab
    = Ret (Some 10%nat)
        (with_pages (<[10%nat := with_count (_count pg + 1) pg]>
                       (pages Scenario.merged_ab)) Scenario.merged_ab).
Proof.
  assert (Hrun : get_ksm_page 1 Scenario.merged_ab
                 = Ret (Some 10%nat)
                     (Scenario.exec (get_ksm_page 1) Scenario.merged_ab))
    by (vm_compute; reflexivity).
  destruct (get_ksm_page_reference _ _ _ _ Hrun)
    as (ri & pg & _ & _ & _ & _ & Hpg & _ & _ & _ & Hs).
  exists pg. split; [exact Hpg|]. rewrite <- Hs. exact Hrun.
Defined.

End Acquire.

(** ** The eviction rule of the descents (C1) *)

Module Eviction.
Import Mach Model Spec Infra Trees Quiet Descent Retry Total Acquire.


Lemma stable_insert_pass_post rmap_item s d s' :
  stable_insert_pass rmap_item s = Ret d s' ->
  walk_post get_ksm_page (tree_of true s) s d s'.
Proof. intros H. apply (stable_tree_insert_walk_post rmap_item). exact H. Qed.

Lemma unstable_pass_post rmap_item p s d s' :
  unstable_pass rmap_item p s = Ret d s' ->
  walk_post get_mergeable_page (tree_of false s) s d s'.
Proof. intros H. apply (unstable_tree_search_insert_walk_post rmap_item p). exact H. Qed.




Lemma stable_tree_insert_end_inv fuel r kpage s e code s' :
  stable_tree_insert_end fuel r kpage s = Ret (e, code) s' ->
  exists s1,
    retry fuel (stable_insert_pass r) s = Ret e s1 /\
    match e with
    | Miss slot =>
        code = 0 /\
        root_stable_tree s' = rb_link_node r slot (root_stable_tree s1)
    | Hit _ _ => code = PKSM_FAULT_TRY /\ s' = s1
    | _ => code = PKSM_FAULT_DROP /\ s' = s1
    end.
Proof.
  unfold stable_tree_insert_end, set_page_stable_ksm. intros H.
  apply bind_inv in H as (e0 & s1 & Hrun & H). exists s1.
  destruct e0; minv; mclean; (split; [exact Hrun|]); auto.
Qed.


Lemma unstable_tree_search_insert_end_inv fuel r p s e s' :
  unstable_tree_search_insert_end fuel r p s = Ret e s' ->
  exists s1,
    retry fuel (unstable_pass r p) s = Ret e s1 /\
    match e with
    | Miss slot =>
        exists ri,
          rmaps s1 !! r = Some ri /\
          root_unstable_tree s' = rb_link_node r slot (root_unstable_tree s1) /\
          unstabletree_checksum_list s' = unstabletree_checksum_list s1 ++ [r] /\
          rmaps s' =
            <[r := with_address
                     (set_bits (set_bits (address ri) UNSTABLE_FLAG)
                        CHECKSUM_LIST_FLAG)
                     (with_node_linked true ri)]> (rmaps s1) /\
          ksm_pages_unshared s' = u64 (ksm_pages_unshared s1 + 1)
    | _ => s' = s1
    end.
Proof.
  unfold unstable_tree_search_insert_end. intros H.
  apply bind_inv in H as (pg & s0 & Hc & H). apply get_page_inv in Hc as [-> Hp].
  apply bind_inv in H as ([] & s0 & Hc & H). apply BUG_ON_inv in Hc as [-> _].
  apply bind_inv in H as (e0 & s1 & Hrun & H). exists s1.
  destruct e0 as [n|n tp|n|slot]; try (minv; split; [exact Hrun|reflexivity]).
  apply bind_inv in H as (pg1 & s2 & Hc & H). apply get_page_inv in Hc as [-> _].
  apply bind_inv in H as ([] & s2 & Hc & H). apply BUG_ON_inv in Hc as [-> _].
  apply bind_inv in H as (ri & s2 & Hc & H). apply get_rmap_inv in Hc as [-> Hr].
  apply bind_inv in H as ([] & s2 & Hc & H). apply BUG_ON_inv in Hc as [-> Hu].
  apply bind_inv in H as ([] & s2 & Hc & H). apply BUG_ON_inv in Hc as [-> _].
  rewrite Hu in H. cbn [negb] in H.
  minv; mclean. split; [exact Hrun|]. eexists. proj.
  rewrite !insert_insert_eq. split; [eassumption|]. auto.
Qed.


(** *** The runs return *)




(** *** The claim *)


(** *** A dead node on the way is evicted *)



Lemma below_Evict turn n : below turn (Evict n) = Evict n.
Proof. reflexivity. Qed.







End Eviction.

(** ** The unstable tree and the checksum list (C9) *)

Module ChecksumList.
Import Mach Model Spec Infra Trees Quiet Descent Retry Total Eviction.

Lemma has_after_remove_unstable ri :
  has (address ri) STABLE_FLAG = false -> node_linked ri = true ->
  has (address_after_remove ri) UNSTABLE_FLAG = false.
Proof.
  intros Hs Hl. unfold address_after_remove. rewrite Hs, Hl.
  destruct (has (address ri) UNSTABLE_FLAG) eqn:Hu; [|exact Hu].
  destruct (has (clear_bits _ _) CHECKSUM_LIST_FLAG); flags; reflexivity.
Qed.

Lemma has_after_remove_keeps_checksum_list ri :
  leaves_checksum_list ri = false ->
  has (address_after_remove ri) CHECKSUM_LIST_FLAG = has (address ri) CHECKSUM_LIST_FLAG.
Proof.
  unfold leaves_checksum_list, address_after_remove. intros H.
  destruct (has (address ri) STABLE_FLAG) eqn:Hs.
  - destruct (node_linked ri); [flags|]; reflexivity.
  - destruct (has (address ri) UNSTABLE_FLAG) eqn:Hu; [|reflexivity].
    cbn [negb andb] in H.
    destruct (node_linked ri).
    + assert (Hc : has (clear_bits (address ri) UNSTABLE_FLAG) CHECKSUM_LIST_FLAG = false)
        by (flags; flags_pow2; exact H).
      rewrite Hc. flags. reflexivity.
    + rewrite H. exact H.
Qed.

Lemma leaves_unstable_checksum ri :
  leaves_unstable ri = true -> has (address ri) CHECKSUM_LIST_FLAG = true ->
  leaves_checksum_list ri = true.
Proof.
  unfold leaves_unstable, leaves_checksum_list.
  intros H Hc. apply andb_true_iff in H as [H _]. rewrite H, Hc. reflexivity.
Qed.

(** The step shared by a plain removal and an eviction. *)
Lemma checksum_list_ok_removed (s s' : state) r ri ri' :
  rmaps s !! r = Some ri -> rmaps s' !! r = Some ri' ->
  address ri' = address_after_remove ri ->
  (forall x, x <> r -> rmaps s' !! x = rmaps s !! x) ->
  root_unstable_tree s' =
    (if leaves_unstable ri then rb_erase r (root_unstable_tree s)
     else root_unstable_tree s) ->
  unstabletree_checksum_list s' =
    (if leaves_checksum_list ri
     then filter (fun x => x <> r) (unstabletree_checksum_list s)
     else unstabletree_checksum_list s) ->
  checksum_list_ok s -> checksum_list_ok s'.
Proof.
  intros Hr Hr' Ha Hoth Ht Hl Hok x Hx. rewrite Hl in Hx.
  destruct (decide (x = r)) as [->|Hne].
  - destruct (leaves_checksum_list ri) eqn:Hlc.
    { apply list_elem_of_filter in Hx as [Hx _]. congruence. }
    destruct (Hok r Hx) as (Hin & ri0 & Hr0 & Hf).
    rewrite Hr in Hr0. injection Hr0 as <-.
    destruct (leaves_unstable ri) eqn:Hlu.
    { rewrite (leaves_unstable_checksum ri Hlu Hf) in Hlc. discriminate. }
    rewrite Ht. split; [exact Hin|]. exists ri'. split; [exact Hr'|].
    rewrite Ha, has_after_remove_keeps_checksum_list by exact Hlc. exact Hf.
  - assert (Hx0 : x ∈ unstabletree_checksum_list s).
    { destruct (leaves_checksum_list ri); [|exact Hx].
      apply list_elem_of_filter in Hx as [_ Hx]. exact Hx. }
    destruct (Hok x Hx0) as (Hin & rx & Hrx & Hf).
    split.
    + rewrite Ht. destruct (leaves_unstable ri); [|exact Hin].
      apply rb_erase_other; auto.
    + exists rx. rewrite Hoth by auto. auto.
Qed.

Lemma checksum_list_ok_quiet s s' : quiet s s' -> checksum_list_ok s -> checksum_list_ok s'.
Proof.
  intros (Q1 & _ & Q3 & Q4 & _) Hok x Hx. rewrite Q4 in Hx.
  rewrite Q1, Q3. apply Hok, Hx.
Qed.

Lemma checksum_list_ok_evicted s n s' :
  evicted s n s' -> checksum_list_ok s -> checksum_list_ok s'.
Proof.
  intros (ri & ri' & Hr & _ & Hr' & Ha & _ & Hoth & _ & Ht & Hl).
  exact (checksum_list_ok_removed s s' n ri ri' Hr Hr' Ha Hoth (Ht false) Hl).
Qed.

Lemma retry_checksum_list_ok stable acquire pass fuel :
  (forall s d s', pass s = Ret d s' -> walk_post acquire (tree_of stable s) s d s') ->
  forall s e s',
    retry fuel pass s = Ret e s' -> checksum_list_ok s -> checksum_list_ok s'.
Proof.
  intros Hpost. induction fuel as [|fuel IH]; intros s e s' H Hok;
    cbn [retry] in H; [discriminate H|].
  apply bind_inv in H as (d & s1 & Hpass & H).
  pose proof (Hpost _ _ _ Hpass) as Hw.
  destruct d as [n|e0].
  - apply walk_post_evicted in Hw as (_ & Hev).
    eapply IH; eauto. eapply checksum_list_ok_evicted; eauto.
  - apply ret_inv in H as [-> ->]. destruct Hw as (Hq & _).
    eapply checksum_list_ok_quiet; eauto.
Qed.

(** C9.  Removal: when [remove_rmap_item_from_tree] takes an item out of
    the unstable tree, the item is off the checksum list afterwards and
    [CHECKSUM_LIST_FLAG] and [UNSTABLE_FLAG] are clear.  Insertion: when
    [unstable_tree_search_insert] links the item, the item is a node of the
    unstable tree, sits at the tail of the checksum list and carries both
    flags.  Both operations keep every item of the checksum list in the
    unstable tree. *)
Theorem unstable_tree_checksum_list :
  (forall s r free_anon ri s',
     rmaps s !! r = Some ri ->
     (r ∈ unstabletree_checksum_list s ->
      has (address ri) CHECKSUM_LIST_FLAG = true) ->
     remove_rmap_item_from_tree (Some r) free_anon s = Ret tt s' ->
     r ∈ rb_nodes (root_unstable_tree s) ->
     r ∉ rb_nodes (root_unstable_tree s') ->
     (r ∉ unstabletree_checksum_list s') /\
     exists ri', rmaps s' !! r = Some ri' /\
                 has (address ri') CHECKSUM_LIST_FLAG = false /\
                 has (address ri') UNSTABLE_FLAG = false) /\
  (forall fuel r p s slot s',
     unstable_tree_search_insert_end fuel r p s = Ret (Miss slot) s' ->
     r ∈ rb_nodes (root_unstable_tree s') /\
     (exists l, unstabletree_checksum_list s' = l ++ [r]) /\
     exists ri', rmaps s' !! r = Some ri' /\
                 has (address ri') CHECKSUM_LIST_FLAG = true /\
                 has (address ri') UNSTABLE_FLAG = true) /\
  (forall s r free_anon ri s',
     rmaps s !! r = Some ri ->
     remove_rmap_item_from_tree (Some r) free_anon s = Ret tt s' ->
     checksum_list_ok s -> checksum_list_ok s') /\
  (forall fuel r p s e s',
     unstable_tree_search_insert_end fuel r p s = Ret e s' ->
     checksum_list_ok s -> checksum_list_ok s').
Proof.
  repeat match goal with |- _ /\ _ => split end.
  - intros s r free_anon ri s' Hr Hflag Hrm Hin Hout.
    destruct (remove_rmap_item_from_tree_inv _ _ _ _ _ _ Hr Hrm)
      as (_ & _ & Hun & Hcl & _ & _ & _ & _ & ri' & Hr' & Ha & _).
    destruct (leaves_unstable ri) eqn:Hlu.
    2:{ rewrite Hun in Hout. contradiction. }
    pose proof Hlu as Hlu'. unfold leaves_unstable in Hlu'.
    apply andb_true_iff in Hlu' as [Hlu' Hlinked].
    apply andb_true_iff in Hlu' as [Hs Hu]. apply negb_true_iff in Hs.
    split.
    + rewrite Hcl. destruct (leaves_checksum_list ri) eqn:Hlc.
      * intros Hx. apply list_elem_of_filter in Hx as [Hx _]. congruence.
      * intros Hx. rewrite (leaves_unstable_checksum ri Hlu (Hflag Hx)) in Hlc.
        discriminate.
    + exists ri'. split; [exact Hr'|]. rewrite Ha. split.
      * apply has_after_remove_checksum_list; auto.
      * apply has_after_remove_unstable; auto.
  - intros fuel r p s slot s' H.
    apply unstable_tree_search_insert_end_inv in H as (s1 & Hrun & ri & Hr & Ht & Hl & Hm & _).
    destruct (retry_inv false _ _ (unstable_pass_post r p) fuel _ _ _ Hrun)
      as (_ & _ & _ & _ & s0 & _ & Hq & Hw).
    destruct Hw as (_ & Hslot & _).
    assert (Hts : root_unstable_tree s1 = root_unstable_tree s0) by apply Hq.
    split; [|split].
    + rewrite Ht, Hts. apply rb_link_node_nodes. exact Hslot.
    + exists (unstabletree_checksum_list s1). exact Hl.
    + eexists. rewrite Hm. split; [apply lookup_insert_eq|]. proj.
      split; flags; reflexivity.
  - intros s r free_anon ri s' Hr Hrm Hok.
    destruct (remove_rmap_item_from_tree_inv _ _ _ _ _ _ Hr Hrm)
      as (_ & _ & Hun & Hcl & _ & _ & _ & Hoth & ri' & Hr' & Ha & _).
    exact (checksum_list_ok_removed s s' r ri ri' Hr Hr' Ha Hoth Hun Hcl Hok).
  - intros fuel r p s e s' H Hok.
    apply unstable_tree_search_insert_end_inv in H as (s1 & Hrun & He).
    pose proof (retry_checksum_list_ok false _ _ fuel (unstable_pass_post r p)
                  _ _ _ Hrun Hok) as Hok1.
    destruct e; try (subst s'; exact Hok1).
    destruct He as (ri & Hr & Ht & Hl & Hm & _).
    intros x Hx. rewrite Hl in Hx. rewrite Ht, Hm.
    apply elem_of_app in Hx as [Hx|Hx].
    + destruct (Hok1 x Hx) as (Hin & rx & Hrx & Hf).
      split; [apply rb_link_node_keeps, Hin|].
      destruct (decide (x = r)) as [->|Hne].
      * eexists. split; [apply lookup_insert_eq|]. proj. flags. reflexivity.
      * exists rx. rewrite lookup_insert_ne by auto. auto.
    + apply list_elem_of_singleton in Hx as ->. split.
      * destruct (retry_inv false _ _ (unstable_pass_post r p) fuel _ _ _ Hrun)
          as (_ & _ & _ & _ & s0 & _ & Hq & Hw).
        destruct Hw as (_ & Hslot & _).
        assert (Hts : root_unstable_tree s1 = root_unstable_tree s0) by apply Hq.
        rewrite Hts. apply rb_link_node_nodes. exact Hslot.
      * eexists. split; [apply lookup_insert_eq|]. proj. flags. reflexivity.
Qed.

Lemma unstable_tree_checksum_list_witness :
  let s := Scenario.three_unstable in
  let s' := Scenario.exec (remove_rmap_item_from_tree (Some 1%nat) false) s in
  1%nat ∈ unstabletree_checksum_list s /\
  1%nat ∈ rb_nodes (root_unstable_tree s) /\
  (1%nat ∉ unstabletree_checksum_list s') /\
  exists ri', rmaps s' !! 1%nat = Some ri' /\
              has (address ri') CHECKSUM_LIST_FLAG = false /\
              has (address ri') UNSTABLE_FLAG = false.
Proof.
  intros s s'.
  assert (Hin : 1%nat ∈ rb_nodes (root_unstable_tree s))
    by (apply (bool_decide_unpack _); vm_compute; exact I).
  split; [apply (bool_decide_unpack _); vm_compute; exact I|].
  split; [exact Hin|].
  destruct unstable_tree_checksum_list as (H & _).
  apply (H s 1%nat false
           (RmapItem (Some 20%nat) (Some 10%nat) 44 [] true 0 733602962) s').
  - vm_compute. reflexivity.
  - intros _. reflexivity.
  - vm_compute. reflexivity.
  - exact Hin.
  - apply (bool_decide_unpack _). vm_compute. exact I.
Defined.

End ChecksumList.

(** ** The scanner tick: intake budget (C5) and revalidation sample (C4) *)

Module Tick.
Import Mach Model Spec Infra Trees Quiet.

(** *** Phase 1 *)

Lemma ksm_do_scan_new_takes (scan_npages : Z) (items : list nat) :
  forall scan l_add s,
    0 <= scan <= scan_npages + 1 ->
    (forall r, r ∈ items -> is_Some (rmaps s !! r)) ->
    exists s',
      ksm_do_scan_new items scan scan_npages l_add s
        = Ret (rev (take (Z.to_nat (scan_npages + 2 - scan)) items) ++ l_add) s' /\
      forall r, is_Some (rmaps s !! r) -> is_Some (rmaps s' !! r).
Proof.
  induction items as [|r rest IH]; intros scan l_add s Hscan Hin.
  - exists s. rewrite take_nil. cbn. auto.
  - destruct (Hin r) as [ri Hr]; [set_solver|].
    cbn [ksm_do_scan_new].
    repeat first [ progress unfold bind, modify, upd_rmap, get_rmap, ret
                 | progress proj | rewrite Hr | rewrite lookup_insert_eq ].
    replace (Z.to_nat (scan_npages + 2 - scan))
      with (S (Z.to_nat (scan_npages + 1 - scan))) by lia.
    cbn [take rev].
    destruct (scan >? scan_npages) eqn:Hgt.
    + eexists. split.
      * replace (Z.to_nat (scan_npages + 1 - scan)) with O by lia.
        rewrite take_0. reflexivity.
      * intros x Hx. proj. rewrite !lookup_insert_is_Some'. auto.
    + match goal with
      | |- context [ksm_do_scan_new _ _ _ _ ?st] => set (s1 := st)
      end.
      assert (Hkeep : forall x, is_Some (rmaps s !! x) -> is_Some (rmaps s1 !! x)).
      { intros x Hx. unfold s1. proj. rewrite !lookup_insert_is_Some'. auto. }
      destruct (IH (scan + 1) (r :: l_add) s1) as (s' & Hrun & Hk).
      { lia. }
      { intros x Hx. apply Hkeep, Hin. set_solver. }
      exists s'. split.
      * rewrite Hrun. replace (scan_npages + 2 - (scan + 1))
          with (scan_npages + 1 - scan) by lia.
        rewrite <- app_assoc. reflexivity.
      * intros x Hx. apply Hk, Hkeep, Hx.
Qed.

(** The first loop of a tick moves [scan_npages + 2] items when the new
    list has that many. *)
Lemma ksm_do_scan_new_count (scan_npages : Z) (items l : list nat) s s' :
  0 <= scan_npages ->
  (forall r, r ∈ items -> is_Some (rmaps s !! r)) ->
  ksm_do_scan_new items 0 scan_npages [] s = Ret l s' ->
  length l = Nat.min (length items) (Z.to_nat scan_npages + 2).
Proof.
  intros Hn Hin Hrun.
  destruct (ksm_do_scan_new_takes scan_npages items 0 [] s) as (s2 & Hrun2 & _);
    [lia|exact Hin|].
  rewrite Hrun in Hrun2. injection Hrun2 as -> _.
  rewrite app_nil_r, length_rev, length_take. lia.
Qed.

(** C5, the failing run: with a budget of one page and three items on the
    new list, phase 1 moves all three to the working list. *)
Theorem ksm_do_scan_intake_exceeds_budget :
  new_anon_page_list Scenario.announced_three = [1; 3; 5]%nat /\
  Scenario.value (ksm_do_scan_intake 1) Scenario.announced_three
    = Some [5; 3; 1]%nat /\
  new_anon_page_list
    (Scenario.exec (ksm_do_scan_intake 1) Scenario.announced_three) = [].
Proof. vm_compute. auto. Qed.

(** *** Phase 3 *)

Lemma pksm_calc_update_pages_num_value s :
  tunables_in_range s ->
  pksm_calc_update_pages_num s = Ret (update_pages_num s) s /\
  0 <= update_pages_num s.
Proof.
  intros (Hu & Hb & Hsl & Hp & Hprod & Hq).
  unfold pksm_calc_update_pages_num, update_pages_num, bind, get.
  destruct (ksm_pages_unshared s <? ksm_thread_pages_to_scan s) eqn:Hlt.
  - apply Z.ltb_lt in Hlt. unfold ret, u32. rewrite Z.mod_small by lia. auto.
  - cbv zeta. unfold u32, u64.
    rewrite !(Z.mod_small (pksm_unshared_page_update_period s * 1000)) by lia.
    destruct (_ =? 0) eqn:Hz; [apply Z.eqb_eq in Hz; lia|].
    assert (Hprod0 : 0 <= ksm_pages_unshared s * ksm_thread_sleep_millisecs s)
      by (apply Z.mul_nonneg_nonneg; lia).
    assert (Hq0 : 0 <= ksm_pages_unshared s * ksm_thread_sleep_millisecs s
                       / (pksm_unshared_page_update_period s * 1000))
      by (apply Z.div_pos; lia).
    rewrite (Z.mod_small (ksm_pages_unshared s * ksm_thread_sleep_millisecs s))
      by lia.
    rewrite Z.mod_small by lia. auto.
Qed.

(** What one turn did to an item of the unstable tree whose page now
    hashes to [c], different from the stored checksum. *)
Lemma pksm_update_one_changed s r s' ri p pg c :
  pksm_update_one r s = Ret true s' ->
  rmaps s !! r = Some ri -> ri_page ri = Some p -> pages s !! p = Some pg ->
  Hash.calc_checksum (pksm_random_table s) (words pg) = Some c ->
  c <> checksum ri ->
  leaves_unstable ri = true ->
  exists ri',
    rmaps s' !! r = Some ri' /\ checksum ri' = c /\
    has (address ri') RESCAN_LIST_FLAG = true /\
    has (address ri') INITCHECKSUM_FLAG = false /\
    has (address ri') UNSTABLE_FLAG = false /\
    has (address ri') CHECKSUM_LIST_FLAG = false /\
    pksm_rescan_page_list s' = pksm_rescan_page_list s ++ [r] /\
    (r ∉ unstabletree_checksum_list s') /\
    root_unstable_tree s' = rb_erase r (root_unstable_tree s).
Proof.
  intros H Hr Hp Hpg Hc Hne Hlu. unfold pksm_update_one in H.
  apply bind_inv in H as (ri0 & s0 & Hx & H). apply get_rmap_inv in Hx as [-> Hx].
  rewrite Hr in Hx. injection Hx as <-.
  apply bind_inv in H as ([] & s0 & Hx & H). apply BUG_ON_inv in Hx as [-> Hnew].
  apply bind_inv in H as ([] & s0 & Hx & H). apply BUG_ON_inv in Hx as [-> Hck].
  apply negb_false_iff in Hck.
  apply bind_inv in H as ([] & s0 & Hx & H). apply BUG_ON_inv in Hx as [-> Hst].
  apply bind_inv in H as (v & s0 & Hx & H).
  apply check_valid_rmap_item_inv in Hx as [-> _].
  destruct v; cbn [negb] in H; [|minv].
  rewrite Hp in H. cbn [deref] in H.
  apply bind_inv in H as (p' & s0 & Hx & H). apply ret_inv in Hx as [<- <-].
  apply bind_inv in H as (got & s1 & Hgot & H).
  pose proof (get_page_unless_zero_quiet _ _ _ _ Hgot) as Hq1.
  destruct got; cbn [negb] in H; [|minv].
  apply bind_inv in H as (pg1 & s2 & Hx & H). apply get_page_inv in Hx as [-> Hpg1].
  destruct (PageLocked pg1); [minv|].
  destruct (check_page_dio pg1); [minv|].
  apply bind_inv in H as (c1 & s2 & Hcalc & H).
  assert (Hc1 : c1 = c /\ s2 = s1).
  { unfold calc_checksum in Hcalc.
    apply bind_inv in Hcalc as (pg2 & s3 & Hx & Hcalc). apply get_page_inv in Hx as [-> Hpg2].
    apply bind_inv in Hcalc as (st & s3 & Hx & Hcalc). apply get_inv in Hx as [-> ->].
    destruct (quiet_page _ _ _ _ Hq1 Hpg) as [cnt Hcnt].
    rewrite Hcnt in Hpg2. injection Hpg2 as <-. proj in Hcalc.
    assert (Htab : pksm_random_table s1 = pksm_random_table s).
    { unfold get_page_unless_zero in Hgot. minv; reflexivity. }
    rewrite Htab, Hc in Hcalc. apply ret_inv in Hcalc as [-> ->]. auto. }
  destruct Hc1 as [-> ->].
  assert (Hr1 : rmaps s1 !! r = Some ri) by (rewrite (quiet_rmaps _ _ Hq1); exact Hr).
  destruct (checksum ri =? c) eqn:Heq; [apply Z.eqb_eq in Heq; congruence|].
  cbn [negb] in H.
  apply bind_inv in H as ([] & s3 & Hbody & H).
  apply bind_inv in H as ([] & s4 & Hput & H). apply ret_inv in H as [_ <-].
  pose proof (put_page_quiet _ _ _ _ Hput) as Hq4.
  apply bind_inv in Hbody as ([] & s5 & Hx & Hbody).
  apply upd_rmap_inv in Hx as (ri5 & Hr5 & ->).
  rewrite Hr1 in Hr5. injection Hr5 as <-.
  apply bind_inv in Hbody as ([] & s6 & Hrm & Hbody).
  eapply remove_rmap_item_from_tree_inv in Hrm; [|proj; apply lookup_insert_eq].
  destruct Hrm as (_ & _ & Hun & Hcl & _ & Hrl & _ & _ & ri6 & Hr6 & Ha6 & _ & Hck6 & _).
  assert (Hlu' : leaves_unstable (with_checksum c ri) = true) by exact Hlu.
  assert (Hlcl : leaves_checksum_list (with_checksum c ri) = true).
  { unfold leaves_checksum_list, leaves_unstable in *. proj.
    apply andb_true_iff in Hlu as [Hlu _]. rewrite Hlu, Hck. reflexivity. }
  rewrite Hlu' in Hun. rewrite Hlcl in Hcl.
  proj in Hun. proj in Hcl. proj in Hrl. proj in Hck6.
  apply bind_inv in Hbody as ([] & s7 & Hx & Hbody).
  apply upd_rmap_inv in Hx as (ri7 & Hr7 & ->).
  rewrite Hr6 in Hr7. injection Hr7 as <-.
  apply bind_inv in Hbody as ([] & s8 & Hx & Hbody).
  apply upd_rmap_inv in Hx as (ri8 & Hr8 & ->). proj in Hr8.
  rewrite lookup_insert_eq in Hr8. injection Hr8 as <-.
  apply modify_inv in Hbody. subst s3.
  destruct Hq1 as (_ & _ & Q3 & Q4 & _ & Q6 & _).
  destruct Hq4 as (P1 & _ & P3 & P4 & _ & P6 & _).
  proj in P1. proj in P3. proj in P4. proj in P6.
  pose proof Hlu as Hflags. unfold leaves_unstable in Hflags.
  apply andb_true_iff in Hflags as [Hflags Hlinked].
  apply andb_true_iff in Hflags as [_ Hu].
  assert (Ha : address ri6 =
               clear_bits (clear_bits (address ri) UNSTABLE_FLAG) CHECKSUM_LIST_FLAG).
  { rewrite Ha6. unfold address_after_remove. proj. rewrite Hst, Hu, Hlinked.
    assert (E : has (clear_bits (address ri) UNSTABLE_FLAG) CHECKSUM_LIST_FLAG = true)
      by (flags; flags_pow2; exact Hck).
    rewrite E. reflexivity. }
  eexists. rewrite P1. split; [apply lookup_insert_eq|]. proj. rewrite Ha.
  split; [exact Hck6|].
  split; [flags; reflexivity|]. split; [flags; reflexivity|].
  split; [flags; reflexivity|]. split; [flags; reflexivity|].
  split; [rewrite P6, Hrl, Q6; reflexivity|].
  split.
  - rewrite P4, Hcl. intros Hin. apply list_elem_of_filter in Hin as [Hin _].
    congruence.
  - rewrite P3, Hun, Q3. reflexivity.
Qed.

(** C4 as stated fails.  With the initial tunables and three items in the
    unstable tree the formula of the specification gives a sample of 0,
    and the revalidation hashes all three items again; and the item whose
    page was written to is requeued with [RESCAN_LIST_FLAG] set and
    [INITCHECKSUM_FLAG] clear. *)
Lemma revalidation_sample_is_not_spec_size :
  spec_sample_size Scenario.three_unstable = 0 /\
  Scenario.value pksm_update_unstable_page_checksum_log Scenario.three_unstable
    = Some [5; 3; 1]%nat /\
  let s' := Scenario.exec pksm_update_unstable_page_checksum
              Scenario.touched_unstable in
  pksm_rescan_page_list s' = [1%nat] /\
  (address <$> rmaps s' !! 1%nat) = Some (Z.lor INKSM_FLAG RESCAN_LIST_FLAG).
Proof. vm_compute. auto. Qed.

(** The sample size for every configuration in the range of the C
    types. *)
Lemma pksm_calc_update_pages_num_c s :
  tunables_in_c_range s ->
  pksm_calc_update_pages_num s
  = match update_pages_num_c s with
    | Some n => Ret n s
    | None => Oops DivideError
    end.
Proof.
  intros (Hu & Hb & Hsl & Hp).
  unfold pksm_calc_update_pages_num, update_pages_num_c, bind, get.
  destruct (ksm_pages_unshared s <? ksm_thread_pages_to_scan s) eqn:Hlt.
  - apply Z.ltb_lt in Hlt. unfold ret, u32. rewrite Z.mod_small by lia. reflexivity.
  - cbv zeta. unfold u32, u64.
    destruct (_ =? 0); reflexivity.
Qed.

Lemma update_pages_num_c_range s n :
  update_pages_num_c s = Some n -> tunables_in_c_range s -> 0 <= n < 2 ^ 32.
Proof.
  intros H (Hu & Hb & Hsl & Hp). unfold update_pages_num_c in H.
  destruct (ksm_pages_unshared s <? ksm_thread_pages_to_scan s) eqn:Hlt.
  - apply Z.ltb_lt in Hlt. injection H as <-. lia.
  - cbv zeta in H. destruct (_ =? 0); [discriminate H|]. injection H as <-.
    apply Z.mod_pos_bound. lia.
Qed.

Lemma update_pages_num_c_plain s :
  tunables_in_range s -> update_pages_num_c s = Some (update_pages_num s).
Proof.
  intros (Hu & Hb & Hsl & Hp & Hprod & Hq).
  unfold update_pages_num_c, update_pages_num.
  destruct (ksm_pages_unshared s <? ksm_thread_pages_to_scan s); [reflexivity|].
  cbv zeta.
  rewrite (Z.mod_small (pksm_unshared_page_update_period s * 1000)) by lia.
  destruct (_ =? 0) eqn:Hz; [apply Z.eqb_eq in Hz; lia|].
  assert (Hprod0 : 0 <= ksm_pages_unshared s * ksm_thread_sleep_millisecs s)
    by (apply Z.mul_nonneg_nonneg; lia).
  assert (Hq0 : 0 <= ksm_pages_unshared s * ksm_thread_sleep_millisecs s
                     / (pksm_unshared_page_update_period s * 1000))
    by (apply Z.div_pos; lia).
  rewrite (Z.mod_small (ksm_pages_unshared s * ksm_thread_sleep_millisecs s))
    by lia.
  rewrite Z.mod_small by lia. reflexivity.
Qed.

(** C4, amended.  For every configuration in the range of the C types the
    sample size of the revalidation is [pages_unshared] while that is below
    the scan budget; otherwise it is the 64-bit product
    [pages_unshared * sleep_ms] divided by the 32-bit value of
    [period_s * 1000] and cut to 32 bits, and the revalidation divides by
    zero when that 32-bit value is 0.  While [period_s * 1000] is not 0 and
    neither it, the product nor the quotient wraps, this is
    [pages_unshared * sleep_ms / (period_s * 1000)].  The sample size is
    capped by the scan budget when the loop starts; when it is 0 nothing is
    hashed.  An item of the unstable tree that is hashed again and whose
    hash differs from the stored one has the new hash stored, leaves the
    unstable tree and the checksum list, and goes to the tail of the rescan
    list with [RESCAN_LIST_FLAG] set and [INITCHECKSUM_FLAG] clear. *)
Theorem revalidation_sample :
  (forall s, tunables_in_c_range s ->
     pksm_calc_update_pages_num s
     = match update_pages_num_c s with
       | Some n => Ret n s
       | None => Oops DivideError
       end) /\
  (forall s, tunables_in_c_range s ->
     match update_pages_num_c s with
     | Some n =>
         0 <= n < 2 ^ 32 /\
         pksm_update_unstable_page_checksum_log s =
           if n =? 0 then Ret [] s
           else pksm_update_loop (unstabletree_checksum_list s) 0
                  (Z.min n (ksm_thread_pages_to_scan s)) s
     | None => pksm_update_unstable_page_checksum_log s = Oops DivideError
     end) /\
  (forall s, tunables_in_range s ->
     update_pages_num_c s = Some (update_pages_num s)) /\
  (forall s, tunables_in_range s ->
     pksm_calc_update_pages_num s = Ret (update_pages_num s) s) /\
  (forall s, tunables_in_range s -> update_pages_num s = 0 ->
     pksm_update_unstable_page_checksum_log s = Ret [] s) /\
  (forall s, tunables_in_range s -> 0 < update_pages_num s ->
     pksm_update_unstable_page_checksum_log s =
       pksm_update_loop (unstabletree_checksum_list s) 0
         (Z.min (update_pages_num s) (ksm_thread_pages_to_scan s)) s) /\
  (forall s r s' ri p pg c,
     pksm_update_one r s = Ret true s' ->
     rmaps s !! r = Some ri -> ri_page ri = Some p -> pages s !! p = Some pg ->
     Hash.calc_checksum (pksm_random_table s) (words pg) = Some c ->
     c <> checksum ri ->
     leaves_unstable ri = true ->
     exists ri',
       rmaps s' !! r = Some ri' /\ checksum ri' = c /\
       has (address ri') RESCAN_LIST_FLAG = true /\
       has (address ri') INITCHECKSUM_FLAG = false /\
       has (address ri') UNSTABLE_FLAG = false /\
       has (address ri') CHECKSUM_LIST_FLAG = false /\
       pksm_rescan_page_list s' = pksm_rescan_page_list s ++ [r] /\
       (r ∉ unstabletree_checksum_list s') /\
       root_unstable_tree s' = rb_erase r (root_unstable_tree s)).
Proof.
  repeat match goal with |- _ /\ _ => split end.
  - exact pksm_calc_update_pages_num_c.
  - intros s Hr. pose proof (pksm_calc_update_pages_num_c s Hr) as Hcalc.
    destruct (update_pages_num_c s) as [n|] eqn:Hn.
    + pose proof (update_pages_num_c_range s n Hn Hr) as Hrange.
      split; [exact Hrange|].
      unfold pksm_update_unstable_page_checksum_log.
      rewrite (bind_Ret _ _ _ _ _ Hcalc).
      destruct (n =? 0) eqn:E0.
      * apply Z.eqb_eq in E0 as ->. reflexivity.
      * apply Z.eqb_neq in E0.
        destruct (n <=? 0) eqn:E; [apply Z.leb_le in E; lia|]. reflexivity.
    + unfold pksm_update_unstable_page_checksum_log.
      apply bind_Oops. exact Hcalc.
  - exact update_pages_num_c_plain.
  - intros s Hr. apply pksm_calc_update_pages_num_value, Hr.
  - intros s Hr H0. unfold pksm_update_unstable_page_checksum_log.
    rewrite (bind_Ret _ _ _ _ _ (proj1 (pksm_calc_update_pages_num_value s Hr))).
    rewrite H0. reflexivity.
  - intros s Hr Hpos. unfold pksm_update_unstable_page_checksum_log.
    rewrite (bind_Ret _ _ _ _ _ (proj1 (pksm_calc_update_pages_num_value s Hr))).
    destruct (update_pages_num s <=? 0) eqn:E; [apply Z.leb_le in E; lia|].
    reflexivity.
  - intros. eapply pksm_update_one_changed; eauto.
Qed.

(** On [three_unstable] the sample is the three unshared pages; with a
    period of 4294968 seconds and 1000 unshared pages the divisor wraps to
    704 and the sample is 28; with a period of 0 the revalidation divides
    by zero. *)
Lemma revalidation_sample_witness :
  tunables_in_range Scenario.three_unstable /\
  pksm_calc_update_pages_num Scenario.three_unstable
    = Ret 3 Scenario.three_unstable /\
  (let s := Setup.with_pksm_unshared_page_update_period 4294968
              (with_ksm_pages_unshared 1000 Scenario.boot) in
   tunables_in_c_range s /\ pksm_calc_update_pages_num s = Ret 28 s) /\
  (let s := Setup.with_pksm_unshared_page_update_period 0
              (with_ksm_pages_unshared 1000 Scenario.boot) in
   tunables_in_c_range s /\
   pksm_update_unstable_page_checksum_log s = Oops DivideError).
Proof.
  assert (Hr : tunables_in_range Scenario.three_unstable).
  { vm_compute. repeat split; congruence. }
  destruct revalidation_sample as (Hc & Hlog & _ & H & _).
  split; [exact Hr|]. split; [exact (H Scenario.three_unstable Hr)|].
  split.
  - intros s.
    assert (Hs : tunables_in_c_range s) by (vm_compute; repeat split; congruence).
    split; [exact Hs|]. rewrite (Hc s Hs). reflexivity.
  - intros s.
    assert (Hs : tunables_in_c_range s) by (vm_compute; repeat split; congruence).
    split; [exact Hs|]. exact (Hlog s Hs).
Defined.

End Tick.

(** ** The zero-page fast path (C8) *)

Module ZeroPath.
Import Mach Model Spec Infra Trees Quiet Descent Retry.

Lemma merge_frame_refl s : merge_frame s s.
Proof. unfold merge_frame. auto 10. Qed.

Lemma merge_frame_trans a b c : merge_frame a b -> merge_frame b c -> merge_frame a c.
Proof.
  intros (A1 & A2 & A3 & A4 & A5 & A6) (B1 & B2 & B3 & B4 & B5 & B6).
  unfold merge_frame. repeat split; try congruence.
Qed.

Lemma redirects_refl p k s : redirects p k s s.
Proof. intros v addr. auto. Qed.

Lemma redirects_trans p k a b c :
  redirects p k a b -> redirects p k b c -> redirects p k a c.
Proof.
  intros H1 H2 v addr. specialize (H1 v addr). specialize (H2 v addr).
  destruct H1 as [E1|[E1 E1']], H2 as [E2|[E2 E2']].
  - left. congruence.
  - right. split; congruence.
  - right. split; congruence.
  - right. split; congruence.
Qed.

Lemma same_maps_redirects p k s s' :
  (forall v addr, maps_to s' v addr = maps_to s v addr) -> redirects p k s s'.
Proof. intros H v addr. left. apply H. Qed.

Lemma upd_page_frame q f s u s' :
  upd_page q f s = Ret u s' -> (forall g, words (f g) = words g) ->
  merge_frame s s' /\ vmas s' = vmas s /\ rmaps s' = rmaps s.
Proof.
  intros H Hw. apply upd_page_inv in H as (pg & Hp & ->).
  unfold merge_frame. proj. repeat split; auto.
  intros x. destruct (decide (q = x)) as [<-|Hne].
  - rewrite lookup_insert_eq, Hp. cbn. f_equal. apply Hw.
  - rewrite lookup_insert_ne by auto. reflexivity.
Qed.

Lemma maps_to_same_vmas s s' v addr :
  vmas s' = vmas s -> maps_to s' v addr = maps_to s v addr.
Proof. unfold maps_to. intros ->. reflexivity. Qed.

Lemma set_pte_at_frame v addr entry s u s' :
  set_pte_at v addr entry s = Ret u s' ->
  merge_frame s s' /\ rmaps s' = rmaps s /\ pages s' = pages s /\
  exists a, vmas s !! v = Some a /\
    vmas s' = <[v := with_vm_ptes (<[addr := entry]> (vm_ptes a)) a]> (vmas s).
Proof.
  unfold set_pte_at. intros H. apply upd_vma_inv in H as (a & Ha & ->).
  unfold merge_frame. proj. repeat split; auto. eauto.
Qed.

Lemma maps_to_set_pte s a v addr entry v' addr' :
  vmas s !! v = Some a ->
  maps_to (with_vmas (<[v := with_vm_ptes (<[addr := entry]> (vm_ptes a)) a]> (vmas s)) s)
          v' addr'
  = if decide (v = v' /\ addr = addr') then Some (pte_pfn entry)
    else maps_to s v' addr'.
Proof.
  intros Ha. unfold maps_to. proj.
  destruct (decide (v = v')) as [<-|Hv].
  - rewrite lookup_insert_eq, Ha. proj.
    destruct (decide (addr = addr')) as [<-|Hd].
    + rewrite lookup_insert_eq, decide_True by auto. reflexivity.
    + rewrite lookup_insert_ne by auto. rewrite decide_False by tauto. reflexivity.
  - rewrite lookup_insert_ne by auto. rewrite decide_False by tauto. reflexivity.
Qed.

(** [write_protect_page] redirects nothing; when it returns 0, the value
    left in [*orig_pte] is the entry of [p] in [v], and it maps [p]. *)
Lemma write_protect_page_inv v p s code orig s' :
  write_protect_page v p s = Ret (code, orig) s' ->
  merge_frame s s' /\
  (forall v' addr', maps_to s' v' addr' = maps_to s v' addr') /\
  (code = 0 -> exists e, orig = Some e /\ pte_pfn e = p).
Proof.
  unfold write_protect_page. intros H.
  apply bind_inv in H as (a & s0 & Hx & H). apply get_vma_inv in Hx as [-> Ha].
  apply bind_inv in H as (pg & s0 & Hx & H). apply get_page_inv in Hx as [-> Hp].
  destruct (vma_address pg a) as [addr|].
  2:{ minv. split; [apply merge_frame_refl|]. split; [auto|discriminate]. }
  unfold page_check_address in H.
  destruct (vm_ptes a !! addr) as [e|] eqn:He.
  2:{ minv. split; [apply merge_frame_refl|]. split; [auto|discriminate]. }
  destruct (bool_decide (pte_pfn e = p)) eqn:Hpfn.
  2:{ minv. split; [apply merge_frame_refl|]. split; [auto|discriminate]. }
  apply bool_decide_eq_true_1 in Hpfn.
  assert (Hsame : forall entry, pte_pfn entry = p ->
            forall v' addr',
              maps_to (with_vmas
                         (<[v := with_vm_ptes (<[addr := entry]> (vm_ptes a)) a]>
                            (vmas s)) s) v' addr'
              = maps_to s v' addr').
  { intros entry Hen v' addr'. rewrite (maps_to_set_pte s a) by exact Ha.
    destruct (decide _) as [[<- <-]|]; [|reflexivity].
    unfold maps_to. rewrite Ha, He. cbn. congruence. }
  destruct (pte_write e || pte_dirty e).
  - destruct (negb _).
    + apply bind_inv in H as ([] & s1 & Hset & H). apply ret_inv in H as [[= <- <-] <-].
      apply set_pte_at_frame in Hset as (Hf & _ & _ & a' & Ha' & Hv).
      rewrite Ha in Ha'. injection Ha' as <-.
      split; [exact Hf|]. split; [|discriminate].
      intros v' addr'. unfold maps_to at 1. rewrite Hv.
      apply (Hsame e Hpfn v' addr').
    + apply bind_inv in H as ([] & s1 & Hdirty & H).
      assert (Hd : merge_frame s s1 /\ vmas s1 = vmas s).
      { destruct (pte_dirty e).
        - apply upd_page_frame in Hdirty as (F & V & _); auto.
        - apply ret_inv in Hdirty as [_ <-]. split; [apply merge_frame_refl|reflexivity]. }
      destruct Hd as (Hf1 & Hv1).
      apply bind_inv in H as ([] & s2 & Hset & H). apply ret_inv in H as [[= <- <-] <-].
      apply set_pte_at_frame in Hset as (Hf & _ & _ & a' & Ha' & Hv).
      rewrite Hv1, Ha in Ha'. injection Ha' as <-.
      split; [eapply merge_frame_trans; eauto|]. split.
      * intros v' addr'. unfold maps_to at 1. rewrite Hv, Hv1.
        apply (Hsame (Pte (pte_pfn e) false false (pte_special e)) Hpfn v' addr').
      * intros _. eexists. split; [reflexivity|exact Hpfn].
  - apply ret_inv in H as [[= <- <-] <-].
    split; [apply merge_frame_refl|]. split; [auto|]. intros _. eauto.
Qed.

Lemma repeat_m_frame n body :
  (forall s u s', body s = Ret u s' ->
     merge_frame s s' /\ vmas s' = vmas s) ->
  forall s u s', repeat_m n body s = Ret u s' ->
     merge_frame s s' /\ vmas s' = vmas s.
Proof.
  intros Hb. induction n as [|n IH]; intros s u s' H; cbn [repeat_m] in H.
  - apply ret_inv in H as [_ <-]. split; [apply merge_frame_refl|reflexivity].
  - apply bind_inv in H as (? & s1 & H1 & H).
    apply Hb in H1 as (F1 & V1). apply IH in H as (F2 & V2).
    split; [eapply merge_frame_trans; eauto|congruence].
Qed.

Lemma pksm_add_sharing_page_counter_frame k n s u s' :
  pksm_add_sharing_page_counter k n s = Ret u s' ->
  merge_frame s s' /\ vmas s' = vmas s.
Proof.
  unfold pksm_add_sharing_page_counter. intros H.
  apply bind_inv in H as (pg & s0 & Hx & H). apply get_page_inv in Hx as [-> _].
  destruct (negb (PageKsm pg)).
  - apply ret_inv in H as [_ <-]. split; [apply merge_frame_refl|reflexivity].
  - eapply repeat_m_frame; [|exact H].
    clear. intros s u s' H. minv. unfold merge_frame. proj. auto 10.
Qed.

(** [replace_page] redirects at most the entry it was given, from [p] to
    [kpage]. *)
Lemma replace_page_inv v p kpage e s code s' :
  replace_page v p kpage (Some e) s = Ret code s' -> pte_pfn e = p ->
  merge_frame s s' /\ redirects p kpage s s'.
Proof.
  unfold replace_page. intros H Hpfn.
  apply bind_inv in H as (a & s0 & Hx & H). apply get_vma_inv in Hx as [-> Ha].
  apply bind_inv in H as (pg & s0 & Hx & H). apply get_page_inv in Hx as [-> Hp].
  destruct (vma_address pg a) as [addr|].
  2:{ minv. split; [apply merge_frame_refl|apply redirects_refl]. }
  destruct (bool_decide (vm_ptes a !! addr = Some e)) eqn:Hsame; cbn [negb] in H.
  2:{ minv. split; [apply merge_frame_refl|apply redirects_refl]. }
  apply bool_decide_eq_true_1 in Hsame.
  apply bind_inv in H as (st & s0 & Hx & H). apply get_inv in Hx as [-> ->].
  apply bind_inv in H as (entry & s1 & Hentry & H).
  assert (He : merge_frame s s1 /\ vmas s1 = vmas s /\ pte_pfn entry = kpage).
  { destruct (_ || _).
    - minv. unfold merge_frame. proj. auto 10.
    - apply bind_inv in Hentry as ([] & s2 & H1 & Hentry).
      unfold page_ref_get in H1.
      apply bind_inv in H1 as (kg & s3 & Hx & H1). apply get_page_inv in Hx as [-> _].
      apply upd_page_frame in H1 as (F1 & V1 & _); [|reflexivity].
      apply bind_inv in Hentry as ([] & s3 & H2 & Hentry).
      apply upd_page_frame in H2 as (F2 & V2 & _); [|reflexivity].
      apply ret_inv in Hentry as [<- <-].
      split; [eapply merge_frame_trans; eauto|]. split; [congruence|reflexivity]. }
  destruct He as (F1 & V1 & Hk).
  apply bind_inv in H as ([] & s2 & Hset & H).
  apply set_pte_at_frame in Hset as (F2 & _ & _ & a' & Ha' & V2).
  rewrite V1, Ha in Ha'. injection Ha' as <-.
  apply bind_inv in H as ([] & s3 & H3 & H).
  apply upd_page_frame in H3 as (F3 & V3 & _); [|reflexivity].
  apply bind_inv in H as ([] & s4 & H4 & H).
  unfold put_page in H4.
  apply bind_inv in H4 as (g4 & s5 & Hx & H4). apply get_page_inv in Hx as [-> _].
  apply upd_page_frame in H4 as (F4 & V4 & _); [|reflexivity].
  apply bind_inv in H as ([] & s5 & H5 & H).
  apply pksm_add_sharing_page_counter_frame in H5 as (F5 & V5).
  apply ret_inv in H as [_ <-].
  split.
  - eapply merge_frame_trans; [exact F1|].
    eapply merge_frame_trans; [exact F2|].
    eapply merge_frame_trans; [exact F3|].
    eapply merge_frame_trans; [exact F4|exact F5].
  - intros v' addr'.
    assert (Hm : maps_to s5 v' addr' =
                 if decide (v = v' /\ addr = addr') then Some (pte_pfn entry)
                 else maps_to s v' addr').
    { rewrite <- (maps_to_set_pte s a v addr entry v' addr' Ha).
      unfold maps_to. proj. rewrite V5, V4, V3, V2, V1. reflexivity. }
    rewrite Hm.
    destruct (decide _) as [[<- <-]|]; [|left; reflexivity].
    right. unfold maps_to. rewrite Ha, Hsame. cbn. split; congruence.
Qed.

Lemma is_page_full_zero_inv p s b s' :
  is_page_full_zero p s = Ret b s' ->
  s' = s /\ exists pg, pages s !! p = Some pg /\ b = Hash.is_full_zero (words pg).
Proof. unfold is_page_full_zero. intros H. minv. eauto. Qed.

(** One call of [pksm_merge_zero_page]: a redirection happens only on a
    page that is all zero. *)
Lemma pksm_merge_zero_page_inv kpage p v addr s code s' :
  pksm_merge_zero_page kpage p v addr s = Ret code s' ->
  merge_frame s s' /\ redirects p kpage s s' /\
  ((exists pg, pages s !! p = Some pg /\ Hash.is_full_zero (words pg) = true) \/
   forall v' addr', maps_to s' v' addr' = maps_to s v' addr').
Proof.
  unfold pksm_merge_zero_page. intros H.
  apply bind_inv in H as ([c orig] & s1 & Hwp & H).
  apply write_protect_page_inv in Hwp as (F1 & M1 & Horig).
  cbn [fst snd] in H.
  destruct (c =? 0) eqn:Hc.
  2:{ apply ret_inv in H as [_ <-]. split; [exact F1|].
      split; [apply same_maps_redirects, M1|right; exact M1]. }
  apply Z.eqb_eq in Hc. destruct (Horig Hc) as (e & -> & Hpfn).
  apply bind_inv in H as (zero & s2 & Hz & H).
  apply is_page_full_zero_inv in Hz as (-> & pg1 & Hpg1 & ->).
  destruct (Hash.is_full_zero (words pg1)) eqn:Hzero.
  - apply replace_page_inv in H as (F2 & R2); [|exact Hpfn].
    split; [eapply merge_frame_trans; eauto|]. split.
    + eapply redirects_trans; [apply same_maps_redirects, M1|exact R2].
    + left. destruct F1 as (_ & _ & _ & _ & _ & W). specialize (W p).
      rewrite Hpg1 in W. destruct (pages s !! p) as [pg|]; [|discriminate].
      injection W as W. exists pg. rewrite <- W. auto.
  - apply ret_inv in H as [_ <-]. split; [exact F1|].
    split; [apply same_maps_redirects, M1|right; exact M1].
Qed.

Lemma pksm_rmap_walk_loop_zero kpage p chain : forall ret_ s code s',
  pksm_rmap_walk_loop (pksm_merge_zero_page kpage) p chain ret_ s = Ret code s' ->
  merge_frame s s' /\ redirects p kpage s s' /\
  ((exists pg, pages s !! p = Some pg /\ Hash.is_full_zero (words pg) = true) \/
   forall v' addr', maps_to s' v' addr' = maps_to s v' addr').
Proof.
  induction chain as [|v rest IH]; intros ret_ s code s' H;
    cbn [pksm_rmap_walk_loop] in H.
  - apply ret_inv in H as [_ <-].
    split; [apply merge_frame_refl|]. split; [apply redirects_refl|auto].
  - apply bind_inv in H as (a & s0 & Hx & H). apply get_vma_inv in Hx as [-> Ha].
    apply bind_inv in H as (pg & s0 & Hx & H). apply get_page_inv in Hx as [-> Hp].
    destruct (negb (vma_can_enter a)).
    { apply ret_inv in H as [_ <-].
      split; [apply merge_frame_refl|]. split; [apply redirects_refl|auto]. }
    destruct (vma_address pg a) as [address|].
    2:{ apply ret_inv in H as [_ <-].
        split; [apply merge_frame_refl|]. split; [apply redirects_refl|auto]. }
    apply bind_inv in H as (r & s1 & Hone & H).
    apply pksm_merge_zero_page_inv in Hone as (F1 & R1 & Z1).
    destruct (negb (r =? PKSM_FAULT_SUCCESS)).
    { apply ret_inv in H as [_ <-]. auto. }
    apply IH in H as (F2 & R2 & Z2).
    split; [eapply merge_frame_trans; eauto|].
    split; [eapply redirects_trans; eauto|].
    destruct Z1 as [Z1|Z1]; [left; exact Z1|].
    destruct Z2 as [(pg2 & Hpg2 & Hz2)|Z2].
    + left. destruct F1 as (_ & _ & _ & _ & _ & W). specialize (W p).
      rewrite Hpg2, Hp in W. injection W as W. exists pg. rewrite <- W. auto.
    + right. intros v' addr'. rewrite Z2. apply Z1.
Qed.

Lemma try_to_merge_zero_page_inv p s code s' :
  try_to_merge_zero_page p s = Ret code s' ->
  merge_frame s s' /\ redirects p (empty_pksm_zero_page s) s s' /\
  ((exists pg, pages s !! p = Some pg /\ Hash.is_full_zero (words pg) = true) \/
   forall v' addr', maps_to s' v' addr' = maps_to s v' addr').
Proof.
  unfold try_to_merge_zero_page. intros H.
  apply bind_inv in H as (st & s0 & Hx & H). apply get_inv in Hx as [-> ->].
  apply bind_inv in H as (pg & s0 & Hx & H). apply get_page_inv in Hx as [-> Hp].
  destruct (negb (PageAnon pg)).
  { apply ret_inv in H as [_ <-].
    split; [apply merge_frame_refl|]. split; [apply redirects_refl|auto]. }
  apply bind_inv in H as (locked & s1 & Hlock & H).
  assert (Hl : merge_frame s s1 /\ vmas s1 = vmas s).
  { unfold trylock_page in Hlock.
    apply bind_inv in Hlock as (g & s2 & Hx & Hlock). apply get_page_inv in Hx as [-> _].
    destruct (PG_locked g).
    - apply ret_inv in Hlock as [_ <-]. split; [apply merge_frame_refl|reflexivity].
    - apply bind_inv in Hlock as ([] & s2 & Hu & Hlock).
      apply upd_page_frame in Hu as (F & V & _); [|reflexivity].
      apply ret_inv in Hlock as [_ <-]. auto. }
  destruct Hl as (F1 & V1).
  destruct (negb locked).
  { apply ret_inv in H as [_ <-]. split; [exact F1|].
    split; [apply same_maps_redirects|right];
      intros v' addr'; apply maps_to_same_vmas, V1. }
  apply bind_inv in H as (err & s2 & Hwalk & H).
  apply bind_inv in H as ([] & s3 & Hunlock & H). apply ret_inv in H as [_ <-].
  unfold unlock_page in Hunlock.
  apply upd_page_frame in Hunlock as (F3 & V3 & _); [|reflexivity].
  assert (Hw : merge_frame s1 s2 /\ redirects p (empty_pksm_zero_page s) s1 s2 /\
    ((exists pg, pages s1 !! p = Some pg /\ Hash.is_full_zero (words pg) = true) \/
     forall v' addr', maps_to s2 v' addr' = maps_to s1 v' addr')).
  { unfold pksm_rmap_walk in Hwalk.
    apply bind_inv in Hwalk as (g & s4 & Hx & Hwalk). apply get_page_inv in Hx as [-> Hg].
    destruct (negb (PageAnon g)).
    { apply ret_inv in Hwalk as [_ <-].
      split; [apply merge_frame_refl|]. split; [apply redirects_refl|auto]. }
    destruct (page_lock_anon_vma g) as [av|].
    2:{ apply ret_inv in Hwalk as [_ <-].
        split; [apply merge_frame_refl|]. split; [apply redirects_refl|auto]. }
    apply bind_inv in Hwalk as (anon & s4 & Hx & Hwalk).
    apply get_anon_inv in Hx as [-> _].
    eapply pksm_rmap_walk_loop_zero; eauto. }
  destruct Hw as (F2 & R2 & Z2).
  split; [eapply merge_frame_trans; [exact F1|eapply merge_frame_trans; eauto]|].
  assert (M1 : forall v' addr', maps_to s1 v' addr' = maps_to s v' addr')
    by (intros; apply maps_to_same_vmas, V1).
  assert (M3 : forall v' addr', maps_to s3 v' addr' = maps_to s2 v' addr')
    by (intros; apply maps_to_same_vmas, V3).
  split.
  - eapply redirects_trans; [apply same_maps_redirects, M1|].
    eapply redirects_trans; [exact R2|apply same_maps_redirects, M3].
  - destruct Z2 as [(pg1 & Hpg1 & Hz)|Z2].
    + left. destruct F1 as (_ & _ & _ & _ & _ & W). specialize (W p).
      rewrite Hpg1, Hp in W. injection W as W. exists pg. rewrite <- W. auto.
    + right. intros v' addr'. rewrite M3, Z2. apply M1.
Qed.

(** The zero path as a whole: an entry changes only from the scanned page
    to the zero frame, and only when the stored checksum is the zero
    checksum and the page is all zero. *)
Lemma cmp_and_merge_zero_page_inv p s z s' :
  cmp_and_merge_zero_page p s = Ret z s' ->
  exists pg r ri,
    pages s !! p = Some pg /\ pksm pg = Some r /\ rmaps s !! r = Some ri /\
    merge_frame s s' /\
    forall v addr,
      maps_to s' v addr <> maps_to s v addr ->
      maps_to s v addr = Some p /\
      maps_to s' v addr = Some (empty_pksm_zero_page s) /\
      checksum ri = pksm_zero_random_checksum s /\
      Hash.is_full_zero (words pg) = true.
Proof.
  intros H. unfold cmp_and_merge_zero_page in H.
  apply bind_inv in H as (hit & s0 & Hfind & H).
  unfold find_zero_page_hash in Hfind.
  apply bind_inv in Hfind as (pg & s1 & Hx & Hfind). apply get_page_inv in Hx as [-> Hp].
  apply bind_inv in Hfind as (r & s1 & Hx & Hfind). apply deref_inv in Hx as [-> Hk].
  apply bind_inv in Hfind as (ri & s1 & Hx & Hfind). apply get_rmap_inv in Hx as [-> Hr].
  apply bind_inv in Hfind as (st & s1 & Hx & Hfind). apply get_inv in Hx as [-> ->].
  apply ret_inv in Hfind as [<- <-].
  exists pg, r, ri. split; [exact Hp|]. split; [exact Hk|]. split; [exact Hr|].
  destruct (checksum ri =? pksm_zero_random_checksum s) eqn:Hsum.
  2:{ apply ret_inv in H as [_ <-]. split; [apply merge_frame_refl|].
      intros v addr Hne. contradiction. }
  apply Z.eqb_eq in Hsum.
  apply bind_inv in H as (err & s1 & Hmerge & H).
  assert (s' = s1) as -> by (destruct (err =? 0); apply ret_inv in H as [_ <-]; reflexivity).
  apply try_to_merge_zero_page_inv in Hmerge as (F & R & Z).
  split; [exact F|]. intros v addr Hne.
  destruct (R v addr) as [E|[E1 E2]]; [contradiction|].
  destruct Z as [(pg0 & Hpg0 & Hz)|Z]; [|specialize (Z v addr); contradiction].
  rewrite Hp in Hpg0. injection Hpg0 as <-. auto.
Qed.






(** A match of the checksum alone replaces nothing: page 12 is not all zero
    and hashes to the zero checksum; the zero path is entered, the byte
    comparison fails, and the entry of the page still maps it. *)
Example checksum_match_alone_keeps_mapping :
  let s := Scenario.queued_sparse in
  let s' := Scenario.exec (cmp_and_merge_page 8 12 3 true) s in
  cmp_and_merge_page 8 12 3 true s = Ret 0 s' /\
  (checksum <$> rmaps s' !! 3%nat) = Some (pksm_zero_random_checksum s') /\
  (Hash.is_full_zero <$> (words <$> pages s' !! 12%nat)) = Some false /\
  maps_to s 32 12288 = Some 12%nat /\
  maps_to s' 32 12288 = Some 12%nat.
Proof. vm_compute. repeat split; reflexivity. Qed.

End ZeroPath.

(** * Further properties of the code *)

(** ** The sampling table and the zero checksum *)

Module Sampling.
Import Mach Hash Model Setup HashFacts Infra.

Lemma is_full_zero_lookup key i w :
  is_full_zero key = true -> key !! i = Some w -> w = 0.
Proof.
  revert i. induction key as [|x key IH]; intros i Hz Hi; [discriminate Hi|].
  cbn [is_full_zero] in Hz. destruct (x =? 0) eqn:Hx; [|discriminate].
  destruct i as [|i]; cbn in Hi.
  - injection Hi as <-. lia.
  - eauto.
Qed.

Lemma HASH_FROM_TO_zero table key : forall n index hash,
  is_full_zero key = true ->
  (forall i pos, (index <= i < index + n)%nat -> table !! i = Some pos ->
                 (Z.to_nat pos < length key)%nat) ->
  HASH_FROM_TO table key index n hash = ZERO_HASH_FROM_TO table index n hash.
Proof.
  induction n as [|n IH]; intros index hash Hz Hin; [reflexivity|].
  cbn [HASH_FROM_TO ZERO_HASH_FROM_TO].
  destruct (table !! index) as [pos|] eqn:Hpos; [|reflexivity].
  destruct (lookup_lt_is_Some_2 key (Z.to_nat pos)) as [w Hw].
  { apply (Hin index pos); [lia|exact Hpos]. }
  rewrite Hw, (is_full_zero_lookup _ _ _ Hz Hw).
  apply IH; [exact Hz|]. intros i p Hi. apply Hin. lia.
Qed.

Lemma HASH_FROM_TO_some table key : forall n index hash,
  (index + n <= length table)%nat ->
  (forall i pos, (index <= i < index + n)%nat -> table !! i = Some pos ->
                 (Z.to_nat pos < length key)%nat) ->
  0 <= hash < 2 ^ 32 ->
  exists c, HASH_FROM_TO table key index n hash = Some c /\ 0 <= c < 2 ^ 32.
Proof.
  induction n as [|n IH]; intros index hash Hlen Hin Hh.
  - exists hash. auto.
  - cbn [HASH_FROM_TO].
    destruct (lookup_lt_is_Some_2 table index) as [pos Hpos]; [lia|].
    rewrite Hpos.
    destruct (lookup_lt_is_Some_2 key (Z.to_nat pos)) as [w Hw].
    { apply (Hin index pos); [lia|exact Hpos]. }
    rewrite Hw. apply IH; [lia| |apply hash_round_range].
    intros i p Hi. apply Hin. lia.
Qed.

(** The shuffle returns, and what it returns is a rearrangement of the
    table it was given. *)
Lemma shuffle_permutation random32 : forall n i table,
  Z.of_nat (length table) = RSAD_STRENGTH_FULL ->
  (i + n = length table)%nat ->
  exists table', shuffle random32 i n table = Some table' /\ table' ≡ₚ table.
Proof.
  induction n as [|n IH]; intros i table Hlen Hin.
  - exists table. split; reflexivity.
  - cbn [shuffle].
    set (j := Z.to_nat (Z.of_nat i + u32 (random32 i) mod (RSAD_STRENGTH_FULL - Z.of_nat i))).
    assert (Hj : (j < length table)%nat).
    { subst j.
      assert (0 <= u32 (random32 i) mod (RSAD_STRENGTH_FULL - Z.of_nat i)
              < RSAD_STRENGTH_FULL - Z.of_nat i) by (apply Z.mod_pos_bound; lia).
      lia. }
    destruct (lookup_lt_is_Some_2 table i) as [tmp Htmp]; [lia|].
    destruct (lookup_lt_is_Some_2 table j) as [other Hother]; [exact Hj|].
    rewrite Htmp, Hother.
    pose proof (Permutation_insert_swap table i j tmp other Htmp Hother) as Hp.
    destruct (IH (S i) (<[j:=tmp]> (<[i:=other]> table))) as (t' & Hrun & Hperm).
    { rewrite !length_insert. exact Hlen. }
    { rewrite !length_insert. lia. }
    exists t'. split; [exact Hrun|]. rewrite Hperm. exact Hp.
Qed.

Lemma permuted_table_in_range (table : list Z) i pos :
  table ≡ₚ identity_table -> table !! i = Some pos -> 0 <= pos < 1024.
Proof.
  intros Hp Hi. apply list_elem_of_lookup_2 in Hi. rewrite Hp in Hi.
  unfold identity_table in Hi. apply list_elem_of_fmap in Hi as (k & -> & Hk).
  apply elem_of_seq in Hk. lia.
Qed.

Lemma zero_checksum_any (table key : list Z) (hash_strength : Z) :
  is_full_zero key = true ->
  (forall i pos, (i < Z.to_nat hash_strength)%nat -> table !! i = Some pos ->
                 (Z.to_nat pos < length key)%nat) ->
  pksm_calc_checksum table key hash_strength
  = pksm_calc_zero_page_checksum table hash_strength.
Proof.
  intros Hz Hin. unfold pksm_calc_checksum, pksm_calc_zero_page_checksum.
  apply HASH_FROM_TO_zero; [exact Hz|]. intros i pos Hi. apply Hin. lia.
Qed.

(** Hashing an all-zero buffer gives the value of the zero loop, whatever
    the table, as long as the entries used index into the buffer. *)
Theorem zero_buffer_checksum (table key : list Z) (hash_strength : Z) :
  is_full_zero key = true ->
  (forall i pos, (i < Z.to_nat hash_strength)%nat -> table !! i = Some pos ->
                 (Z.to_nat pos < length key)%nat) ->
  pksm_calc_checksum table key hash_strength
  = pksm_calc_zero_page_checksum table hash_strength.
Proof. apply zero_checksum_any. Qed.

Lemma zero_buffer_checksum_witness :
  is_full_zero zero_words = true /\
  pksm_calc_checksum identity_table zero_words 64
  = pksm_calc_zero_page_checksum identity_table 64.
Proof.
  assert (Hz : is_full_zero zero_words = true) by (vm_compute; reflexivity).
  split; [exact Hz|].
  apply (zero_buffer_checksum identity_table zero_words 64 Hz).
  intros i pos Hi Hpos.
  assert (0 <= pos < 1024) by (eapply permuted_table_in_range; eauto).
  change (length zero_words) with 1024%nat. lia.
Defined.

(** [init_random_sampling] with the table allocated: whatever [random32]
    returns, it completes with 0, the table is a rearrangement of
    [0 .. RSAD_STRENGTH_FULL - 1], a page of [RSAD_STRENGTH_FULL] words is
    hashed without a read outside the table or the page, and the checksum
    stored for the zero page is the hash of any all-zero page. *)
Theorem init_random_sampling_table (random32 : nat -> Z) (s : state) :
  exists s',
    init_random_sampling true random32 s = Ret 0 s' /\
    pksm_random_table s' ≡ₚ identity_table /\
    (forall key, length key = 1024%nat ->
       exists c, Hash.calc_checksum (pksm_random_table s') key = Some c /\
                 0 <= c < 2 ^ 32) /\
    (forall key, length key = 1024%nat -> is_full_zero key = true ->
       Hash.calc_checksum (pksm_random_table s') key
       = Some (pksm_zero_random_checksum s')).
Proof.
  unfold init_random_sampling. cbn [negb].
  change (map Z.of_nat (seq 0 (Z.to_nat RSAD_STRENGTH_FULL))) with identity_table.
  destruct (shuffle_permutation random32 (Z.to_nat RSAD_STRENGTH_FULL) 0 identity_table)
    as (table & Hrun & Hperm); [reflexivity|reflexivity|].
  rewrite Hrun.
  assert (Hlen : length table = 1024%nat) by (rewrite Hperm; reflexivity).
  assert (Hrange : forall key : list Z, length key = 1024%nat ->
            forall i pos, (0 <= i < 0 + 64)%nat -> table !! i = Some pos ->
                          (Z.to_nat pos < length key)%nat).
  { intros key Hk i pos _ Hpos.
    pose proof (permuted_table_in_range table i pos Hperm Hpos). lia. }
  assert (Hzero : exists c,
            pksm_calc_zero_page_checksum table (Z.shiftr RSAD_STRENGTH_FULL 4) = Some c).
  { destruct (HASH_FROM_TO_some table zero_words 64 0 3735928559) as (c & Hc & _);
      [lia|apply Hrange; reflexivity|lia|].
    exists c. unfold pksm_calc_zero_page_checksum.
    change (Z.to_nat (Z.shiftr RSAD_STRENGTH_FULL 4)) with 64%nat.
    rewrite <- Hc. symmetry. apply HASH_FROM_TO_zero; [reflexivity|].
    apply Hrange. reflexivity. }
  destruct Hzero as (c0 & Hc0).
  unfold bind, modify, ret. rewrite Hc0.
  eexists. split; [reflexivity|]. cbn.
  split; [exact Hperm|]. split.
  - intros key Hk. unfold Hash.calc_checksum, pksm_calc_checksum.
    change (Z.to_nat (Z.shiftr RSAD_STRENGTH_FULL 4)) with 64%nat.
    apply HASH_FROM_TO_some; [lia|apply Hrange, Hk|lia].
  - intros key Hk Hz. unfold Hash.calc_checksum. rewrite <- Hc0.
    apply zero_checksum_any; [exact Hz|].
    intros i pos Hi. apply (Hrange key Hk). 
    change (Z.to_nat (Z.shiftr RSAD_STRENGTH_FULL 4)) with 64%nat in Hi. lia.
Qed.

End Sampling.

(** ** The load distributor *)

Module BldFacts.
Import Mach Bld.

(** The loop keeps the first cpu whose load is below everything seen so
    far, the value it was entered with included. *)
Lemma least_loaded_spec load : forall cpus min_load cpu,
  let c := least_loaded load cpus min_load cpu in
  (c = cpu /\ forall i, i ∈ cpus -> min_load <= load i) \/
  (load c < min_load /\
   exists before after,
     cpus = before ++ c :: after /\
     (forall i, i ∈ before -> load c < load i) /\
     (forall i, i ∈ after -> load c <= load i)).
Proof.
  induction cpus as [|i rest IH]; intros min_load cpu; cbn [least_loaded].
  - left. split; [reflexivity|]. intros i Hi. inversion Hi.
  - destruct (load i <? min_load) eqn:Hlt.
    + apply Z.ltb_lt in Hlt.
      destruct (IH (load i) i) as [[Hc Hall]|(Hc & before & after & Hm & Hb & Ha)].
      * right. cbv zeta in Hc. rewrite Hc. split; [exact Hlt|].
        exists [], rest. split; [reflexivity|]. split.
        -- intros x Hx. inversion Hx.
        -- exact Hall.
      * right. cbv zeta in *. split; [lia|].
        exists (i :: before), after. split; [cbn [app]; f_equal; exact Hm|].
        split; [|exact Ha].
        intros x Hx. apply elem_of_cons in Hx as [->|Hx]; [exact Hc|auto].
    + apply Z.ltb_ge in Hlt.
      destruct (IH min_load cpu) as [[Hc Hall]|(Hc & before & after & Hm & Hb & Ha)].
      * left. split; [exact Hc|].
        intros x Hx. apply elem_of_cons in Hx as [->|Hx]; [exact Hlt|auto].
      * right. cbv zeta in *. split; [exact Hc|].
        exists (i :: before), after. split; [cbn [app]; f_equal; exact Hm|].
        split; [|exact Ha].
        intros x Hx. apply elem_of_cons in Hx as [->|Hx]; [lia|auto].
Qed.

(** [bld_select_task_rq] returns the first least-loaded cpu the task is
    allowed on, whatever the balancing flags, the wake flags and the
    dispatch list are; when no allowed cpu has a load below [ULONG_MAX]
    (none is allowed, say) it returns the current cpu. *)
Theorem bld_select_task_rq_least_loaded h this_cpu prev_cpu cpus_allowed
    cpu_online rq_head sd_flags wake_flags :
  let c := bld_select_task_rq h this_cpu prev_cpu cpus_allowed cpu_online
             rq_head sd_flags wake_flags in
  (c = this_cpu /\ forall i, i ∈ cpus_allowed -> ULONG_MAX <= load_weight h i) \/
  (load_weight h c < ULONG_MAX /\
   exists before after,
     cpus_allowed = before ++ c :: after /\
     (forall i, i ∈ before -> load_weight h c < load_weight h i) /\
     (forall i, i ∈ after -> load_weight h c <= load_weight h i)).
Proof. apply least_loaded_spec. Qed.

(** [select_cpu_for_wakeup]: a synchronous wakeup on the cpu the task ran
    on last returns that cpu, whatever the loads are; every other wakeup
    returns the first least-loaded cpu, of the scheduling group of the
    previous cpu when it is synchronous and of its scheduling domain when
    it is not, and the current cpu when none has a load below
    [ULONG_MAX]. *)
Theorem select_cpu_for_wakeup_least_loaded h this_cpu prev_cpu sd_flags wake_flags :
  let c := select_cpu_for_wakeup h this_cpu prev_cpu sd_flags wake_flags in
  let mask := if has wake_flags WF_SYNC then group_cpus h prev_cpu
              else domain_span h prev_cpu in
  if has wake_flags WF_SYNC && bool_decide (this_cpu = prev_cpu) then
    c = this_cpu
  else
    (c = this_cpu /\ forall i, i ∈ mask -> ULONG_MAX <= load_weight h i) \/
    (load_weight h c < ULONG_MAX /\
     exists before after,
       mask = before ++ c :: after /\
       (forall i, i ∈ before -> load_weight h c < load_weight h i) /\
       (forall i, i ∈ after -> load_weight h c <= load_weight h i)).
Proof.
  unfold select_cpu_for_wakeup. cbv zeta.
  destruct (has wake_flags WF_SYNC); cbn [andb].
  - destruct (bool_decide (this_cpu = prev_cpu)).
    + reflexivity.
    + apply least_loaded_spec.
  - apply least_loaded_spec.
Qed.

Lemma move_to_tail_permutation r l :
  NoDup l -> r ∈ l -> move_to_tail r l ≡ₚ l.
Proof.
  intros Hnd Hin. unfold move_to_tail.
  induction l as [|x l IH]; [inversion Hin|].
  apply NoDup_cons in Hnd as [Hx Hnd].
  rewrite filter_cons. destruct (decide (x <> r)) as [Hne|Heq].
  - apply elem_of_cons in Hin as [->|Hin]; [contradiction|].
    cbn. rewrite (IH Hnd Hin). reflexivity.
  - assert (x = r) as -> by (destruct (decide (x = r)); [auto|contradiction]).
    assert (Hf : filter (fun y => y <> r) l = l).
    { clear -Hx. induction l as [|y l IH]; [reflexivity|].
      rewrite filter_cons. apply not_elem_of_cons in Hx as [Hy Hx].
      destruct (decide (y <> r)) as [|Hn]; [|exfalso; apply Hn; congruence].
      rewrite (IH Hx). reflexivity. }
    rewrite Hf. rewrite <- Permutation_cons_append. reflexivity.
Qed.

Lemma move_to_tail_last r l : last (move_to_tail r l) = Some r.
Proof. unfold move_to_tail. apply last_snoc. Qed.

(** [bld_track_load_activate] on a run queue of the list: when the queue
    is not marked last and is loaded more than the last entry, it becomes
    the last entry and is marked last, the former last entry is marked
    middle, no queue is lost or doubled and the others keep their order and
    marks; otherwise nothing changes. *)
Theorem bld_track_load_activate_moves r d me last_ lq :
  NoDup (rq_head d) -> r ∈ rq_head d ->
  rqs d !! r = Some me ->
  last (rq_head d) = Some last_ -> rqs d !! last_ = Some lq ->
  if negb (rq_pos me =? 2) && (rq_load me >? rq_load lq) then
    exists d',
      bld_track_load_activate r d = Some d' /\
      rq_head d' ≡ₚ rq_head d /\
      last (rq_head d') = Some r /\
      filter (fun x => x <> r) (rq_head d') = filter (fun x => x <> r) (rq_head d) /\
      rqs d' !! r = Some (Rq (rq_load me) 2) /\
      rqs d' !! last_ = Some (Rq (rq_load lq) 1) /\
      forall x, x <> r -> x <> last_ -> rqs d' !! x = rqs d !! x
  else bld_track_load_activate r d = Some d.
Proof.
  intros Hnd Hin Hme Hlast Hlq. unfold bld_track_load_activate.
  rewrite Hme. cbn. destruct (negb (rq_pos me =? 2)); cbn [andb]; [|reflexivity].
  rewrite Hlast. cbn. rewrite Hlq. cbn.
  destruct (rq_load me >? rq_load lq) eqn:Hgt; [|reflexivity].
  assert (Hne : r <> last_).
  { intros ->. rewrite Hme in Hlq. injection Hlq as <-. lia. }
  unfold set_pos. rewrite Hme. cbn.
  rewrite lookup_insert_ne by exact Hne. rewrite Hlq. cbn.
  eexists. split; [reflexivity|]. cbn [rq_head rqs].
  split; [apply move_to_tail_permutation; assumption|].
  split; [apply move_to_tail_last|].
  split.
  { unfold move_to_tail. rewrite filter_app, list_filter_filter.
    rewrite filter_cons, decide_False by tauto. rewrite filter_nil, app_nil_r.
    apply list_filter_iff. tauto. }
  split. { rewrite lookup_insert_ne by auto. apply lookup_insert_eq. }
  split. { apply lookup_insert_eq. }
  intros x H1 H2. rewrite !lookup_insert_ne by auto. reflexivity.
Qed.

Lemma bld_track_load_activate_moves_witness :
  exists d',
    bld_track_load_activate 0 three_queues_shifted = Some d' /\
    last (rq_head d') = Some 0%nat /\
    rqs d' !! 0%nat = Some (Rq 7 2) /\ rqs d' !! 2%nat = Some (Rq 0 1).
Proof.
  pose proof (bld_track_load_activate_moves 0 three_queues_shifted
                (Rq 7 0) 2 (Rq 0 2)) as H.
  cbn in H.
  destruct H as (d' & Hrun & _ & Hlast & _ & Hme & Hl & _);
    [apply (bool_decide_unpack _); vm_compute; exact I
    |apply (bool_decide_unpack _); vm_compute; exact I
    |reflexivity|reflexivity|reflexivity|].
  exists d'. auto.
Defined.

(** [bld_track_load_deactivate] on a run queue of the list: when the queue
    is not marked first and is loaded no more than the first entry, it is
    moved to the tail of the list, as in the activation, and marked first
    (middle if it is the first entry itself); the former first entry is
    marked middle; no queue is lost or doubled and the others keep their
    order and marks.  Otherwise nothing changes. *)
Theorem bld_track_load_deactivate_moves r d me first_ fq :
  NoDup (rq_head d) -> r ∈ rq_head d ->
  rqs d !! r = Some me ->
  head (rq_head d) = Some first_ -> rqs d !! first_ = Some fq ->
  if negb (rq_pos me =? 0) && (rq_load me <=? rq_load fq) then
    exists d',
      bld_track_load_deactivate r d = Some d' /\
      rq_head d' ≡ₚ rq_head d /\
      last (rq_head d') = Some r /\
      filter (fun x => x <> r) (rq_head d') = filter (fun x => x <> r) (rq_head d) /\
      rqs d' !! first_ = Some (Rq (rq_load fq) 1) /\
      (r <> first_ -> rqs d' !! r = Some (Rq (rq_load me) 0)) /\
      forall x, x <> r -> x <> first_ -> rqs d' !! x = rqs d !! x
  else bld_track_load_deactivate r d = Some d.
Proof.
  intros Hnd Hin Hme Hfirst Hfq. unfold bld_track_load_deactivate.
  rewrite Hme. cbn. destruct (negb (rq_pos me =? 0)); cbn [andb]; [|reflexivity].
  rewrite Hfirst. cbn. rewrite Hfq. cbn.
  destruct (rq_load me <=? rq_load fq) eqn:Hle; [|reflexivity].
  unfold set_pos. rewrite Hme. cbn.
  assert (Hf1 : <[r:=Rq (rq_load me) 0]> (rqs d) !! first_
                = Some (if decide (r = first_) then Rq (rq_load me) 0 else fq)).
  { destruct (decide (r = first_)) as [->|Hne].
    - apply lookup_insert_eq.
    - rewrite lookup_insert_ne by exact Hne. exact Hfq. }
  rewrite Hf1. cbn.
  eexists. split; [reflexivity|]. cbn [rq_head rqs].
  split; [apply move_to_tail_permutation; assumption|].
  split; [apply move_to_tail_last|].
  split.
  { unfold move_to_tail. rewrite filter_app, list_filter_filter.
    rewrite filter_cons, decide_False by tauto. rewrite filter_nil, app_nil_r.
    apply list_filter_iff. tauto. }
  split.
  { rewrite lookup_insert_eq. destruct (decide (r = first_)) as [->|Hne]; [|reflexivity].
    rewrite Hme in Hfq. injection Hfq as <-. reflexivity. }
  split.
  { intros Hne. rewrite lookup_insert_ne by auto. apply lookup_insert_eq. }
  intros x H1 H2. rewrite !lookup_insert_ne by auto. reflexivity.
Qed.

Lemma bld_track_load_deactivate_moves_witness :
  exists d',
    bld_track_load_deactivate 2 three_queues_shifted = Some d' /\
    last (rq_head d') = Some 2%nat /\
    rqs d' !! 0%nat = Some (Rq 7 1) /\ rqs d' !! 2%nat = Some (Rq 0 0).
Proof.
  pose proof (bld_track_load_deactivate_moves 2 three_queues_shifted
                (Rq 0 2) 0 (Rq 7 0)) as H.
  cbn in H.
  destruct H as (d' & Hrun & _ & Hlast & _ & Hf & Hme & _);
    [apply (bool_decide_unpack _); vm_compute; exact I
    |apply (bool_decide_unpack _); vm_compute; exact I
    |reflexivity|reflexivity|reflexivity|].
  exists d'. split; [exact Hrun|]. split; [exact Hlast|].
  split; [exact Hf|]. apply Hme. discriminate.
Defined.

End BldFacts.

(** ** The two page-table primitives *)

Module PageTable.
Import Mach Model Spec Spec2 Infra Anchors.

Lemma with_vmas_same s : with_vmas (vmas s) s = s.
Proof. destruct s. reflexivity. Qed.

Lemma with_vm_ptes_same a : with_vm_ptes (vm_ptes a) a = a.
Proof. destruct a. reflexivity. Qed.

(** Writing back the entry that is there changes nothing. *)
Lemma set_pte_at_same v addr e a s u s' :
  vmas s !! v = Some a -> vm_ptes a !! addr = Some e ->
  set_pte_at v addr e s = Ret u s' -> s' = s.
Proof.
  intros Ha He H. unfold set_pte_at in H.
  apply upd_vma_inv in H as (a' & Ha' & ->).
  rewrite Ha in Ha'. injection Ha' as <-.
  rewrite (insert_id (vm_ptes a)) by exact He.
  rewrite with_vm_ptes_same, insert_id by exact Ha.
  apply with_vmas_same.
Qed.

Lemma pte_at_set s v addr e a v' addr' :
  vmas s !! v = Some a ->
  pte_at (with_vmas (<[v := with_vm_ptes (<[addr := e]> (vm_ptes a)) a]> (vmas s)) s)
         v' addr'
  = if decide (v = v' /\ addr = addr') then Some e else pte_at s v' addr'.
Proof.
  intros Ha. unfold pte_at. proj.
  destruct (decide (v = v')) as [<-|Hv].
  - rewrite lookup_insert_eq, Ha. proj.
    destruct (decide (addr = addr')) as [<-|Hd].
    + rewrite lookup_insert_eq, decide_True by auto. reflexivity.
    + rewrite lookup_insert_ne by auto. rewrite decide_False by tauto. reflexivity.
  - rewrite lookup_insert_ne by auto. rewrite decide_False by tauto. reflexivity.
Qed.

(** [write_protect_page].  A failure, [PKSM_FAULT_DROP] or
    [PKSM_FAULT_TRY], leaves the state exactly as it was and [*orig_pte]
    untouched.  On success the entry of the page in the vma maps the same
    frame, is neither writable nor dirty, and is the value left in
    [*orig_pte]; no other entry changed; a page whose entry was dirty is
    flagged dirty; and if the entry had to be changed, the references on the
    page are those of its mappings, of the caller and of the swap cache. *)
Theorem write_protect_page_outcome v p s code orig s' :
  write_protect_page v p s = Ret (code, orig) s' ->
  (code <> 0 /\ (code = PKSM_FAULT_DROP \/ code = PKSM_FAULT_TRY) /\
   orig = None /\ s' = s) \/
  (code = 0 /\
   exists a pg addr e0,
     vmas s !! v = Some a /\ pages s !! p = Some pg /\
     vma_address pg a = Some addr /\ vm_ptes a !! addr = Some e0 /\
     pte_pfn e0 = p /\
     orig = Some (Pte p false false (pte_special e0)) /\
     pte_at s' v addr = orig /\
     (forall v' addr', (v', addr') <> (v, addr) ->
        pte_at s' v' addr' = pte_at s v' addr') /\
     (pte_dirty e0 = true ->
        exists pg', pages s' !! p = Some pg' /\ PG_dirty pg' = true) /\
     (pte_write e0 || pte_dirty e0 = true ->
        _mapcount pg + 1 + (if PageSwapCache pg then 1 else 0) = _count pg)).
Proof.
  unfold write_protect_page. intros H.
  apply bind_inv in H as (a & s0 & Hx & H). apply get_vma_inv in Hx as [-> Ha].
  apply bind_inv in H as (pg & s0 & Hx & H). apply get_page_inv in Hx as [-> Hp].
  destruct (vma_address pg a) as [addr|] eqn:Haddr.
  2:{ apply ret_inv in H as [[= <- <-] <-]. left.
      split; [discriminate|]. auto. }
  unfold page_check_address in H.
  destruct (vm_ptes a !! addr) as [e0|] eqn:He.
  2:{ apply ret_inv in H as [[= <- <-] <-]. left.
      split; [discriminate|]. auto. }
  destruct (bool_decide (pte_pfn e0 = p)) eqn:Hpfn.
  2:{ apply ret_inv in H as [[= <- <-] <-]. left.
      split; [discriminate|]. auto. }
  apply bool_decide_eq_true_1 in Hpfn.
  assert (Hother : forall e s1, vmas s1 = vmas s ->
            forall v' addr', (v', addr') <> (v, addr) ->
              pte_at (with_vmas
                        (<[v := with_vm_ptes (<[addr := e]> (vm_ptes a)) a]> (vmas s1))
                        s1) v' addr'
              = pte_at s v' addr').
  { intros e s1 Hv1 v' addr' Hne.
    rewrite (pte_at_set s1 v addr e a) by (rewrite Hv1; exact Ha).
    rewrite decide_False by (intros [-> ->]; contradiction).
    unfold pte_at. rewrite Hv1. reflexivity. }
  destruct (pte_write e0 || pte_dirty e0) eqn:Hwd.
  - destruct (_mapcount pg + 1 + (if PageSwapCache pg then 1 else 0) =? _count pg)
      eqn:Hdio; cbn [negb] in H.
    + apply Z.eqb_eq in Hdio.
      apply bind_inv in H as ([] & s1 & Hdirty & H).
      assert (Hs1 : vmas s1 = vmas s /\
                (pte_dirty e0 = true ->
                 exists pg', pages s1 !! p = Some pg' /\ PG_dirty pg' = true)).
      { destruct (pte_dirty e0).
        - apply upd_page_inv in Hdirty as (pg0 & Hp0 & ->). proj.
          split; [reflexivity|]. intros _. eexists.
          split; [apply lookup_insert_eq|reflexivity].
        - apply ret_inv in Hdirty as [_ <-]. split; [reflexivity|discriminate]. }
      destruct Hs1 as (Hv1 & Hd1).
      apply bind_inv in H as ([] & s2 & Hset & H).
      apply ret_inv in H as [[= <- <-] <-].
      unfold set_pte_at in Hset. apply upd_vma_inv in Hset as (a' & Ha' & ->).
      rewrite Hv1, Ha in Ha'. injection Ha' as <-.
      right. split; [reflexivity|]. exists a, pg, addr, e0.
      split; [exact Ha|]. split; [exact Hp|]. split; [exact Haddr|].
      split; [exact He|]. split; [exact Hpfn|].
      rewrite Hpfn. split; [reflexivity|].
      split.
      { rewrite (pte_at_set s1 v addr _ a) by (rewrite Hv1; exact Ha).
        rewrite decide_True by auto. reflexivity. }
      split; [apply Hother, Hv1|].
      split; [|intros _; exact Hdio].
      intros Hd. destruct (Hd1 Hd) as (pg' & Hpg' & Hdirty'). exists pg'. auto.
    + apply bind_inv in H as ([] & s1 & Hset & H).
      apply ret_inv in H as [[= <- <-] <-].
      apply (set_pte_at_same _ _ _ _ _ _ _ Ha He) in Hset as ->.
      left. split; [discriminate|]. auto.
  - apply ret_inv in H as [[= <- <-] <-].
    apply orb_false_iff in Hwd as [Hw Hd].
    right. split; [reflexivity|]. exists a, pg, addr, e0.
    split; [exact Ha|]. split; [exact Hp|]. split; [exact Haddr|].
    split; [exact He|]. split; [exact Hpfn|].
    assert (Heq : e0 = Pte p false false (pte_special e0)).
    { destruct e0 as [pfn w d sp]. cbn in *. subst. reflexivity. }
    split; [f_equal; exact Heq|].
    split. { unfold pte_at. rewrite Ha, He. reflexivity. }
    split; [reflexivity|].
    split; [rewrite Hd; discriminate|].
    rewrite Hw, Hd. discriminate.
Qed.

Lemma write_protect_page_outcome_witness :
  exists s',
    write_protect_page 33 13 Scenario.queued_zero
    = Ret (0, Some (Pte 13 false false false)) s' /\
    pte_at Scenario.queued_zero 33 16384 = Some (Pte 13 true true false) /\
    pte_at s' 33 16384 = Some (Pte 13 false false false).
Proof.
  set (s' := Scenario.exec (write_protect_page 33 13) Scenario.queued_zero).
  assert (Hrun : write_protect_page 33 13 Scenario.queued_zero
                 = Ret (0, Some (Pte 13 false false false)) s')
    by (vm_compute; reflexivity).
  exists s'. split; [exact Hrun|]. split; [vm_compute; reflexivity|].
  destruct (write_protect_page_outcome _ _ _ _ _ _ Hrun)
    as [(Hne & _)|(_ & a & pg & addr & e0 & Ha & Hp & Haddr & _ & _ & _ & Hat & _)];
    [contradiction|].
  vm_compute in Ha. injection Ha as <-.
  vm_compute in Hp. injection Hp as <-.
  vm_compute in Haddr. injection Haddr as <-.
  exact Hat.
Defined.

(** The sharing counters leave pages, page tables and the zero-page count
    alone. *)
Lemma pksm_add_sharing_page_counter_pages k n s u s' :
  pksm_add_sharing_page_counter k n s = Ret u s' ->
  is_Some (pages s !! k) /\
  pages s' = pages s /\ vmas s' = vmas s /\
  ksm_pages_zero_sharing s' = ksm_pages_zero_sharing s.
Proof.
  unfold pksm_add_sharing_page_counter. intros H.
  apply bind_inv in H as (pg & s0 & Hx & H). apply get_page_inv in Hx as [-> Hk].
  split; [eauto|].
  destruct (negb (PageKsm pg)); [apply ret_inv in H as [_ <-]; auto|].
  clear Hk. revert s H.
  induction (Z.to_nat n) as [|m IH]; intros s H; cbn [repeat_m] in H.
  - apply ret_inv in H as [_ <-]. auto.
  - apply bind_inv in H as ([] & s1 & Hb & H).
    apply IH in H as (H1 & H2 & H3). rewrite H1, H2, H3.
    apply bind_inv in Hb as ([] & s2 & Hm & Hb). apply modify_inv in Hm as ->.
    apply bind_inv in Hb as (r & s2 & Hd & Hb). apply deref_inv in Hd as [-> _].
    apply upd_rmap_inv in Hb as (ri & _ & ->). proj. auto.
Qed.

Lemma words_insert (m : gmap nat page) q pg pg' :
  m !! q = Some pg -> words pg' = words pg ->
  forall x, (words <$> <[q := pg']> m !! x) = (words <$> m !! x).
Proof.
  intros Hq Hw x. destruct (decide (q = x)) as [<-|Hne].
  - rewrite lookup_insert_eq, Hq. cbn. f_equal. exact Hw.
  - rewrite lookup_insert_ne by auto. reflexivity.
Qed.

(** What a call of [replace_page] that returned has done. *)
Lemma replace_page_cases v p kpage orig s code s' :
  replace_page v p kpage orig s = Ret code s' ->
  (code = PKSM_FAULT_DROP /\ s' = s) \/
  (code = 0 /\
   exists a pg addr,
     vmas s !! v = Some a /\ pages s !! p = Some pg /\
     vma_address pg a = Some addr /\ vm_ptes a !! addr = orig /\
     let zero := bool_decide (kpage = empty_pksm_zero_page s)
                 || bool_decide (kpage = zero_pfn s) in
     pte_at s' v addr = Some (Pte kpage false false zero) /\
     (forall v' addr', (v', addr') <> (v, addr) ->
        pte_at s' v' addr' = pte_at s v' addr') /\
     ksm_pages_zero_sharing s'
       = (if zero then u64 (ksm_pages_zero_sharing s + 1)
          else ksm_pages_zero_sharing s) /\
     (forall q, (words <$> pages s' !! q) = (words <$> pages s !! q)) /\
     (forall q, q <> p -> q <> kpage -> pages s' !! q = pages s !! q) /\
     (kpage <> p ->
        (exists pg', pages s' !! p = Some pg' /\
           _count pg' = _count pg - 1 /\ _mapcount pg' = _mapcount pg - 1) /\
        exists kg kg', pages s !! kpage = Some kg /\ pages s' !! kpage = Some kg' /\
           _count kg' = (if zero then _count kg else _count kg + 1) /\
           _mapcount kg' = (if zero then _mapcount kg else _mapcount kg + 1))).
Proof.
  unfold replace_page. intros H.
  apply bind_inv in H as (a & s0 & Hx & H). apply get_vma_inv in Hx as [-> Ha].
  apply bind_inv in H as (pg & s0 & Hx & H). apply get_page_inv in Hx as [-> Hp].
  destruct (vma_address pg a) as [addr|] eqn:Haddr.
  2:{ apply ret_inv in H as [<- <-]. left. auto. }
  destruct (bool_decide (vm_ptes a !! addr = orig)) eqn:Hsame; cbn [negb] in H.
  2:{ apply ret_inv in H as [<- <-]. left. auto. }
  apply bool_decide_eq_true_1 in Hsame.
  apply bind_inv in H as (st & s0 & Hx & H). apply get_inv in Hx as [-> ->].
  cbv zeta.
  set (zero := bool_decide (kpage = empty_pksm_zero_page s)
               || bool_decide (kpage = zero_pfn s)) in *.
  apply bind_inv in H as (entry & s1 & Hentry & H).
  (* the state and the entry after the branch on the zero frame *)
  assert (He : entry = Pte kpage false false zero /\ vmas s1 = vmas s /\
    ksm_pages_zero_sharing s1
      = (if zero then u64 (ksm_pages_zero_sharing s + 1) else ksm_pages_zero_sharing s) /\
    (if zero then pages s1 = pages s
     else exists kg, pages s !! kpage = Some kg /\
            pages s1 = <[kpage := with_page_mapcount (_mapcount kg + 1)
                                    (with_count (_count kg + 1) kg)]> (pages s))).
  { destruct zero.
    - apply bind_inv in Hentry as ([] & s2 & Hm & Hentry).
      apply modify_inv in Hm as ->. apply ret_inv in Hentry as [<- <-]. proj. auto.
    - apply bind_inv in Hentry as ([] & s2 & Hg & Hentry).
      unfold page_ref_get in Hg.
      apply bind_inv in Hg as (kg & s3 & Hx & Hg). apply get_page_inv in Hx as [-> Hk].
      apply upd_page_inv in Hg as (kg0 & Hk0 & ->).
      rewrite Hk in Hk0. injection Hk0 as <-.
      apply bind_inv in Hentry as ([] & s3 & Hu & Hentry).
      apply upd_page_inv in Hu as (kg1 & Hk1 & ->).
      proj in Hk1. rewrite lookup_insert_eq in Hk1. injection Hk1 as <-.
      apply ret_inv in Hentry as [<- <-]. proj.
      split; [reflexivity|]. split; [reflexivity|]. split; [reflexivity|].
      exists kg. split; [exact Hk|]. rewrite insert_insert_eq. reflexivity. }
  destruct He as (-> & Hv1 & Hz1 & Hp1).
  apply bind_inv in H as ([] & s2 & Hset & H).
  unfold set_pte_at in Hset. apply upd_vma_inv in Hset as (a' & Ha' & ->).
  rewrite Hv1, Ha in Ha'. injection Ha' as <-.
  apply bind_inv in H as ([] & s3 & Hu & H).
  apply upd_page_inv in Hu as (pp & Hpp & ->). proj in Hpp.
  apply bind_inv in H as ([] & s4 & Hput & H).
  unfold put_page in Hput.
  apply bind_inv in Hput as (pq & s5 & Hx & Hput). apply get_page_inv in Hx as [-> Hpq].
  proj in Hpq. rewrite lookup_insert_eq in Hpq. injection Hpq as <-.
  apply upd_page_inv in Hput as (pq & Hpq & ->).
  proj in Hpq. rewrite lookup_insert_eq in Hpq. injection Hpq as <-.
  apply bind_inv in H as ([] & s5 & Hadd & H). apply ret_inv in H as [<- <-].
  apply pksm_add_sharing_page_counter_pages in Hadd as (Hkex & Hpages & Hvmas & Hzs).
  proj in Hkex. proj in Hpages. proj in Hvmas. proj in Hzs.
  rewrite insert_insert_eq in Hpages. rewrite insert_insert_eq in Hkex.
  set (pp' := with_count (_count (with_page_mapcount (_mapcount pp - 1) pp) - 1)
                (with_page_mapcount (_mapcount pp - 1) pp)) in *.
  right. split; [reflexivity|]. exists a, pg, addr.
  split; [exact Ha|]. split; [exact Hp|]. split; [exact Haddr|]. split; [exact Hsame|].
  split.
  { unfold pte_at. rewrite Hvmas, lookup_insert_eq. proj. apply lookup_insert_eq. }
  split.
  { intros v' addr' Hne. unfold pte_at. rewrite Hvmas.
    destruct (decide (v = v')) as [<-|Hv].
    - rewrite lookup_insert_eq, Ha. proj.
      rewrite lookup_insert_ne by (intros ->; contradiction). reflexivity.
    - rewrite lookup_insert_ne by auto. rewrite Hv1. reflexivity. }
  split; [rewrite Hzs; exact Hz1|].
  split.
  { intros q. rewrite Hpages.
    rewrite (words_insert _ _ _ pp' Hpp) by reflexivity.
    destruct zero.
    - rewrite Hp1. reflexivity.
    - destruct Hp1 as (kg & Hk & ->). apply (words_insert _ _ _ _ Hk). reflexivity. }
  split.
  { intros q Hq1 Hq2. rewrite Hpages, lookup_insert_ne by auto.
    destruct zero.
    - rewrite Hp1. reflexivity.
    - destruct Hp1 as (kg & Hk & ->). rewrite lookup_insert_ne by auto. reflexivity. }
  intros Hkp.
  assert (Hppg : pp = pg).
  { destruct zero.
    - rewrite Hp1, Hp in Hpp. congruence.
    - destruct Hp1 as (kg & Hk & Hp1). rewrite Hp1 in Hpp.
      rewrite lookup_insert_ne in Hpp by exact Hkp. congruence. }
  subst pp. split.
  { exists pp'. rewrite Hpages, lookup_insert_eq. split; [reflexivity|].
    subst pp'. proj. split; reflexivity. }
  destruct zero.
  - destruct Hkex as [kg Hkg]. rewrite lookup_insert_ne in Hkg by auto.
    exists kg, kg. rewrite Hpages, lookup_insert_ne by auto.
    rewrite Hp1 in Hkg |- *. auto.
  - destruct Hp1 as (kg & Hk & Hp1). eexists kg, _.
    split; [exact Hk|]. rewrite Hpages, lookup_insert_ne by auto.
    rewrite Hp1, lookup_insert_eq. split; [reflexivity|]. proj. auto.
Qed.

Lemma get_vma_Ret v s a : vmas s !! v = Some a -> get_vma v s = Ret a s.
Proof. unfold get_vma. intros ->. reflexivity. Qed.

(** States with the same items whose frames keep their links. *)
Lemma steady_refl s : steady s s.
Proof. split; [reflexivity|]. intros q g Hq. eauto. Qed.

Lemma steady_trans a b c : steady a b -> steady b c -> steady a c.
Proof.
  intros [Hr1 Hl1] [Hr2 Hl2]. split; [congruence|].
  intros q g Hq. destruct (Hl1 _ _ Hq) as (g1 & Hg1 & Hm1 & Hp1).
  destruct (Hl2 _ _ Hg1) as (g2 & Hg2 & Hm2 & Hp2).
  exists g2. split; [exact Hg2|]. split; congruence.
Qed.

Lemma upd_page_steady p f s g :
  pages s !! p = Some g -> mapping (f g) = mapping g -> pksm (f g) = pksm g ->
  exists s', upd_page p f s = Ret tt s' /\ vmas s' = vmas s /\ steady s s'.
Proof.
  intros Hp Hm Hk. eexists. split; [apply (upd_page_Ret _ _ _ _ Hp)|].
  split; [reflexivity|]. split; [reflexivity|]. proj.
  intros q g0 Hq. destruct (decide (p = q)) as [<-|Hne].
  - rewrite lookup_insert_eq. rewrite Hp in Hq. injection Hq as <-. eauto.
  - rewrite lookup_insert_ne by exact Hne. eauto.
Qed.

Lemma page_ref_get_steady p s g :
  pages s !! p = Some g ->
  exists s', page_ref_get p s = Ret tt s' /\ vmas s' = vmas s /\ steady s s'.
Proof.
  intros Hp. unfold page_ref_get.
  rewrite (bind_Ret _ _ _ _ _ (get_page_Ret _ _ _ Hp)).
  apply (upd_page_steady p _ s g Hp); destruct g; reflexivity.
Qed.

Lemma put_page_steady p s g :
  pages s !! p = Some g ->
  exists s', put_page p s = Ret tt s' /\ vmas s' = vmas s /\ steady s s'.
Proof.
  intros Hp. unfold put_page.
  rewrite (bind_Ret _ _ _ _ _ (get_page_Ret _ _ _ Hp)).
  apply (upd_page_steady p _ s g Hp); destruct g; reflexivity.
Qed.

(** A call of [replace_page] on an entry that is the one the caller saw
    returns 0. *)
Lemma replace_page_replaces v p kpage orig s a pg addr kg :
  vmas s !! v = Some a -> pages s !! p = Some pg ->
  pages s !! kpage = Some kg ->
  (PageKsm kg = true -> exists r, pksm kg = Some r /\ is_Some (rmaps s !! r)) ->
  vma_address pg a = Some addr -> vm_ptes a !! addr = orig ->
  exists s', replace_page v p kpage orig s = Ret 0 s'.
Proof.
  intros Ha Hp Hk Hksm Haddr Hsame.
  unfold replace_page.
  rewrite (bind_Ret _ _ _ _ _ (get_vma_Ret _ _ _ Ha)).
  rewrite (bind_Ret _ _ _ _ _ (get_page_Ret _ _ _ Hp)).
  rewrite Haddr. rewrite (bool_decide_eq_true_2 _ Hsame). cbn [negb].
  unfold bind at 1. unfold get at 1. cbv zeta.
  (* the branch on the zero frame *)
  assert (Hentry : exists entry s1,
    (if bool_decide (kpage = empty_pksm_zero_page s)
        || bool_decide (kpage = zero_pfn s)
     then
       modify (fun s => with_ksm_pages_zero_sharing
                 (u64 (ksm_pages_zero_sharing s + 1)) s);;
       ret (Pte kpage false false true)
     else
       page_ref_get kpage;;
       upd_page kpage (fun k => with_page_mapcount (_mapcount k + 1) k);;
       ret (Pte kpage false false false)) s = Ret entry s1 /\
    vmas s1 = vmas s /\ steady s s1).
  { destruct (bool_decide (kpage = empty_pksm_zero_page s)
              || bool_decide (kpage = zero_pfn s)).
    - eexists _, _. split; [reflexivity|]. split; [reflexivity|].
      split; [reflexivity|]. intros q g Hq. proj. eauto.
    - destruct (page_ref_get_steady kpage s kg Hk) as (s1 & H1 & Hv1 & Hs1).
      destruct Hs1 as [Hr1 Hl1]. destruct (Hl1 _ _ Hk) as (g1 & Hg1 & _).
      destruct (upd_page_steady kpage
                  (fun k => with_page_mapcount (_mapcount k + 1) k) s1 g1 Hg1)
        as (s2 & H2 & Hv2 & Hs2); [destruct g1; reflexivity..|].
      eexists _, s2. split.
      + rewrite (bind_Ret _ _ _ _ _ H1), (bind_Ret _ _ _ _ _ H2). reflexivity.
      + split; [congruence|]. eapply steady_trans; [split|]; eassumption. }
  destruct Hentry as (entry & s1 & He & Hv1 & Hs1).
  rewrite (bind_Ret _ _ _ _ _ He).
  (* the entry is written *)
  assert (Ha1 : vmas s1 !! v = Some a) by (rewrite Hv1; exact Ha).
  unfold set_pte_at.
  set (s2 := with_vmas
               (<[v := with_vm_ptes (<[addr := entry]> (vm_ptes a)) a]> (vmas s1)) s1).
  assert (H2 : upd_vma v (fun a => with_vm_ptes (<[addr := entry]> (vm_ptes a)) a) s1
               = Ret tt s2).
  { unfold upd_vma. rewrite (bind_Ret _ _ _ _ _ (get_vma_Ret _ _ _ Ha1)). reflexivity. }
  rewrite (bind_Ret _ _ _ _ _ H2).
  assert (Hs2 : steady s s2) by exact Hs1.
  (* the counts of the page *)
  destruct Hs2 as [Hr2 Hl2]. destruct (Hl2 _ _ Hp) as (g2 & Hg2 & _).
  destruct (upd_page_steady p (fun g => with_page_mapcount (_mapcount g - 1) g)
              s2 g2 Hg2) as (s3 & H3 & _ & Hs3); [destruct g2; reflexivity..|].
  rewrite (bind_Ret _ _ _ _ _ H3).
  destruct Hs3 as [Hr3 Hl3]. destruct (Hl3 _ _ Hg2) as (g3 & Hg3 & _).
  destruct (put_page_steady p s3 g3 Hg3) as (s4 & H4 & _ & Hs4).
  rewrite (bind_Ret _ _ _ _ _ H4).
  assert (Hs04 : steady s s4).
  { eapply steady_trans; [split; [exact Hr2|exact Hl2]|].
    eapply steady_trans; [split; [exact Hr3|exact Hl3]|exact Hs4]. }
  (* the sharer counter *)
  destruct Hs04 as [Hr4 Hl4]. destruct (Hl4 _ _ Hk) as (k4 & Hk4 & Hm4 & Hp4).
  assert (H5 : exists s5, pksm_add_sharing_page_counter kpage 1 s4 = Ret tt s5).
  { unfold pksm_add_sharing_page_counter.
    rewrite (bind_Ret _ _ _ _ _ (get_page_Ret _ _ _ Hk4)).
    assert (Hkk : PageKsm k4 = PageKsm kg)
      by (unfold PageKsm; rewrite Hm4; reflexivity).
    rewrite Hkk, Hp4.
    destruct (PageKsm kg) eqn:Hyes; cbn [negb].
    - destruct (Hksm eq_refl) as (r & Hr & [ri Hri]). rewrite Hr.
      rewrite <- Hr4 in Hri.
      destruct (add_sharing_loop r (Z.to_nat 1) s4 ri Hri) as (s5 & H5 & _).
      exists s5. exact H5.
    - eexists. reflexivity. }
  destruct H5 as (s5 & H5). rewrite (bind_Ret _ _ _ _ _ H5).
  eexists. reflexivity.
Qed.

(** [replace_page], called on a vma and pages that exist, with the item of
    [kpage] in place if [kpage] is a KSM page.  When the page has no
    address in the vma, or the entry there is not the one the caller saw,
    it returns [PKSM_FAULT_DROP] and leaves the state exactly as it was.
    In every other case it returns 0 and the entry maps [kpage], read-only,
    and is marked special if [kpage] is a zero frame; no other entry
    changed; the page has lost one mapping and one reference; an ordinary
    [kpage] has gained one of each, while for a zero frame the zero-sharing
    count goes up instead; no content and no other page changed. *)
Theorem replace_page_outcome v p kpage orig s a pg kg :
  vmas s !! v = Some a -> pages s !! p = Some pg ->
  pages s !! kpage = Some kg ->
  (PageKsm kg = true -> exists r, pksm kg = Some r /\ is_Some (rmaps s !! r)) ->
  match vma_address pg a with
  | Some addr =>
      if bool_decide (vm_ptes a !! addr = orig) then
        exists s',
          replace_page v p kpage orig s = Ret 0 s' /\
          let zero := bool_decide (kpage = empty_pksm_zero_page s)
                      || bool_decide (kpage = zero_pfn s) in
          pte_at s' v addr = Some (Pte kpage false false zero) /\
          (forall v' addr', (v', addr') <> (v, addr) ->
             pte_at s' v' addr' = pte_at s v' addr') /\
          ksm_pages_zero_sharing s'
            = (if zero then u64 (ksm_pages_zero_sharing s + 1)
               else ksm_pages_zero_sharing s) /\
          (forall q, (words <$> pages s' !! q) = (words <$> pages s !! q)) /\
          (forall q, q <> p -> q <> kpage -> pages s' !! q = pages s !! q) /\
          (kpage <> p ->
             (exists pg', pages s' !! p = Some pg' /\
                _count pg' = _count pg - 1 /\ _mapcount pg' = _mapcount pg - 1) /\
             exists kg', pages s' !! kpage = Some kg' /\
                _count kg' = (if zero then _count kg else _count kg + 1) /\
                _mapcount kg' = (if zero then _mapcount kg else _mapcount kg + 1))
      else replace_page v p kpage orig s = Ret PKSM_FAULT_DROP s
  | None => replace_page v p kpage orig s = Ret PKSM_FAULT_DROP s
  end.
Proof.
  intros Ha Hp Hk Hksm.
  destruct (vma_address pg a) as [addr|] eqn:Haddr.
  2:{ unfold replace_page.
      rewrite (bind_Ret _ _ _ _ _ (get_vma_Ret _ _ _ Ha)).
      rewrite (bind_Ret _ _ _ _ _ (get_page_Ret _ _ _ Hp)).
      rewrite Haddr. reflexivity. }
  destruct (bool_decide (vm_ptes a !! addr = orig)) eqn:Hsame.
  2:{ unfold replace_page.
      rewrite (bind_Ret _ _ _ _ _ (get_vma_Ret _ _ _ Ha)).
      rewrite (bind_Ret _ _ _ _ _ (get_page_Ret _ _ _ Hp)).
      rewrite Haddr, Hsame. reflexivity. }
  apply bool_decide_eq_true_1 in Hsame.
  destruct (replace_page_replaces v p kpage orig s a pg addr kg Ha Hp Hk Hksm
              Haddr Hsame) as [s' Hrun].
  exists s'. split; [exact Hrun|].
  destruct (replace_page_cases _ _ _ _ _ _ _ Hrun)
    as [(Hne & _)|(_ & a0 & pg0 & addr0 & Ha0 & Hp0 & Haddr0 & _ & Hat & Hoth & Hz
                   & Hw & Hq & Hcount)];
    [discriminate Hne|].
  rewrite Ha in Ha0. injection Ha0 as <-.
  rewrite Hp in Hp0. injection Hp0 as <-.
  rewrite Haddr in Haddr0. injection Haddr0 as <-.
  cbv zeta in *.
  split; [exact Hat|]. split; [exact Hoth|]. split; [exact Hz|].
  split; [exact Hw|]. split; [exact Hq|].
  intros Hkp. destruct (Hcount Hkp) as (Hpg' & kg0 & kg' & Hk0 & Hk' & Hc).
  split; [exact Hpg'|].
  rewrite Hk in Hk0. injection Hk0 as <-. exists kg'. auto.
Qed.

Lemma replace_page_outcome_witness :
  let s := Scenario.exec (write_protect_page 33 13) Scenario.queued_zero in
  exists s',
    replace_page 33 13 0 (Some (Pte 13 false false false)) s = Ret 0 s' /\
    pte_at s' 33 16384 = Some (Pte 0 false false true) /\
    ksm_pages_zero_sharing s' = 1.
Proof.
  intros s.
  assert (Hin : match vmas s !! 33%nat, pages s !! 13%nat, pages s !! 0%nat with
                | Some a, Some pg, Some kg =>
                    PageKsm kg = false /\ vma_address pg a = Some 16384 /\
                    vm_ptes a !! 16384 = Some (Pte 13 false false false)
                | _, _, _ => False
                end).
  { vm_compute. split; [reflexivity|]. split; reflexivity. }
  destruct (vmas s !! 33%nat) as [a|] eqn:Ha; [|contradiction].
  destruct (pages s !! 13%nat) as [pg|] eqn:Hp; [|contradiction].
  destruct (pages s !! 0%nat) as [kg|] eqn:Hk; [|contradiction].
  destruct Hin as (Hno & Haddr & Hpte).
  pose proof (replace_page_outcome 33 13 0 (Some (Pte 13 false false false)) s
                a pg kg Ha Hp Hk) as H.
  rewrite Haddr, (bool_decide_eq_true_2 _ Hpte) in H.
  destruct H as (s' & Hrun & Hat & _ & Hz & _).
  { rewrite Hno. discriminate. }
  exists s'. split; [exact Hrun|]. split; [exact Hat|exact Hz].
Defined.

End PageTable.

(** ** What a command leaves alone *)

Module Frame.
Import Mach Model Spec Spec2 Infra.

Section Rel.
Variable R : state -> state -> Prop.
Hypothesis R_refl : forall s, R s s.
Hypothesis R_trans : forall a b c, R a b -> R b c -> R a c.

Lemma rel_ret {A} (a : A) : keeps_rel R (ret a).
Proof. intros s x s' H. apply ret_inv in H as [_ <-]. apply R_refl. Qed.

Lemma rel_oops {A} f : keeps_rel R (@oops A f).
Proof. intros s x s' H. discriminate H. Qed.

Lemma rel_get : keeps_rel R get.
Proof. intros s x s' H. apply get_inv in H as [_ ->]. apply R_refl. Qed.

Lemma rel_bind {A B} (c : M A) (k : A -> M B) :
  keeps_rel R c -> (forall a, keeps_rel R (k a)) -> keeps_rel R (bind c k).
Proof.
  intros Hc Hk s b s' H. apply bind_inv in H as (a & s1 & H1 & H2).
  eapply R_trans; [eapply Hc, H1|eapply Hk, H2].
Qed.

Lemma rel_modify (f : state -> state) :
  (forall s, R s (f s)) -> keeps_rel R (modify f).
Proof. intros Hf s x s' H. apply modify_inv in H as ->. apply Hf. Qed.

Lemma rel_get_page p : keeps_rel R (get_page p).
Proof. intros s x s' H. apply get_page_inv in H as [-> _]. apply R_refl. Qed.

Lemma rel_get_rmap r : keeps_rel R (get_rmap r).
Proof. intros s x s' H. apply get_rmap_inv in H as [-> _]. apply R_refl. Qed.

Lemma rel_get_vma v : keeps_rel R (get_vma v).
Proof. intros s x s' H. apply get_vma_inv in H as [-> _]. apply R_refl. Qed.

Lemma rel_get_anon v : keeps_rel R (get_anon v).
Proof. intros s x s' H. apply get_anon_inv in H as [-> _]. apply R_refl. Qed.

Lemma rel_deref {A} (o : option A) : keeps_rel R (deref o).
Proof. intros s x s' H. apply deref_inv in H as [-> _]. apply R_refl. Qed.

Lemma rel_BUG_ON c : keeps_rel R (BUG_ON c).
Proof. intros s x s' H. apply BUG_ON_inv in H as [-> _]. apply R_refl. Qed.

Lemma rel_upd_page p f :
  (forall s pg, pages s !! p = Some pg ->
                R s (with_pages (<[p := f pg]> (pages s)) s)) ->
  keeps_rel R (upd_page p f).
Proof. intros Hf s x s' H. apply upd_page_inv in H as (pg & Hp & ->). eauto. Qed.

Lemma rel_upd_rmap r f :
  (forall s ri, rmaps s !! r = Some ri ->
                R s (with_rmaps (<[r := f ri]> (rmaps s)) s)) ->
  keeps_rel R (upd_rmap r f).
Proof. intros Hf s x s' H. apply upd_rmap_inv in H as (ri & Hr & ->). eauto. Qed.

Lemma rel_upd_vma v f :
  (forall s a, vmas s !! v = Some a ->
               R s (with_vmas (<[v := f a]> (vmas s)) s)) ->
  keeps_rel R (upd_vma v f).
Proof. intros Hf s x s' H. apply upd_vma_inv in H as (a & Ha & ->). eauto. Qed.

Lemma rel_repeat_m n body : keeps_rel R body -> keeps_rel R (repeat_m n body).
Proof.
  intros Hb. induction n as [|n IH]; cbn [repeat_m].
  - apply rel_ret.
  - apply rel_bind; auto.
Qed.

Lemma rel_retry fuel pass : keeps_rel R pass -> keeps_rel R (retry fuel pass).
Proof.
  intros Hp. induction fuel as [|fuel IH]; cbn [retry].
  - apply rel_oops.
  - apply rel_bind; [exact Hp|]. intros [n|e]; [exact IH|apply rel_ret].
Qed.

End Rel.

Lemma same_on_refl {B} (f : state -> B) s : same_on f s s.
Proof. reflexivity. Qed.

Lemma same_on_trans {B} (f : state -> B) a b c :
  same_on f a b -> same_on f b c -> same_on f a c.
Proof. unfold same_on. congruence. Qed.

Create HintDb rel.

Ltac head_of c :=
  lazymatch c with
  | ?f _ => head_of f
  | _ => c
  end.

(** One step of a proof of [keeps_rel]: the commands already dealt with,
    then the combinators, with the obligations on single stores left to
    [side]; a command that is none of these is unfolded. *)
Ltac rel_step rfl trn side :=
  first
    [ solve [eauto with rel]
    | match goal with
      | |- keeps_rel _ (ret _) => apply rel_ret; rfl
      | |- keeps_rel _ (oops _) => apply rel_oops
      | |- keeps_rel _ get => apply rel_get; rfl
      | |- keeps_rel _ (get_page _) => apply rel_get_page; rfl
      | |- keeps_rel _ (get_rmap _) => apply rel_get_rmap; rfl
      | |- keeps_rel _ (get_vma _) => apply rel_get_vma; rfl
      | |- keeps_rel _ (get_anon _) => apply rel_get_anon; rfl
      | |- keeps_rel _ (deref _) => apply rel_deref; rfl
      | |- keeps_rel _ (BUG_ON _) => apply rel_BUG_ON; rfl
      | |- keeps_rel _ (bind _ _) => apply rel_bind; [trn| |intros ?]
      | |- keeps_rel _ (modify _) => apply rel_modify; intros ?; side
      | |- keeps_rel _ (upd_page _ _) => apply rel_upd_page; intros ? ? ?; side
      | |- keeps_rel _ (upd_rmap _ _) => apply rel_upd_rmap; intros ? ? ?; side
      | |- keeps_rel _ (upd_vma _ _) => apply rel_upd_vma; intros ? ? ?; side
      | |- keeps_rel _ (repeat_m _ _) => apply rel_repeat_m; [rfl|trn|]
      | |- keeps_rel _ (retry _ _) => apply rel_retry; [trn|]
      | |- keeps_rel _ (if ?c then _ else _) => destruct c
      | |- keeps_rel _ (match ?x with _ => _ end) => destruct x
      | |- keeps_rel _ (let _ := _ in _) => cbv zeta
      | |- keeps_rel _ ?c => let h := head_of c in is_const h; progress unfold h
      end ].

(** The side conditions for an agreement on a field. *)
Ltac field_side := unfold same_on; proj; reflexivity.

Ltac field :=
  repeat rel_step ltac:(exact (same_on_refl _)) ltac:(exact (same_on_trans _))
                  field_side.

End Frame.

(** ** What mappings read is never changed *)

Module Memory.
Import Mach Model Spec Spec2 Infra ZeroPath.

Lemma same_content_refl s : same_content s s.
Proof. intros q. reflexivity. Qed.

Lemma same_memory_refl s : same_memory s s.
Proof. split; [apply same_content_refl|]. auto. Qed.

Lemma same_memory_trans a b c :
  same_memory a b -> same_memory b c -> same_memory a c.
Proof.
  intros (A1 & A2 & A3) (B1 & B2 & B3). split; [|split].
  - intros q. rewrite B1. apply A1.
  - congruence.
  - intros v addr. rewrite B3. apply A3.
Qed.

Lemma zero_frame_ok_same s s' : same_memory s s' -> zero_frame_ok s -> zero_frame_ok s'.
Proof.
  intros (Hc & Hz & _) (zf & Hzf & Hzero & Hlen).
  pose proof (Hc (empty_pksm_zero_page s)) as Hq. rewrite Hzf in Hq.
  rewrite <- Hz in Hq.
  destruct (pages s' !! empty_pksm_zero_page s') as [zf'|] eqn:Hzf'; [|discriminate].
  injection Hq as Hw. exists zf'. split; [exact Hzf'|].
  rewrite Hw. split; [exact Hzero|].
  intros q pg Hpg. pose proof (Hc q) as Hq. rewrite Hpg in Hq.
  destruct (pages s !! q) as [pg0|] eqn:Hpg0; [|discriminate].
  injection Hq as ->. eauto.
Qed.

(** States with the same pages, page tables and zero frame. *)
Lemma same_fields_memory s s' :
  pages s' = pages s -> vmas s' = vmas s ->
  empty_pksm_zero_page s' = empty_pksm_zero_page s ->
  same_memory s s'.
Proof.
  intros Hp Hv Hz. split; [|split; [exact Hz|]].
  - intros q. rewrite Hp. reflexivity.
  - intros v addr. unfold reads, maps_to. rewrite Hv, Hp. reflexivity.
Qed.

(** A frame replaced by one of the same content. *)
Lemma same_memory_page s p pg pg' :
  pages s !! p = Some pg -> words pg' = words pg ->
  same_memory s (with_pages (<[p := pg']> (pages s)) s).
Proof.
  intros Hp Hw.
  assert (Hc : same_content s (with_pages (<[p := pg']> (pages s)) s)).
  { intros q. proj. destruct (decide (p = q)) as [<-|Hne].
    - rewrite lookup_insert_eq, Hp. cbn. f_equal. exact Hw.
    - rewrite lookup_insert_ne by auto. reflexivity. }
  split; [exact Hc|]. split; [reflexivity|].
  intros v addr. unfold reads, maps_to. proj.
  destruct (vmas s !! v) as [a|]; [|reflexivity].
  destruct (pte_pfn <$> vm_ptes a !! addr) as [q|]; [|reflexivity].
  apply Hc.
Qed.

(** *** The combinators *)

Lemma keeps_ret {A} (a : A) : keeps_memory (ret a).
Proof. intros s x s' _ H. apply ret_inv in H as [_ <-]. apply same_memory_refl. Qed.

Lemma keeps_oops {A} f : keeps_memory (@oops A f).
Proof. intros s x s' _ H. discriminate H. Qed.

Lemma keeps_get : keeps_memory get.
Proof. intros s x s' _ H. apply get_inv in H as [_ ->]. apply same_memory_refl. Qed.

Lemma keeps_bind {A B} (c : M A) (k : A -> M B) :
  keeps_memory c -> (forall a, keeps_memory (k a)) -> keeps_memory (bind c k).
Proof.
  intros Hc Hk s b s' Hok H. apply bind_inv in H as (a & s1 & H1 & H2).
  pose proof (Hc _ _ _ Hok H1) as M1.
  eapply same_memory_trans; [exact M1|].
  eapply Hk; [|exact H2]. eapply zero_frame_ok_same; eauto.
Qed.

Lemma keeps_modify (f : state -> state) :
  (forall s, pages (f s) = pages s /\ vmas (f s) = vmas s /\
             empty_pksm_zero_page (f s) = empty_pksm_zero_page s) ->
  keeps_memory (modify f).
Proof.
  intros Hf s x s' _ H. apply modify_inv in H as ->.
  destruct (Hf s) as (H1 & H2 & H3). apply same_fields_memory; assumption.
Qed.

Lemma keeps_get_page p : keeps_memory (get_page p).
Proof. intros s x s' _ H. apply get_page_inv in H as [-> _]. apply same_memory_refl. Qed.

Lemma keeps_get_rmap r : keeps_memory (get_rmap r).
Proof. intros s x s' _ H. apply get_rmap_inv in H as [-> _]. apply same_memory_refl. Qed.

Lemma keeps_get_vma v : keeps_memory (get_vma v).
Proof. intros s x s' _ H. apply get_vma_inv in H as [-> _]. apply same_memory_refl. Qed.

Lemma keeps_get_anon v : keeps_memory (get_anon v).
Proof. intros s x s' _ H. apply get_anon_inv in H as [-> _]. apply same_memory_refl. Qed.

Lemma keeps_deref {A} (o : option A) : keeps_memory (deref o).
Proof. intros s x s' _ H. apply deref_inv in H as [-> _]. apply same_memory_refl. Qed.

Lemma keeps_BUG_ON c : keeps_memory (BUG_ON c).
Proof. intros s x s' _ H. apply BUG_ON_inv in H as [-> _]. apply same_memory_refl. Qed.

Lemma keeps_upd_page p f :
  (forall pg, words (f pg) = words pg) -> keeps_memory (upd_page p f).
Proof.
  intros Hf s x s' _ H. apply upd_page_inv in H as (pg & Hp & ->).
  apply (same_memory_page _ _ pg); [exact Hp|apply Hf].
Qed.

Lemma keeps_upd_rmap r f : keeps_memory (upd_rmap r f).
Proof.
  intros s x s' _ H. apply upd_rmap_inv in H as (ri & _ & ->).
  apply same_fields_memory; reflexivity.
Qed.

Create HintDb keeps.

(** One step of a proof that a command keeps the memory: the combinators
    first, then the commands already dealt with. *)
Ltac keeps_step :=
  first
    [ solve [eauto with keeps]
    | apply keeps_ret | apply keeps_oops | apply keeps_get
    | apply keeps_get_page | apply keeps_get_rmap | apply keeps_get_vma
    | apply keeps_get_anon | apply keeps_deref | apply keeps_BUG_ON
    | apply keeps_upd_rmap
    | apply keeps_upd_page; intros ?; reflexivity
    | apply keeps_modify; intros ?; proj; auto
    | match goal with
      | |- keeps_memory (bind _ _) => apply keeps_bind; [|intros ?]
      | |- keeps_memory (if ?c then _ else _) => destruct c
      | |- keeps_memory (match ?x with _ => _ end) => destruct x
      | |- keeps_memory (let _ := _ in _) => cbv zeta
      end ].

Ltac keeps := repeat keeps_step.

(** *** Commands that touch neither a page table nor a content *)

Lemma get_page_unless_zero_keeps p : keeps_memory (get_page_unless_zero p).
Proof. unfold get_page_unless_zero. keeps. Qed.
Lemma page_ref_get_keeps p : keeps_memory (page_ref_get p).
Proof. unfold page_ref_get. keeps. Qed.
Lemma put_page_keeps p : keeps_memory (put_page p).
Proof. unfold put_page. keeps. Qed.
Lemma trylock_page_keeps p : keeps_memory (trylock_page p).
Proof. unfold trylock_page. keeps. Qed.
Lemma lock_page_keeps p : keeps_memory (lock_page p).
Proof. unfold lock_page. keeps. Qed.
Lemma unlock_page_keeps p : keeps_memory (unlock_page p).
Proof. unfold unlock_page. keeps. Qed.
Lemma get_anon_vma_keeps av : keeps_memory (get_anon_vma av).
Proof. unfold get_anon_vma. keeps. Qed.
Lemma put_anon_vma_keeps av : keeps_memory (put_anon_vma av).
Proof. unfold put_anon_vma. keeps. Qed.
Lemma alloc_stable_anon_keeps : keeps_memory alloc_stable_anon.
Proof. unfold alloc_stable_anon. keeps. Qed.
Lemma free_stable_anon_keeps a : keeps_memory (free_stable_anon a).
Proof. unfold free_stable_anon. keeps. Qed.
Lemma pksm_free_rmap_item_keeps r : keeps_memory (pksm_free_rmap_item r).
Proof. unfold pksm_free_rmap_item. keeps. Qed.
Lemma check_valid_rmap_item_keeps r : keeps_memory (check_valid_rmap_item r).
Proof. unfold check_valid_rmap_item. keeps. Qed.
Lemma page_stable_rmap_item_keeps p : keeps_memory (page_stable_rmap_item p).
Proof. unfold page_stable_rmap_item. keeps. Qed.
Lemma set_page_stable_ksm_keeps p r : keeps_memory (set_page_stable_ksm p r).
Proof. unfold set_page_stable_ksm. keeps. Qed.

#[local] Hint Resolve get_page_unless_zero_keeps page_ref_get_keeps put_page_keeps
  trylock_page_keeps lock_page_keeps unlock_page_keeps get_anon_vma_keeps
  put_anon_vma_keeps alloc_stable_anon_keeps free_stable_anon_keeps
  pksm_free_rmap_item_keeps check_valid_rmap_item_keeps
  page_stable_rmap_item_keeps set_page_stable_ksm_keeps : keeps.

Lemma repeat_m_keeps n body : keeps_memory body -> keeps_memory (repeat_m n body).
Proof. intros Hb. induction n as [|n IH]; cbn [repeat_m]; keeps. Qed.

Lemma pksm_del_sharing_page_counter_keeps p n :
  keeps_memory (pksm_del_sharing_page_counter p n).
Proof. unfold pksm_del_sharing_page_counter. keeps. apply repeat_m_keeps. keeps. Qed.
Lemma pksm_add_sharing_page_counter_keeps p n :
  keeps_memory (pksm_add_sharing_page_counter p n).
Proof. unfold pksm_add_sharing_page_counter. keeps. apply repeat_m_keeps. keeps. Qed.
#[local] Hint Resolve pksm_del_sharing_page_counter_keeps
  pksm_add_sharing_page_counter_keeps : keeps.

Lemma pksm_unmap_sharing_page_keeps p : keeps_memory (pksm_unmap_sharing_page p).
Proof. unfold pksm_unmap_sharing_page. keeps. Qed.
Lemma get_ksm_page_keeps r : keeps_memory (get_ksm_page r).
Proof. unfold get_ksm_page. keeps. Qed.
Lemma get_mergeable_page_keeps r : keeps_memory (get_mergeable_page r).
Proof. unfold get_mergeable_page. keeps. Qed.
#[local] Hint Resolve pksm_unmap_sharing_page_keeps get_ksm_page_keeps
  get_mergeable_page_keeps : keeps.

Lemma free_anchors_keeps r anchors : keeps_memory (free_anchors r anchors).
Proof. induction anchors as [|a rest IH]; cbn [free_anchors]; keeps. Qed.
#[local] Hint Resolve free_anchors_keeps : keeps.

Lemma remove_rmap_item_from_tree_keeps r free_anon :
  keeps_memory (remove_rmap_item_from_tree r free_anon).
Proof. unfold remove_rmap_item_from_tree. keeps. Qed.
#[local] Hint Resolve remove_rmap_item_from_tree_keeps : keeps.

Lemma below_keeps turn c :
  keeps_memory c -> keeps_memory (let* d := c in ret (below turn d)).
Proof. intros Hc. keeps. Qed.

Lemma retry_keeps fuel pass : keeps_memory pass -> keeps_memory (retry fuel pass).
Proof. intros Hp. induction fuel as [|fuel IH]; cbn [retry]; keeps. Qed.

Lemma stable_tree_search_walk_keeps rmap_item t :
  keeps_memory (stable_tree_search_walk rmap_item t).
Proof.
  induction t as [|l IHl x r IHr]; cbn [stable_tree_search_walk]; keeps.
Qed.
Lemma stable_tree_insert_walk_keeps rmap_item t :
  keeps_memory (stable_tree_insert_walk rmap_item t).
Proof.
  induction t as [|l IHl x r IHr]; cbn [stable_tree_insert_walk]; keeps.
Qed.
Lemma unstable_tree_search_insert_walk_keeps rmap_item p t :
  keeps_memory (unstable_tree_search_insert_walk rmap_item p t).
Proof.
  induction t as [|l IHl x r IHr]; cbn [unstable_tree_search_insert_walk]; keeps.
Qed.
#[local] Hint Resolve stable_tree_search_walk_keeps stable_tree_insert_walk_keeps
  unstable_tree_search_insert_walk_keeps : keeps.

Lemma stable_tree_search_keeps fuel p : keeps_memory (stable_tree_search fuel p).
Proof.
  unfold stable_tree_search, stable_tree_search_end. keeps.
  apply retry_keeps. keeps.
Qed.
Lemma stable_tree_insert_keeps fuel r kpage :
  keeps_memory (stable_tree_insert fuel r kpage).
Proof.
  unfold stable_tree_insert, stable_tree_insert_end. keeps.
  apply retry_keeps. keeps.
Qed.
Lemma unstable_tree_search_insert_keeps fuel r p :
  keeps_memory (unstable_tree_search_insert fuel r p).
Proof.
  unfold unstable_tree_search_insert, unstable_tree_search_insert_end. keeps.
  apply retry_keeps. keeps.
Qed.
Lemma stable_tree_append_keeps h p : keeps_memory (stable_tree_append h p).
Proof. unfold stable_tree_append. keeps. Qed.
#[local] Hint Resolve stable_tree_search_keeps stable_tree_insert_keeps
  unstable_tree_search_insert_keeps stable_tree_append_keeps : keeps.

(** *** The commands that rewrite page-table entries *)

Lemma merge_frame_content s s' : merge_frame s s' -> same_content s s'.
Proof. intros (_ & _ & _ & _ & _ & W). exact W. Qed.

Lemma frame_maps_same_memory s s' :
  merge_frame s s' ->
  (forall v addr, maps_to s' v addr = maps_to s v addr) ->
  same_memory s s'.
Proof.
  intros F Hm. split; [apply merge_frame_content, F|].
  split; [apply F|]. intros v addr. unfold reads. rewrite Hm.
  destruct (maps_to s v addr); [|reflexivity]. apply merge_frame_content, F.
Qed.

(** Entries redirected from [p] to a frame of the same content. *)
Lemma redirect_same_memory p k s s' :
  merge_frame s s' -> redirects p k s s' ->
  (words <$> pages s !! p) = (words <$> pages s !! k) ->
  same_memory s s'.
Proof.
  intros F R Hw. split; [apply merge_frame_content, F|].
  split; [apply F|]. intros v addr. unfold reads.
  destruct (R v addr) as [E|[E1 E2]].
  - rewrite E. destruct (maps_to s v addr); [|reflexivity].
    apply merge_frame_content, F.
  - rewrite E1, E2, Hw. apply merge_frame_content, F.
Qed.

Lemma all_zero_same (a b : list Z) :
  Hash.is_full_zero a = true -> Hash.is_full_zero b = true ->
  length a = length b -> a = b.
Proof.
  revert b. induction a as [|x a IH]; intros [|y b] Ha Hb Hl; try discriminate.
  - reflexivity.
  - cbn [Hash.is_full_zero] in Ha, Hb.
    destruct (x =? 0) eqn:Hx; [|discriminate].
    destruct (y =? 0) eqn:Hy; [|discriminate].
    apply Z.eqb_eq in Hx, Hy. subst. f_equal. apply IH; auto.
Qed.

Lemma write_protect_page_keeps v p : keeps_memory (write_protect_page v p).
Proof.
  intros s [code orig] s' _ H.
  apply write_protect_page_inv in H as (F & M & _).
  apply frame_maps_same_memory; assumption.
Qed.
#[local] Hint Resolve write_protect_page_keeps : keeps.

Lemma pages_identical_inv p1 p2 s b s' :
  pages_identical p1 p2 s = Ret b s' ->
  s' = s /\ (b = true -> (words <$> pages s !! p1) = (words <$> pages s !! p2)).
Proof.
  unfold pages_identical. intros H.
  apply bind_inv in H as (pg1 & s0 & Hx & H). apply get_page_inv in Hx as [-> H1].
  apply bind_inv in H as (pg2 & s0 & Hx & H). apply get_page_inv in Hx as [-> H2].
  apply ret_inv in H as [<- <-]. split; [reflexivity|].
  intros Hb. apply bool_decide_eq_true_1 in Hb. rewrite H1, H2. cbn. congruence.
Qed.

(** [pksm_writepect_pte] points an entry at [kpage] only after
    [pages_identical] has found the two frames equal. *)
Lemma pksm_writepect_pte_keeps kpage p v addr :
  keeps_memory (pksm_writepect_pte kpage p v addr).
Proof.
  intros s code s' Hok H. unfold pksm_writepect_pte in H.
  apply bind_inv in H as ([c orig] & s1 & Hwp & H).
  pose proof (write_protect_page_keeps _ _ _ _ _ Hok Hwp) as M1.
  apply write_protect_page_inv in Hwp as (_ & _ & Horig).
  cbn [fst snd] in H.
  apply bind_inv in H as (err & s2 & Hbranch & H).
  assert (M2 : same_memory s1 s2).
  { destruct (c =? 0) eqn:Hc.
    2:{ apply ret_inv in Hbranch as [_ <-]. apply same_memory_refl. }
    apply Z.eqb_eq in Hc. destruct (Horig Hc) as (e & -> & Hpfn).
    destruct kpage as [k|].
    - apply bind_inv in Hbranch as (same & s3 & Hid & Hbranch).
      apply pages_identical_inv in Hid as [-> Hsame].
      destruct same.
      + apply replace_page_inv in Hbranch as (F & R); [|exact Hpfn].
        exact (redirect_same_memory _ _ _ _ F R (Hsame eq_refl)).
      + apply ret_inv in Hbranch as [_ <-]. apply same_memory_refl.
    - revert Hbranch. apply (keeps_bind (set_page_stable_ksm p None) (fun _ => ret 0)).
      + apply set_page_stable_ksm_keeps.
      + intros _. apply keeps_ret.
      + eapply zero_frame_ok_same; eauto. }
  eapply same_memory_trans; [exact M1|].
  eapply same_memory_trans; [exact M2|].
  assert (Hok2 : zero_frame_ok s2).
  { eapply zero_frame_ok_same; [exact M2|]. eapply zero_frame_ok_same; eauto. }
  revert H. generalize s2 code s' Hok2.
  change (keeps_memory
            (let* a := get_vma v in
             match kpage with
             | Some k =>
                 if has (vm_flags a) VM_LOCKED && (err =? 0) then
                   upd_page p (with_PG_mlocked false);;
                   let* kpg := get_page k in
                   (if negb (PG_mlocked kpg) then
                      unlock_page p;; lock_page k;; upd_page k (with_PG_mlocked true)
                    else ret tt);;
                   ret err
                 else ret err
             | None => ret err
             end)).
  keeps.
Qed.
#[local] Hint Resolve pksm_writepect_pte_keeps : keeps.

Lemma pksm_rmap_walk_loop_keeps rmap_one p chain :
  (forall q v a, keeps_memory (rmap_one q v a)) ->
  forall ret_, keeps_memory (pksm_rmap_walk_loop rmap_one p chain ret_).
Proof.
  intros Hone. induction chain as [|v rest IH]; intros ret_;
    cbn [pksm_rmap_walk_loop]; keeps.
Qed.

Lemma pksm_rmap_walk_keeps p rmap_one :
  (forall q v a, keeps_memory (rmap_one q v a)) ->
  keeps_memory (pksm_rmap_walk p rmap_one).
Proof.
  intros Hone. unfold pksm_rmap_walk. keeps.
  apply pksm_rmap_walk_loop_keeps, Hone.
Qed.

Lemma try_to_merge_one_anon_page_keeps p kpage :
  keeps_memory (try_to_merge_one_anon_page p kpage).
Proof.
  unfold try_to_merge_one_anon_page. keeps.
  apply pksm_rmap_walk_keeps. intros ? ? ?. apply pksm_writepect_pte_keeps.
Qed.
#[local] Hint Resolve try_to_merge_one_anon_page_keeps : keeps.

Lemma try_to_merge_with_pksm_page_keeps r p kpage :
  keeps_memory (try_to_merge_with_pksm_page r p kpage).
Proof. unfold try_to_merge_with_pksm_page. keeps. Qed.
#[local] Hint Resolve try_to_merge_with_pksm_page_keeps : keeps.

Lemma try_to_merge_two_pages_keeps r p tr tp :
  keeps_memory (try_to_merge_two_pages r p tr tp).
Proof. unfold try_to_merge_two_pages. keeps. Qed.
#[local] Hint Resolve try_to_merge_two_pages_keeps : keeps.

(** The zero path redirects only an all-zero page, and to the zero frame. *)
Lemma cmp_and_merge_zero_page_keeps p : keeps_memory (cmp_and_merge_zero_page p).
Proof.
  intros s z s' (zf & Hzf & Hzero & Hlen) H.
  apply cmp_and_merge_zero_page_inv in H as (pg & r & ri & Hp & _ & _ & F & Hchg).
  split; [apply merge_frame_content, F|]. split; [apply F|].
  intros v addr. unfold reads.
  destruct (decide (maps_to s' v addr = maps_to s v addr)) as [E|Hne].
  - rewrite E. destruct (maps_to s v addr); [|reflexivity].
    apply merge_frame_content, F.
  - destruct (Hchg v addr Hne) as (E1 & E2 & _ & Hz).
    rewrite E1, E2. rewrite (merge_frame_content _ _ F), Hzf, Hp. cbn. f_equal.
    symmetry. apply all_zero_same; [exact Hz|exact Hzero|]. eapply Hlen, Hp.
Qed.
#[local] Hint Resolve cmp_and_merge_zero_page_keeps : keeps.

(** *** Candidate processing, revalidation, reaping and the tick *)

Lemma calc_checksum_keeps p : keeps_memory (Model.calc_checksum p).
Proof. unfold Model.calc_checksum. keeps. Qed.
#[local] Hint Resolve calc_checksum_keeps : keeps.

Lemma cmp_and_merge_page_keeps fuel p r init :
  keeps_memory (cmp_and_merge_page fuel p r init).
Proof. unfold cmp_and_merge_page. keeps. Qed.
#[local] Hint Resolve cmp_and_merge_page_keeps : keeps.

Lemma pksm_calc_update_pages_num_keeps : keeps_memory pksm_calc_update_pages_num.
Proof. unfold pksm_calc_update_pages_num. keeps. Qed.
#[local] Hint Resolve pksm_calc_update_pages_num_keeps : keeps.

Lemma pksm_update_one_keeps r : keeps_memory (pksm_update_one r).
Proof. unfold pksm_update_one. keeps. Qed.
#[local] Hint Resolve pksm_update_one_keeps : keeps.

Lemma pksm_update_loop_keeps items :
  forall scan need_scan, keeps_memory (pksm_update_loop items scan need_scan).
Proof.
  induction items as [|r rest IH]; intros scan need_scan;
    cbn [pksm_update_loop]; keeps.
Qed.
#[local] Hint Resolve pksm_update_loop_keeps : keeps.

Lemma pksm_update_unstable_page_checksum_keeps :
  keeps_memory pksm_update_unstable_page_checksum.
Proof.
  unfold pksm_update_unstable_page_checksum, pksm_update_unstable_page_checksum_log.
  keeps.
Qed.
#[local] Hint Resolve pksm_update_unstable_page_checksum_keeps : keeps.

Lemma pksm_drop_rmap_item_keeps r : keeps_memory (pksm_drop_rmap_item r).
Proof. unfold pksm_drop_rmap_item. keeps. Qed.
#[local] Hint Resolve pksm_drop_rmap_item_keeps : keeps.

Lemma pksm_clean_all_rmap_items_keeps l : keeps_memory (pksm_clean_all_rmap_items l).
Proof. induction l as [|r rest IH]; cbn [pksm_clean_all_rmap_items]; keeps. Qed.
#[local] Hint Resolve pksm_clean_all_rmap_items_keeps : keeps.

Lemma pksm_free_all_rmap_items_keeps : keeps_memory pksm_free_all_rmap_items.
Proof. unfold pksm_free_all_rmap_items. keeps. Qed.
#[local] Hint Resolve pksm_free_all_rmap_items_keeps : keeps.

Lemma ksm_do_scan_new_keeps items :
  forall scan n l, keeps_memory (ksm_do_scan_new items scan n l).
Proof.
  induction items as [|r rest IH]; intros scan n l; cbn [ksm_do_scan_new]; keeps.
Qed.
Lemma ksm_do_scan_rescan_keeps items :
  forall scan n l, keeps_memory (ksm_do_scan_rescan items scan n l).
Proof.
  induction items as [|r rest IH]; intros scan n l; cbn [ksm_do_scan_rescan]; keeps.
Qed.
#[local] Hint Resolve ksm_do_scan_new_keeps ksm_do_scan_rescan_keeps : keeps.

Lemma ksm_do_scan_intake_keeps n : keeps_memory (ksm_do_scan_intake n).
Proof. unfold ksm_do_scan_intake. keeps. Qed.
Lemma requeue_rescan_keeps r : keeps_memory (requeue_rescan r).
Proof. unfold requeue_rescan. keeps. Qed.
#[local] Hint Resolve ksm_do_scan_intake_keeps requeue_rescan_keeps : keeps.

Lemma ksm_do_scan_one_keeps fuel r : keeps_memory (ksm_do_scan_one fuel r).
Proof. unfold ksm_do_scan_one. keeps. Qed.
#[local] Hint Resolve ksm_do_scan_one_keeps : keeps.

Lemma ksm_do_scan_work_keeps fuel l : keeps_memory (ksm_do_scan_work fuel l).
Proof. induction l as [|r rest IH]; cbn [ksm_do_scan_work]; keeps. Qed.
#[local] Hint Resolve ksm_do_scan_work_keeps : keeps.

Lemma ksm_do_scan_keeps fuel n : keeps_memory (ksm_do_scan fuel n).
Proof. unfold ksm_do_scan. keeps. Qed.

Lemma pksm_add_new_anon_page_keeps p r av :
  keeps_memory (pksm_add_new_anon_page p r av).
Proof. unfold pksm_add_new_anon_page. keeps. Qed.

Lemma pksm_del_anon_page_keeps p : keeps_memory (pksm_del_anon_page p).
Proof. unfold pksm_del_anon_page. keeps. Qed.

(** With a zero frame that holds zeros and frames of one size, no entry
    point of the engine changes the content of a frame or what a read
    through any page-table entry sees: not a scanner tick, with all the
    merging it does, and not the intake of a new page, of a page
    destruction or of an unmapping of a shared page. *)
Theorem engine_keeps_memory (s : state) :
  zero_frame_ok s ->
  (forall fuel scan_npages s',
     ksm_do_scan fuel scan_npages s = Ret tt s' -> same_memory s s') /\
  (forall page_ rmap_item anon_vma code s',
     pksm_add_new_anon_page page_ rmap_item anon_vma s = Ret code s' ->
     same_memory s s') /\
  (forall p code s', pksm_del_anon_page p s = Ret code s' -> same_memory s s') /\
  (forall p s', pksm_unmap_sharing_page p s = Ret tt s' -> same_memory s s').
Proof.
  intros Hok. split; [|split; [|split]].
  - intros fuel n s' H. exact (ksm_do_scan_keeps fuel n s tt s' Hok H).
  - intros p r av code s' H. exact (pksm_add_new_anon_page_keeps p r av s code s' Hok H).
  - intros p code s' H. exact (pksm_del_anon_page_keeps p s code s' Hok H).
  - intros p s' H. exact (pksm_unmap_sharing_page_keeps p s tt s' Hok H).
Qed.

Lemma engine_keeps_memory_witness :
  zero_frame_ok Scenario.announced_zero /\
  ksm_do_scan 8 1000 Scenario.announced_zero
  = Ret tt (Scenario.exec (ksm_do_scan 8 1000) Scenario.announced_zero) /\
  maps_to Scenario.announced_zero 33 16384 = Some 13%nat /\
  maps_to (Scenario.exec (ksm_do_scan 8 1000) Scenario.announced_zero) 33 16384
  = Some 0%nat /\
  same_memory Scenario.announced_zero
    (Scenario.exec (ksm_do_scan 8 1000) Scenario.announced_zero).
Proof.
  assert (Hok : zero_frame_ok Scenario.announced_zero).
  { exists Scenario.zero_frame. split; [vm_compute; reflexivity|].
    split; [vm_compute; reflexivity|].
    assert (Hall : map_Forall (fun _ pg => length (words pg) = 1024%nat)
                     (pages Scenario.announced_zero))
      by (apply (bool_decide_unpack _); vm_compute; exact I).
    intros q pg Hpg. exact (Hall q pg Hpg). }
  assert (Hrun : ksm_do_scan 8 1000 Scenario.announced_zero
                 = Ret tt (Scenario.exec (ksm_do_scan 8 1000) Scenario.announced_zero))
    by (vm_compute; reflexivity).
  split; [exact Hok|]. split; [exact Hrun|].
  split; [vm_compute; reflexivity|]. split; [vm_compute; reflexivity|].
  exact (proj1 (engine_keeps_memory _ Hok) _ _ _ Hrun).
Defined.

End Memory.

(** ** Dropping and reaping rmap items *)

Module Reap.
Import Mach Model Spec Spec2 Infra Destroy Trees Frame.

Lemma free_anchors_items r anchors :
  keeps_rel (same_on ksm_rmap_items) (free_anchors r anchors).
Proof. induction anchors as [|a rest IH]; cbn [free_anchors]; field. Qed.

Lemma remove_rmap_item_from_tree_items r free_anon :
  keeps_rel (same_on ksm_rmap_items) (remove_rmap_item_from_tree r free_anon).
Proof. pose proof free_anchors_items. field. Qed.

Lemma pksm_free_rmap_item_inv r s u s' :
  pksm_free_rmap_item (Some r) s = Ret u s' ->
  s' = with_rmaps (delete r (rmaps s))
         (with_ksm_rmap_items (u64 (ksm_rmap_items s - 1)) s).
Proof.
  unfold pksm_free_rmap_item. intros H.
  apply bind_inv in H as ([] & s1 & Hm & H). apply modify_inv in Hm as ->.
  apply modify_inv in H as ->. reflexivity.
Qed.

(** One turn of the reaping loop. *)
Lemma clean_one r s s' :
  (remove_rmap_item_from_tree (Some r) true;;
   upd_rmap r (fun ri => with_address (clear_bits (address ri) INKSM_FLAG) ri);;
   upd_rmap r (fun ri => with_address (clear_bits (address ri) DELLIST_FLAG) ri);;
   pksm_free_rmap_item (Some r)) s = Ret tt s' ->
  exists ri,
    rmaps s !! r = Some ri /\
    rmaps s' = delete r (rmaps s) /\
    pages s' = pages s /\
    ksm_rmap_items s' = u64 (ksm_rmap_items s - 1) /\
    root_stable_tree s' =
      (if leaves_stable ri then rb_erase r (root_stable_tree s)
       else root_stable_tree s) /\
    root_unstable_tree s' =
      (if leaves_unstable ri then rb_erase r (root_unstable_tree s)
       else root_unstable_tree s).
Proof.
  intros H.
  apply bind_inv in H as ([] & s1 & Hrem & H).
  assert (Hri : exists ri, rmaps s !! r = Some ri).
  { unfold remove_rmap_item_from_tree in Hrem.
    apply bind_inv in Hrem as (ri & s0 & Hx & _).
    apply get_rmap_inv in Hx as [_ Hx]. eauto. }
  destruct Hri as (ri & Hr). exists ri. split; [exact Hr|].
  pose proof (remove_rmap_item_from_tree_items _ _ _ _ _ Hrem) as Hitems.
  unfold same_on in Hitems.
  apply (remove_rmap_item_from_tree_inv _ _ _ _ _ _ Hr) in Hrem
    as (Hp & Hst & Hun & _ & _ & _ & _ & Hoth & ri' & Hr' & _).
  apply bind_inv in H as ([] & s2 & H1 & H).
  apply upd_rmap_inv in H1 as (ri1 & _ & ->).
  apply bind_inv in H as ([] & s3 & H2 & H).
  apply upd_rmap_inv in H2 as (ri2 & _ & ->).
  apply pksm_free_rmap_item_inv in H as ->. proj.
  split.
  { apply map_eq. intros x. destruct (decide (x = r)) as [->|Hne].
    - rewrite !lookup_delete_eq. reflexivity.
    - rewrite !lookup_delete_ne, !lookup_insert_ne by auto. apply Hoth, Hne. }
  split; [exact Hp|].
  split; [rewrite Hitems; reflexivity|]. split; [exact Hst|exact Hun].
Qed.

Lemma elem_of_rev_iff (x : nat) l : x ∈ rev l <-> x ∈ l.
Proof. rewrite !list_elem_of_In. symmetry. apply in_rev. Qed.

Lemma rb_erase_in x y t : y ∈ rb_nodes (rb_erase x t) -> y ∈ rb_nodes t.
Proof. apply rb_erase_subset. Qed.

(** The reaping loop over a list. *)
Lemma pksm_clean_all_rmap_items_inv l : forall s s',
  pksm_clean_all_rmap_items l s = Ret tt s' ->
  NoDup l /\
  (forall r, r ∈ l -> is_Some (rmaps s !! r) /\ rmaps s' !! r = None) /\
  (forall x, x ∉ l -> rmaps s' !! x = rmaps s !! x) /\
  pages s' = pages s /\
  ksm_rmap_items s' = Nat.iter (length l) (fun n => u64 (n - 1)) (ksm_rmap_items s) /\
  (forall n, n ∈ rb_nodes (root_stable_tree s') -> n ∈ rb_nodes (root_stable_tree s)) /\
  (forall n, n ∈ rb_nodes (root_unstable_tree s') ->
             n ∈ rb_nodes (root_unstable_tree s)).
Proof.
  induction l as [|r rest IH]; intros s s' H; cbn [pksm_clean_all_rmap_items] in H.
  - apply ret_inv in H as [_ <-]. split; [constructor|].
    split; [intros r Hr; inversion Hr|]. auto 10.
  - assert (Hsplit : exists s1,
              (remove_rmap_item_from_tree (Some r) true;;
               upd_rmap r (fun ri => with_address (clear_bits (address ri) INKSM_FLAG) ri);;
               upd_rmap r (fun ri => with_address (clear_bits (address ri) DELLIST_FLAG) ri);;
               pksm_free_rmap_item (Some r)) s = Ret tt s1 /\
              pksm_clean_all_rmap_items rest s1 = Ret tt s').
    { apply bind_inv in H as ([] & s1 & H1 & H).
      apply bind_inv in H as ([] & s2 & H2 & H).
      apply bind_inv in H as ([] & s3 & H3 & H).
      apply bind_inv in H as ([] & s4 & H4 & H).
      exists s4. split; [|exact H].
      rewrite (bind_Ret _ _ _ _ _ H1), (bind_Ret _ _ _ _ _ H2),
              (bind_Ret _ _ _ _ _ H3). exact H4. }
    destruct Hsplit as (s1 & Hone & Hrest).
    apply clean_one in Hone as (ri & Hr & Hrm & Hp & Hit & Hst & Hun).
    apply IH in Hrest as (Hnd & Hin & Hout & Hp' & Hit' & Hst' & Hun').
    assert (Hnotin : r ∉ rest).
    { intros Hr'. destruct (Hin r Hr') as [[x Hx] _].
      rewrite Hrm, lookup_delete_eq in Hx. discriminate. }
    split; [constructor; assumption|].
    split.
    { intros x Hx. apply elem_of_cons in Hx as [->|Hx].
      - split; [eauto|]. rewrite (Hout r Hnotin), Hrm. apply lookup_delete_eq.
      - destruct (Hin x Hx) as [Hsome Hnone]. split; [|exact Hnone].
        rewrite Hrm in Hsome. destruct Hsome as [y Hy].
        apply lookup_delete_Some in Hy as [_ Hy]. eauto. }
    split.
    { intros x Hx. apply not_elem_of_cons in Hx as [Hne Hx].
      rewrite (Hout x Hx), Hrm. apply lookup_delete_ne. auto. }
    split; [congruence|].
    split.
    { rewrite Hit', Hit. cbn [length]. rewrite Nat.iter_succ_r. reflexivity. }
    split.
    + intros n Hn. apply Hst' in Hn. rewrite Hst in Hn.
      destruct (leaves_stable ri); [eapply rb_erase_in|]; eauto.
    + intros n Hn. apply Hun' in Hn. rewrite Hun in Hn.
      destruct (leaves_unstable ri); [eapply rb_erase_in|]; eauto.
Qed.

(** [pksm_free_all_rmap_items]: when it returns, the delete list is empty,
    every item that was on it has been freed, every other item is as it
    was, the item count has gone down by the length of the list, no page
    was touched and neither tree has gained a node. *)
Theorem pksm_free_all_rmap_items_reaps s s' :
  0 <= ksm_rmap_items s < 2 ^ 64 ->
  pksm_free_all_rmap_items s = Ret tt s' ->
  del_anon_page_list s' = [] /\
  (forall r, r ∈ del_anon_page_list s ->
     is_Some (rmaps s !! r) /\ rmaps s' !! r = None) /\
  (forall x, x ∉ del_anon_page_list s -> rmaps s' !! x = rmaps s !! x) /\
  pages s' = pages s /\
  ksm_rmap_items s'
    = u64 (ksm_rmap_items s - Z.of_nat (length (del_anon_page_list s))) /\
  (forall n, n ∈ rb_nodes (root_stable_tree s') -> n ∈ rb_nodes (root_stable_tree s)) /\
  (forall n, n ∈ rb_nodes (root_unstable_tree s') ->
             n ∈ rb_nodes (root_unstable_tree s)).
Proof.
  unfold pksm_free_all_rmap_items. intros Hrange H.
  apply bind_inv in H as (st & s0 & Hx & H). apply get_inv in Hx as [-> ->].
  apply bind_inv in H as ([] & s1 & Hm & H). apply modify_inv in Hm as ->.
  assert (Hdel : del_anon_page_list s' = []).
  { assert (K : keeps_rel (same_on del_anon_page_list)
                  (pksm_clean_all_rmap_items (rev (del_anon_page_list s)))).
    { generalize (rev (del_anon_page_list s)). intros l.
      assert (Hfa : forall r anchors,
                keeps_rel (same_on del_anon_page_list) (free_anchors r anchors)).
      { intros r anchors. induction anchors as [|a rest IH]; cbn [free_anchors]; field. }
      induction l as [|r rest IH]; cbn [pksm_clean_all_rmap_items]; field. }
    apply K in H. unfold same_on in H. rewrite H. reflexivity. }
  apply pksm_clean_all_rmap_items_inv in H
    as (Hnd & Hin & Hout & Hp & Hit & Hst & Hun).
  proj in Hin. proj in Hout. proj in Hp. proj in Hit. proj in Hst. proj in Hun.
  split; [exact Hdel|].
  split; [intros r Hr; apply Hin, elem_of_rev_iff, Hr|].
  split; [intros x Hx; apply Hout; rewrite elem_of_rev_iff; exact Hx|].
  split; [exact Hp|].
  split; [rewrite Hit, length_rev; apply u64_dec_iter, Hrange|].
  split; assumption.
Qed.

Lemma pksm_free_all_rmap_items_reaps_witness :
  let s := Scenario.destroyed_stable in
  exists s',
    pksm_free_all_rmap_items s = Ret tt s' /\
    del_anon_page_list s = [1%nat] /\ ksm_rmap_items s = 5 /\
    del_anon_page_list s' = [] /\ rmaps s' !! 1%nat = None /\
    ksm_rmap_items s' = 4.
Proof.
  intros s.
  set (s' := Scenario.exec pksm_free_all_rmap_items s).
  assert (Hrun : pksm_free_all_rmap_items s = Ret tt s') by (vm_compute; reflexivity).
  assert (Hrange : 0 <= ksm_rmap_items s < 2 ^ 64) by (vm_compute; split; congruence).
  destruct (pksm_free_all_rmap_items_reaps s s' Hrange Hrun)
    as (Hdel & Hin & _ & _ & Hit & _).
  exists s'. split; [exact Hrun|].
  split; [vm_compute; reflexivity|]. split; [vm_compute; reflexivity|].
  split; [exact Hdel|].
  split; [apply Hin; apply (bool_decide_unpack _); vm_compute; exact I|].
  rewrite Hit. vm_compute. reflexivity.
Defined.

(** [pksm_drop_rmap_item] clears the flag word before it calls
    [remove_rmap_item_from_tree], which therefore unlinks nothing: the item
    is freed, its page is untracked, and both trees and the checksum list
    are exactly as they were, so that an item that was linked in a tree is
    still a node of it after it has been freed. *)
Theorem pksm_drop_rmap_item_leaves_trees r s s' :
  pksm_drop_rmap_item r s = Ret tt s' ->
  root_stable_tree s' = root_stable_tree s /\
  root_unstable_tree s' = root_unstable_tree s /\
  unstabletree_checksum_list s' = unstabletree_checksum_list s /\
  rmaps s' = delete r (rmaps s) /\
  exists ri,
    rmaps s !! r = Some ri /\
    forall p, ri_page ri = Some p ->
      exists pg', pages s' !! p = Some pg' /\ pksm pg' = None /\ PagePKSM pg' = false.
Proof.
  unfold pksm_drop_rmap_item. intros H.
  apply bind_inv in H as (ri & s0 & Hx & H). apply get_rmap_inv in Hx as [-> Hr].
  apply bind_inv in H as ([] & s1 & Hflag & H).
  (* __ClearPagePKSM *)
  assert (H1 : rmaps s1 = rmaps s /\ root_stable_tree s1 = root_stable_tree s /\
               root_unstable_tree s1 = root_unstable_tree s /\
               unstabletree_checksum_list s1 = unstabletree_checksum_list s /\
               forall p, ri_page ri = Some p ->
                 exists pg, pages s1 !! p = Some pg /\ PagePKSM pg = false).
  { destruct (ri_page ri) as [p|].
    - apply bind_inv in Hflag as (pg & s2 & Hx & Hflag).
      apply get_page_inv in Hx as [-> Hp].
      destruct (PagePKSM pg) eqn:Hk.
      + apply upd_page_inv in Hflag as (pg0 & _ & ->). proj.
        repeat (split; [reflexivity|]). intros q [= <-].
        eexists. split; [apply lookup_insert_eq|reflexivity].
      + apply ret_inv in Hflag as [_ <-].
        repeat (split; [reflexivity|]). intros q [= <-]. eauto.
    - apply ret_inv in Hflag as [_ <-].
      repeat (split; [reflexivity|]). intros q Hq. discriminate. }
  destruct H1 as (R1 & S1 & U1 & C1 & P1).
  apply bind_inv in H as ([] & s2 & Hzero & H).
  apply upd_rmap_inv in Hzero as (ri1 & Hr1 & ->).
  rewrite R1, Hr in Hr1. injection Hr1 as <-.
  apply bind_inv in H as ([] & s3 & Hrem & H).
  apply (remove_rmap_item_from_tree_inv r true _ (with_address 0 ri)) in Hrem
    as (P3 & S3 & U3 & C3 & _ & _ & _ & O3 & ri3 & Hr3 & _);
    [|proj; apply lookup_insert_eq].
  change (leaves_stable (with_address 0 ri)) with false in S3.
  change (leaves_unstable (with_address 0 ri)) with false in U3.
  change (leaves_checksum_list (with_address 0 ri)) with false in C3.
  proj in P3. proj in S3. proj in U3. proj in C3.
  apply bind_inv in H as ([] & s4 & Hunlink & H).
  assert (H4 : rmaps s4 = rmaps s3 /\ root_stable_tree s4 = root_stable_tree s3 /\
               root_unstable_tree s4 = root_unstable_tree s3 /\
               unstabletree_checksum_list s4 = unstabletree_checksum_list s3 /\
               forall p, ri_page ri = Some p ->
                 exists pg, pages s4 !! p = Some pg /\ pksm pg = None /\
                            PagePKSM pg = false).
  { destruct (ri_page ri) as [p|].
    - apply upd_page_inv in Hunlink as (pg & Hp & ->). proj.
      repeat (split; [reflexivity|]). intros q [= <-].
      eexists. split; [apply lookup_insert_eq|]. proj. split; [reflexivity|].
      destruct (P1 p eq_refl) as (pg1 & Hpg1 & Hk1).
      rewrite P3 in Hp. rewrite Hp in Hpg1. injection Hpg1 as <-. exact Hk1.
    - apply ret_inv in Hunlink as [_ <-].
      repeat (split; [reflexivity|]). intros q Hq. discriminate. }
  destruct H4 as (R4 & S4 & U4 & C4 & P4).
  apply bind_inv in H as ([] & s5 & Hnull & H).
  apply upd_rmap_inv in Hnull as (ri5 & _ & ->).
  apply pksm_free_rmap_item_inv in H as ->. proj.
  split; [congruence|]. split; [congruence|]. split; [congruence|].
  split.
  { apply map_eq. intros x. destruct (decide (x = r)) as [->|Hne].
    - rewrite !lookup_delete_eq. reflexivity.
    - rewrite !lookup_delete_ne, lookup_insert_ne by auto.
      rewrite R4, (O3 x Hne). proj. rewrite lookup_insert_ne by auto.
      rewrite R1. reflexivity. }
  exists ri. split; [exact Hr|exact P4].
Qed.

Lemma pksm_drop_rmap_item_leaves_trees_witness :
  let s := Scenario.three_unstable in
  exists s',
    pksm_drop_rmap_item 1 s = Ret tt s' /\
    rb_nodes (root_unstable_tree s) = [3; 1; 5]%nat /\
    rb_nodes (root_unstable_tree s') = [3; 1; 5]%nat /\
    rmaps s' !! 1%nat = None.
Proof.
  intros s.
  set (s' := Scenario.exec (pksm_drop_rmap_item 1) s).
  assert (Hrun : pksm_drop_rmap_item 1 s = Ret tt s') by (vm_compute; reflexivity).
  destruct (pksm_drop_rmap_item_leaves_trees 1 s s' Hrun) as (_ & Hu & _ & Hr & _).
  exists s'. split; [exact Hrun|].
  split; [vm_compute; reflexivity|].
  split; [rewrite Hu; vm_compute; reflexivity|].
  rewrite Hr. apply lookup_delete_eq.
Defined.

End Reap.

(** ** Announcing a page and destroying it again *)

Module RoundTrip.
Import Mach Model Setup Spec Spec2 Infra.

Lemma filter_absent (r : nat) (l : list nat) :
  r ∉ l -> filter (fun x => x <> r) l = l.
Proof.
  induction l as [|y l IH]; intros Hr; [reflexivity|].
  apply not_elem_of_cons in Hr as [Hy Hr].
  rewrite filter_cons. destruct (decide (y <> r)) as [|Hn].
  - rewrite (IH Hr). reflexivity.
  - exfalso. apply Hn. congruence.
Qed.

Lemma filter_snoc_absent (r : nat) (l : list nat) :
  r ∉ l -> filter (fun x => x <> r) (l ++ [r]) = l.
Proof.
  intros Hr. rewrite filter_app, (filter_absent r l Hr).
  rewrite filter_cons, decide_False by tauto. rewrite filter_nil. apply app_nil_r.
Qed.

(** Two states with the same fields are the same state. *)
Lemma state_ext (a b : state) :
  pages a = pages b ->
  rmaps a = rmaps b ->
  anon_vmas a = anon_vmas b ->
  vmas a = vmas b ->
  root_stable_tree a = root_stable_tree b ->
  root_unstable_tree a = root_unstable_tree b ->
  new_anon_page_list a = new_anon_page_list b ->
  del_anon_page_list a = del_anon_page_list b ->
  pksm_rescan_page_list a = pksm_rescan_page_list b ->
  unstabletree_checksum_list a = unstabletree_checksum_list b ->
  ksm_pages_shared a = ksm_pages_shared b ->
  ksm_pages_sharing a = ksm_pages_sharing b ->
  ksm_pages_unshared a = ksm_pages_unshared b ->
  ksm_rmap_items a = ksm_rmap_items b ->
  ksm_stable_nodes a = ksm_stable_nodes b ->
  ksm_pages_zero_sharing a = ksm_pages_zero_sharing b ->
  ksm_thread_pages_to_scan a = ksm_thread_pages_to_scan b ->
  ksm_thread_sleep_millisecs a = ksm_thread_sleep_millisecs b ->
  pksm_unshared_page_update_period a = pksm_unshared_page_update_period b ->
  pksm_random_table a = pksm_random_table b ->
  pksm_zero_random_checksum a = pksm_zero_random_checksum b ->
  empty_pksm_zero_page a = empty_pksm_zero_page b ->
  zero_pfn a = zero_pfn b ->
  stable_anon_avail a = stable_anon_avail b ->
  a = b.
Proof. destruct a, b. cbn. intros. subst. reflexivity. Qed.

(** An item is allocated for an untracked anonymous page, the page is
    announced and then destroyed before any tick has seen it: both calls
    succeed, and the engine is back in the state it started from. *)
Theorem announce_destroy_round_trip s p pg r av :
  pages s !! p = Some pg ->
  PagePKSM pg = false -> pksm pg = None ->
  PageAnon pg = true -> PageKsm pg = false ->
  rmaps s !! r = None ->
  r ∉ new_anon_page_list s -> r ∉ pksm_rescan_page_list s ->
  0 <= ksm_rmap_items s < 2 ^ 64 - 1 ->
  (let* item := pksm_alloc_rmap_item (Some r) in
   let* added := pksm_add_new_anon_page (Some p) item (Some av) in
   let* deleted := pksm_del_anon_page p in
   ret (added, deleted)) s = Ret (0, 0) s.
Proof.
  intros Hp Hk Hnone Hanon Hksm Hr Hnew Hres Hitems.
  unfold pksm_alloc_rmap_item, pksm_add_new_anon_page, pksm_del_anon_page,
    pksm_free_rmap_item.
  unfold PagePKSM, PageAnon, PageKsm in *.
  unfold bind, upd_rmap, upd_page, get_rmap, get_page, modify, ret, bind,
    fresh_rmap_item.
  assert (Hflags : has (set_bits (set_bits 0 NEWLIST_FLAG) INITCHECKSUM_FLAG)
                       (Z.lor NEWLIST_FLAG RESCAN_LIST_FLAG) = true) by reflexivity.
  repeat (progress (cbn beta iota; cbn [negb]; proj;
                    change (0 >? 0) with false;
                    rewrite ?lookup_insert_eq, ?Hp, ?Hk, ?Hanon, ?Hksm, ?Hflags;
                    rewrite ?bool_decide_eq_true_2 by reflexivity)).
  f_equal. apply state_ext; proj; try reflexivity.
  - rewrite !insert_insert_eq.
    replace (with_pksm None _) with pg.
    2:{ destruct pg. cbn in *. subst. reflexivity. }
    apply insert_id, Hp.
  - rewrite !insert_insert_eq. rewrite delete_insert_eq. apply delete_id, Hr.
  - rewrite filter_snoc_absent by exact Hnew. reflexivity.
  - apply filter_absent, Hres.
  - unfold u64. rewrite (Z.mod_small (_ + 1)) by lia.
    rewrite Z.mod_small by lia. lia.
Qed.

Lemma announce_destroy_round_trip_witness :
  (let* item := pksm_alloc_rmap_item (Some 9%nat) in
   let* added := pksm_add_new_anon_page (Some 10%nat) item (Some 20%nat) in
   let* deleted := pksm_del_anon_page 10 in
   ret (added, deleted)) Scenario.boot = Ret (0, 0) Scenario.boot.
Proof.
  apply (announce_destroy_round_trip Scenario.boot 10
           (Scenario.anon_page 20 Scenario.words_x) 9 20).
  - vm_compute. reflexivity.
  - reflexivity.
  - reflexivity.
  - reflexivity.
  - reflexivity.
  - vm_compute. reflexivity.
  - apply (bool_decide_unpack _). vm_compute. exact I.
  - apply (bool_decide_unpack _). vm_compute. exact I.
  - vm_compute. split; [discriminate|reflexivity].
Defined.

End RoundTrip.

(** ** Phase 1 of a tick *)

Module Phase1.
Import Mach Model Spec Spec2 Infra RoundTrip.

(** The first loop, entered with the counter at [scan] and the new list
    equal to [items]. *)
Lemma ksm_do_scan_new_from (scan_npages : Z) (items : list nat) :
  forall scan l_add s,
    0 <= scan <= scan_npages + 1 ->
    new_anon_page_list s = items -> NoDup items ->
    (forall r, r ∈ items -> is_Some (rmaps s !! r)) ->
    let k := Z.to_nat (scan_npages + 2 - scan) in
    exists s',
      ksm_do_scan_new items scan scan_npages l_add s
        = Ret (rev (take k items) ++ l_add) s' /\
      new_anon_page_list s' = drop k items /\
      (forall r, r ∈ take k items ->
         exists ri, rmaps s !! r = Some ri /\
           rmaps s' !! r
           = Some (with_address
                     (set_bits (clear_bits (address ri) NEWLIST_FLAG) INKSM_FLAG) ri)) /\
      (forall x, x ∉ take k items -> rmaps s' !! x = rmaps s !! x).
Proof.
  induction items as [|r rest IH]; intros scan l_add s Hscan Hlist Hnd Hin; cbv zeta.
  - exists s. rewrite take_nil, drop_nil. cbn. split; [reflexivity|].
    split; [exact Hlist|]. split; [|auto]. intros r Hr. inversion Hr.
  - destruct (Hin r) as [ri Hr]; [set_solver|].
    apply NoDup_cons in Hnd as [Hnotin Hnd].
    cbn [ksm_do_scan_new].
    repeat first [ progress unfold bind, modify, upd_rmap, get_rmap, ret
                 | progress proj | rewrite Hr | rewrite lookup_insert_eq ].
    rewrite Hlist. rewrite filter_cons, decide_False by tauto.
    rewrite (filter_absent r rest Hnotin). rewrite insert_insert_eq.
    replace (Z.to_nat (scan_npages + 2 - scan))
      with (S (Z.to_nat (scan_npages + 1 - scan))) by lia.
    cbn [take drop rev].
    match goal with
    | |- context [with_rmaps ?m ?st] => set (s1 := with_rmaps m st)
    end.
    assert (Hme : rmaps s1 !! r
                  = Some (with_address
                            (set_bits (clear_bits (address ri) NEWLIST_FLAG) INKSM_FLAG)
                            ri)).
    { unfold s1. proj. rewrite lookup_insert_eq. destruct ri. reflexivity. }
    assert (Hoth : forall x, x <> r -> rmaps s1 !! x = rmaps s !! x).
    { intros x Hx. unfold s1. proj. rewrite lookup_insert_ne by auto. reflexivity. }
    destruct (scan >? scan_npages) eqn:Hgt.
    + exists s1. replace (Z.to_nat (scan_npages + 1 - scan)) with O by lia.
      rewrite take_0, drop_0. cbn [rev app]. split; [reflexivity|].
      split; [reflexivity|]. split.
      * intros x Hx. apply list_elem_of_singleton in Hx as ->. eauto.
      * intros x Hx. apply Hoth. set_solver.
    + destruct (IH (scan + 1) (r :: l_add) s1) as (s' & Hrun & Hl & Ht & Ho).
      { lia. } { reflexivity. } { exact Hnd. }
      { intros x Hx. rewrite Hoth by (intros ->; contradiction). apply Hin. set_solver. }
      cbv zeta in Hrun, Hl, Ht, Ho.
      replace (scan_npages + 2 - (scan + 1)) with (scan_npages + 1 - scan)
        in Hrun, Hl, Ht, Ho by lia.
      exists s'. split; [rewrite Hrun, <- app_assoc; reflexivity|].
      split; [exact Hl|]. split.
      * intros x Hx. apply elem_of_cons in Hx as [->|Hx].
        -- exists ri. split; [exact Hr|]. rewrite Ho; [exact Hme|].
           intros Hx. apply Hnotin. eapply subseteq_take, Hx.
        -- destruct (Ht x Hx) as (rx & Hrx & Hrx').
           exists rx. split; [|exact Hrx'].
           rewrite <- Hoth; [exact Hrx|]. intros ->. apply Hnotin.
           eapply subseteq_take, Hx.
      * intros x Hx. apply not_elem_of_cons in Hx as [Hne Hx].
        rewrite (Ho x Hx). apply Hoth, Hne.
Qed.

(** The first loop of a tick, on a new list of allocated items: it moves
    the first [scan_npages + 2] entries (all of them if there are fewer) to
    the working list, where they arrive in reverse order; the rest stays on
    the new list in order; a moved item has [NEWLIST_FLAG] cleared and
    [INKSM_FLAG] set and is otherwise unchanged, and no other item is
    touched. *)
Theorem ksm_do_scan_new_drains (scan_npages : Z) (s : state) :
  0 <= scan_npages ->
  NoDup (new_anon_page_list s) ->
  (forall r, r ∈ new_anon_page_list s -> is_Some (rmaps s !! r)) ->
  let k := Z.to_nat (scan_npages + 2) in
  exists s',
    ksm_do_scan_new (new_anon_page_list s) 0 scan_npages [] s
      = Ret (rev (take k (new_anon_page_list s))) s' /\
    new_anon_page_list s' = drop k (new_anon_page_list s) /\
    (forall r, r ∈ take k (new_anon_page_list s) ->
       exists ri, rmaps s !! r = Some ri /\
         rmaps s' !! r
         = Some (with_address
                   (set_bits (clear_bits (address ri) NEWLIST_FLAG) INKSM_FLAG) ri)) /\
    (forall x, x ∉ take k (new_anon_page_list s) -> rmaps s' !! x = rmaps s !! x).
Proof.
  intros Hn Hnd Hin.
  destruct (ksm_do_scan_new_from scan_npages (new_anon_page_list s) 0 [] s)
    as (s' & Hrun & H); [lia|reflexivity|exact Hnd|exact Hin|].
  cbv zeta in Hrun, H. rewrite Z.sub_0_r, app_nil_r in Hrun.
  rewrite Z.sub_0_r in H. exists s'. split; [exact Hrun|exact H].
Qed.

Lemma ksm_do_scan_new_drains_witness :
  exists s',
    ksm_do_scan_new [1; 3; 5]%nat 0 0 [] Scenario.announced_three
      = Ret [3; 1]%nat s' /\
    new_anon_page_list s' = [5%nat].
Proof.
  destruct (ksm_do_scan_new_drains 0 Scenario.announced_three)
    as (s' & Hrun & Hl & _).
  - lia.
  - apply (bool_decide_unpack _). vm_compute. exact I.
  - intros r Hr. 
    assert (Hall : Forall (fun r => is_Some (rmaps Scenario.announced_three !! r))
                     (new_anon_page_list Scenario.announced_three))
      by (apply (bool_decide_unpack _); vm_compute; exact I).
    rewrite Forall_forall in Hall. apply Hall, Hr.
  - exists s'. split; [exact Hrun|exact Hl].
Defined.

Lemma filter_agree {A} (P Q : A -> Prop) `{!forall x, Decision (P x)}
    `{!forall x, Decision (Q x)} (l : list A) :
  (forall x, x ∈ l -> P x <-> Q x) -> filter P l = filter Q l.
Proof.
  induction l as [|a l IH]; intros Hpq; [reflexivity|].
  rewrite !filter_cons.
  assert (Ha : P a <-> Q a) by (apply Hpq; left).
  assert (Hl : filter P l = filter Q l)
    by (apply IH; intros x Hx; apply Hpq; right; exact Hx).
  destruct (decide (P a)), (decide (Q a)); try tauto; rewrite Hl; reflexivity.
Qed.

(** The second loop, entered with the counter at [scan] and the rescan
    list equal to [items]. *)
Lemma ksm_do_scan_rescan_from (scan_npages : Z) (items : list nat) :
  forall scan l_add s,
    0 <= scan <= scan_npages + 1 ->
    pksm_rescan_page_list s = items -> NoDup items ->
    (forall r, r ∈ items -> is_Some (rmaps s !! r)) ->
    exists taken rest s',
      items = taken ++ rest /\
      ksm_do_scan_rescan items scan scan_npages l_add s
        = Ret (l_add ++ filter (fun r => del_flagged s r = false) taken) s' /\
      pksm_rescan_page_list s' = rest /\
      Z.of_nat (length (filter (fun r => del_flagged s r = false) taken))
        <= scan_npages + 2 - scan /\
      (rest <> [] ->
       Z.of_nat (length (filter (fun r => del_flagged s r = false) taken))
         = scan_npages + 2 - scan) /\
      (forall r, r ∈ taken ->
         exists ri, rmaps s !! r = Some ri /\
           rmaps s' !! r
           = Some (with_address (clear_bits (address ri) RESCAN_LIST_FLAG) ri)) /\
      (forall x, x ∉ taken -> rmaps s' !! x = rmaps s !! x).
Proof.
  induction items as [|r rest IH]; intros scan l_add s Hscan Hlist Hnd Hin.
  - exists [], [], s. cbn. rewrite app_nil_r.
    repeat split; try reflexivity; try exact Hlist; try lia; try tauto.
    intros r Hr. inversion Hr.
  - destruct (Hin r) as [ri Hr]; [set_solver|].
    apply NoDup_cons in Hnd as [Hnotin Hnd].
    cbn [ksm_do_scan_rescan].
    repeat first [ progress unfold bind, modify, upd_rmap, get_rmap, ret
                 | progress proj | rewrite Hr | rewrite lookup_insert_eq ].
    rewrite Hlist. rewrite filter_cons, decide_False by tauto.
    rewrite (filter_absent r rest Hnotin).
    match goal with
    | |- context [with_rmaps ?m ?st] => set (s1 := with_rmaps m st)
    end.
    assert (Hme : rmaps s1 !! r
                  = Some (with_address (clear_bits (address ri) RESCAN_LIST_FLAG) ri)).
    { unfold s1. proj. rewrite lookup_insert_eq. reflexivity. }
    assert (Hoth : forall x, x <> r -> rmaps s1 !! x = rmaps s !! x).
    { intros x Hx. unfold s1. proj. rewrite lookup_insert_ne by auto. reflexivity. }
    assert (Hl1 : pksm_rescan_page_list s1 = rest) by reflexivity.
    assert (Hin1 : forall x, x ∈ rest -> is_Some (rmaps s1 !! x)).
    { intros x Hx. rewrite Hoth by (intros ->; contradiction). apply Hin. set_solver. }
    assert (Hdel : del_flagged s r = has (address ri) DELLIST_FLAG).
    { unfold del_flagged. rewrite Hr. reflexivity. }
    assert (Hagree : forall l, l ⊆ rest ->
              filter (fun x => del_flagged s1 x = false) l
              = filter (fun x => del_flagged s x = false) l).
    { intros l Hsub. apply filter_agree. intros x Hx.
      unfold del_flagged. rewrite Hoth; [tauto|].
      intros ->. apply Hnotin, Hsub, Hx. }
    assert (Hflag : has (clear_bits (address ri) RESCAN_LIST_FLAG) DELLIST_FLAG
                    = has (address ri) DELLIST_FLAG).
    { change RESCAN_LIST_FLAG with (2 ^ 7). change DELLIST_FLAG with (2 ^ 1).
      apply has_clear_other; lia. }
    rewrite Hflag.
    destruct (has (address ri) DELLIST_FLAG) eqn:Hd.
    + destruct (IH scan l_add s1 Hscan Hl1 Hnd Hin1)
        as (taken & rest' & s' & Hsplit & Hrun & Hl & Hle & Heq & Ht & Ho).
      assert (Hsub : taken ⊆ rest).
      { rewrite Hsplit. intros x Hx. apply elem_of_app. left. exact Hx. }
      rewrite (Hagree taken Hsub) in Hrun, Hle, Heq.
      exists (r :: taken), rest', s'.
      rewrite filter_cons, decide_False by (rewrite Hdel; discriminate).
      split; [cbn [app]; rewrite <- Hsplit; reflexivity|].
      split; [exact Hrun|]. split; [exact Hl|]. split; [exact Hle|].
      split; [exact Heq|]. split.
      * intros x Hx. apply elem_of_cons in Hx as [->|Hx].
        -- exists ri. split; [exact Hr|]. rewrite Ho; [exact Hme|].
           intros Hx. apply Hnotin, Hsub, Hx.
        -- destruct (Ht x Hx) as (rx & Hrx & Hrx').
           exists rx. split; [|exact Hrx'].
           rewrite <- Hoth; [exact Hrx|]. intros ->. apply Hnotin, Hsub, Hx.
      * intros x Hx. apply not_elem_of_cons in Hx as [Hne Hx].
        rewrite (Ho x Hx). apply Hoth, Hne.
    + destruct (scan >? scan_npages) eqn:Hgt.
      * exists [r], rest, s1.
        rewrite filter_cons, decide_True by (rewrite Hdel; reflexivity).
        rewrite filter_nil. cbn [length].
        split; [reflexivity|]. split; [reflexivity|]. split; [reflexivity|].
        split; [lia|]. split; [lia|]. split.
        -- intros x Hx. apply list_elem_of_singleton in Hx as ->. eauto.
        -- intros x Hx. apply Hoth. set_solver.
      * destruct (IH (scan + 1) (l_add ++ [r]) s1 ltac:(lia) Hl1 Hnd Hin1)
          as (taken & rest' & s' & Hsplit & Hrun & Hl & Hle & Heq & Ht & Ho).
        assert (Hsub : taken ⊆ rest).
        { rewrite Hsplit. intros x Hx. apply elem_of_app. left. exact Hx. }
        rewrite (Hagree taken Hsub) in Hrun, Hle, Heq.
        exists (r :: taken), rest', s'.
        rewrite filter_cons, decide_True by (rewrite Hdel; reflexivity).
        cbn [length].
        split; [cbn [app]; rewrite <- Hsplit; reflexivity|].
        split; [rewrite Hrun, <- app_assoc; reflexivity|].
        split; [exact Hl|]. split; [lia|].
        split; [intros Hne; specialize (Heq Hne); lia|]. split.
        -- intros x Hx. apply elem_of_cons in Hx as [->|Hx].
           ++ exists ri. split; [exact Hr|]. rewrite Ho; [exact Hme|].
              intros Hx. apply Hnotin, Hsub, Hx.
           ++ destruct (Ht x Hx) as (rx & Hrx & Hrx').
              exists rx. split; [|exact Hrx'].
              rewrite <- Hoth; [exact Hrx|]. intros ->. apply Hnotin, Hsub, Hx.
        -- intros x Hx. apply not_elem_of_cons in Hx as [Hne Hx].
           rewrite (Ho x Hx). apply Hoth, Hne.
Qed.

(** The second loop of a tick, on a rescan list of allocated items: it
    unlinks a prefix [taken] of the rescan list and clears
    [RESCAN_LIST_FLAG] on each of its items; the items of the prefix that
    are flagged [DELLIST_FLAG] are dropped from every list, the others are
    appended to the working list in order.  At most [scan_npages + 2] items
    are appended, and exactly that many when the loop stops before the end
    of the list.  No item outside the prefix is touched. *)
Theorem ksm_do_scan_rescan_skips_deleted (scan_npages : Z) (l_add : list nat)
    (s : state) :
  0 <= scan_npages ->
  NoDup (pksm_rescan_page_list s) ->
  (forall r, r ∈ pksm_rescan_page_list s -> is_Some (rmaps s !! r)) ->
  exists taken rest s',
    pksm_rescan_page_list s = taken ++ rest /\
    ksm_do_scan_rescan (pksm_rescan_page_list s) 0 scan_npages l_add s
      = Ret (l_add ++ filter (fun r => del_flagged s r = false) taken) s' /\
    pksm_rescan_page_list s' = rest /\
    Z.of_nat (length (filter (fun r => del_flagged s r = false) taken))
      <= scan_npages + 2 /\
    (rest <> [] ->
     Z.of_nat (length (filter (fun r => del_flagged s r = false) taken))
       = scan_npages + 2) /\
    (forall r, r ∈ taken ->
       exists ri, rmaps s !! r = Some ri /\
         rmaps s' !! r
         = Some (with_address (clear_bits (address ri) RESCAN_LIST_FLAG) ri)) /\
    (forall x, x ∉ taken -> rmaps s' !! x = rmaps s !! x).
Proof.
  intros Hn Hnd Hin.
  destruct (ksm_do_scan_rescan_from scan_npages (pksm_rescan_page_list s) 0 l_add s)
    as (taken & rest & s' & H); [lia|reflexivity|exact Hnd|exact Hin|].
  rewrite !Z.sub_0_r in H. exists taken, rest, s'. exact H.
Qed.

Lemma ksm_do_scan_rescan_skips_deleted_witness :
  exists taken rest s',
    pksm_rescan_page_list Machines.flagged_rescan = taken ++ rest /\
    ksm_do_scan_rescan (pksm_rescan_page_list Machines.flagged_rescan) 0 1000 []
      Machines.flagged_rescan
      = Ret [5%nat] s' /\
    pksm_rescan_page_list s' = rest.
Proof.
  destruct (ksm_do_scan_rescan_skips_deleted 1000 [] Machines.flagged_rescan)
    as (taken & rest & s' & Hsplit & Hrun & Hl & _).
  - lia.
  - apply (bool_decide_unpack _). vm_compute. exact I.
  - intros r Hr.
    assert (Hall : Forall (fun r => is_Some (rmaps Machines.flagged_rescan !! r))
                     (pksm_rescan_page_list Machines.flagged_rescan))
      by (apply (bool_decide_unpack _); vm_compute; exact I).
    rewrite Forall_forall in Hall. apply Hall, Hr.
  - assert (Hc : Scenario.value
                   (ksm_do_scan_rescan
                      (pksm_rescan_page_list Machines.flagged_rescan) 0 1000 [])
                   Machines.flagged_rescan = Some [5%nat])
      by (vm_compute; reflexivity).
    unfold Scenario.value in Hc. rewrite Hrun in Hc. injection Hc as Hf.
    exists taken, rest, s'. split; [exact Hsplit|]. split; [|exact Hl].
    rewrite Hrun, Hf. reflexivity.
Defined.

End Phase1.

(** ** The tunables *)

Module Tunables.
Import Mach Model Spec Spec2 Infra Setup.

(** [period_seconds_store] stores every value up to [UINT_MAX], zero
    included, unchanged and returns [count]; it refuses a larger value and
    an unreadable one with [-EINVAL] and leaves the state alone.  When the
    stored period times 1000 is zero as an [unsigned int] (a period of 0,
    or a multiple of 2^29), the next revalidation of the unstable tree
    divides by zero as soon as the unstable tree has at least
    [ksm_thread_pages_to_scan] pages. *)
Theorem period_seconds_store_divide_error :
  (forall secs count s,
     0 <= secs <= UINT_MAX ->
     period_seconds_store (Some secs) count s
       = Ret count (with_pksm_unshared_page_update_period secs s)) /\
  (forall secs count s,
     UINT_MAX < secs ->
     period_seconds_store (Some secs) count s = Ret (- EINVAL) s) /\
  (forall count s, period_seconds_store None count s = Ret (- EINVAL) s) /\
  (forall secs count s,
     0 <= secs <= UINT_MAX ->
     u32 (secs * 1000) = 0 ->
     ksm_thread_pages_to_scan s <= ksm_pages_unshared s ->
     (period_seconds_store (Some secs) count;;
      pksm_update_unstable_page_checksum) s = Oops DivideError).
Proof.
  assert (Hstore : forall secs count s, 0 <= secs <= UINT_MAX ->
            period_seconds_store (Some secs) count s
            = Ret count (with_pksm_unshared_page_update_period secs s)).
  { intros secs count s Hsecs. unfold period_seconds_store.
    destruct (secs >? UINT_MAX) eqn:Hgt; [lia|]. reflexivity. }
  split; [exact Hstore|]. split; [|split].
  - intros secs count s Hsecs. unfold period_seconds_store.
    destruct (secs >? UINT_MAX) eqn:Hgt; [reflexivity|lia].
  - reflexivity.
  - intros secs count s Hsecs Hz Hle.
    unfold bind at 1. rewrite (Hstore secs count s Hsecs).
    unfold pksm_update_unstable_page_checksum, pksm_update_unstable_page_checksum_log,
      pksm_calc_update_pages_num.
    unfold bind, get. cbn [ksm_pages_unshared ksm_thread_pages_to_scan
      pksm_unshared_page_update_period with_pksm_unshared_page_update_period].
    destruct (ksm_pages_unshared s <? ksm_thread_pages_to_scan s) eqn:Hlt; [lia|].
    rewrite Hz. reflexivity.
Qed.

Lemma period_seconds_store_divide_error_witness :
  period_seconds_store (Some 10) 2 Scenario.boot
    = Ret 2 (with_pksm_unshared_page_update_period 10 Scenario.boot) /\
  period_seconds_store (Some (2 ^ 32)) 2 Scenario.boot
    = Ret (- EINVAL) Scenario.boot /\
  (period_seconds_store (Some 0) 2;; pksm_update_unstable_page_checksum)
    (Scenario.exec (pages_to_scan_store (Some 2) 2) Scenario.three_unstable)
  = Oops DivideError.
Proof.
  destruct period_seconds_store_divide_error as (Hstore & Hbig & _ & Hdiv).
  split; [|split].
  - apply (Hstore 10 2 Scenario.boot). vm_compute. split; discriminate.
  - apply (Hbig (2 ^ 32) 2 Scenario.boot). reflexivity.
  - apply (Hdiv 0 2
             (Scenario.exec (pages_to_scan_store (Some 2) 2) Scenario.three_unstable)).
    + vm_compute. split; discriminate.
    + reflexivity.
    + vm_compute. discriminate.
Defined.

End Tunables.

(** ** What a hit of a tree search is *)

Module Hits.
Import Mach Model Spec Spec2 Infra Trees Quiet Descent Retry Total Eviction Acquire.

(** The pass that ended a run of [retry]. *)
Lemma retry_last (pass : M (descent walk_end)) (fuel : nat) : forall s e s',
  retry fuel pass s = Ret e s' -> exists s0, pass s0 = Ret (Stop e) s'.
Proof.
  induction fuel as [|fuel IH]; intros s e s' H; cbn [retry] in H; [discriminate H|].
  apply bind_inv in H as (d & s1 & Hpass & H).
  destruct d as [n|e0].
  - exact (IH _ _ _ H).
  - apply ret_inv in H as [-> ->]. exists s. exact Hpass.
Qed.

Lemma below_hit turn d n tp : below turn d = Stop (Hit n tp) -> d = Stop (Hit n tp).
Proof. destruct d as [|[]]; cbn; congruence. Qed.

Lemma hash_cmp_zero a b :
  (hash_cmp a b <? 0) = false -> (hash_cmp a b >? 0) = false -> a = b.
Proof.
  unfold hash_cmp.
  destruct (a >? b) eqn:Hgt; [intros _ Hc; discriminate Hc|].
  destruct (a <? b) eqn:Hlt; [intros Hc; discriminate Hc|]. lia.
Qed.

Lemma stable_tree_search_walk_hit (me : option nat) (t : rb_tree) :
  forall s n tp s',
    stable_tree_search_walk me t s = Ret (Stop (Hit n tp)) s' ->
    exists m ri tri tpg,
      me = Some m /\ rmaps s' !! m = Some ri /\ rmaps s' !! n = Some tri /\
      checksum ri = checksum tri /\ ri_page tri = Some tp /\
      has (address tri) STABLE_FLAG = true /\
      pages s' !! tp = Some tpg /\ mapping tpg = MappingKsm (Some n) /\
      _count tpg - 1 <> 0.
Proof.
  induction t as [|l IHl x r IHr]; intros s n tp s' H;
    cbn [stable_tree_search_walk] in H.
  - apply ret_inv in H as [H _]. discriminate H.
  - apply bind_inv in H as (tri0 & s1 & Hr & H). apply get_rmap_inv in Hr as [-> Hr].
    destruct (node_is_dead tri0).
    { apply bind_inv in H as ([] & s1 & _ & H). apply ret_inv in H as [H _].
      discriminate H. }
    apply bind_inv in H as (o & s1 & Hg & H).
    destruct o as [tp0|]; [|apply ret_inv in H as [H _]; discriminate H].
    apply bind_inv in H as (m & s2 & Hd & H). apply deref_inv in Hd as [-> ->].
    apply bind_inv in H as (ri & s2 & Hri & H). apply get_rmap_inv in Hri as [-> Hri].
    apply bind_inv in H as (tri & s2 & Htri & H). apply get_rmap_inv in Htri as [-> Htri].
    destruct (hash_cmp (checksum ri) (checksum tri) <? 0) eqn:Hlt.
    { apply bind_inv in H as ([] & s2 & _ & H).
      apply bind_inv in H as (d & s3 & Hw & H). apply ret_inv in H as [Hb <-].
      apply below_hit in Hb as ->. exact (IHl _ _ _ _ Hw). }
    destruct (hash_cmp (checksum ri) (checksum tri) >? 0) eqn:Hgt.
    { apply bind_inv in H as ([] & s2 & _ & H).
      apply bind_inv in H as (d & s3 & Hw & H). apply ret_inv in H as [Hb <-].
      apply below_hit in Hb as ->. exact (IHr _ _ _ _ Hw). }
    apply ret_inv in H as [[= <- <-] <-].
    apply get_ksm_page_inv in Hg
      as (ri1 & pg & Hr1 & Hp1 & Hst & _ & Hpg & _ & Hmap & Hc & Hs1).
    assert (Hrm : rmaps s1 = rmaps s) by (rewrite Hs1; reflexivity).
    rewrite Hrm in Hri, Htri. rewrite Hr1 in Htri. injection Htri as <-.
    exists m, ri, ri1, (with_count (_count pg + 1) pg).
    split; [reflexivity|]. rewrite Hrm.
    split; [exact Hri|]. split; [exact Hr1|].
    split; [exact (hash_cmp_zero _ _ Hlt Hgt)|]. split; [exact Hp1|].
    split; [exact Hst|].
    split; [rewrite Hs1; proj; apply lookup_insert_eq|].
    split; [destruct pg; exact Hmap|]. destruct pg; cbn in *. lia.
Qed.

Lemma unstable_tree_search_insert_walk_hit (me p : nat) (t : rb_tree) :
  forall s n tp s',
    unstable_tree_search_insert_walk me p t s = Ret (Stop (Hit n tp)) s' ->
    exists ri tri tpg,
      rmaps s' !! me = Some ri /\ rmaps s' !! n = Some tri /\
      checksum ri = checksum tri /\ ri_page tri = Some tp /\ tp <> p /\
      pages s' !! tp = Some tpg /\ pksm tpg = Some n.
Proof.
  induction t as [|l IHl x r IHr]; intros s n tp s' H;
    cbn [unstable_tree_search_insert_walk] in H.
  - apply ret_inv in H as [H _]. discriminate H.
  - apply bind_inv in H as (pg & s1 & Hp & H). apply get_page_inv in Hp as [-> Hp].
    apply bind_inv in H as ([] & s1 & Hb & H). apply BUG_ON_inv in Hb as [-> _].
    apply bind_inv in H as (tri0 & s1 & Hr & H). apply get_rmap_inv in Hr as [-> Hr].
    destruct (node_is_dead tri0).
    { apply bind_inv in H as ([] & s1 & _ & H). apply ret_inv in H as [H _].
      discriminate H. }
    apply bind_inv in H as (o & s1 & Hg & H).
    destruct o as [tp0|]; [|apply ret_inv in H as [H _]; discriminate H].
    apply bind_inv in H as (tpg & s2 & Htp & H). apply get_page_inv in Htp as [-> Htp].
    apply bind_inv in H as ([] & s2 & Hb & H). apply BUG_ON_inv in Hb as [-> Hlink].
    apply negb_false_iff, bool_decide_eq_true_1 in Hlink.
    destruct (bool_decide (p = tp0)) eqn:Hsame.
    { apply bind_inv in H as ([] & s2 & _ & H). apply ret_inv in H as [H _].
      discriminate H. }
    apply bool_decide_eq_false_1 in Hsame.
    apply bind_inv in H as (ri & s2 & Hri & H). apply get_rmap_inv in Hri as [-> Hri].
    apply bind_inv in H as (tri & s2 & Htri & H). apply get_rmap_inv in Htri as [-> Htri].
    destruct (hash_cmp (checksum ri) (checksum tri) <? 0) eqn:Hlt.
    { apply bind_inv in H as ([] & s2 & _ & H).
      apply bind_inv in H as (d & s3 & Hw & H). apply ret_inv in H as [Hb <-].
      apply below_hit in Hb as ->. exact (IHl _ _ _ _ Hw). }
    destruct (hash_cmp (checksum ri) (checksum tri) >? 0) eqn:Hgt.
    { apply bind_inv in H as ([] & s2 & _ & H).
      apply bind_inv in H as (d & s3 & Hw & H). apply ret_inv in H as [Hb <-].
      apply below_hit in Hb as ->. exact (IHr _ _ _ _ Hw). }
    apply ret_inv in H as [[= <- <-] <-].
    pose proof (get_mergeable_page_quiet _ _ _ _ Hg) as (Hrm & _).
    apply get_mergeable_page_some in Hg as (ri1 & Hr1 & Hp1 & _).
    rewrite Hrm in Htri. rewrite Hr1 in Htri. injection Htri as <-.
    exists ri, ri1, tpg.
    split; [exact Hri|]. split; [rewrite Hrm; exact Hr1|].
    split; [exact (hash_cmp_zero _ _ Hlt Hgt)|]. split; [exact Hp1|].
    split; [congruence|]. split; [exact Htp|exact Hlink].
Qed.

(** A page returned by [stable_tree_search] is the page of an item [n]
    flagged [STABLE_FLAG] whose checksum equals the checksum of the scanned
    page's item; the page is a KSM page that points at [n], and it is
    returned with a reference taken on top of one that was there.  The
    scanned page is not a KSM page. *)
Theorem stable_tree_search_hit (fuel : nat) (p : nat) (s : state) (tp : nat)
    (s' : state) :
  stable_tree_search fuel p s = Ret (Some tp) s' ->
  exists pg me ri n tri tpg,
    pages s !! p = Some pg /\ PageKsm pg = false /\ pksm pg = Some me /\
    rmaps s' !! me = Some ri /\ rmaps s' !! n = Some tri /\
    checksum ri = checksum tri /\ ri_page tri = Some tp /\
    has (address tri) STABLE_FLAG = true /\
    pages s' !! tp = Some tpg /\ mapping tpg = MappingKsm (Some n) /\
    _count tpg - 1 <> 0.
Proof.
  unfold stable_tree_search, stable_tree_search_end. intros H.
  apply bind_inv in H as (e & s1 & He & H).
  apply bind_inv in He as (pg & s2 & Hp & He). apply get_page_inv in Hp as [-> Hp].
  destruct (PageKsm pg) eqn:Hk.
  { apply ret_inv in He as [<- <-]. apply ret_inv in H as [H _]. discriminate H. }
  apply bind_inv in He as (w & s2 & Hw & He). apply ret_inv in He as [<- <-].
  destruct w as [| n tp0 | |]; try (apply ret_inv in H as [H _]; discriminate H).
  apply ret_inv in H as [[= <-] <-].
  apply retry_last in Hw as (s0 & Hw).
  apply bind_inv in Hw as (s00 & s3 & Hget & Hw). apply get_inv in Hget as [-> ->].
  apply stable_tree_search_walk_hit in Hw
    as (m & ri & tri & tpg & Hme & Hri & Htri & Hsum & Htp & Hst & Hpg & Hmap & Hc).
  exists pg, m, ri, n, tri, tpg. auto 12.
Qed.

Lemma stable_tree_search_hit_witness :
  exists ri tri,
    rmaps (Scenario.exec (stable_tree_search 8 12) Machines.third_copy) !! 3%nat
      = Some ri /\
    rmaps (Scenario.exec (stable_tree_search 8 12) Machines.third_copy) !! 1%nat
      = Some tri /\
    checksum ri = checksum tri /\ ri_page tri = Some 10%nat.
Proof.
  set (s' := Scenario.exec (stable_tree_search 8 12) Machines.third_copy).
  assert (Hrun : stable_tree_search 8 12 Machines.third_copy = Ret (Some 10%nat) s')
    by (vm_compute; reflexivity).
  destruct (stable_tree_search_hit _ _ _ _ _ Hrun)
    as (pg & me & ri & n & tri & tpg & Hp & _ & Hme & Hri & Htri & Hsum & Htp
        & _ & Hpg & Hmap & _).
  vm_compute in Hp. injection Hp as <-. vm_compute in Hme. injection Hme as <-.
  vm_compute in Hpg. injection Hpg as <-. vm_compute in Hmap. injection Hmap as <-.
  exists ri, tri. auto.
Defined.

(** A hit of [unstable_tree_search_insert] is an item [n] whose checksum
    equals the checksum of the scanned item, together with the page of
    [n], which points back at [n] and is not the scanned page. *)
Theorem unstable_tree_search_insert_hit (fuel : nat) (rmap_item p : nat)
    (s : state) (n tp : nat) (s' : state) :
  unstable_tree_search_insert fuel rmap_item p s = Ret (Some (n, tp)) s' ->
  exists ri tri tpg,
    rmaps s' !! rmap_item = Some ri /\ rmaps s' !! n = Some tri /\
    checksum ri = checksum tri /\ ri_page tri = Some tp /\ tp <> p /\
    pages s' !! tp = Some tpg /\ pksm tpg = Some n.
Proof.
  unfold unstable_tree_search_insert, unstable_tree_search_insert_end. intros H.
  apply bind_inv in H as (e & s1 & He & H).
  apply bind_inv in He as (pg & s2 & Hp & He). apply get_page_inv in Hp as [-> Hp].
  apply bind_inv in He as ([] & s2 & Hb & He). apply BUG_ON_inv in Hb as [-> _].
  apply bind_inv in He as (w & s2 & Hw & He).
  destruct w as [| n0 tp0 | |].
  - apply ret_inv in He as [<- <-]. apply ret_inv in H as [H _]. discriminate H.
  - apply ret_inv in He as [<- <-]. apply ret_inv in H as [[= <- <-] <-].
    apply retry_last in Hw as (s0 & Hw).
    apply bind_inv in Hw as (s00 & s3 & Hget & Hw). apply get_inv in Hget as [-> ->].
    exact (unstable_tree_search_insert_walk_hit _ _ _ _ _ _ _ Hw).
  - apply ret_inv in He as [<- <-]. apply ret_inv in H as [H _]. discriminate H.
  - exfalso. clear Hw.
    repeat match type of He with
    | bind _ _ _ = Ret _ _ =>
        let a := fresh "a" in let sx := fresh "sx" in let Hc := fresh "Hc" in
        apply bind_inv in He as (a & sx & Hc & He); clear Hc
    end.
    apply ret_inv in He as [<- _]. apply ret_inv in H as [H _]. discriminate H.
Qed.

Lemma unstable_tree_search_insert_hit_witness :
  exists ri tri,
    rmaps (Scenario.exec (unstable_tree_search_insert 8 2 11) Machines.second_copy)
      !! 2%nat = Some ri /\
    rmaps (Scenario.exec (unstable_tree_search_insert 8 2 11) Machines.second_copy)
      !! 1%nat = Some tri /\
    checksum ri = checksum tri /\ ri_page tri = Some 10%nat.
Proof.
  set (s' := Scenario.exec (unstable_tree_search_insert 8 2 11) Machines.second_copy).
  assert (Hrun : unstable_tree_search_insert 8 2 11 Machines.second_copy
                 = Ret (Some (1%nat, 10%nat)) s')
    by (vm_compute; reflexivity).
  destruct (unstable_tree_search_insert_hit _ _ _ _ _ _ _ Hrun)
    as (ri & tri & tpg & Hri & Htri & Hsum & Htp & _).
  exists ri, tri. auto.
Defined.

(** [stable_tree_insert] returns [0], [PKSM_FAULT_TRY] or
    [PKSM_FAULT_DROP].  When it returns [0] the item is a node of the
    stable tree, linked and flagged [STABLE_FLAG], and [kpage] is a KSM
    page that points at the item.  Whatever it returns, it adds no other
    node to the tree, and a node that left the tree was dead. *)
Theorem stable_tree_insert_links (fuel : nat) (r kpage : nat) (s : state)
    (code : Z) (s' : state) :
  stable_tree_insert fuel r kpage s = Ret code s' ->
  (code = 0 \/ code = PKSM_FAULT_TRY \/ code = PKSM_FAULT_DROP) /\
  (code = 0 ->
   r ∈ rb_nodes (root_stable_tree s') /\
   (exists ri, rmaps s' !! r = Some ri /\
               has (address ri) STABLE_FLAG = true /\ node_linked ri = true) /\
   (exists kg, pages s' !! kpage = Some kg /\ mapping kg = MappingKsm (Some r))) /\
  (forall m, m ∈ rb_nodes (root_stable_tree s') ->
             m = r \/ m ∈ rb_nodes (root_stable_tree s)) /\
  (forall m, m ∈ rb_nodes (root_stable_tree s) ->
             m ∉ rb_nodes (root_stable_tree s') -> dead_in s m).
Proof.
  unfold stable_tree_insert. intros H.
  apply bind_inv in H as ([e c] & s2 & Hend & H). apply ret_inv in H as [<- <-].
  cbn [snd].
  pose proof (stable_tree_insert_end_inv _ _ _ _ _ _ _ Hend) as (s1 & Hrun & Hcase).
  destruct (retry_inv true get_ksm_page (stable_insert_pass r)
              (stable_insert_pass_post r) fuel s e s1 Hrun)
    as (Hleft & Hsub & _ & _ & s0 & _ & Hq & Hpost).
  cbn [tree_of] in Hleft, Hsub, Hpost.
  destruct e as [n | n tp | n | slot].
  - destruct Hcase as [-> ->]. split; [auto|].
    split; [intros Hc; discriminate Hc|]. split; [auto|exact Hleft].
  - destruct Hcase as [-> ->]. split; [auto|].
    split; [intros Hc; discriminate Hc|]. split; [auto|exact Hleft].
  - destruct Hcase as [-> ->]. split; [auto|].
    split; [intros Hc; discriminate Hc|]. split; [auto|exact Hleft].
  - destruct Hcase as [-> Htree]. split; [auto|].
    destruct Hpost as (_ & Hslot & _).
    assert (Ht0 : root_stable_tree s1 = root_stable_tree s0) by apply Hq.
    rewrite <- Ht0 in Hslot.
    split; [intros _|split].
    + split; [rewrite Htree; apply rb_link_node_nodes, Hslot|].
      unfold stable_tree_insert_end, set_page_stable_ksm in Hend.
      rewrite (bind_Ret _ _ _ _ _ Hrun) in Hend. cbv beta iota in Hend.
      minv; mclean. split.
      * eexists. split; [apply lookup_insert_eq|].
        proj. split; [|reflexivity].
        change STABLE_FLAG with (2 ^ 4). apply has_set_same. lia.
      * eexists. split; [proj; apply lookup_insert_eq|]. reflexivity.
    + intros m Hm. rewrite Htree in Hm.
      apply rb_link_node_from in Hm as [->|Hm]; auto.
    + intros m Hm Hm'. apply Hleft; [exact Hm|].
      intros Hin. apply Hm'. rewrite Htree. apply rb_link_node_keeps, Hin.
Qed.

Lemma stable_tree_insert_links_witness :
  2%nat ∈ rb_nodes
            (root_stable_tree
               (Scenario.exec (stable_tree_insert 8 2 11) Machines.second_copy)).
Proof.
  set (s' := Scenario.exec (stable_tree_insert 8 2 11) Machines.second_copy).
  assert (Hrun : stable_tree_insert 8 2 11 Machines.second_copy = Ret 0 s')
    by (vm_compute; reflexivity).
  destruct (stable_tree_insert_links _ _ _ _ _ _ Hrun) as (_ & Hin & _).
  apply (Hin eq_refl).
Defined.

End Hits.

(** ** The host's walk over a merged page *)

Module WalkFacts.
Import Mach Model Spec Spec2 Infra Walk.

Section Callback.
Context {A : Type}.
Variable rmap_one : nat -> nat -> Z -> A -> Z * A.

Lemma visit_app (p : nat) (addr : Z) (vs ws : list nat) : forall arg,
  visit rmap_one p addr (vs ++ ws) SWAP_AGAIN arg
  = let v := visit rmap_one p addr vs SWAP_AGAIN arg in
    if fst v =? SWAP_AGAIN then visit rmap_one p addr ws SWAP_AGAIN (snd v) else v.
Proof.
  induction vs as [|v vs IH]; intros arg; cbn [app visit]; [reflexivity|].
  destruct (rmap_one p v addr arg) as [r a].
  destruct (r =? SWAP_AGAIN) eqn:Hr.
  - apply Z.eqb_eq in Hr as ->. apply IH.
  - cbn [fst]. rewrite Hr. reflexivity.
Qed.

Lemma rmap_walk_ksm_chain_visit (p r : nat) (ri : rmap_item) (s : state) :
  rmaps s !! r = Some ri ->
  forall vs arg,
    rmap_walk_ksm_chain rmap_one p r vs SWAP_AGAIN arg s
    = let v := visit rmap_one p (address ri) vs SWAP_AGAIN arg in
      Ret (negb (fst v =? SWAP_AGAIN), fst v, snd v) s.
Proof.
  intros Hr. induction vs as [|v vs IH]; intros arg;
    cbn [rmap_walk_ksm_chain visit]; [reflexivity|].
  unfold bind, get_rmap. rewrite Hr.
  destruct (rmap_one p v (address ri) arg) as [x a].
  destruct (x =? SWAP_AGAIN) eqn:Hx; cbn [negb].
  - apply Z.eqb_eq in Hx as ->. apply IH.
  - cbn [fst snd]. rewrite Hx. reflexivity.
Qed.

Lemma rmap_walk_ksm_anchors_visit (p r : nat) (ri : rmap_item) (s : state) :
  rmaps s !! r = Some ri ->
  forall anchors vs arg,
    chains s anchors = Some vs ->
    rmap_walk_ksm_anchors rmap_one p r anchors SWAP_AGAIN arg s
    = let v := visit rmap_one p (address ri) vs SWAP_AGAIN arg in
      Ret (negb (fst v =? SWAP_AGAIN), fst v, snd v) s.
Proof.
  intros Hr. induction anchors as [|sa rest IH]; intros vs arg Hc;
    cbn [rmap_walk_ksm_anchors chains] in *.
  - injection Hc as <-. reflexivity.
  - destruct (sna_anon_vma sa) as [av|]; [|discriminate Hc].
    destruct (anon_vmas s !! av) as [a|] eqn:Ha; [|discriminate Hc].
    destruct (chains s rest) as [ws|]; [|discriminate Hc].
    injection Hc as <-.
    unfold bind at 1. cbn [deref]. unfold ret at 1.
    unfold bind at 1. unfold get_anon. rewrite Ha.
    unfold bind at 1. rewrite (rmap_walk_ksm_chain_visit p r ri s Hr).
    cbv zeta. rewrite visit_app. cbv zeta.
    destruct (fst (visit rmap_one p (address ri) (av_head a) SWAP_AGAIN arg)
              =? SWAP_AGAIN) eqn:Hv; cbn [negb].
    + apply Z.eqb_eq in Hv. rewrite Hv. apply (IH ws _ eq_refl).
    + rewrite Hv. reflexivity.
Qed.

End Callback.

(** [rmap_walk_ksm] on a merged page whose item has well-formed anchors:
    it calls [rmap_one] on every vma chained on the anon_vma of every
    anchor, in order, and then on all of them a second time; it stops at
    the first result other than [SWAP_AGAIN] and returns the last result
    with the argument as the calls left it.  The address it hands to
    [rmap_one] is the [address] word of the page's item, which holds the
    item's flags.  The state is not changed. *)
Theorem rmap_walk_ksm_visits_twice {A : Type}
    (rmap_one : nat -> nat -> Z -> A -> Z * A) (p r : nat) (ri : rmap_item)
    (vs : list nat) (arg : A) (s : state) :
  page_stable_rmap_item p s = Ret (Some r) s ->
  rmaps s !! r = Some ri ->
  chains s (hlist ri) = Some vs ->
  rmap_walk_ksm rmap_one p arg s
  = Ret (visit rmap_one p (address ri) (vs ++ vs) SWAP_AGAIN arg) s.
Proof.
  intros Hp Hr Hc. unfold rmap_walk_ksm. cbv zeta.
  unfold bind at 1. rewrite Hp.
  unfold bind at 1. unfold get_rmap at 1. rewrite Hr.
  unfold bind at 1.
  rewrite (rmap_walk_ksm_anchors_visit rmap_one p r ri s Hr _ vs arg Hc).
  cbv zeta. rewrite visit_app. cbv zeta.
  destruct (visit rmap_one p (address ri) vs SWAP_AGAIN arg) as [x a] eqn:Hv.
  cbn [fst snd].
  destruct (x =? SWAP_AGAIN) eqn:Hx; cbn [negb].
  - apply Z.eqb_eq in Hx as ->.
    unfold bind at 1. unfold get_rmap at 1. rewrite Hr.
    unfold bind at 1.
    rewrite (rmap_walk_ksm_anchors_visit rmap_one p r ri s Hr _ vs a Hc).
    cbv zeta. cbn [fst snd]. unfold ret.
    destruct (visit rmap_one p (address ri) vs SWAP_AGAIN a); reflexivity.
  - reflexivity.
Qed.

Lemma rmap_walk_ksm_visits_twice_witness :
  rmap_walk_ksm (fun _ v addr log => (SWAP_AGAIN, log ++ [(v, addr)])) 10 []
    Scenario.merged_ab
  = Ret (SWAP_AGAIN, [(31%nat, 20); (30%nat, 20); (31%nat, 20); (30%nat, 20)])
      Scenario.merged_ab.
Proof.
  assert (Hri : exists ri, rmaps Scenario.merged_ab !! 1%nat = Some ri)
    by (vm_compute; eauto).
  destruct Hri as [ri Hri].
  pose proof Hri as Hri'. vm_compute in Hri'. injection Hri' as Hri'.
  rewrite (rmap_walk_ksm_visits_twice
             (fun _ v addr log => (SWAP_AGAIN, log ++ [(v, addr)]))
             10 1 ri [31; 30]%nat [] Scenario.merged_ab).
  - rewrite <- Hri'. reflexivity.
  - vm_compute. reflexivity.
  - exact Hri.
  - rewrite <- Hri'. vm_compute. reflexivity.
Defined.

End WalkFacts.

(** ** The unshared counter *)

Module Counters.
Import Mach Model Spec Spec2 Infra Trees Quiet Descent Retry Total Eviction Frame.

Lemma filter_ne_length (x : nat) (l : list nat) :
  NoDup l -> x ∈ l -> S (length (filter (fun y => y <> x) l)) = length l.
Proof.
  induction l as [|a l IH]; intros Hnd Hin; [inversion Hin|].
  apply NoDup_cons in Hnd as [Ha Hnd]. rewrite filter_cons.
  destruct (decide (a <> x)) as [Hne|Heq].
  - cbn [length]. f_equal. apply IH; [exact Hnd|].
    apply elem_of_cons in Hin as [->|Hin]; [contradiction|exact Hin].
  - assert (a = x) as -> by (destruct (decide (a = x)); [auto|contradiction]).
    cbn [length]. f_equal. f_equal. apply filter_all.
    apply Forall_forall. intros y Hy ->. contradiction.
Qed.

Lemma rb_erase_size_exact (x : nat) (t : rb_tree) :
  NoDup (rb_nodes t) -> x ∈ rb_nodes t -> S (rb_size (rb_erase x t)) = rb_size t.
Proof.
  intros Hnd Hin. rewrite !rb_size_nodes, rb_erase_nodes by exact Hnd.
  apply filter_ne_length; assumption.
Qed.

Lemma rb_link_node_size (x : nat) (slot : list bool) (t : rb_tree) :
  slot_of slot t -> rb_size (rb_link_node x slot t) = S (rb_size t).
Proof.
  revert slot. induction t as [|l IHl z r IHr]; intros slot Hs.
  - destruct slot as [|[] slot]; cbn in *; [reflexivity|contradiction|contradiction].
  - destruct slot as [|[] slot]; cbn in *; [contradiction| |].
    + rewrite (IHr _ Hs). lia.
    + rewrite (IHl _ Hs). lia.
Qed.

(** The counter through [remove_rmap_item_from_tree]. *)
Lemma remove_rmap_item_from_tree_unshared r ri s u s' :
  rmaps s !! r = Some ri ->
  remove_rmap_item_from_tree (Some r) false s = Ret u s' ->
  ksm_pages_unshared s' =
    if leaves_unstable ri then u64 (ksm_pages_unshared s - 1)
    else ksm_pages_unshared s.
Proof.
  intros Hr H. unfold remove_rmap_item_from_tree in H.
  apply bind_inv in H as (ri0 & s0 & H0 & H).
  apply get_rmap_inv in H0 as [-> H0]. rewrite Hr in H0. injection H0 as <-.
  unfold leaves_unstable.
  destruct (has (address ri) STABLE_FLAG), (has (address ri) UNSTABLE_FLAG),
    (node_linked ri); cbn [negb andb] in *;
    repeat match type of H with
    | context [if has (address ?x) CHECKSUM_LIST_FLAG then _ else _] =>
        fail 1
    | _ => minv; mclean
    end;
    try (proj; reflexivity).
  all: minv; mclean;
    repeat match goal with
    | H : context [if ?b then _ else _] |- _ => destruct b
    end; minv; mclean; proj; reflexivity.
Qed.

Lemma get_mergeable_page_unshared r :
  keeps_rel (same_on ksm_pages_unshared) (get_mergeable_page r).
Proof. field. Qed.

Lemma put_page_unshared p : keeps_rel (same_on ksm_pages_unshared) (put_page p).
Proof. field. Qed.

Lemma counter_after_below s turn d : counter_after s (below turn d) = counter_after s d.
Proof. destruct d as [|[]]; reflexivity. Qed.

Lemma counter_after_same s s' d :
  rmaps s' = rmaps s -> ksm_pages_unshared s' = ksm_pages_unshared s ->
  counter_after s' d = counter_after s d.
Proof. intros Hr Hc. destruct d; cbn; rewrite ?Hr, ?Hc; reflexivity. Qed.

(** The counter through one pass of the unstable descent. *)
Lemma unstable_tree_search_insert_walk_unshared (r p : nat) (t : rb_tree) :
  forall s d s',
    unstable_tree_search_insert_walk r p t s = Ret d s' ->
    ksm_pages_unshared s' = counter_after s d.
Proof.
  induction t as [|l IHl x rt IHr]; intros s d s' H;
    cbn [unstable_tree_search_insert_walk] in H.
  - apply ret_inv in H as [<- <-]. reflexivity.
  - apply bind_inv in H as (pg & s1 & Hp & H). apply get_page_inv in Hp as [-> Hp].
    apply bind_inv in H as ([] & s1 & Hb & H). apply BUG_ON_inv in Hb as [-> _].
    apply bind_inv in H as (tri0 & s1 & Hr & H). apply get_rmap_inv in Hr as [-> Hr].
    destruct (node_is_dead tri0).
    { apply bind_inv in H as ([] & s1 & Hrm & H). apply ret_inv in H as [<- <-].
      cbn [counter_after]. rewrite Hr.
      exact (remove_rmap_item_from_tree_unshared _ _ _ _ _ Hr Hrm). }
    apply bind_inv in H as (o & s1 & Hg & H).
    pose proof (get_mergeable_page_quiet _ _ _ _ Hg) as Hq1.
    pose proof (get_mergeable_page_unshared _ _ _ _ Hg) as Hc1.
    unfold same_on in Hc1.
    destruct o as [tp|]; [|apply ret_inv in H as [<- <-]; exact Hc1].
    apply bind_inv in H as (tpg & s2 & Htp & H). apply get_page_inv in Htp as [-> Htp].
    apply bind_inv in H as ([] & s2 & Hb & H). apply BUG_ON_inv in Hb as [-> _].
    assert (Hput : forall u s2, put_page tp s1 = Ret u s2 ->
              rmaps s2 = rmaps s /\ ksm_pages_unshared s2 = ksm_pages_unshared s).
    { intros u s2 Hput. split.
      - rewrite (quiet_rmaps _ _ (put_page_quiet _ _ _ _ Hput)).
        exact (quiet_rmaps _ _ Hq1).
      - rewrite (put_page_unshared _ _ _ _ Hput). exact Hc1. }
    destruct (bool_decide (p = tp)).
    { apply bind_inv in H as ([] & s2 & Hpp & H). apply ret_inv in H as [<- <-].
      apply (Hput _ _ Hpp). }
    apply bind_inv in H as (ri & s2 & Hri & H). apply get_rmap_inv in Hri as [-> Hri].
    apply bind_inv in H as (tri & s2 & Htri & H). apply get_rmap_inv in Htri as [-> Htri].
    destruct (hash_cmp (checksum ri) (checksum tri) <? 0).
    { apply bind_inv in H as ([] & s2 & Hpp & H).
      apply bind_inv in H as (d0 & s3 & Hw & H). apply ret_inv in H as [<- <-].
      destruct (Hput _ _ Hpp) as [Hrm Hc].
      rewrite counter_after_below, (IHl _ _ _ Hw).
      apply counter_after_same; assumption. }
    destruct (hash_cmp (checksum ri) (checksum tri) >? 0).
    { apply bind_inv in H as ([] & s2 & Hpp & H).
      apply bind_inv in H as (d0 & s3 & Hw & H). apply ret_inv in H as [<- <-].
      destruct (Hput _ _ Hpp) as [Hrm Hc].
      rewrite counter_after_below, (IHr _ _ _ Hw).
      apply counter_after_same; assumption. }
    apply ret_inv in H as [<- <-]. exact Hc1.
Qed.

(** The invariant through the runs of the descent. *)
Lemma retry_unshared (r p : nat) (fuel : nat) : forall s e s1,
  tree_ok false s -> unlinked_item s r -> unshared_counts_tree s ->
  Z.of_nat (rb_size (root_unstable_tree s)) < 2 ^ 64 ->
  retry fuel (unstable_pass r p) s = Ret e s1 ->
  unshared_counts_tree s1 /\
  (rb_size (root_unstable_tree s1) <= rb_size (root_unstable_tree s))%nat.
Proof.
  induction fuel as [|fuel IH]; intros s e s1 Hok Hun Hinv Hsize H;
    cbn [retry] in H; [discriminate H|].
  apply bind_inv in H as (d & s' & Hpass & H).
  pose proof (unstable_pass_post _ _ _ _ _ Hpass) as Hpost.
  assert (Hcount : ksm_pages_unshared s' = counter_after s d).
  { unfold unstable_pass in Hpass.
    apply bind_inv in Hpass as (s0 & s00 & Hget & Hw).
    apply get_inv in Hget as [-> ->].
    exact (unstable_tree_search_insert_walk_unshared _ _ _ _ _ _ Hw). }
  destruct d as [n|e0].
  - apply walk_post_evicted in Hpost as (Hn & Hev).
    destruct (evicted_tree_ok false s n s' Hok Hn Hev) as (Hok' & _ & _).
    pose proof (evicted_unlinked false s n s' r Hok Hn Hev Hun) as Hun'.
    pose proof Hok as (Hnd & Hnodes).
    destruct (Hnodes n Hn) as (ri & Hri & Hl & _).
    destruct Hev as (ri0 & ri' & Hr0 & _ & _ & _ & _ & _ & _ & Ht & _).
    rewrite Hri in Hr0. injection Hr0 as <-.
    specialize (Ht false). cbn [tree_of leaves] in *. rewrite Hl in Ht.
    pose proof (rb_erase_size_exact n _ Hnd Hn) as Hs.
    cbn [counter_after] in Hcount. rewrite Hri, Hl in Hcount.
    assert (Hinv' : unshared_counts_tree s').
    { unfold unshared_counts_tree in *. rewrite Hcount, Hinv, Ht.
      unfold u64. rewrite Z.mod_small; lia. }
    destruct (IH s' e s1 Hok' Hun' Hinv') as (Hfin & Hle); [rewrite Ht; lia|exact H|].
    split; [exact Hfin|]. rewrite Ht in Hle. lia.
  - apply ret_inv in H as [<- <-]. destruct Hpost as (Hq & _).
    assert (Ht : root_unstable_tree s' = root_unstable_tree s) by apply Hq.
    cbn [counter_after] in Hcount. unfold unshared_counts_tree in *.
    rewrite Hcount, Ht. split; [exact Hinv|lia].
Qed.

(** [unstable_tree_search_insert] keeps the unshared counter equal to the
    number of nodes of the unstable tree, whatever it returns: each node it
    evicts takes one off the counter and the item it links adds one.  The
    tree is in good order, the scanned item is in neither tree, and the
    counter has room for one more. *)
Theorem unstable_tree_search_insert_counts (fuel : nat) (r p : nat) (s : state)
    (out : option (nat * nat)) (s' : state) :
  tree_ok false s -> unlinked_item s r -> unshared_counts_tree s ->
  Z.of_nat (rb_size (root_unstable_tree s)) < 2 ^ 64 - 1 ->
  unstable_tree_search_insert fuel r p s = Ret out s' ->
  unshared_counts_tree s'.
Proof.
  intros Hok Hun Hinv Hsize H. unfold unstable_tree_search_insert in H.
  apply bind_inv in H as (e & s2 & Hend & H).
  assert (Hs2 : s2 = s') by (destruct e; apply ret_inv in H as [_ Hs]; exact Hs).
  subst s2. clear H.
  apply unstable_tree_search_insert_end_inv in Hend as (s1 & Hrun & He).
  destruct (retry_unshared r p fuel s e s1 Hok Hun Hinv ltac:(lia) Hrun)
    as (Hinv1 & Hle).
  destruct e as [n | n tp | n | slot]; try (subst s'; exact Hinv1).
  destruct He as (ri & _ & Ht & _ & _ & Hc).
  destruct (retry_inv false _ _ (unstable_pass_post r p) fuel _ _ _ Hrun)
    as (_ & _ & _ & _ & s0 & _ & Hq & Hw).
  destruct Hw as (_ & Hslot & _).
  assert (Hts : root_unstable_tree s1 = root_unstable_tree s0) by apply Hq.
  cbn [tree_of] in Hslot. rewrite <- Hts in Hslot.
  unfold unshared_counts_tree in *.
  rewrite Hc, Ht, Hinv1, (rb_link_node_size _ _ _ Hslot).
  unfold u64. rewrite Z.mod_small; lia.
Qed.

Lemma unstable_tree_search_insert_counts_witness :
  ksm_pages_unshared
    (Scenario.exec (unstable_tree_search_insert 8 3 12) Machines.fresh_page) = 2 /\
  rb_size (root_unstable_tree
             (Scenario.exec (unstable_tree_search_insert 8 3 12) Machines.fresh_page))
  = 2%nat.
Proof.
  set (s' := Scenario.exec (unstable_tree_search_insert 8 3 12) Machines.fresh_page).
  assert (Hrun : unstable_tree_search_insert 8 3 12 Machines.fresh_page = Ret None s')
    by (vm_compute; reflexivity).
  assert (Hsize : rb_size (root_unstable_tree s') = 2%nat)
    by (vm_compute; reflexivity).
  split; [|exact Hsize].
  rewrite (unstable_tree_search_insert_counts 8 3 12 Machines.fresh_page None s').
  - rewrite Hsize. reflexivity.
  - split.
    + apply (bool_decide_unpack _). vm_compute. exact I.
    + intros n Hn.
      assert (Hn1 : n = 1%nat).
      { assert (Ht : rb_nodes (tree_of false Machines.fresh_page) = [1%nat])
          by (vm_compute; reflexivity).
        rewrite Ht in Hn. apply list_elem_of_singleton in Hn. exact Hn. }
      subst n.
      assert (Hri : exists ri, rmaps Machines.fresh_page !! 1%nat = Some ri /\
                               leaves false ri = true /\ ri_page ri = Some 10%nat)
        by (vm_compute; eauto).
      destruct Hri as (ri & Hri & Hl & Hpg).
      exists ri. split; [exact Hri|]. split; [exact Hl|].
      intros q Hq. rewrite Hpg in Hq. injection Hq as <-.
      vm_compute. eauto.
  - vm_compute. eauto.
  - vm_compute. reflexivity.
  - vm_compute. reflexivity.
  - exact Hrun.
Defined.

End Counters.

(** ** A page the tick finds busy *)

Module Busy.
Import Mach Model Spec Spec2 Infra RoundTrip.

Lemma set_clear_same (a m : Z) : set_bits (clear_bits a m) m = set_bits a m.
Proof.
  unfold set_bits, clear_bits. apply Z.bits_inj'. intros n Hn.
  rewrite !Z.lor_spec, Z.ldiff_spec.
  destruct (Z.testbit a n), (Z.testbit m n); reflexivity.
Qed.

(** The tick from the validity test on, for an item whose page is busy. *)
Lemma busy_page_tail (fuel : nat) (b : bool) (r : nat) (ri : rmap_item) (p : nat)
    (pg : page) (s : state) :
  rmaps s !! r = Some ri -> ri_page ri = Some p ->
  has (address ri) INKSM_FLAG = true ->
  pages s !! p = Some pg -> PagePKSM pg = true -> PageAnon pg = true ->
  _count pg <> 0 ->
  PageLocked pg || check_page_dio (with_count (_count pg + 1) pg) = true ->
  (let* valid := check_valid_rmap_item (Some r) in
   if negb valid then ret tt
   else
     let* p := deref (Some p) in
     let* pg := get_page p in
     if negb (PageAnon pg) then ret tt
     else
       let* got := get_page_unless_zero p in
       if negb got then ret tt
       else
         let* pg := get_page p in
         if PageLocked pg then requeue_rescan r;; put_page p
         else if check_page_dio pg then requeue_rescan r;; put_page p
         else
           let* code := cmp_and_merge_page fuel p r b in
           if (code =? PKSM_FAULT_SUCCESS) || (code =? PKSM_FAULT_KEEP) then
             put_page p
           else if code =? PKSM_FAULT_DROP then
             pksm_drop_rmap_item r;; put_page p
           else requeue_rescan r;; put_page p) s
  = Ret tt
      (with_pksm_rescan_page_list (pksm_rescan_page_list s ++ [r])
         (with_rmaps
            (<[r := with_address
                      (set_bits (set_bits (address ri) INITCHECKSUM_FLAG)
                         RESCAN_LIST_FLAG) ri]> (rmaps s)) s)).
Proof.
  intros Hr Hpage Hin Hp Hk Hanon Hc Hbusy.
  assert (Hc' : (_count pg =? 0) = false) by (apply Z.eqb_neq, Hc).
  unfold check_valid_rmap_item, get_page_unless_zero.
  unfold bind at 1. unfold bind at 1. unfold get_rmap at 1. rewrite Hr, Hpage.
  unfold bind at 1. unfold get_page at 1. rewrite Hp, Hk, Hin. cbn [negb orb].
  unfold ret at 1. cbn [negb].
  unfold bind at 1. cbn [deref]. unfold ret at 1.
  unfold bind at 1. unfold get_page at 1. rewrite Hp, Hanon. cbn [negb].
  unfold bind at 1. unfold bind at 1. unfold get_page at 1. rewrite Hp, Hc'.
  unfold bind at 1. unfold upd_page at 1. unfold bind at 1. unfold get_page at 1.
  rewrite Hp. unfold modify at 1. unfold ret at 1. cbn [negb].
  unfold bind at 1. unfold get_page at 1. proj. rewrite lookup_insert_eq.
  assert (Hgo : forall s0,
            (if PageLocked (with_count (_count pg + 1) pg)
             then requeue_rescan r;; put_page p
             else if check_page_dio (with_count (_count pg + 1) pg)
                  then requeue_rescan r;; put_page p
                  else
                    let* code := cmp_and_merge_page fuel p r b in
                    if (code =? PKSM_FAULT_SUCCESS) || (code =? PKSM_FAULT_KEEP)
                    then put_page p
                    else if code =? PKSM_FAULT_DROP
                         then pksm_drop_rmap_item r;; put_page p
                         else requeue_rescan r;; put_page p) s0
            = (requeue_rescan r;; put_page p) s0).
  { intros s0.
    assert (Hl : PageLocked (with_count (_count pg + 1) pg) = PageLocked pg)
      by (destruct pg; reflexivity).
    rewrite Hl. destruct (PageLocked pg); [reflexivity|].
    cbn [orb] in Hbusy. rewrite Hbusy. reflexivity. }
  rewrite Hgo.
  unfold requeue_rescan, put_page.
  unfold bind, upd_rmap, upd_page, get_rmap, get_page, modify, ret.
  repeat (progress (unfold bind; cbn beta iota; proj;
                    rewrite ?lookup_insert_eq, ?Hr)).
  f_equal. apply state_ext; proj; try reflexivity.
  - rewrite insert_insert_eq. apply insert_id. rewrite Hp. f_equal.
    destruct pg. unfold with_count. proj. f_equal. lia.
  - rewrite insert_insert_eq. reflexivity.
Qed.

(** A tick that comes to an item whose page is locked, or on which some
    other reference is held, does not examine the page: it puts the item
    at the tail of the rescan list with [INITCHECKSUM_FLAG] and
    [RESCAN_LIST_FLAG] set, and gives back the reference it took.  Nothing
    else changes. *)
Theorem ksm_do_scan_one_busy_page (fuel : nat) (r : nat) (ri : rmap_item)
    (p : nat) (pg : page) (s : state) :
  rmaps s !! r = Some ri -> ri_page ri = Some p ->
  has (address ri) DELLIST_FLAG = false ->
  has (address ri) INKSM_FLAG = true ->
  pages s !! p = Some pg -> PagePKSM pg = true -> PageAnon pg = true ->
  _count pg <> 0 ->
  PageLocked pg || check_page_dio (with_count (_count pg + 1) pg) = true ->
  ksm_do_scan_one fuel r s
  = Ret tt
      (with_pksm_rescan_page_list (pksm_rescan_page_list s ++ [r])
         (with_rmaps
            (<[r := with_address
                      (set_bits (set_bits (address ri) INITCHECKSUM_FLAG)
                         RESCAN_LIST_FLAG) ri]> (rmaps s)) s)).
Proof.
  intros Hr Hpage Hdel Hin Hp Hk Hanon Hc Hbusy.
  unfold ksm_do_scan_one.
  unfold bind at 1. unfold get_rmap at 1. rewrite Hr, Hdel, Hpage.
  destruct (has (address ri) INITCHECKSUM_FLAG) eqn:Hinit.
  - unfold bind at 1. unfold bind at 1. unfold upd_rmap at 1.
    unfold bind at 1. unfold get_rmap at 1. rewrite Hr.
    unfold modify at 1. unfold ret at 1.
    set (ri1 := with_address (clear_bits (address ri) INITCHECKSUM_FLAG) ri).
    set (s1 := with_rmaps (<[r := ri1]> (rmaps s)) s).
    rewrite (busy_page_tail fuel true r ri1 p pg s1).
    + f_equal. apply state_ext; unfold s1, ri1; proj; try reflexivity.
      rewrite insert_insert_eq, set_clear_same. reflexivity.
    + unfold s1. proj. apply lookup_insert_eq.
    + exact Hpage.
    + unfold ri1. proj. change INITCHECKSUM_FLAG with (2 ^ 6).
      change INKSM_FLAG with (2 ^ 2). rewrite has_clear_other by lia. exact Hin.
    + exact Hp.
    + exact Hk.
    + exact Hanon.
    + exact Hc.
    + exact Hbusy.
  - unfold bind at 1. unfold ret at 1.
    apply (busy_page_tail fuel false r ri p pg s); assumption.
Qed.

Lemma ksm_do_scan_one_busy_page_witness :
  pksm_rescan_page_list
    (Scenario.exec (ksm_do_scan_one 8 3)
       (Scenario.exec (ksm_do_scan_intake 1000)
          (Machines.host_lock 12 Scenario.announced_three)))
  = [3%nat].
Proof.
  set (s := Scenario.exec (ksm_do_scan_intake 1000)
              (Machines.host_lock 12 Scenario.announced_three)).
  assert (Hri : exists ri, rmaps s !! 3%nat = Some ri /\ ri_page ri = Some 12%nat /\
                           has (address ri) DELLIST_FLAG = false /\
                           has (address ri) INKSM_FLAG = true)
    by (vm_compute; eauto 10).
  destruct Hri as (ri & Hri & Hpage & Hdel & Hin).
  assert (Hpg : exists pg, pages s !! 12%nat = Some pg /\ PagePKSM pg = true /\
                           PageAnon pg = true /\ _count pg <> 0 /\
                           PageLocked pg = true).
  { vm_compute. eexists. split; [reflexivity|]. repeat split. discriminate. }
  destruct Hpg as (pg & Hpg & Hk & Hanon & Hc & Hlock).
  unfold Scenario.exec at 1.
  rewrite (ksm_do_scan_one_busy_page 8 3 ri 12 pg s Hri Hpage Hdel Hin Hpg Hk Hanon Hc).
  - reflexivity.
  - rewrite Hlock. reflexivity.
Defined.

End Busy.
